(** * 3ct: the 3DO LZSS codec (compress.cpp, decompress.cpp, lzss.h)

    A shallow embedding of the encoder and decoder of the 3DO compression
    tool, and the properties of its specification checked against it.

    Conventions.
    - [uint32_t] and [int32_t] values are integers of [Z]; every place where
      the C arithmetic can wrap carries its reduction [u32] explicitly.
    - The arrays [ch_Window], [dh_Window] and [ch_Tree] are finite maps read
      with a default: a cell that was never written reads as zero, which is
      what [memset(..., 0, ...)] and [calloc] leave behind.  Memory that the
      code does not initialise is an argument of the model (the work buffer).
    - A sink callback (the [CompFunc] called with [userData] and a word) is
      modelled by the list of the
      words it has received, newest last.
    - [while(true)] loops take fuel; running out of fuel ([None]) stands for
      a loop that does not terminate. *)

From stdpp Require Import gmap list.
From Stdlib Require Import ZArith Lia Bool Sorted.

Local Open Scope Z_scope.

(** ** lzss.h *)

Definition INDEX_BIT_COUNT : Z := 12.
Definition LENGTH_BIT_COUNT : Z := 4.
Definition WINDOW_SIZE : Z := Z.shiftl 1 INDEX_BIT_COUNT.
Definition BREAK_EVEN : Z := 2.
Definition END_OF_STREAM : Z := 0.
Definition MOD_WINDOW (a : Z) : Z := Z.land a (WINDOW_SIZE - 1).
Definition LOOK_AHEAD_SIZE : Z := Z.shiftl 1 LENGTH_BIT_COUNT + BREAK_EVEN.
Definition TREE_ROOT : Z := WINDOW_SIZE.
Definition UNUSED : Z := 0.

(** ** Machine integers *)

Definition u32 (x : Z) : Z := x mod 2 ^ 32.

(** [x << n] and [x >> n] on [uint32_t]. *)
Definition shl32 (x n : Z) : Z := u32 (Z.shiftl x n).
Definition shr32 (x n : Z) : Z := Z.shiftr x n.

(** [(1 << numBits) - 1] *)
Definition mask (numBits : Z) : Z := Z.shiftl 1 numBits - 1.

(** Modelled from the spec: byteswap.hpp is not among the sources.  The
    specification says that each word is byte-swapped if and only if the
    host is little-endian, so that the wire order is always big-endian. *)
Definition bswap32 (w : Z) : Z :=
  Z.lor (Z.shiftl (Z.land w 255) 24)
    (Z.lor (Z.shiftl (Z.land (Z.shiftr w 8) 255) 16)
       (Z.lor (Z.shiftl (Z.land (Z.shiftr w 16) 255) 8)
          (Z.land (Z.shiftr w 24) 255))).

Definition byteswap_if_little_endian (host_le : bool) (w : Z) : Z :=
  if host_le then bswap32 w else w.

(** The bytes of a [uint32_t] as they lie in the memory of the host. *)
Definition word_bytes (host_le : bool) (w : Z) : list Z :=
  let b0 := Z.land (Z.shiftr w 24) 255 in
  let b1 := Z.land (Z.shiftr w 16) 255 in
  let b2 := Z.land (Z.shiftr w 8) 255 in
  let b3 := Z.land w 255 in
  if host_le then [b3; b2; b1; b0] else [b0; b1; b2; b3].

Definition words_bytes (host_le : bool) (ws : list Z) : list Z :=
  concat (map (word_bytes host_le) ws).

(** Modelled from the spec: errors.hpp is not among the sources; the
    specification lists the error kinds of the codec.  [COMP_OK] is the
    return value 0. *)
Inductive comp_result : Type :=
| COMP_OK
| COMP_ERR_BADPTR
| COMP_ERR_NOMEM
| COMP_ERR_OVERFLOW
| COMP_ERR_DATAREMAINS
| COMP_ERR_DATAMISSING.

(** ** Arrays *)

(** [window[i]] *)
Definition rd (window : gmap Z Z) (i : Z) : Z := default 0 (window !! i).

(** * compress.cpp *)

Module Compress.

(** ** The tree of phrases *)

Record CompNode : Type := mkCompNode {
  cn_Parent : Z;
  cn_LeftChild : Z;
  cn_RightChild : Z
}.

Definition zero_node : CompNode := mkCompNode 0 0 0.

(** [tree[i]] *)
Definition nd (tree : gmap Z CompNode) (i : Z) : CompNode :=
  default zero_node (tree !! i).

(** [tree[i].cn_Parent = v], and the same for the two children. *)
Definition set_Parent (tree : gmap Z CompNode) (i v : Z) : gmap Z CompNode :=
  <[i := mkCompNode v (cn_LeftChild (nd tree i)) (cn_RightChild (nd tree i))]> tree.
Definition set_LeftChild (tree : gmap Z CompNode) (i v : Z) : gmap Z CompNode :=
  <[i := mkCompNode (cn_Parent (nd tree i)) v (cn_RightChild (nd tree i))]> tree.
Definition set_RightChild (tree : gmap Z CompNode) (i v : Z) : gmap Z CompNode :=
  <[i := mkCompNode (cn_Parent (nd tree i)) (cn_LeftChild (nd tree i)) v]> tree.

(** The [for] loop at the head of the body of [AddString]: compares the
    phrases at [newNode] and [testNode] from offset [i], for at most [n]
    more bytes; returns the final [i] and the last [delta]. *)
Fixpoint compare_phrase (window : gmap Z Z) (newNode testNode i : Z) (n : nat)
  : Z * Z :=
  match n with
  | O => (i, 0)
  | S n' =>
      let delta := rd window (MOD_WINDOW (newNode + i))
                   - rd window (MOD_WINDOW (testNode + i)) in
      if delta =? 0 then compare_phrase window newNode testNode (i + 1) n'
      else (i, delta)
  end.

(** The replacement of [testNode] by [newNode] on a full match. *)
Definition replace_node (tree : gmap Z CompNode) (newNode testNode : Z)
  : gmap Z CompNode :=
  let parentNode := cn_Parent (nd tree testNode) in
  let tree :=
    if cn_LeftChild (nd tree parentNode) =? testNode
    then set_LeftChild tree parentNode newNode
    else set_RightChild tree parentNode newNode in
  let tree := <[newNode := nd tree testNode]> tree in
  let tree := set_Parent tree (cn_LeftChild (nd tree newNode)) newNode in
  let tree := set_Parent tree (cn_RightChild (nd tree newNode)) newNode in
  set_Parent tree testNode UNUSED.

(** The attachment of [newNode] as a leaf below [testNode]. *)
Definition attach_right (tree : gmap Z CompNode) (newNode testNode : Z)
  : gmap Z CompNode :=
  let tree := set_RightChild tree testNode newNode in
  let tree := set_Parent tree newNode testNode in
  let tree := set_LeftChild tree newNode UNUSED in
  set_RightChild tree newNode UNUSED.

Definition attach_left (tree : gmap Z CompNode) (newNode testNode : Z)
  : gmap Z CompNode :=
  let tree := set_LeftChild tree testNode newNode in
  let tree := set_Parent tree newNode testNode in
  let tree := set_LeftChild tree newNode UNUSED in
  set_RightChild tree newNode UNUSED.

(** The [while(true)] loop of [AddString].  The result is the tree, the
    returned [matchLen] and the final [*matchPos]. *)
Fixpoint AddString_loop (fuel : nat) (tree : gmap Z CompNode) (window : gmap Z Z)
    (newNode testNode matchLen matchPos : Z)
  : option (gmap Z CompNode * Z * Z) :=
  match fuel with
  | O => None
  | S fuel' =>
      let '(i, delta) :=
        compare_phrase window newNode testNode 0 (Z.to_nat LOOK_AHEAD_SIZE) in
      let matchLen' := if i >=? matchLen then i else matchLen in
      let matchPos' := if i >=? matchLen then testNode else matchPos in
      if (i >=? matchLen) && (matchLen' >=? LOOK_AHEAD_SIZE) then
        Some (replace_node tree newNode testNode, matchLen', matchPos')
      else if delta >=? 0 then
        if cn_RightChild (nd tree testNode) =? UNUSED then
          Some (attach_right tree newNode testNode, matchLen', matchPos')
        else
          AddString_loop fuel' tree window newNode
            (cn_RightChild (nd tree testNode)) matchLen' matchPos'
      else
        if cn_LeftChild (nd tree testNode) =? UNUSED then
          Some (attach_left tree newNode testNode, matchLen', matchPos')
        else
          AddString_loop fuel' tree window newNode
            (cn_LeftChild (nd tree testNode)) matchLen' matchPos'
  end.

(** A descent visits a node at most once in a well-formed tree, so
    [WINDOW_SIZE + 1] rounds are enough there. *)
Definition tree_fuel : nat := Z.to_nat (WINDOW_SIZE + 1).

Definition AddString (tree : gmap Z CompNode) (window : gmap Z Z)
    (newNode matchPos : Z) : option (gmap Z CompNode * Z * Z) :=
  if newNode =? END_OF_STREAM then Some (tree, 0, matchPos)
  else
    AddString_loop tree_fuel tree window newNode
      (cn_RightChild (nd tree TREE_ROOT)) 0 matchPos.

(** The [do ... while(next != UNUSED)] loop of [DeleteString], entered with
    [next != UNUSED]: the last node of the chain of right children. *)
Fixpoint rightmost (fuel : nat) (tree : gmap Z CompNode) (next : Z) : option Z :=
  match fuel with
  | O => None
  | S fuel' =>
      let newNode := next in
      let next := cn_RightChild (nd tree newNode) in
      if next =? UNUSED then Some newNode else rightmost fuel' tree next
  end.

Definition DeleteString (tree : gmap Z CompNode) (node : Z)
  : option (gmap Z CompNode) :=
  let parent := cn_Parent (nd tree node) in
  if parent =? UNUSED then Some tree
  else
    let relink (tree : gmap Z CompNode) (newNode : Z) :=
      let tree :=
        if cn_LeftChild (nd tree parent) =? node
        then set_LeftChild tree parent newNode
        else set_RightChild tree parent newNode in
      set_Parent tree node UNUSED in
    if cn_LeftChild (nd tree node) =? UNUSED then
      let newNode := cn_RightChild (nd tree node) in
      let tree := set_Parent tree newNode parent in
      Some (relink tree newNode)
    else if cn_RightChild (nd tree node) =? UNUSED then
      let newNode := cn_LeftChild (nd tree node) in
      let tree := set_Parent tree newNode parent in
      Some (relink tree newNode)
    else
      let newNode := cn_LeftChild (nd tree node) in
      let next := cn_RightChild (nd tree newNode) in
      if next =? UNUSED then
        let tree := set_Parent tree newNode parent in
        let tree := set_RightChild tree newNode (cn_RightChild (nd tree node)) in
        let tree := set_Parent tree (cn_RightChild (nd tree newNode)) newNode in
        Some (relink tree newNode)
      else
        match rightmost tree_fuel tree next with
        | None => None
        | Some newNode =>
            let tree := set_RightChild tree (cn_Parent (nd tree newNode)) UNUSED in
            let tree := set_Parent tree newNode (cn_Parent (nd tree node)) in
            let tree := set_LeftChild tree newNode (cn_LeftChild (nd tree node)) in
            let tree := set_RightChild tree newNode (cn_RightChild (nd tree node)) in
            let tree := set_Parent tree (cn_LeftChild (nd tree newNode)) newNode in
            let tree := set_Parent tree (cn_RightChild (nd tree newNode)) newNode in
            Some (relink tree newNode)
        end.

(** ** The bit writer *)

(** [bs_OutputWord] and [bs_UserData] together are the sink; [bs_Out] is the
    list of words the sink has received. *)
Record CompressBitStream : Type := mkCompressBitStream {
  bs_Out : list Z;
  bs_BitsLeft : Z;
  bs_BitBuffer : Z
}.

Definition InitBitStream (out : list Z) : CompressBitStream :=
  mkCompressBitStream out 32 0.

Definition CleanupBitStream (host_le : bool) (bs : CompressBitStream)
  : CompressBitStream :=
  if bs_BitsLeft bs =? 32 then bs
  else
    mkCompressBitStream
      (bs_Out bs ++ [byteswap_if_little_endian host_le (bs_BitBuffer bs)])
      (bs_BitsLeft bs) (bs_BitBuffer bs).

(** One header bit followed by [numBits] bits of [code]. *)
Definition WriteBits (host_le : bool) (bs : CompressBitStream)
    (headBit code numBits : Z) : CompressBitStream :=
  let bitsLeft := u32 (bs_BitsLeft bs - 1) in
  let bitBuffer := Z.lor (bs_BitBuffer bs) (shl32 headBit bitsLeft) in
  if numBits >=? bitsLeft then
    let numBits := u32 (numBits - bitsLeft) in
    let out :=
      bs_Out bs
      ++ [byteswap_if_little_endian host_le
            (Z.lor (shr32 code numBits) bitBuffer)] in
    let bitsLeft := u32 (32 - numBits) in
    mkCompressBitStream out bitsLeft
      (if numBits =? 0 then 0 else shl32 code bitsLeft)
  else
    let bitsLeft := u32 (bitsLeft - numBits) in
    mkCompressBitStream (bs_Out bs) bitsLeft
      (Z.lor bitBuffer (shl32 code bitsLeft)).

(** ** The encoder *)

(** [ch_Cookie] holds whether the cookie is the address of the structure. *)
Record Compressor : Type := mkCompressor {
  ch_Window : gmap Z Z;
  ch_Tree : gmap Z CompNode;
  ch_LookAhead : Z;
  ch_MatchLen : Z;
  ch_MatchPos : Z;
  ch_CurrentPos : Z;
  ch_ReplaceCnt : Z;
  ch_BitStream : CompressBitStream;
  ch_SecondPass : bool;
  ch_AllocatedStructure : bool;
  ch_Cookie : bool
}.

(** [CreateCompressor(comp, cf, workbuf, userdata)].  [cf] is the sink
    ([None] for a null pointer), [workbuf] the caller's buffer with the
    contents it holds ([None] for a null pointer), and [fresh] what [malloc]
    returns: [None] when it fails, else a block with the contents it happens
    to hold.  The result is the return value and [*comp]. *)
Definition CreateCompressor (cf : option (list Z)) (workbuf fresh : option Compressor)
  : comp_result * option Compressor :=
  match cf with
  | None => (COMP_ERR_BADPTR, None)
  | Some out =>
      let init (buffer : Compressor) (allocated : bool) : Compressor :=
        let tree : gmap Z CompNode := ∅ in
        let tree := set_RightChild tree TREE_ROOT 1 in
        let tree := set_Parent tree 1 TREE_ROOT in
        mkCompressor (ch_Window buffer) tree 1 0 0 1 0 (InitBitStream out)
          false allocated true in
      match workbuf with
      | Some buffer => (COMP_OK, Some (init buffer false))
      | None =>
          match fresh with
          | None => (COMP_ERR_NOMEM, None)
          | Some buffer => (COMP_OK, Some (init buffer true))
          end
      end
  end.

(** The local variables of [FeedCompressor] and [FlushCompressor], together
    with the three parts of the structure they reach through pointers. *)
Record frame : Type := mkFrame {
  f_tree : gmap Z CompNode;
  f_window : gmap Z Z;
  f_bs : CompressBitStream;
  f_lookAhead : Z;
  f_currentPos : Z;
  f_replaceCnt : Z;
  f_matchLen : Z;
  f_matchPos : Z
}.

Definition load_frame (comp : Compressor) : frame :=
  mkFrame (ch_Tree comp) (ch_Window comp) (ch_BitStream comp)
    (ch_LookAhead comp) (ch_CurrentPos comp) (ch_ReplaceCnt comp)
    (ch_MatchLen comp) (ch_MatchPos comp).

(** The head of the body of [while(true)]: one literal or one reference. *)
Definition emit_token (host_le : bool) (f : frame) : frame :=
  let matchLen :=
    if f_matchLen f >? f_lookAhead f then f_lookAhead f else f_matchLen f in
  if matchLen <=? BREAK_EVEN then
    mkFrame (f_tree f) (f_window f)
      (WriteBits host_le (f_bs f) 1 (rd (f_window f) (f_currentPos f)) 8)
      (f_lookAhead f) (f_currentPos f) 1 matchLen (f_matchPos f)
  else
    let temp :=
      Z.lor (shl32 (f_matchPos f) LENGTH_BIT_COUNT)
        (u32 (matchLen - (BREAK_EVEN + 1))) in
    mkFrame (f_tree f) (f_window f)
      (WriteBits host_le (f_bs f) 0 temp (INDEX_BIT_COUNT + LENGTH_BIT_COUNT))
      (f_lookAhead f) (f_currentPos f) (u32 matchLen) matchLen (f_matchPos f).

(** [DeleteString(tree, MOD_WINDOW(currentPos + LOOK_AHEAD_SIZE))] after the
    decrement of [while(replaceCnt--)]. *)
Definition delete_ahead (f : frame) : option frame :=
  match DeleteString (f_tree f) (MOD_WINDOW (f_currentPos f + LOOK_AHEAD_SIZE)) with
  | None => None
  | Some tree =>
      Some (mkFrame tree (f_window f) (f_bs f) (f_lookAhead f) (f_currentPos f)
              (u32 (f_replaceCnt f - 1)) (f_matchLen f) (f_matchPos f))
  end.

(** The advance of [currentPos] and the insertion that follows it. *)
Definition advance (f : frame) (window : gmap Z Z) (lookAhead : Z) : option frame :=
  let currentPos := MOD_WINDOW (f_currentPos f + 1) in
  if lookAhead =? 0 then
    Some (mkFrame (f_tree f) window (f_bs f) lookAhead currentPos
            (f_replaceCnt f) (f_matchLen f) (f_matchPos f))
  else
    match AddString (f_tree f) window currentPos (f_matchPos f) with
    | None => None
    | Some (tree, matchLen, matchPos) =>
        Some (mkFrame tree window (f_bs f) lookAhead currentPos
                (f_replaceCnt f) matchLen matchPos)
    end.

(** From the label [newData] of [FeedCompressor] to the end of the body of
    the inner loop; [b] is [*src++]. *)
Definition feed_newData (f : frame) (b : Z) : option frame :=
  advance f
    (<[MOD_WINDOW (f_currentPos f + LOOK_AHEAD_SIZE) := b]> (f_window f))
    (f_lookAhead f).

(** [FeedCompressor] from the test of [while(replaceCnt--)], with [src] the
    [numDataBytes] bytes not yet read.  The result is the frame that is saved
    when the data runs out.  When the test fails the next round of
    [while(true)] starts; a token always sets [replaceCnt] to 1 or to a match
    length above [BREAK_EVEN], and were it to set 0 the source would emit
    tokens for ever. *)
Fixpoint feed_replace (host_le : bool) (f : frame) (src : list Z) {struct src}
  : option frame :=
  let body (f : frame) : option frame :=
    match delete_ahead f with
    | None => None
    | Some f =>
        match src with
        | [] => Some f
        | b :: src' =>
            match feed_newData f b with
            | None => None
            | Some f => feed_replace host_le f src'
            end
        end
    end in
  if f_replaceCnt f =? 0 then
    let f := emit_token host_le f in
    if f_replaceCnt f =? 0 then None else body f
  else body f.

(** The loop that loads the look-ahead buffer:
    [while(lookAhead <= LOOK_AHEAD_SIZE)].  The third component is [None]
    when the data ran out inside the loop, else the bytes left. *)
Fixpoint feed_fill (window : gmap Z Z) (lookAhead : Z) (src : list Z)
  : gmap Z Z * Z * option (list Z) :=
  if lookAhead <=? LOOK_AHEAD_SIZE then
    match src with
    | [] => (window, lookAhead, None)
    | b :: src' => feed_fill (<[lookAhead := b]> window) (lookAhead + 1) src'
    end
  else (window, lookAhead, Some src).

(** The state that is saved when the data runs out in the inner loop. *)
Definition save_frame (comp : Compressor) (f : frame) : Compressor :=
  mkCompressor (f_window f) (f_tree f) (f_lookAhead f) (f_matchLen f)
    (f_matchPos f) (f_currentPos f) (f_replaceCnt f) (f_bs f) true
    (ch_AllocatedStructure comp) (ch_Cookie comp).

(** [FeedCompressor(comp, data, numDataWords)]: [data] is the array of
    [numDataWords] words, read as the bytes it occupies in memory. *)
Definition FeedCompressor (host_le : bool) (comp : Compressor) (data : list Z)
  : option (comp_result * Compressor) :=
  if negb (ch_Cookie comp) then Some (COMP_ERR_BADPTR, comp)
  else
    let numDataWords := Z.of_nat (length data) in
    let numDataBytes := u32 (numDataWords * 4) in
    let src := take (Z.to_nat numDataBytes) (words_bytes host_le data) in
    let f := load_frame comp in
    match src with
    | [] => Some (COMP_OK, comp)
    | b :: src' =>
        if ch_SecondPass comp then
          match feed_newData f b with
          | None => None
          | Some f =>
              match feed_replace host_le f src' with
              | None => None
              | Some f => Some (COMP_OK, save_frame comp f)
              end
          end
        else
          match feed_fill (f_window f) (f_lookAhead f) src with
          | (window, lookAhead, None) =>
              Some (COMP_OK,
                    mkCompressor window (ch_Tree comp) lookAhead
                      (ch_MatchLen comp) (ch_MatchPos comp) (ch_CurrentPos comp)
                      (ch_ReplaceCnt comp) (ch_BitStream comp)
                      (ch_SecondPass comp) (ch_AllocatedStructure comp)
                      (ch_Cookie comp))
          | (window, lookAhead, Some src) =>
              let f :=
                mkFrame (f_tree f) window (f_bs f) (lookAhead - 1)
                  (f_currentPos f) (f_replaceCnt f) (f_matchLen f)
                  (f_matchPos f) in
              match feed_replace host_le (emit_token host_le f) src with
              | None => None
              | Some f => Some (COMP_OK, save_frame comp f)
              end
          end
    end.

(** [FlushCompressor] from the test of [while(replaceCnt--)].  One unit of
    fuel is spent at each test. *)
Fixpoint flush_replace (fuel : nat) (host_le : bool) (f : frame) : option frame :=
  match fuel with
  | O => None
  | S fuel' =>
      if f_replaceCnt f =? 0 then
        if f_lookAhead f >=? 0 then
          flush_replace fuel' host_le (emit_token host_le f)
        else Some f
      else
        match delete_ahead f with
        | None => None
        | Some f =>
            match advance f (f_window f) (f_lookAhead f - 1) with
            | None => None
            | Some f => flush_replace fuel' host_le f
            end
        end
  end.

(** The tests of the inner loop are at most this many: the rounds left of
    the token in progress, and two for each byte of look-ahead. *)
Definition flush_fuel (f : frame) : nat :=
  Z.to_nat (f_replaceCnt f + 2 * Z.max (f_lookAhead f) 0 + 5).

(** [FlushCompressor(comp)]: the frame at the end; only the tree and the bit
    stream of the structure have changed. *)
Definition FlushCompressor (host_le : bool) (comp : Compressor) : option frame :=
  let f := load_frame comp in
  if ch_SecondPass comp then
    match advance f (f_window f) (f_lookAhead f) with
    | None => None
    | Some f => flush_replace (flush_fuel f) host_le f
    end
  else if f_lookAhead f >=? 0 then
    flush_replace (flush_fuel f) host_le (emit_token host_le f)
  else Some f.

(** [DeleteCompressor(comp)]: the return value and the structure as it is
    left (its bit stream holds what the sink received). *)
Definition DeleteCompressor (host_le : bool) (comp : Compressor)
  : option (comp_result * Compressor) :=
  if negb (ch_Cookie comp) then Some (COMP_ERR_BADPTR, comp)
  else
    match FlushCompressor host_le comp with
    | None => None
    | Some f =>
        let bs := WriteBits host_le (f_bs f) 0 END_OF_STREAM INDEX_BIT_COUNT in
        let bs := CleanupBitStream host_le bs in
        Some (COMP_OK,
              mkCompressor (ch_Window comp) (f_tree f) (ch_LookAhead comp)
                (ch_MatchLen comp) (ch_MatchPos comp) (ch_CurrentPos comp)
                (ch_ReplaceCnt comp) bs (ch_SecondPass comp)
                (ch_AllocatedStructure comp) false)
    end.

End Compress.

(** * decompress.cpp *)

Module Decompress.

(** ** The bit reader *)

(** [bs_Data] is the array the pointer of that name walks through. *)
Record DecompressBitStream : Type := mkDecompressBitStream {
  bs_Data : list Z;
  bs_NumDataWords : Z;
  bs_BitsLeft : Z;
  bs_BitBuffer : Z;
  bs_Error : bool
}.

(** [InitBitStream] leaves [bs_Data] and [bs_NumDataWords] as they are. *)
Definition InitBitStream (bs : DecompressBitStream) : DecompressBitStream :=
  mkDecompressBitStream (bs_Data bs) (bs_NumDataWords bs) 0 0 false.

Definition FeedBitStream (bs : DecompressBitStream) (data : list Z)
    (numDataWords : Z) : DecompressBitStream :=
  mkDecompressBitStream data numDataWords (bs_BitsLeft bs) (bs_BitBuffer bs)
    (bs_Error bs).

(** The last two statements of [ReadBits]. *)
Definition take_bits (bs : DecompressBitStream) (result numBits : Z)
  : DecompressBitStream * Z :=
  let bitsLeft := u32 (bs_BitsLeft bs - numBits) in
  (mkDecompressBitStream (bs_Data bs) (bs_NumDataWords bs) bitsLeft
     (bs_BitBuffer bs) (bs_Error bs),
   Z.lor result (Z.land (shr32 (bs_BitBuffer bs) bitsLeft) (mask numBits))).

Definition ReadBits (host_le : bool) (bs : DecompressBitStream) (numBits : Z)
  : DecompressBitStream * Z :=
  if numBits >? bs_BitsLeft bs then
    let result :=
      if bs_BitsLeft bs =? 0 then 0
      else Z.land (shl32 (bs_BitBuffer bs) (numBits - bs_BitsLeft bs))
             (mask numBits) in
    let numBits :=
      if bs_BitsLeft bs =? 0 then numBits else u32 (numBits - bs_BitsLeft bs) in
    if bs_NumDataWords bs =? 0 then
      (mkDecompressBitStream (bs_Data bs) (bs_NumDataWords bs) (bs_BitsLeft bs)
         (bs_BitBuffer bs) true, 0)
    else
      take_bits
        (mkDecompressBitStream (tail (bs_Data bs)) (u32 (bs_NumDataWords bs - 1)) 32
           (byteswap_if_little_endian host_le (hd 0 (bs_Data bs))) (bs_Error bs))
        result numBits
  else take_bits bs 0 numBits.

(** ** The decoder *)

(** [dh_OutputWord] and [dh_UserData] together are the sink; [dh_Out] is the
    list of words the sink has received. *)
Record Decompressor : Type := mkDecompressor {
  dh_Out : list Z;
  dh_WordBuffer : Z;
  dh_BytesLeft : Z;
  dh_Pos : Z;
  dh_Window : gmap Z Z;
  dh_BitStream : DecompressBitStream;
  dh_AllocatedStructure : bool;
  dh_Cookie : bool
}.

(** What [calloc] returns when it succeeds. *)
Definition zero_Decompressor : Decompressor :=
  mkDecompressor [] 0 0 0 ∅ (mkDecompressBitStream [] 0 0 0 false) false false.

(** [CreateDecompressor(decomp, cf, workbuf, userdata)]: [cf] and [workbuf]
    as for the encoder; [fresh] tells whether [calloc] succeeds. *)
Definition CreateDecompressor (cf : option (list Z)) (workbuf : option Decompressor)
    (fresh : bool) : comp_result * option Decompressor :=
  match cf with
  | None => (COMP_ERR_BADPTR, None)
  | Some out =>
      let init (buffer : Decompressor) (allocated : bool) : Decompressor :=
        mkDecompressor out 0 4 1 (dh_Window buffer)
          (InitBitStream (dh_BitStream buffer)) allocated true in
      match workbuf with
      | Some buffer => (COMP_OK, Some (init buffer false))
      | None =>
          if fresh then (COMP_OK, Some (init zero_Decompressor true))
          else (COMP_ERR_NOMEM, None)
      end
  end.

(** The local variables of [internalFeedDecompressor], with the window and
    the sink. *)
Record dframe : Type := mkDframe {
  d_out : list Z;
  d_wordBuffer : Z;
  d_bytesLeft : Z;
  d_window : gmap Z Z;
  d_pos : Z;
  d_bs : DecompressBitStream
}.

(** One decoded byte [c]: into the word buffer, and into the window. *)
Definition put_byte (host_le : bool) (d : dframe) (c : Z) : dframe :=
  let window := <[d_pos d := c mod 256]> (d_window d) in
  let pos := MOD_WINDOW (d_pos d + 1) in
  if d_bytesLeft d =? 0 then
    mkDframe (d_out d ++ [byteswap_if_little_endian host_le (d_wordBuffer d)])
      c 3 window pos (d_bs d)
  else
    mkDframe (d_out d) (Z.lor (shl32 (d_wordBuffer d) 8) c)
      (u32 (d_bytesLeft d - 1)) window pos (d_bs d).

(** [for (i = matchPos; i <= matchLen + matchPos; i++)], with [n] rounds
    left. *)
Fixpoint copy_match (host_le : bool) (d : dframe) (i : Z) (n : nat) : dframe :=
  match n with
  | O => d
  | S n' =>
      copy_match host_le (put_byte host_le d (rd (d_window d) (MOD_WINDOW i)))
        (i + 1) n'
  end.

Definition with_bs (d : dframe) (bs : DecompressBitStream) : dframe :=
  mkDframe (d_out d) (d_wordBuffer d) (d_bytesLeft d) (d_window d) (d_pos d) bs.

(** The body of the token loop; the flag tells whether it left the loop by
    [break]. *)
Definition decode_token (host_le : bool) (d : dframe) : dframe * bool :=
  let '(bs, tag) := ReadBits host_le (d_bs d) 1 in
  if tag =? 0 then
    let '(bs, matchPos) := ReadBits host_le bs INDEX_BIT_COUNT in
    if matchPos =? END_OF_STREAM then (with_bs d bs, true)
    else
      let '(bs, len) := ReadBits host_le bs LENGTH_BIT_COUNT in
      let matchLen := u32 (len + BREAK_EVEN) in
      (copy_match host_le (with_bs d bs) matchPos (Z.to_nat (matchLen + 1)), false)
  else
    let '(bs, c) := ReadBits host_le bs 8 in
    (put_byte host_le (with_bs d bs) c, false).

(** [while (bs->bs_NumDataWords)]. *)
Fixpoint decode_loop (fuel : nat) (host_le : bool) (d : dframe) : option dframe :=
  match fuel with
  | O => None
  | S fuel' =>
      if bs_NumDataWords (d_bs d) =? 0 then Some d
      else
        let '(d, stop) := decode_token host_le d in
        if stop then Some d else decode_loop fuel' host_le d
  end.

(** Each round of the loop reads at least one bit, and starts only when a
    word is left to fetch. *)
Definition decode_fuel (bs : DecompressBitStream) : nat :=
  Z.to_nat (32 * bs_NumDataWords bs + bs_BitsLeft bs + 1).

Definition internalFeedDecompressor (host_le : bool) (decomp : Decompressor)
    (data : list Z) : option (comp_result * Decompressor) :=
  let bs :=
    FeedBitStream (dh_BitStream decomp) data (Z.of_nat (length data)) in
  let d :=
    mkDframe (dh_Out decomp) (dh_WordBuffer decomp) (dh_BytesLeft decomp)
      (dh_Window decomp) (dh_Pos decomp) bs in
  match decode_loop (decode_fuel bs) host_le d with
  | None => None
  | Some d =>
      Some (COMP_OK,
            mkDecompressor (d_out d) (d_wordBuffer d) (d_bytesLeft d) (d_pos d)
              (d_window d) (d_bs d) (dh_AllocatedStructure decomp)
              (dh_Cookie decomp))
  end.

(** [FeedDecompressor(decomp, data, numDataWords)]: [data] is the array of
    [numDataWords] words. *)
Definition FeedDecompressor (host_le : bool) (decomp : Decompressor)
    (data : list Z) : option (comp_result * Decompressor) :=
  if negb (dh_Cookie decomp) then Some (COMP_ERR_BADPTR, decomp)
  else internalFeedDecompressor host_le decomp data.

(** [DeleteDecompressor(decomp)]: the return value and the words the sink
    has received in all. *)
Definition DeleteDecompressor (host_le : bool) (decomp : Decompressor)
  : comp_result * list Z :=
  if negb (dh_Cookie decomp) then (COMP_ERR_BADPTR, dh_Out decomp)
  else
    let out :=
      if dh_BytesLeft decomp =? 0
      then dh_Out decomp
           ++ [byteswap_if_little_endian host_le (dh_WordBuffer decomp)]
      else dh_Out decomp in
    let result := COMP_OK in
    let result :=
      if bs_NumDataWords (dh_BitStream decomp) =? 0 then result
      else COMP_ERR_DATAREMAINS in
    let result :=
      if bs_Error (dh_BitStream decomp) then COMP_ERR_DATAMISSING else result in
    (result, out).

End Decompress.

(** * Definitions for the statements *)

Module CompressSpec.
Import Compress.

(** The tree that [CreateCompressor] builds: all [UNUSED], but for the
    right child of the root, which is 1, and the parent of 1, which is the
    root. *)
Definition initial_node (i : Z) : CompNode :=
  if decide (i = TREE_ROOT) then mkCompNode UNUSED UNUSED 1
  else if decide (i = 1) then mkCompNode TREE_ROOT UNUSED UNUSED
  else mkCompNode UNUSED UNUSED UNUSED.

(** The buffer the structure is built in: the caller's, else the fresh one. *)
Definition buffer_used (workbuf fresh : option Compressor) : option Compressor :=
  match workbuf with Some b => Some b | None => fresh end.

(** The nodes that a descent of [AddString_loop] compares with the new
    phrase, in order, each with the length [i] of the common prefix found
    there.  The control flow is that of the loop. *)
Fixpoint compared_nodes (fuel : nat) (tree : gmap Z CompNode) (window : gmap Z Z)
    (newNode testNode matchLen : Z) : list (Z * Z) :=
  match fuel with
  | O => []
  | S fuel' =>
      let '(i, delta) :=
        compare_phrase window newNode testNode 0 (Z.to_nat LOOK_AHEAD_SIZE) in
      let matchLen' := if i >=? matchLen then i else matchLen in
      (testNode, i) ::
      (if (i >=? matchLen) && (matchLen' >=? LOOK_AHEAD_SIZE) then []
       else if delta >=? 0 then
         if cn_RightChild (nd tree testNode) =? UNUSED then []
         else compared_nodes fuel' tree window newNode
                (cn_RightChild (nd tree testNode)) matchLen'
       else
         if cn_LeftChild (nd tree testNode) =? UNUSED then []
         else compared_nodes fuel' tree window newNode
                (cn_LeftChild (nd tree testNode)) matchLen')
  end.

(** The insert-and-search of the specification, following its words: the
    best match is replaced only when [i > best_len] (step 3), a full match is
    [best_len >= LOOK_AHEAD_SIZE] (step 4), else the descent goes on
    (step 5). *)
Fixpoint insert_and_find_best_loop (fuel : nat) (tree : gmap Z CompNode)
    (window : gmap Z Z) (new_node test best_len match_pos : Z)
  : option (gmap Z CompNode * Z * Z) :=
  match fuel with
  | O => None
  | S fuel' =>
      let '(i, delta) :=
        compare_phrase window new_node test 0 (Z.to_nat LOOK_AHEAD_SIZE) in
      let best_len' := if i >? best_len then i else best_len in
      let match_pos' := if i >? best_len then test else match_pos in
      if best_len' >=? LOOK_AHEAD_SIZE then
        Some (replace_node tree new_node test, best_len', match_pos')
      else if delta >=? 0 then
        if cn_RightChild (nd tree test) =? UNUSED then
          Some (attach_right tree new_node test, best_len', match_pos')
        else
          insert_and_find_best_loop fuel' tree window new_node
            (cn_RightChild (nd tree test)) best_len' match_pos'
      else
        if cn_LeftChild (nd tree test) =? UNUSED then
          Some (attach_left tree new_node test, best_len', match_pos')
        else
          insert_and_find_best_loop fuel' tree window new_node
            (cn_LeftChild (nd tree test)) best_len' match_pos'
  end.

Definition insert_and_find_best (tree : gmap Z CompNode) (window : gmap Z Z)
    (new_node match_pos : Z) : option (gmap Z CompNode * Z * Z) :=
  if new_node =? UNUSED then Some (tree, 0, match_pos)
  else
    insert_and_find_best_loop tree_fuel tree window new_node
      (cn_RightChild (nd tree TREE_ROOT)) 0 match_pos.

(** A tree of two nodes, 1 and below it to the right 100, and a window in
    which the phrases at 1, 100 and 200 start with the same three bytes. *)
Definition tie_tree : gmap Z CompNode :=
  <[TREE_ROOT := mkCompNode 0 0 1]>
    (<[1 := mkCompNode TREE_ROOT 0 100]> (<[100 := mkCompNode 1 0 0]> ∅)).

Definition tie_window : gmap Z Z :=
  list_to_map
    [(1, 5); (2, 5); (3, 5); (4, 1);
     (100, 5); (101, 5); (102, 5); (103, 2);
     (200, 5); (201, 5); (202, 5); (203, 9)].

(** [subtree tree x p l]: the links below [x] form a binary tree, the
    parent link of [x] is [p], and [l] lists the nodes of that tree in
    order (left subtree, node, right subtree). *)
Inductive subtree (tree : gmap Z CompNode) : Z -> Z -> list Z -> Prop :=
| subtree_unused (p : Z) : subtree tree UNUSED p []
| subtree_node (x p : Z) (l r : list Z) :
    x <> UNUSED ->
    cn_Parent (nd tree x) = p ->
    subtree tree (cn_LeftChild (nd tree x)) x l ->
    subtree tree (cn_RightChild (nd tree x)) x r ->
    subtree tree x p (l ++ x :: r).

(** The node that takes the place of [y] when [newNode] replaces
    [testNode]. *)
Definition renamed (newNode testNode y : Z) : Z :=
  if decide (y = testNode) then newNode else y.

(** [tree_nodes tree l]: the tree below the right child of the dummy root
    is well formed and [l] lists its nodes in order.  The left child of the
    root is never used. *)
Definition tree_nodes (tree : gmap Z CompNode) (l : list Z) : Prop :=
  subtree tree (cn_RightChild (nd tree TREE_ROOT)) TREE_ROOT l
  /\ NoDup l
  /\ (TREE_ROOT ∉ l)
  /\ cn_LeftChild (nd tree TREE_ROOT) = UNUSED.

(** The walk in order, as a function. *)
Fixpoint inorder (fuel : nat) (tree : gmap Z CompNode) (x p : Z)
  : option (list Z) :=
  match fuel with
  | O => None
  | S fuel' =>
      if x =? UNUSED then Some []
      else if cn_Parent (nd tree x) =? p then
        match inorder fuel' tree (cn_LeftChild (nd tree x)) x,
              inorder fuel' tree (cn_RightChild (nd tree x)) x with
        | Some l, Some r => Some (l ++ x :: r)
        | _, _ => None
        end
      else None
  end.

(** The phrase at [a] is at most the phrase at [b], byte by byte, with the
    comparison of [AddString]. *)
Definition phrase_le (window : gmap Z Z) (a b : Z) : Prop :=
  snd (compare_phrase window a b 0 (Z.to_nat LOOK_AHEAD_SIZE)) <= 0.

(** The ordering invariant of the tree: the walk in order meets the
    phrases in ascending order. *)
Definition phrases_sorted (window : gmap Z Z) (l : list Z) : Prop :=
  StronglySorted (phrase_le window) l.

(** A tree in which node 50 has two children and its predecessor 40, the
    last node on the chain of right children below its left child 20, has
    itself a left child 30; the phrases start with the bytes 2, 3, 4, 5
    and 8. *)
Definition pred_tree : gmap Z CompNode :=
  list_to_map
    [(TREE_ROOT, mkCompNode 0 0 50);
     (50, mkCompNode TREE_ROOT 20 80);
     (20, mkCompNode 50 0 40);
     (40, mkCompNode 20 30 0);
     (30, mkCompNode 40 0 0);
     (80, mkCompNode 50 0 0)].

Definition pred_window : gmap Z Z :=
  list_to_map [(20, 2); (30, 3); (40, 4); (50, 5); (80, 8)].

(** The tree of a new encoder: position 1 below the dummy root. *)
Definition initial_tree : gmap Z CompNode :=
  set_Parent (set_RightChild ∅ TREE_ROOT 1) 1 TREE_ROOT.

(** The only word of the stream of an empty input, before the byte swap:
    the literal of the byte [b1], the literal of the byte [b2], the
    terminator and one bit of padding. *)
Definition empty_stream_word (b1 b2 : Z) : Z :=
  2 ^ 31 + b1 * 2 ^ 23 + 2 ^ 22 + b2 * 2 ^ 14.

(** [FeedCompressor] on each chunk in turn. *)
Fixpoint feed_chunks (host_le : bool) (comp : Compressor) (chunks : list (list Z))
  : option Compressor :=
  match chunks with
  | [] => Some comp
  | data :: chunks' =>
      match FeedCompressor host_le comp data with
      | Some (_, comp) => feed_chunks host_le comp chunks'
      | None => None
      end
  end.

(** A whole run of the encoder: created in [buffer] with an empty sink, fed
    the chunks in turn, and closed; the result is the words the sink
    received. *)
Definition compress_chunks (host_le : bool) (buffer : Compressor)
    (chunks : list (list Z)) : option (list Z) :=
  match CreateCompressor (Some []) (Some buffer) None with
  | (_, Some comp) =>
      match feed_chunks host_le comp chunks with
      | Some comp =>
          match DeleteCompressor host_le comp with
          | Some (_, comp) => Some (bs_Out (ch_BitStream comp))
          | None => None
          end
      | None => None
      end
  | (_, None) => None
  end.

(** [FeedCompressor] past the test of the cookie, on the [numDataBytes]
    bytes [src] it reads. *)
Definition feed_bytes (host_le : bool) (comp : Compressor) (src : list Z)
  : option Compressor :=
  let f := load_frame comp in
  match src with
  | [] => Some comp
  | b :: src' =>
      if ch_SecondPass comp then
        match feed_newData f b with
        | None => None
        | Some f =>
            match feed_replace host_le f src' with
            | None => None
            | Some f => Some (save_frame comp f)
            end
        end
      else
        match feed_fill (f_window f) (f_lookAhead f) src with
        | (window, lookAhead, None) =>
            Some (mkCompressor window (ch_Tree comp) lookAhead
                    (ch_MatchLen comp) (ch_MatchPos comp) (ch_CurrentPos comp)
                    (ch_ReplaceCnt comp) (ch_BitStream comp)
                    (ch_SecondPass comp) (ch_AllocatedStructure comp)
                    (ch_Cookie comp))
        | (window, lookAhead, Some src) =>
            let f :=
              mkFrame (f_tree f) window (f_bs f) (lookAhead - 1)
                (f_currentPos f) (f_replaceCnt f) (f_matchLen f)
                (f_matchPos f) in
            match feed_replace host_le (emit_token host_le f) src with
            | None => None
            | Some f => Some (save_frame comp f)
            end
        end
  end.

(** An array of 2^30 words: the word 0x41424344, then zeros. *)
Definition wrap_chunk : list Z := 0x41424344 :: repeat 0 (Z.to_nat (2 ^ 30 - 1)).

(** An input of 1034 words (4136 bytes): 19 bytes of zeros and ones, ones up
    to byte 4104, then 32 bytes of zeros and ones.  The ones make every new
    phrase replace the one before it, so that the tree stays small until the
    window wraps. *)
Definition window_wrap_input : list Z :=
  [0x01010101; 0x01000001; 0x00010100; 0x00000001; 0x01000001]
  ++ repeat 0x01010101 1021
  ++ [0x00000000; 0x00000101; 0x00010001; 0x00000000; 0x00000100; 0x01010101;
      0x01000101; 0x01010101].

(** A buffer that holds only zeros. *)
Definition zero_Compressor : Compressor :=
  mkCompressor ∅ ∅ 0 0 0 0 0 (mkCompressBitStream [] 0 0) false false false.

End CompressSpec.

Module DecompressSpec.
Import Decompress.

(** A run of [ReadBits] calls, one for each bit count of the list; the
    values read are returned in order. *)
Fixpoint read_all (host_le : bool) (bs : DecompressBitStream) (counts : list Z)
  : DecompressBitStream * list Z :=
  match counts with
  | [] => (bs, [])
  | n :: counts' =>
      let '(bs, v) := ReadBits host_le bs n in
      let '(bs, vs) := read_all host_le bs counts' in
      (bs, v :: vs)
  end.

(** [decode_loop] with the way it ended: the flag is set when the loop was
    left by [break], on END_OF_STREAM. *)
Fixpoint decode_loop_stop (fuel : nat) (host_le : bool) (d : dframe)
  : option (dframe * bool) :=
  match fuel with
  | O => None
  | S fuel' =>
      if bs_NumDataWords (d_bs d) =? 0 then Some (d, false)
      else
        let '(d, stop) := decode_token host_le d in
        if stop then Some (d, true) else decode_loop_stop fuel' host_le d
  end.

(** Whether the token loop of [FeedDecompressor(decomp, data, ...)] ends on
    END_OF_STREAM. *)
Definition halts_on_end_of_stream (host_le : bool) (decomp : Decompressor)
    (data : list Z) : option bool :=
  let bs :=
    FeedBitStream (dh_BitStream decomp) data (Z.of_nat (length data)) in
  let d :=
    mkDframe (dh_Out decomp) (dh_WordBuffer decomp) (dh_BytesLeft decomp)
      (dh_Window decomp) (dh_Pos decomp) bs in
  snd <$> decode_loop_stop (decode_fuel bs) host_le d.

(** The decoder with other words left unread by the call before. *)
Definition with_unread (decomp : Decompressor) (data : list Z)
    (numDataWords : Z) : Decompressor :=
  let bs := dh_BitStream decomp in
  mkDecompressor (dh_Out decomp) (dh_WordBuffer decomp) (dh_BytesLeft decomp)
    (dh_Pos decomp) (dh_Window decomp)
    (mkDecompressBitStream data numDataWords (bs_BitsLeft bs) (bs_BitBuffer bs)
       (bs_Error bs))
    (dh_AllocatedStructure decomp) (dh_Cookie decomp).

(** The bits not yet read: those of the buffer and those of the words left
    to fetch. *)
Definition bits_unread (bs : DecompressBitStream) : Z :=
  32 * bs_NumDataWords bs + bs_BitsLeft bs.

(** [FeedDecompressor] on each chunk in turn. *)
Fixpoint feed_chunks (host_le : bool) (decomp : Decompressor)
    (chunks : list (list Z)) : option Decompressor :=
  match chunks with
  | [] => Some decomp
  | data :: chunks' =>
      match FeedDecompressor host_le decomp data with
      | Some (_, decomp) => feed_chunks host_le decomp chunks'
      | None => None
      end
  end.

(** A whole run of the decoder: created by [calloc] with an empty sink, fed
    the chunks in turn, and closed. *)
Definition decompress_chunks (host_le : bool) (chunks : list (list Z))
  : option (comp_result * list Z) :=
  match CreateDecompressor (Some []) None true with
  | (_, Some decomp) =>
      match feed_chunks host_le decomp chunks with
      | Some decomp => Some (DeleteDecompressor host_le decomp)
      | None => None
      end
  | (_, None) => None
  end.

(** A new decoder, as [calloc] and [CreateDecompressor] leave it. *)
Definition new_Decompressor : Decompressor :=
  mkDecompressor [] 0 4 1 ∅ (mkDecompressBitStream [] 0 0 0 false) true true.

(** The decoder after a call that read a literal 65, a literal 0 and the
    terminator from the word 0xA0C00000 and left the word 0xDEADBEEF of the
    same call unread. *)
Definition halted_Decompressor : Decompressor :=
  mkDecompressor [] 16640 2 3 {[1 := 65; 2 := 0]}
    (mkDecompressBitStream [0xDEADBEEF] 1 1 0xA0C00000 false) true true.

(** The bit stream is in range: at most 32 bits in the buffer, and the
    count of words left a [uint32_t]. *)
Definition bs_ok (bs : DecompressBitStream) : Prop :=
  0 <= bs_BitsLeft bs <= 32 /\ 0 <= bs_NumDataWords bs < 2 ^ 32.

End DecompressSpec.

(** Replace a closed subterm by its value. *)
Ltac ev e := let v := eval vm_compute in e in change e with v.




(** * The one-call interface: compress.cpp and decompress.cpp *)

Module Simple.

(** [struct Context].  [dest] is the list of the words stored so far in the
    result buffer, from [result_] on, and [max] the number of words the buffer
    holds: the pointer [dest] is [result_ + length dest] and the pointer [max]
    is [result_ + max]. *)
Record Context : Type := mkContext {
  dest : list Z;
  max : Z;
  overflow : bool
}.

Definition PutWord (ctx_ : Context) (word_ : Z) : Context :=
  if Z.of_nat (length (dest ctx_)) >=? max ctx_
  then mkContext (dest ctx_) (max ctx_) true
  else mkContext (dest ctx_ ++ [word_]) (max ctx_) (overflow ctx_).

(** The sink of the one-call functions is [PutWord] on a [Context]: the
    context after the calls for the words [ws], in order. *)
Definition put_words (ctx_ : Context) (ws : list Z) : Context :=
  fold_left PutWord ws ctx_.

(** A value of type [int] as the one-call functions return it: an error
    code, or a count of words. *)
Inductive simple_result : Type :=
| SR_error (err : comp_result)
| SR_words (n : Z).

(** The conversion of an unsigned value to [int]. *)
Definition to_int (x : Z) : Z := (x + 2 ^ 31) mod 2 ^ 32 - 2 ^ 31.

(** The last statements of [SimpleCompress] and of [SimpleDecompress]: [err]
    is what the closing call returned. *)
Definition simple_return (err : comp_result) (ctx : Context) : simple_result :=
  match err with
  | COMP_OK =>
      if overflow ctx then SR_error COMP_ERR_OVERFLOW
      else SR_words (to_int (Z.of_nat (length (dest ctx))))
  | _ => SR_error err
  end.

(** [SimpleCompress(source_, sourceWords_, result_, resultWords_)]: [fresh]
    is what [malloc] returns, [source] the array of [sourceWords_] words.  The
    result is the return value and the words stored in the result buffer. *)
Definition SimpleCompress (host_le : bool) (fresh : option Compress.Compressor)
    (source : list Z) (resultWords : Z) : option (simple_result * list Z) :=
  let ctx := mkContext [] resultWords false in
  match Compress.CreateCompressor (Some []) None fresh with
  | (err, None) => Some (SR_error err, dest ctx)
  | (_, Some comp) =>
      match Compress.FeedCompressor host_le comp source with
      | None => None
      | Some (_, comp) =>
          match Compress.DeleteCompressor host_le comp with
          | None => None
          | Some (err, comp) =>
              let ctx :=
                put_words ctx (Compress.bs_Out (Compress.ch_BitStream comp)) in
              Some (simple_return err ctx, dest ctx)
          end
      end
  end.

(** [SimpleDecompress(source_, sourceWords_, result_, resultWords_)]:
    [fresh] tells whether [calloc] succeeds. *)
Definition SimpleDecompress (host_le : bool) (fresh : bool) (source : list Z)
    (resultWords : Z) : option (simple_result * list Z) :=
  let ctx := mkContext [] resultWords false in
  match Decompress.CreateDecompressor (Some []) None fresh with
  | (err, None) => Some (SR_error err, dest ctx)
  | (_, Some decomp) =>
      match Decompress.FeedDecompressor host_le decomp source with
      | None => None
      | Some (_, decomp) =>
          let '(err, out) := Decompress.DeleteDecompressor host_le decomp in
          let ctx := put_words ctx out in
          Some (simple_return err ctx, dest ctx)
      end
  end.

(** The structure with another value of [ch_AllocatedStructure]. *)
Definition with_allocated (a : bool) (comp : Compress.Compressor)
  : Compress.Compressor :=
  Compress.mkCompressor (Compress.ch_Window comp) (Compress.ch_Tree comp)
    (Compress.ch_LookAhead comp) (Compress.ch_MatchLen comp)
    (Compress.ch_MatchPos comp) (Compress.ch_CurrentPos comp)
    (Compress.ch_ReplaceCnt comp) (Compress.ch_BitStream comp)
    (Compress.ch_SecondPass comp) a (Compress.ch_Cookie comp).

End Simple.

(** * Definitions for the statements about the two bit streams *)

Module BitSpec.

(** The number that a list of 32-bit words spells, first word first. *)
Definition wire_value (ws : list Z) : Z :=
  fold_left (fun acc w => acc * 2 ^ 32 + w) ws 0.

(** The words of the stream as they are on the wire. *)
Definition wire (host_le : bool) (ws : list Z) : list Z :=
  map (byteswap_if_little_endian host_le) ws.

(** The writer: the number of bits written so far, and the number they
    spell, first bit first.  They are the words sent to the sink and the
    bits of the buffer above [bs_BitsLeft]. *)
Definition written_bits (bs : Compress.CompressBitStream) : Z :=
  32 * Z.of_nat (length (Compress.bs_Out bs)) + (32 - Compress.bs_BitsLeft bs).

Definition written_value (host_le : bool) (bs : Compress.CompressBitStream) : Z :=
  wire_value (wire host_le (Compress.bs_Out bs))
  * 2 ^ (32 - Compress.bs_BitsLeft bs)
  + Compress.bs_BitBuffer bs / 2 ^ Compress.bs_BitsLeft bs.

(** The state of a writer between two calls: between 1 and 32 bits are
    free in the buffer, and they are zero; the words sent are 32-bit
    words. *)
Definition writer_ok (bs : Compress.CompressBitStream) : Prop :=
  1 <= Compress.bs_BitsLeft bs <= 32
  /\ 0 <= Compress.bs_BitBuffer bs < 2 ^ 32
  /\ Compress.bs_BitBuffer bs mod 2 ^ Compress.bs_BitsLeft bs = 0
  /\ Forall (fun w => 0 <= w < 2 ^ 32) (Compress.bs_Out bs).

(** A header bit, a code and the width of the code. *)
Definition field_ok (f : Z * Z * Z) : Prop :=
  let '(headBit, code, numBits) := f in
  (headBit = 0 \/ headBit = 1) /\ 0 <= numBits <= 31 /\ 0 <= code < 2 ^ numBits.

(** A run of [WriteBits] calls. *)
Fixpoint write_all (host_le : bool) (bs : Compress.CompressBitStream)
    (fields : list (Z * Z * Z)) : Compress.CompressBitStream :=
  match fields with
  | [] => bs
  | (headBit, code, numBits) :: fields' =>
      write_all host_le (Compress.WriteBits host_le bs headBit code numBits) fields'
  end.

(** The bits of a run of fields: their number, and the number they spell. *)
Fixpoint fields_bits (fields : list (Z * Z * Z)) : Z :=
  match fields with
  | [] => 0
  | (_, _, numBits) :: fields' => 1 + numBits + fields_bits fields'
  end.

Fixpoint fields_value (fields : list (Z * Z * Z)) : Z :=
  match fields with
  | [] => 0
  | (headBit, code, numBits) :: fields' =>
      (headBit * 2 ^ numBits + code) * 2 ^ fields_bits fields'
      + fields_value fields'
  end.

(** The [ReadBits] requests that read a run of fields back, and the values
    they are to return. *)
Definition field_counts (fields : list (Z * Z * Z)) : list Z :=
  flat_map (fun '(_, _, numBits) => [1; numBits]) fields.

Definition field_values (fields : list (Z * Z * Z)) : list Z :=
  flat_map (fun '(headBit, code, _) => [headBit; code]) fields.

(** The reader: the number the bits not yet read spell.  They are the low
    [bs_BitsLeft] bits of the buffer and the words left to fetch. *)
Definition unread_value (host_le : bool) (bs : Decompress.DecompressBitStream) : Z :=
  (Decompress.bs_BitBuffer bs mod 2 ^ Decompress.bs_BitsLeft bs)
  * 2 ^ (32 * Decompress.bs_NumDataWords bs)
  + wire_value (wire host_le (Decompress.bs_Data bs)).

(** The state of a reader between two calls; [bs_NumDataWords] counts the
    words of [bs_Data]. *)
Definition reader_ok (bs : Decompress.DecompressBitStream) : Prop :=
  0 <= Decompress.bs_BitsLeft bs <= 32
  /\ 0 <= Decompress.bs_BitBuffer bs < 2 ^ 32
  /\ Decompress.bs_NumDataWords bs = Z.of_nat (length (Decompress.bs_Data bs))
  /\ Decompress.bs_NumDataWords bs < 2 ^ 32
  /\ Forall (fun w => 0 <= w < 2 ^ 32) (Decompress.bs_Data bs).

End BitSpec.

(** * Definitions for the statements about the size of the stream *)

Module EncoderSpec.
Import Compress.

(** The part of the state of the encoder that the count of the bits written
    depends on: the free bits of the buffer, the bytes the token in progress
    still covers, and the length of the match found last. *)
Definition frame_ok (f : frame) : Prop :=
  1 <= bs_BitsLeft (f_bs f) <= 32
  /\ 0 <= f_replaceCnt f <= LOOK_AHEAD_SIZE
  /\ f_matchLen f <= LOOK_AHEAD_SIZE.

(** The bits written, less nine for each byte the token in progress still
    covers: a token of 9 bits covers one byte and a token of 17 bits at
    least three. *)
Definition credit (f : frame) : Z :=
  BitSpec.written_bits (f_bs f) - 9 * f_replaceCnt f.

(** The state of an encoder that has been fed [n] bytes since it was
    created: either the look-ahead buffer is still being loaded, and nothing
    has been written, or the main loop is running. *)
Definition fed (comp : Compressor) (n : Z) : Prop :=
  frame_ok (load_frame comp)
  /\ ((ch_SecondPass comp = false /\ n < LOOK_AHEAD_SIZE
       /\ ch_LookAhead comp = 1 + n /\ ch_ReplaceCnt comp = 0
       /\ BitSpec.written_bits (ch_BitStream comp) = 0)
      \/ (ch_SecondPass comp = true /\ LOOK_AHEAD_SIZE <= n
          /\ ch_LookAhead comp = LOOK_AHEAD_SIZE
          /\ ch_ReplaceCnt comp <= LOOK_AHEAD_SIZE - 1
          /\ credit (load_frame comp) <= 9 * (n - (LOOK_AHEAD_SIZE - 1)))).

End EncoderSpec.

(** * Definitions for the statements about the decoder *)

Module DecoderSpec.
Import Decompress.

(** The bytes decoded so far: four in each word the sink has received, and
    those in the word buffer. *)
Definition bytes_decoded (out : list Z) (bytesLeft : Z) : Z :=
  4 * Z.of_nat (length out) + (4 - bytesLeft).

(** The decoder between two calls, after [words] words were fed in all:
    seventeen bits at least were read for every eighteen bytes decoded. *)
Definition decoded (decomp : Decompressor) (words : Z) : Prop :=
  dh_Cookie decomp = true
  /\ 0 <= bs_BitsLeft (dh_BitStream decomp) <= 32
  /\ 0 <= dh_BytesLeft decomp <= 4
  /\ 17 * bytes_decoded (dh_Out decomp) (dh_BytesLeft decomp)
     + 18 * bs_BitsLeft (dh_BitStream decomp) <= 576 * words.

End DecoderSpec.

(** * Definitions for the statements about the byte order of the host *)

Module HostSpec.

(** The encoder on the other host: the words the sink has received are
    byte-swapped, everything else is the same. *)
Definition swap_sink (bs : Compress.CompressBitStream)
  : Compress.CompressBitStream :=
  Compress.mkCompressBitStream (map bswap32 (Compress.bs_Out bs))
    (Compress.bs_BitsLeft bs) (Compress.bs_BitBuffer bs).

Definition swap_frame (f : Compress.frame) : Compress.frame :=
  Compress.mkFrame (Compress.f_tree f) (Compress.f_window f)
    (swap_sink (Compress.f_bs f)) (Compress.f_lookAhead f)
    (Compress.f_currentPos f) (Compress.f_replaceCnt f)
    (Compress.f_matchLen f) (Compress.f_matchPos f).

Definition swap_Compressor (comp : Compress.Compressor) : Compress.Compressor :=
  Compress.mkCompressor (Compress.ch_Window comp) (Compress.ch_Tree comp)
    (Compress.ch_LookAhead comp) (Compress.ch_MatchLen comp)
    (Compress.ch_MatchPos comp) (Compress.ch_CurrentPos comp)
    (Compress.ch_ReplaceCnt comp) (swap_sink (Compress.ch_BitStream comp))
    (Compress.ch_SecondPass comp) (Compress.ch_AllocatedStructure comp)
    (Compress.ch_Cookie comp).

(** The decoder on the other host: the words not yet fetched and the words
    the sink has received are byte-swapped. *)
Definition swap_source (bs : Decompress.DecompressBitStream)
  : Decompress.DecompressBitStream :=
  Decompress.mkDecompressBitStream (map bswap32 (Decompress.bs_Data bs))
    (Decompress.bs_NumDataWords bs) (Decompress.bs_BitsLeft bs)
    (Decompress.bs_BitBuffer bs) (Decompress.bs_Error bs).

End HostSpec.

Module HostSpecDecoder.
Import Decompress.

(** [host_frames dl db]: the frame [dl] of the decoder on a little-endian
    host and the frame [db] on a big-endian host hold the same bytes: the
    words to fetch and the words sent to the sink are the byte-swapped ones
    of each other, everything else is the same. *)
Definition host_frames (dl db : dframe) : Prop :=
  d_out dl = map bswap32 (d_out db)
  /\ d_bs db = HostSpec.swap_source (d_bs dl)
  /\ d_wordBuffer dl = d_wordBuffer db
  /\ d_bytesLeft dl = d_bytesLeft db
  /\ d_window dl = d_window db
  /\ d_pos dl = d_pos db.

Definition host_decoders (l b : Decompressor) : Prop :=
  dh_Out l = map bswap32 (dh_Out b)
  /\ bs_BitsLeft (dh_BitStream l) = bs_BitsLeft (dh_BitStream b)
  /\ bs_BitBuffer (dh_BitStream l) = bs_BitBuffer (dh_BitStream b)
  /\ bs_Error (dh_BitStream l) = bs_Error (dh_BitStream b)
  /\ bs_NumDataWords (dh_BitStream l) = bs_NumDataWords (dh_BitStream b)
  /\ dh_WordBuffer l = dh_WordBuffer b
  /\ dh_BytesLeft l = dh_BytesLeft b
  /\ dh_Window l = dh_Window b
  /\ dh_Pos l = dh_Pos b
  /\ dh_Cookie l = dh_Cookie b.

End HostSpecDecoder.

Module StreamSpec.
Import Decompress.

(** The bit stream of a call that was given the words [extra] after those
    it still has to fetch. *)
Definition more_data (bs : DecompressBitStream) (extra : list Z)
  : DecompressBitStream :=
  mkDecompressBitStream (bs_Data bs ++ extra)
    (bs_NumDataWords bs + Z.of_nat (length extra)) (bs_BitsLeft bs)
    (bs_BitBuffer bs) (bs_Error bs).

Definition more (d : dframe) (extra : list Z) : dframe :=
  with_bs d (more_data (d_bs d) extra).

(** [bs_NumDataWords] counts the words [bs_Data] points to. *)
Definition counted (bs : DecompressBitStream) : Prop :=
  bs_NumDataWords bs = Z.of_nat (length (bs_Data bs)).

(** The decoder with the words [extra] left unread after those it has. *)
Definition more_Decompressor (decomp : Decompressor) (extra : list Z)
  : Decompressor :=
  mkDecompressor (dh_Out decomp) (dh_WordBuffer decomp) (dh_BytesLeft decomp)
    (dh_Pos decomp) (dh_Window decomp)
    (more_data (dh_BitStream decomp) extra)
    (dh_AllocatedStructure decomp) (dh_Cookie decomp).

End StreamSpec.

(** ** The command line tool *)

(** [l::compress] and [l::decompress] of the sub-commands.  A file is the
    list of its bytes, and reading and writing never fail:
    [fread(&w,1,sizeof(w),src_)] takes the next four bytes of the file, or
    those that are left, and returns their number; [fwrite] in
    [l::write_word] appends the four bytes of the word to the file. *)
Module Cli.

(** The value of [w] after [w = 0; fread(&w,1,sizeof(w),src_)] has stored
    the bytes [got] from the first byte of [w] on. *)
Definition word_of_bytes (host_le : bool) (got : list Z) : Z :=
  let b (i : nat) := nth i got 0 in
  if host_le
  then b 0%nat + b 1%nat * 2 ^ 8 + b 2%nat * 2 ^ 16 + b 3%nat * 2 ^ 24
  else b 0%nat * 2 ^ 24 + b 1%nat * 2 ^ 16 + b 2%nat * 2 ^ 8 + b 3%nat.

(** What the tool has done when it returns: thrown the exception of a
    failed creation, or written the file [dst]. *)
Inductive outcome : Type :=
| Thrown
| Written (dst : list Z).

(** The loop [while(true)] of [l::compress], with [src] the bytes not yet
    read; the return value of [FeedCompressor] is ignored. *)
Fixpoint compress_loop (fuel : nat) (host_le : bool) (comp : Compress.Compressor)
    (src : list Z) : option Compress.Compressor :=
  match fuel with
  | O => None
  | S fuel' =>
      let got := take 4 src in
      let rv := Z.of_nat (length got) in
      if rv =? 0 then Some comp
      else
        match Compress.FeedCompressor host_le comp [word_of_bytes host_le got] with
        | Some (_, comp) => compress_loop fuel' host_le comp (drop 4 src)
        | None => None
        end
  end.

(** [l::compress(src_, dst_)] on a new file [dst_]; [block] is what
    [malloc] returns in [CreateCompressor]. *)
Definition compress (host_le : bool) (block : option Compress.Compressor)
    (src : list Z) : option outcome :=
  match Compress.CreateCompressor (Some []) None block with
  | (_, None) => Some Thrown
  | (_, Some comp) =>
      match compress_loop (S (length src)) host_le comp src with
      | None => None
      | Some comp =>
          match Compress.DeleteCompressor host_le comp with
          | None => None
          | Some (_, comp) =>
              Some (Written
                      (words_bytes host_le
                         (Compress.bs_Out (Compress.ch_BitStream comp))))
          end
      end
  end.

(** The loop [while(true)] of [l::decompress]. *)
Fixpoint decompress_loop (fuel : nat) (host_le : bool)
    (decomp : Decompress.Decompressor) (src : list Z)
  : option Decompress.Decompressor :=
  match fuel with
  | O => None
  | S fuel' =>
      let got := take 4 src in
      let rv := Z.of_nat (length got) in
      if rv =? 0 then Some decomp
      else
        match Decompress.FeedDecompressor host_le decomp
                [word_of_bytes host_le got] with
        | Some (_, decomp) => decompress_loop fuel' host_le decomp (drop 4 src)
        | None => None
        end
  end.

(** [l::decompress(src_, dst_)] on a new file [dst_]; [fresh] tells whether
    [calloc] succeeds in [CreateDecompressor]. *)
Definition decompress (host_le : bool) (fresh : bool) (src : list Z)
  : option outcome :=
  match Decompress.CreateDecompressor (Some []) None fresh with
  | (_, None) => Some Thrown
  | (_, Some decomp) =>
      match decompress_loop (S (length src)) host_le decomp src with
      | None => None
      | Some decomp =>
          Some (Written
                  (words_bytes host_le
                     (snd (Decompress.DeleteDecompressor host_le decomp))))
      end
  end.

(** The words the loops read from a file, one for each call. *)
Fixpoint file_words (fuel : nat) (host_le : bool) (src : list Z) : list Z :=
  match fuel with
  | O => []
  | S fuel' =>
      match take 4 src with
      | [] => []
      | got => word_of_bytes host_le got :: file_words fuel' host_le (drop 4 src)
      end
  end.

(** A file with the zero bytes that bring its length to a multiple of
    four. *)
Definition padded (src : list Z) : list Z :=
  src ++ repeat 0 (Z.to_nat ((- Z.of_nat (length src)) mod 4)).

End Cli.

(** Case analysis on the condition of an [if] of the goal. *)
Ltac case_if :=
  match goal with
  | |- context [if ?c then _ else _] =>
      lazymatch c with
      | context [if _ then _ else _] => fail
      | _ => destruct c
      end
  end.



(** * Definitions for the round trip of short inputs *)

Module TokenSpec.
Import Compress.

(** The tokens of the stream: a literal byte, or a reference to [len]
    bytes that start at the window position [pos]. *)
Inductive token : Type :=
| Lit (c : Z)
| Ref (pos len : Z).

(** The [WriteBits] call that writes a token. *)
Definition token_field (t : token) : Z * Z * Z :=
  match t with
  | Lit c => (1, c, 8)
  | Ref pos len => (0, pos * 16 + (len - (BREAK_EVEN + 1)), 16)
  end.

(** The number of bytes a token stands for. *)
Definition token_len (t : token) : Z :=
  match t with
  | Lit _ => 1
  | Ref _ len => len
  end.

Definition tokens_len (ts : list token) : Z :=
  fold_right (fun t n => token_len t + n) 0 ts.

(** [token_ok window limit q t]: the token [t] stands for the bytes of the
    window from position [q] on.  A reference points back, to bytes that
    are the same as those from [q] on, and it ends at [limit] or before. *)
Definition token_ok (window : gmap Z Z) (limit q : Z) (t : token) : Prop :=
  match t with
  | Lit c => c = rd window q
  | Ref pos len =>
      1 <= pos < q /\ BREAK_EVEN < len <= LOOK_AHEAD_SIZE /\ q + len <= limit
      /\ forall k, 0 <= k < len -> rd window (pos + k) = rd window (q + k)
  end.

Fixpoint tokens_ok (window : gmap Z Z) (limit q : Z) (ts : list token) : Prop :=
  match ts with
  | [] => True
  | t :: ts' =>
      token_ok window limit q t /\ tokens_ok window limit (q + token_len t) ts'
  end.

(** The bytes of the window from position [q] on. *)
Definition window_bytes (window : gmap Z Z) (q : Z) (n : nat) : list Z :=
  map (fun k => rd window (q + Z.of_nat k)) (seq 0 n).

(** Every byte of the window is a byte. *)
Definition window_ok (window : gmap Z Z) : Prop :=
  forall i, 0 <= rd window i < 256.

(** The window holds the bytes [bytes] from position 1 on. *)
Definition window_holds (window : gmap Z Z) (bytes : list Z) : Prop :=
  forall j, (j < length bytes)%nat ->
    rd window (1 + Z.of_nat j) = nth j bytes 0.

(** The links of the tree when the positions below [c] have been inserted
    and no position has been deleted: the child links lead to positions
    below [c], the tree is not empty, and the positions from [c] on have
    no parent. *)
Definition child_ok (c x : Z) : Prop := x = UNUSED \/ 1 <= x < c.

Definition links_ok (tree : gmap Z CompNode) (c : Z) : Prop :=
  (forall i, child_ok c (cn_LeftChild (nd tree i))
             /\ child_ok c (cn_RightChild (nd tree i)))
  /\ cn_RightChild (nd tree TREE_ROOT) <> UNUSED
  /\ (forall i, c <= i < TREE_ROOT -> cn_Parent (nd tree i) = UNUSED).

(** The three parts of [links_ok], one write at a time. *)
Definition children_ok (tree : gmap Z CompNode) (c : Z) : Prop :=
  forall i, child_ok c (cn_LeftChild (nd tree i))
            /\ child_ok c (cn_RightChild (nd tree i)).

Definition rooted (tree : gmap Z CompNode) : Prop :=
  cn_RightChild (nd tree TREE_ROOT) <> UNUSED.

Definition no_parent_from (tree : gmap Z CompNode) (c : Z) : Prop :=
  forall i, c <= i < TREE_ROOT -> cn_Parent (nd tree i) = UNUSED.

(** The match found last is a true one, as long as the look-ahead buffer
    is not empty. *)
Definition match_ok (f : frame) : Prop :=
  f_lookAhead f <> 0 ->
  f_matchLen f <= LOOK_AHEAD_SIZE
  /\ (BREAK_EVEN < f_matchLen f ->
      1 <= f_matchPos f < f_currentPos f
      /\ forall k, 0 <= k < f_matchLen f ->
           rd (f_window f) (f_matchPos f + k)
           = rd (f_window f) (f_currentPos f + k)).

(** The state of the encoder that does not depend on the place in the
    loop: the bits written are those of the tokens [ts], which stand for
    the bytes of the window from position 1 on; the look-ahead buffer ends
    at [limit] or before, and the window does not wrap. *)
Definition tokens_written (host_le : bool) (f : frame) (ts : list token)
    (limit : Z) : Prop :=
  f_bs f = BitSpec.write_all host_le (InitBitStream []) (map token_field ts)
  /\ tokens_ok (f_window f) limit 1 ts
  /\ window_ok (f_window f)
  /\ links_ok (f_tree f) (f_currentPos f + 1)
  /\ 1 <= f_currentPos f
  /\ -1 <= f_lookAhead f
  /\ f_currentPos f + f_lookAhead f <= limit
  /\ limit + 20 <= WINDOW_SIZE.

(** At the test of [while(replaceCnt--)]: the tokens stand for the bytes
    before [currentPos + replaceCnt]. *)
Definition at_test (host_le : bool) (f : frame) (ts : list token) (limit : Z)
  : Prop :=
  tokens_written host_le f ts limit
  /\ 1 + tokens_len ts = f_currentPos f + f_replaceCnt f
  /\ 0 <= f_replaceCnt f <= LOOK_AHEAD_SIZE
  /\ match_ok f.

(** After [DeleteString] in the body of that loop, where the state is
    saved when the data runs out. *)
Definition at_newData (host_le : bool) (f : frame) (ts : list token) (limit : Z)
  : Prop :=
  tokens_written host_le f ts limit
  /\ 1 + tokens_len ts = f_currentPos f + f_replaceCnt f + 1
  /\ 0 <= f_replaceCnt f <= LOOK_AHEAD_SIZE - 1.

(** The two places of the loop of [FeedCompressor], after the bytes
    [bytes] were read: they are in the window, and the look-ahead buffer is
    full. *)
Definition feeding_at_test (host_le : bool) (f : frame) (ts : list token)
    (bytes : list Z) : Prop :=
  at_test host_le f ts (Z.of_nat (length bytes) + 1)
  /\ f_lookAhead f = LOOK_AHEAD_SIZE
  /\ f_currentPos f + (LOOK_AHEAD_SIZE - 1) = Z.of_nat (length bytes)
  /\ window_holds (f_window f) bytes.

Definition feeding_at_newData (host_le : bool) (f : frame) (ts : list token)
    (bytes : list Z) : Prop :=
  at_newData host_le f ts (Z.of_nat (length bytes) + 1)
  /\ f_lookAhead f = LOOK_AHEAD_SIZE
  /\ f_currentPos f + (LOOK_AHEAD_SIZE - 1) = Z.of_nat (length bytes)
  /\ window_holds (f_window f) bytes.

(** The encoder between two calls, after the bytes [bytes] were fed. *)
Definition encoding (host_le : bool) (comp : Compressor) (bytes : list Z)
    (ts : list token) : Prop :=
  (ch_SecondPass comp = false
   /\ Z.of_nat (length bytes) < LOOK_AHEAD_SIZE
   /\ ts = []
   /\ ch_LookAhead comp = 1 + Z.of_nat (length bytes)
   /\ ch_CurrentPos comp = 1 /\ ch_ReplaceCnt comp = 0
   /\ ch_MatchLen comp = 0
   /\ links_ok (ch_Tree comp) 2
   /\ ch_BitStream comp = InitBitStream []
   /\ window_holds (ch_Window comp) bytes
   /\ window_ok (ch_Window comp))
  \/ (ch_SecondPass comp = true
      /\ feeding_at_newData host_le (load_frame comp) ts bytes).

(** The state of the loop of [FlushCompressor] at the test of
    [while(replaceCnt--)]: the look-ahead buffer ends at [limit]. *)
Definition flushing (host_le : bool) (f : frame) (ts : list token) (limit : Z)
  : Prop :=
  at_test host_le f ts limit
  /\ f_currentPos f + f_lookAhead f = limit
  /\ f_replaceCnt f <= f_lookAhead f + 1.

(** The word buffer of the decoder and the sink: the words sent, the
    buffer and the count of bytes it still takes. *)
Definition push (host_le : bool) (s : list Z * Z * Z) (c : Z) : list Z * Z * Z :=
  let '(out, wordBuffer, bytesLeft) := s in
  if bytesLeft =? 0
  then (out ++ [byteswap_if_little_endian host_le wordBuffer], c, 3)
  else (out, Z.lor (shl32 wordBuffer 8) c, u32 (bytesLeft - 1)).

(** What the sink has received once [DeleteDecompressor] has sent the word
    buffer, if it is full. *)
Definition delivered (host_le : bool) (s : list Z * Z * Z) : list Z :=
  let '(out, wordBuffer, bytesLeft) := s in
  if bytesLeft =? 0
  then out ++ [byteswap_if_little_endian host_le wordBuffer]
  else out.

(** The sink before or after a whole number of words. *)
Definition between_words (s : list Z * Z * Z) : Prop :=
  let '(out, wordBuffer, bytesLeft) := s in
  bytesLeft = 0 \/ (bytesLeft = 4 /\ wordBuffer = 0).

Definition sink_of (d : Decompress.dframe) : list Z * Z * Z :=
  (Decompress.d_out d, Decompress.d_wordBuffer d, Decompress.d_bytesLeft d).

(** The decoder in step with the encoder: it has decoded the bytes of
    the window [window] of the encoder before position [q]; the bits not
    yet read are those of the tokens [ts], then [tail_bits] more bits that
    spell [tail]. *)
Definition in_step (host_le : bool) (d : Decompress.dframe)
    (window : gmap Z Z) (q : Z) (ts : list token) (tail_bits tail : Z)
  : Prop :=
  BitSpec.reader_ok (Decompress.d_bs d)
  /\ DecompressSpec.bits_unread (Decompress.d_bs d)
     = BitSpec.fields_bits (map token_field ts) + tail_bits
  /\ BitSpec.unread_value host_le (Decompress.d_bs d)
     = BitSpec.fields_value (map token_field ts) * 2 ^ tail_bits + tail
  /\ Decompress.d_pos d = q
  /\ (forall i, 1 <= i < q -> rd (Decompress.d_window d) i = rd window i).

(** The tree is well formed, with at most [c] nodes, all of them
    positions from 1 to [c]. *)
Definition tree_shape (tree : gmap Z CompNode) (c : Z) : Prop :=
  exists l,
    CompressSpec.tree_nodes tree l
    /\ l <> []
    /\ Z.of_nat (length l) <= c
    /\ forall y, y ∈ l -> 1 <= y <= c.

End TokenSpec.

Ltac frame_simpl :=
  cbn [Compress.f_tree Compress.f_window Compress.f_bs Compress.f_lookAhead
       Compress.f_currentPos Compress.f_replaceCnt Compress.f_matchLen
       Compress.f_matchPos] in *.

(** * Machine integers: bytes and words *)

Module WordFacts.

Lemma lor_shiftl_low (a x k : Z) :
  0 <= k -> 0 <= x < 2 ^ k -> Z.lor (Z.shiftl a k) x = a * 2 ^ k + x.
Proof.
  intros Hk Hx.
  assert (Hland : Z.land (Z.shiftl a k) x = 0).
  { apply Z.bits_inj'. intros n Hn. rewrite Z.land_spec, Z.bits_0.
    destruct (Z.lt_ge_cases n k).
    - by rewrite Z.shiftl_spec_low.
    - assert (Hb : Z.testbit x n = false).
      { rewrite <- (Z.mod_small x (2 ^ k)) by exact Hx.
        apply Z.mod_pow2_bits_high. lia. }
      rewrite Hb. apply andb_false_r. }
  pose proof (Z.add_lor_land (Z.shiftl a k) x) as H.
  rewrite Hland in H. rewrite Z.shiftl_mul_pow2 in * by lia. lia.
Qed.

Lemma lor_mul_pow2 (a x k : Z) :
  0 <= k -> 0 <= x < 2 ^ k -> Z.lor (a * 2 ^ k) x = a * 2 ^ k + x.
Proof.
  intros Hk Hx. rewrite <- (lor_shiftl_low a x k) by done.
  by rewrite Z.shiftl_mul_pow2.
Qed.

Lemma land_255 (x : Z) : Z.land x 255 = x mod 256.
Proof. change 255 with (Z.ones 8). by rewrite Z.land_ones. Qed.

Lemma bswap32_bytes (w : Z) :
  bswap32 w =
  (w mod 256) * 2 ^ 24 + ((w / 2 ^ 8) mod 256) * 2 ^ 16
  + ((w / 2 ^ 16) mod 256) * 2 ^ 8 + (w / 2 ^ 24) mod 256.
Proof.
  unfold bswap32. rewrite !land_255, !Z.shiftr_div_pow2 by lia.
  pose proof (Z.mod_pos_bound w 256).
  pose proof (Z.mod_pos_bound (w / 2 ^ 8) 256).
  pose proof (Z.mod_pos_bound (w / 2 ^ 16) 256).
  pose proof (Z.mod_pos_bound (w / 2 ^ 24) 256).
  rewrite (lor_shiftl_low _ _ 8) by lia.
  rewrite (lor_shiftl_low _ _ 16) by lia.
  rewrite (lor_shiftl_low _ _ 24) by lia. lia.
Qed.

(** The four base-256 digits of a word made of four bytes. *)
Lemma bytes_digits (a b c d : Z) :
  0 <= a < 256 -> 0 <= b < 256 -> 0 <= c < 256 -> 0 <= d < 256 ->
  let w := a * 2 ^ 24 + b * 2 ^ 16 + c * 2 ^ 8 + d in
  w mod 256 = d /\ (w / 2 ^ 8) mod 256 = c /\ (w / 2 ^ 16) mod 256 = b
  /\ (w / 2 ^ 24) mod 256 = a /\ 0 <= w < 2 ^ 32.
Proof.
  intros Ha Hb Hc Hd w.
  assert (H8 : w / 2 ^ 8 = a * 2 ^ 16 + b * 2 ^ 8 + c).
  { symmetry. apply (Z.div_unique_pos _ _ _ d); unfold w; lia. }
  assert (H16 : w / 2 ^ 16 = a * 2 ^ 8 + b).
  { symmetry. apply (Z.div_unique_pos _ _ _ (c * 2 ^ 8 + d)); unfold w; lia. }
  assert (H24 : w / 2 ^ 24 = a).
  { symmetry. apply (Z.div_unique_pos _ _ _ (b * 2 ^ 16 + c * 2 ^ 8 + d));
      unfold w; lia. }
  rewrite H8, H16, H24.
  repeat split; try (unfold w; lia).
  - symmetry. apply (Z.mod_unique_pos _ _ (a * 2 ^ 16 + b * 2 ^ 8 + c));
      unfold w; lia.
  - symmetry. apply (Z.mod_unique_pos _ _ (a * 2 ^ 8 + b)); lia.
  - symmetry. apply (Z.mod_unique_pos _ _ a); lia.
  - apply Z.mod_small. lia.
Qed.

Lemma word_digits (w : Z) :
  0 <= w < 2 ^ 32 ->
  exists a b c d,
    0 <= a < 256 /\ 0 <= b < 256 /\ 0 <= c < 256 /\ 0 <= d < 256
    /\ w = a * 2 ^ 24 + b * 2 ^ 16 + c * 2 ^ 8 + d.
Proof.
  intros Hw.
  exists (w / 2 ^ 24), ((w / 2 ^ 16) mod 256), ((w / 2 ^ 8) mod 256), (w mod 256).
  pose proof (Z.div_mod w 256 ltac:(lia)) as E0.
  pose proof (Z.div_mod (w / 256) 256 ltac:(lia)) as E1.
  pose proof (Z.div_mod (w / 256 / 256) 256 ltac:(lia)) as E2.
  pose proof (Z.mod_pos_bound w 256 ltac:(lia)).
  pose proof (Z.mod_pos_bound (w / 256) 256 ltac:(lia)).
  pose proof (Z.mod_pos_bound (w / 256 / 256) 256 ltac:(lia)).
  change (2 ^ 8) with 256. change (2 ^ 16) with (256 * 256).
  change (2 ^ 24) with (256 * 256 * 256).
  rewrite <- !Z.div_div by lia.
  assert (0 <= w / 256 / 256 / 256 < 256).
  { split; [repeat apply Z.div_pos; lia|].
    repeat (apply Z.div_lt_upper_bound; [lia|]). lia. }
  repeat split; try lia.
Qed.

Lemma bswap32_of_bytes (a b c d : Z) :
  0 <= a < 256 -> 0 <= b < 256 -> 0 <= c < 256 -> 0 <= d < 256 ->
  bswap32 (a * 2 ^ 24 + b * 2 ^ 16 + c * 2 ^ 8 + d)
  = d * 2 ^ 24 + c * 2 ^ 16 + b * 2 ^ 8 + a.
Proof.
  intros Ha Hb Hc Hd. rewrite bswap32_bytes.
  destruct (bytes_digits a b c d Ha Hb Hc Hd) as (-> & -> & -> & -> & _).
  reflexivity.
Qed.

Lemma bswap32_involutive (w : Z) :
  0 <= w < 2 ^ 32 -> bswap32 (bswap32 w) = w.
Proof.
  intros H. destruct (word_digits w H) as (a & b & c & d & Ha & Hb & Hc & Hd & ->).
  by rewrite !bswap32_of_bytes.
Qed.

Lemma bswap32_range (w : Z) : 0 <= bswap32 w < 2 ^ 32.
Proof.
  rewrite bswap32_bytes.
  pose proof (Z.mod_pos_bound w 256).
  pose proof (Z.mod_pos_bound (w / 2 ^ 8) 256).
  pose proof (Z.mod_pos_bound (w / 2 ^ 16) 256).
  pose proof (Z.mod_pos_bound (w / 2 ^ 24) 256). lia.
Qed.

(** What is swapped on the way out is swapped back on the way in. *)
Lemma byteswap_if_little_endian_involutive (host_le : bool) (w : Z) :
  0 <= w < 2 ^ 32 ->
  byteswap_if_little_endian host_le (byteswap_if_little_endian host_le w) = w.
Proof.
  intros H. destruct host_le; [by apply bswap32_involutive|done].
Qed.

Lemma byteswap_if_little_endian_range (host_le : bool) (w : Z) :
  0 <= w < 2 ^ 32 -> 0 <= byteswap_if_little_endian host_le w < 2 ^ 32.
Proof. intros H. destruct host_le; [apply bswap32_range|done]. Qed.

Lemma u32_small (x : Z) : 0 <= x < 2 ^ 32 -> u32 x = x.
Proof. apply Z.mod_small. Qed.

End WordFacts.

(** * Properties of the encoder *)

Module CompressFacts.
Import Compress CompressSpec.

(** ** Reading the arrays after a write *)

Lemma rd_insert (window : gmap Z Z) (i j v : Z) :
  rd (<[i := v]> window) j = if decide (i = j) then v else rd window j.
Proof. unfold rd. rewrite lookup_insert. by case_decide. Qed.

Lemma nd_insert (tree : gmap Z CompNode) (i j : Z) (n : CompNode) :
  nd (<[i := n]> tree) j = if decide (i = j) then n else nd tree j.
Proof. unfold nd. rewrite lookup_insert. by case_decide. Qed.

Lemma nd_set_Parent (tree : gmap Z CompNode) (i j v : Z) :
  nd (set_Parent tree i v) j =
  if decide (i = j)
  then mkCompNode v (cn_LeftChild (nd tree i)) (cn_RightChild (nd tree i))
  else nd tree j.
Proof. apply nd_insert. Qed.

Lemma nd_set_LeftChild (tree : gmap Z CompNode) (i j v : Z) :
  nd (set_LeftChild tree i v) j =
  if decide (i = j)
  then mkCompNode (cn_Parent (nd tree i)) v (cn_RightChild (nd tree i))
  else nd tree j.
Proof. apply nd_insert. Qed.

Lemma nd_set_RightChild (tree : gmap Z CompNode) (i j v : Z) :
  nd (set_RightChild tree i v) j =
  if decide (i = j)
  then mkCompNode (cn_Parent (nd tree i)) (cn_LeftChild (nd tree i)) v
  else nd tree j.
Proof. apply nd_insert. Qed.

Lemma nd_empty (i : Z) : nd ∅ i = zero_node.
Proof. unfold nd. by rewrite lookup_empty. Qed.

(** ** CreateCompressor *)

(** C8, as it is written, fails: the window is not cleared.  An encoder
    built in a buffer whose window holds 255 at index 7 still holds it. *)
Lemma CreateCompressor_keeps_window :
  let buffer :=
    mkCompressor {[7 := 255]} ∅ 0 0 0 0 0 (mkCompressBitStream [] 0 0)
      false false false in
  exists comp,
    CreateCompressor (Some []) (Some buffer) None = (COMP_OK, Some comp)
    /\ rd (ch_Window comp) 7 = 255
    /\ rd (ch_Window comp) 7 <> 0.
Proof.
  eexists. split; [reflexivity|]. split; [reflexivity|]. discriminate.
Qed.

(** C8, amended: [CreateCompressor] leaves the window as the buffer holds
    it, sets every node of the tree to [UNUSED] except that position 1 is
    the root ([tree[TREE_ROOT].cn_RightChild = 1] and
    [tree[1].cn_Parent = TREE_ROOT]), and sets [ch_LookAhead = 1] and
    [ch_CurrentPos = 1]. *)
Theorem CreateCompressor_initial_state
    (out : list Z) (workbuf fresh : option Compressor) (comp : Compressor) :
  CreateCompressor (Some out) workbuf fresh = (COMP_OK, Some comp) ->
  (exists buffer,
      buffer_used workbuf fresh = Some buffer
      /\ ch_Window comp = ch_Window buffer)
  /\ (forall i, nd (ch_Tree comp) i = initial_node i)
  /\ ch_LookAhead comp = 1
  /\ ch_CurrentPos comp = 1.
Proof.
  unfold CreateCompressor. intros H.
  assert (Hb : exists buffer a,
             buffer_used workbuf fresh = Some buffer
             /\ comp =
                mkCompressor (ch_Window buffer)
                  (set_Parent (set_RightChild ∅ TREE_ROOT 1) 1 TREE_ROOT)
                  1 0 0 1 0 (InitBitStream out) false a true).
  { destruct workbuf as [b|]; [|destruct fresh as [b|]]; simpl in *;
      inversion H; eauto. }
  destruct Hb as (buffer & a & Hb & ->). simpl.
  split; [eauto|]. split; [|done].
  intros i. rewrite nd_set_Parent, nd_set_RightChild, !nd_set_RightChild, !nd_empty.
  unfold initial_node, TREE_ROOT, WINDOW_SIZE, UNUSED. simpl.
  repeat case_decide; simplify_eq; try reflexivity; try lia.
Qed.

Lemma CreateCompressor_initial_state_witness :
  let buffer :=
    mkCompressor {[7 := 255]} ∅ 0 0 0 0 0 (mkCompressBitStream [] 0 0)
      false false false in
  exists comp,
    CreateCompressor (Some []) (Some buffer) None = (COMP_OK, Some comp)
    /\ (forall i, nd (ch_Tree comp) i = initial_node i)
    /\ ch_LookAhead comp = 1.
Proof.
  eexists. split; [reflexivity|].
  pose proof (CreateCompressor_initial_state [] (Some
    (mkCompressor {[7 := 255]} ∅ 0 0 0 0 0 (mkCompressBitStream [] 0 0)
       false false false)) None _ eq_refl) as (_ & Ht & Hl & _).
  split; assumption.
Defined.

(** ** AddString: which match is recorded *)

(** C5, as it is written, fails: the best match is also replaced at a node
    whose common prefix is only as long as the best so far.  In [tie_tree]
    the descent for 200 compares node 1 and then node 100, both with a
    common prefix of three bytes; [AddString] returns position 100, and the
    search that replaces only on [i > best_len] returns position 1. *)
Lemma AddString_replaces_on_equal_length :
  compared_nodes tree_fuel tie_tree tie_window 200 1 0 = [(1, 3); (100, 3)]
  /\ (exists tree, AddString tie_tree tie_window 200 0 = Some (tree, 3, 100))
  /\ (exists tree,
        insert_and_find_best tie_tree tie_window 200 0 = Some (tree, 3, 1)).
Proof.
  split; [vm_compute; reflexivity|].
  split; eexists; vm_compute; reflexivity.
Qed.

Lemma compare_phrase_ge (window : gmap Z Z) (newNode testNode : Z) (n : nat) :
  forall i, i <= fst (compare_phrase window newNode testNode i n).
Proof.
  induction n as [|n IH]; intros i; simpl; [lia|].
  destruct (_ =? 0); simpl; [|lia].
  specialize (IH (i + 1)). lia.
Qed.

Lemma WINDOW_SIZE_eq : WINDOW_SIZE = 4096.
Proof. reflexivity. Qed.

Lemma TREE_ROOT_eq : TREE_ROOT = 4096.
Proof. reflexivity. Qed.

Lemma LOOK_AHEAD_SIZE_eq : LOOK_AHEAD_SIZE = 18.
Proof. reflexivity. Qed.

Lemma tree_fuel_pos : exists fuel, tree_fuel = S fuel.
Proof.
  exists (Z.to_nat WINDOW_SIZE). unfold tree_fuel. rewrite WINDOW_SIZE_eq.
  rewrite Z2Nat.inj_add by lia.
  change (Z.to_nat 1) with 1%nat. apply Nat.add_1_r.
Qed.

Lemma AddString_loop_unfold (fuel : nat) (tree : gmap Z CompNode)
    (window : gmap Z Z) (newNode testNode matchLen matchPos : Z) :
  AddString_loop (S fuel) tree window newNode testNode matchLen matchPos =
  let '(i, delta) :=
    compare_phrase window newNode testNode 0 (Z.to_nat LOOK_AHEAD_SIZE) in
  let matchLen' := if i >=? matchLen then i else matchLen in
  let matchPos' := if i >=? matchLen then testNode else matchPos in
  if (i >=? matchLen) && (matchLen' >=? LOOK_AHEAD_SIZE) then
    Some (replace_node tree newNode testNode, matchLen', matchPos')
  else if delta >=? 0 then
    if cn_RightChild (nd tree testNode) =? UNUSED then
      Some (attach_right tree newNode testNode, matchLen', matchPos')
    else
      AddString_loop fuel tree window newNode
        (cn_RightChild (nd tree testNode)) matchLen' matchPos'
  else
    if cn_LeftChild (nd tree testNode) =? UNUSED then
      Some (attach_left tree newNode testNode, matchLen', matchPos')
    else
      AddString_loop fuel tree window newNode
        (cn_LeftChild (nd tree testNode)) matchLen' matchPos'.
Proof. reflexivity. Qed.

Lemma compared_nodes_unfold (fuel : nat) (tree : gmap Z CompNode)
    (window : gmap Z Z) (newNode testNode matchLen : Z) :
  compared_nodes (S fuel) tree window newNode testNode matchLen =
  let '(i, delta) :=
    compare_phrase window newNode testNode 0 (Z.to_nat LOOK_AHEAD_SIZE) in
  let matchLen' := if i >=? matchLen then i else matchLen in
  (testNode, i) ::
  (if (i >=? matchLen) && (matchLen' >=? LOOK_AHEAD_SIZE) then []
   else if delta >=? 0 then
     if cn_RightChild (nd tree testNode) =? UNUSED then []
     else compared_nodes fuel tree window newNode
            (cn_RightChild (nd tree testNode)) matchLen'
   else
     if cn_LeftChild (nd tree testNode) =? UNUSED then []
     else compared_nodes fuel tree window newNode
            (cn_LeftChild (nd tree testNode)) matchLen').
Proof. reflexivity. Qed.

Lemma AddString_loop_last_longest (fuel : nat) (tree : gmap Z CompNode)
    (window : gmap Z Z) (newNode : Z) :
  forall testNode matchLen matchPos tree' len pos,
    AddString_loop fuel tree window newNode testNode matchLen matchPos
    = Some (tree', len, pos) ->
    let path := compared_nodes fuel tree window newNode testNode matchLen in
    matchLen <= len
    /\ (forall t i, (t, i) ∈ path -> i <= len)
    /\ ((exists before after,
            path = before ++ (pos, len) :: after
            /\ forall t i, (t, i) ∈ after -> i < len)
        \/ (pos = matchPos /\ len = matchLen
            /\ forall t i, (t, i) ∈ path -> i < len)).
Proof.
  induction fuel as [|fuel IH]; intros testNode matchLen matchPos tree' len pos;
    [discriminate|].
  rewrite AddString_loop_unfold, compared_nodes_unfold. cbv zeta.
  destruct (compare_phrase window newNode testNode 0 (Z.to_nat LOOK_AHEAD_SIZE))
    as [i delta] eqn:Hc.
  set (matchLen' := if i >=? matchLen then i else matchLen).
  set (matchPos' := if i >=? matchLen then testNode else matchPos).
  assert (Hstep : matchLen <= matchLen' /\ i <= matchLen'
                  /\ ((i >= matchLen /\ matchLen' = i /\ matchPos' = testNode)
                      \/ (i < matchLen /\ matchLen' = matchLen
                          /\ matchPos' = matchPos))).
  { unfold matchLen', matchPos'. destruct (Z.geb_spec i matchLen); lia. }
  destruct Hstep as (Hm & Hi & Hcase).
  (* a leaf: the loop returns here and [testNode] is the last node compared *)
  assert (Hstop : forall t, Some (t, matchLen', matchPos') = Some (tree', len, pos) ->
            matchLen <= len
            /\ (forall t0 i0, (t0, i0) ∈ [(testNode, i)] -> i0 <= len)
            /\ ((exists before after,
                    [(testNode, i)] = before ++ (pos, len) :: after
                    /\ forall t0 i0, (t0, i0) ∈ after -> i0 < len)
                \/ (pos = matchPos /\ len = matchLen
                    /\ forall t0 i0, (t0, i0) ∈ [(testNode, i)] -> i0 < len))).
  { intros t Heq. inversion Heq; subst len pos. split; [lia|]. split.
    - intros t0 i0 Hin. apply list_elem_of_singleton in Hin. inversion Hin. lia.
    - destruct Hcase as [(Hge & Hl & Hp)|(Hlt & Hl & Hp)].
      + left. exists [], []. rewrite Hl, Hp. split; [reflexivity|].
        intros t0 i0 Hin. inversion Hin.
      + right. split; [assumption|]. split; [assumption|].
        intros t0 i0 Hin. apply list_elem_of_singleton in Hin. inversion Hin.
        lia. }
  (* a step down: the rest of the path decides, unless it leaves the best
     match as it is *)
  assert (Hdown : forall next,
            AddString_loop fuel tree window newNode next matchLen' matchPos'
            = Some (tree', len, pos) ->
            let rest := compared_nodes fuel tree window newNode next matchLen' in
            matchLen <= len
            /\ (forall t0 i0, (t0, i0) ∈ (testNode, i) :: rest -> i0 <= len)
            /\ ((exists before after,
                    (testNode, i) :: rest = before ++ (pos, len) :: after
                    /\ forall t0 i0, (t0, i0) ∈ after -> i0 < len)
                \/ (pos = matchPos /\ len = matchLen
                    /\ forall t0 i0, (t0, i0) ∈ (testNode, i) :: rest -> i0 < len))).
  { intros next Hrec. apply IH in Hrec. simpl in Hrec.
    destruct Hrec as (Hle & Hall & Hlast). simpl. split; [lia|]. split.
    - intros t0 i0 Hin. apply elem_of_cons in Hin as [Heq|Hin].
      + inversion Heq. lia.
      + eauto.
    - destruct Hlast as [(before & after & Hsplit & Hafter)
                        |(Hp & Hl & Hrest)].
      + left. exists ((testNode, i) :: before), after.
        rewrite Hsplit. split; [reflexivity|assumption].
      + destruct Hcase as [(Hge & Hl' & Hp')|(Hlt & Hl' & Hp')].
        * left. exists [], (compared_nodes fuel tree window newNode next matchLen').
          split; [simpl; congruence|assumption].
        * right. split; [congruence|]. split; [congruence|].
          intros t0 i0 Hin. apply elem_of_cons in Hin as [Heq|Hin].
          -- inversion Heq. lia.
          -- eauto. }
  destruct ((i >=? matchLen) && (matchLen' >=? LOOK_AHEAD_SIZE)).
  { apply Hstop. }
  destruct (delta >=? 0).
  - destruct (cn_RightChild (nd tree testNode) =? UNUSED); [apply Hstop|apply Hdown].
  - destruct (cn_LeftChild (nd tree testNode) =? UNUSED); [apply Hstop|apply Hdown].
Qed.

(** C5, amended: during the descent of [AddString] the recorded best match
    is replaced at a test node whenever its common-prefix length is at least
    the best so far.  So the position returned is that of the last node
    compared whose common prefix is the longest: no node compared has a
    longer one, and every node compared after it has a strictly shorter
    one. *)
Theorem AddString_last_longest_wins (tree : gmap Z CompNode) (window : gmap Z Z)
    (newNode matchPos : Z) (tree' : gmap Z CompNode) (len pos : Z) :
  newNode <> END_OF_STREAM ->
  AddString tree window newNode matchPos = Some (tree', len, pos) ->
  exists before after,
    compared_nodes tree_fuel tree window newNode
      (cn_RightChild (nd tree TREE_ROOT)) 0
    = before ++ (pos, len) :: after
    /\ (forall t i, (t, i) ∈ before -> i <= len)
    /\ (forall t i, (t, i) ∈ after -> i < len).
Proof.
  intros Hnew. unfold AddString.
  destruct (Z.eqb_spec newNode END_OF_STREAM) as [|_]; [contradiction|].
  intros H. pose proof (AddString_loop_last_longest _ _ _ _ _ _ _ _ _ _ H) as Hp.
  cbv zeta in Hp. destruct Hp as (_ & Hall & Hlast).
  destruct Hlast as [(before & after & Hsplit & Hafter)|(_ & Hlen & Hshort)].
  - exists before, after. split; [assumption|]. split; [|assumption].
    intros t i Hin. apply (Hall t i). rewrite Hsplit.
    apply elem_of_app. by left.
  - (* the first node compared always replaces the initial best length 0 *)
    exfalso. revert Hshort.
    destruct tree_fuel_pos as [fuel ->].
    rewrite compared_nodes_unfold.
    pose proof (compare_phrase_ge window newNode
                  (cn_RightChild (nd tree TREE_ROOT))
                  (Z.to_nat LOOK_AHEAD_SIZE) 0) as Hge.
    destruct (compare_phrase window newNode (cn_RightChild (nd tree TREE_ROOT)) 0
                (Z.to_nat LOOK_AHEAD_SIZE)) as [i delta].
    simpl in Hge. intros Hshort.
    specialize (Hshort (cn_RightChild (nd tree TREE_ROOT)) i).
    assert (i < len) by (apply Hshort; apply elem_of_cons; by left). lia.
Qed.

Lemma AddString_last_longest_wins_witness :
  exists before after,
    compared_nodes tree_fuel tie_tree tie_window 200
      (cn_RightChild (nd tie_tree TREE_ROOT)) 0
    = before ++ (100, 3) :: after
    /\ (forall t i, (t, i) ∈ before -> i <= 3)
    /\ (forall t i, (t, i) ∈ after -> i < 3).
Proof.
  refine (AddString_last_longest_wins tie_tree tie_window 200 0
            (attach_right tie_tree 200 100) 3 100 _ _).
  - discriminate.
  - vm_compute. reflexivity.
Defined.

(** ** The shape of the tree *)

Lemma inorder_sound (fuel : nat) (tree : gmap Z CompNode) :
  forall x p l, inorder fuel tree x p = Some l -> subtree tree x p l.
Proof.
  induction fuel as [|fuel IH]; intros x p l; simpl; [discriminate|].
  destruct (Z.eqb_spec x UNUSED) as [->|Hx].
  - intros [= <-]. constructor.
  - destruct (Z.eqb_spec (cn_Parent (nd tree x)) p) as [Hp|]; [|discriminate].
    destruct (inorder fuel tree (cn_LeftChild (nd tree x)) x) as [l1|] eqn:H1;
      [|discriminate].
    destruct (inorder fuel tree (cn_RightChild (nd tree x)) x) as [l2|] eqn:H2;
      [|discriminate].
    intros [= <-]. constructor; auto.
Qed.

Lemma inorder_tree_nodes (fuel : nat) (tree : gmap Z CompNode) (l : list Z) :
  inorder fuel tree (cn_RightChild (nd tree TREE_ROOT)) TREE_ROOT = Some l ->
  bool_decide (NoDup l) = true ->
  bool_decide (TREE_ROOT ∉ l) = true ->
  cn_LeftChild (nd tree TREE_ROOT) = UNUSED ->
  tree_nodes tree l.
Proof.
  intros H1 H2 H3 H4. split; [by eapply inorder_sound|].
  split; [by apply bool_decide_eq_true in H2|].
  split; [by apply bool_decide_eq_true in H3|done].
Qed.

(** ** DeleteString: a node with two children *)

(** C4 fails on the code.  In [pred_tree] the phrases are in order and
    node 50 is attached and has two children.  [DeleteString] moves the
    predecessor 40 into the place of 50, but it cuts the link from 20 to 40
    by writing [UNUSED], so the left child 30 of 40 is lost: it was in the
    tree before, it is not the deleted node, and it is not in the tree
    afterwards, though its parent link still says 40. *)
Lemma DeleteString_drops_left_of_predecessor :
  tree_nodes pred_tree [20; 30; 40; 50; 80]
  /\ phrases_sorted pred_window [20; 30; 40; 50; 80]
  /\ cn_Parent (nd pred_tree 50) <> UNUSED
  /\ cn_LeftChild (nd pred_tree 50) <> UNUSED
  /\ cn_RightChild (nd pred_tree 50) <> UNUSED
  /\ exists tree,
       DeleteString pred_tree 50 = Some tree
       /\ tree_nodes tree [20; 40; 80]
       /\ cn_Parent (nd tree 30) = 40.
Proof.
  split; [by apply (inorder_tree_nodes 5)|].
  split.
  { unfold phrases_sorted.
    repeat (constructor; [|repeat (constructor; [vm_compute; discriminate|]);
                            constructor]).
    constructor. }
  split; [discriminate|]. split; [discriminate|]. split; [discriminate|].
  eexists. split; [vm_compute; reflexivity|].
  split; [by apply (inorder_tree_nodes 5)|reflexivity].
Qed.

(** ** AddString: the replacement on a full match *)

Lemma subtree_nonzero (tree : gmap Z CompNode) (x p : Z) (l : list Z) :
  subtree tree x p l -> forall y, y ∈ l -> y <> UNUSED.
Proof.
  induction 1 as [|x p l r Hx Hp Hl IHl Hr IHr]; intros y Hy.
  - inversion Hy.
  - apply elem_of_app in Hy as [Hy|Hy]; [by apply IHl|].
    apply elem_of_cons in Hy as [->|Hy]; [done|by apply IHr].
Qed.

Lemma subtree_root_in (tree : gmap Z CompNode) (x p : Z) (l : list Z) :
  subtree tree x p l -> x <> UNUSED -> x ∈ l /\ cn_Parent (nd tree x) = p.
Proof.
  destruct 1; [done|]. intros _. split; [|done].
  apply elem_of_app. right. apply elem_of_cons. by left.
Qed.

Lemma subtree_functional (tree : gmap Z CompNode) (x p : Z) (l : list Z) :
  subtree tree x p l -> forall p' l', subtree tree x p' l' -> l = l'.
Proof.
  induction 1 as [|x p l r Hx Hp Hl IHl Hr IHr]; intros p' l' H'.
  - inversion H'; [done|]. congruence.
  - inversion H' as [|x0 p0 l0 r0 Hx0 Hp0 Hl0 Hr0]; subst; [congruence|].
    f_equal; [by eapply IHl|]. f_equal. by eapply IHr.
Qed.

(** Where a node of a subtree sits: its own two subtrees lie side by side
    in the walk, and either it is the root of the subtree or its parent is
    in the subtree and links to it. *)
Lemma subtree_locate (tree : gmap Z CompNode) (x p : Z) (l : list Z) :
  subtree tree x p l ->
  forall y, y ∈ l ->
    exists ll lr pre post,
      l = pre ++ (ll ++ y :: lr) ++ post
      /\ subtree tree (cn_LeftChild (nd tree y)) y ll
      /\ subtree tree (cn_RightChild (nd tree y)) y lr
      /\ ((y = x /\ cn_Parent (nd tree y) = p)
          \/ (cn_Parent (nd tree y) ∈ l
              /\ (cn_LeftChild (nd tree (cn_Parent (nd tree y))) = y
                  \/ cn_RightChild (nd tree (cn_Parent (nd tree y))) = y))).
Proof.
  induction 1 as [|x p l r Hx Hp Hl IHl Hr IHr]; intros y Hy; [inversion Hy|].
  assert (Hxin : x ∈ l ++ x :: r)
    by (apply elem_of_app; right; apply elem_of_cons; by left).
  apply elem_of_app in Hy as [Hy|Hy]; [|apply elem_of_cons in Hy as [->|Hy]].
  - destruct (IHl y Hy) as (ll & lr & pre & post & -> & H1 & H2 & Hc).
    exists ll, lr, pre, (post ++ x :: r). split; [by rewrite <- !app_assoc|].
    split; [done|]. split; [done|]. right.
    destruct Hc as [[-> Hpy]|[Hin Hlink]].
    + rewrite Hpy. split; [done|by left].
    + split; [|done]. apply elem_of_app. by left.
  - exists l, r, [], []. split; [by rewrite app_nil_r|]. auto.
  - destruct (IHr y Hy) as (ll & lr & pre & post & -> & H1 & H2 & Hc).
    exists ll, lr, (l ++ x :: pre), post.
    split; [by rewrite <- !app_assoc|].
    split; [done|]. split; [done|]. right.
    destruct Hc as [[-> Hpy]|[Hin Hlink]].
    + rewrite Hpy. split; [done|by right].
    + split; [|done]. apply elem_of_app. right. apply elem_of_cons. by right.
Qed.

(** The fields of every node after [replace_node], when the five nodes it
    writes to are apart from one another. *)
Lemma replace_node_fields (tree : gmap Z CompNode) (newNode testNode p cl cr : Z) :
  nd tree testNode = mkCompNode p cl cr ->
  newNode <> testNode -> newNode <> UNUSED -> testNode <> UNUSED ->
  p <> testNode -> p <> newNode -> p <> UNUSED ->
  cl <> testNode -> cl <> newNode -> cl <> p ->
  cr <> testNode -> cr <> newNode -> cr <> p ->
  (cl <> UNUSED -> cl <> cr) ->
  forall z, z <> UNUSED ->
    nd (replace_node tree newNode testNode) z =
    if decide (z = testNode) then mkCompNode UNUSED cl cr
    else if decide (z = newNode) then mkCompNode p cl cr
    else if decide (z = p) then
      if cn_LeftChild (nd tree p) =? testNode
      then mkCompNode (cn_Parent (nd tree p)) newNode (cn_RightChild (nd tree p))
      else mkCompNode (cn_Parent (nd tree p)) (cn_LeftChild (nd tree p)) newNode
    else if decide (z = cl) then
      mkCompNode newNode (cn_LeftChild (nd tree cl)) (cn_RightChild (nd tree cl))
    else if decide (z = cr) then
      mkCompNode newNode (cn_LeftChild (nd tree cr)) (cn_RightChild (nd tree cr))
    else nd tree z.
Proof.
  intros Htest H1 H2 H3 H4 H5 H6 H7 H8 H9 H10 H11 H12 H13 z Hz.
  unfold replace_node. rewrite Htest. cbn [cn_Parent].
  set (t1 := if cn_LeftChild (nd tree p) =? testNode
             then set_LeftChild tree p newNode
             else set_RightChild tree p newNode).
  assert (Ht1 : forall y, nd t1 y =
            if decide (p = y) then
              if cn_LeftChild (nd tree p) =? testNode
              then mkCompNode (cn_Parent (nd tree p)) newNode
                     (cn_RightChild (nd tree p))
              else mkCompNode (cn_Parent (nd tree p))
                     (cn_LeftChild (nd tree p)) newNode
            else nd tree y).
  { intros y. unfold t1.
    destruct (cn_LeftChild (nd tree p) =? testNode);
      [rewrite nd_set_LeftChild|rewrite nd_set_RightChild];
      by case_decide. }
  assert (Ht1t : nd t1 testNode = mkCompNode p cl cr).
  { rewrite Ht1. by case_decide. }
  rewrite Ht1t.
  set (t2 := <[newNode := mkCompNode p cl cr]> t1).
  assert (Ht2n : nd t2 newNode = mkCompNode p cl cr).
  { unfold t2. rewrite nd_insert. by case_decide. }
  rewrite Ht2n. cbn [cn_LeftChild].
  set (t3 := set_Parent t2 cl newNode).
  assert (Ht3n : nd t3 newNode = mkCompNode p cl cr).
  { unfold t3. rewrite nd_set_Parent. case_decide; [congruence|done]. }
  rewrite Ht3n. cbn [cn_RightChild].
  assert (Ht2 : forall y, nd t2 y =
            if decide (newNode = y) then mkCompNode p cl cr else nd t1 y).
  { intros y. unfold t2. apply nd_insert. }
  assert (Ht3 : forall y, nd t3 y =
            if decide (cl = y)
            then mkCompNode newNode (cn_LeftChild (nd t2 cl))
                   (cn_RightChild (nd t2 cl))
            else nd t2 y).
  { intros y. unfold t3. apply nd_set_Parent. }
  clearbody t1 t2 t3.
  rewrite !nd_set_Parent, !Ht3, !Ht2, !Ht1, ?Htest.
  repeat case_decide; simplify_eq; try reflexivity; try congruence;
    try (exfalso; auto; fail);
    try (rewrite ?Htest; destruct (cn_LeftChild (nd tree p) =? testNode);
         reflexivity).
Qed.

(** Two consequences of the shape for the links of one node. *)
Lemma tree_nodes_child (tree : gmap Z CompNode) (l : list Z) (y : Z) :
  tree_nodes tree l -> y ∈ l ->
  (cn_LeftChild (nd tree y) <> UNUSED ->
   cn_LeftChild (nd tree y) ∈ l
   /\ cn_Parent (nd tree (cn_LeftChild (nd tree y))) = y)
  /\ (cn_RightChild (nd tree y) <> UNUSED ->
      cn_RightChild (nd tree y) ∈ l
      /\ cn_Parent (nd tree (cn_RightChild (nd tree y))) = y).
Proof.
  intros (Hs & _) Hy.
  destruct (subtree_locate _ _ _ _ Hs y Hy)
    as (ll & lr & pre & post & -> & Hl & Hr & _).
  split; intros Hc.
  - destruct (subtree_root_in _ _ _ _ Hl Hc) as [Hin Hp]. split; [|done].
    apply elem_of_app. right. apply elem_of_app. left.
    apply elem_of_app. by left.
  - destruct (subtree_root_in _ _ _ _ Hr Hc) as [Hin Hp]. split; [|done].
    apply elem_of_app. right. apply elem_of_app. left.
    apply elem_of_app. right. apply elem_of_cons. by right.
Qed.

Lemma tree_nodes_parent (tree : gmap Z CompNode) (l : list Z) (y : Z) :
  tree_nodes tree l -> y ∈ l ->
  (cn_Parent (nd tree y) = TREE_ROOT /\ cn_RightChild (nd tree TREE_ROOT) = y)
  \/ (cn_Parent (nd tree y) ∈ l
      /\ (cn_LeftChild (nd tree (cn_Parent (nd tree y))) = y
          \/ cn_RightChild (nd tree (cn_Parent (nd tree y))) = y)).
Proof.
  intros (Hs & _) Hy.
  destruct (subtree_locate _ _ _ _ Hs y Hy)
    as (ll & lr & pre & post & _ & _ & _ & [[-> Hp]|Hc]).
  - by left.
  - by right.
Qed.

(** The two subtrees of a node of the tree and the node itself are apart. *)
Lemma tree_nodes_apart (tree : gmap Z CompNode) (l : list Z) (y : Z) :
  tree_nodes tree l -> y ∈ l ->
  exists ll lr,
    subtree tree (cn_LeftChild (nd tree y)) y ll
    /\ subtree tree (cn_RightChild (nd tree y)) y lr
    /\ NoDup (ll ++ y :: lr)
    /\ (forall z, z ∈ ll -> z ∈ l) /\ (forall z, z ∈ lr -> z ∈ l).
Proof.
  intros (Hs & Hnd & _) Hy.
  destruct (subtree_locate _ _ _ _ Hs y Hy)
    as (ll & lr & pre & post & -> & Hl & Hr & _).
  exists ll, lr. split; [done|]. split; [done|].
  apply NoDup_app in Hnd as (_ & _ & Hnd).
  apply NoDup_app in Hnd as (Hnd & _ & _).
  split; [done|]. split; intros z Hz.
  - apply elem_of_app. right. apply elem_of_app. left.
    apply elem_of_app. by left.
  - apply elem_of_app. right. apply elem_of_app. left.
    apply elem_of_app. right. apply elem_of_cons. by right.
Qed.

(** A shape is carried over to a tree whose nodes are the renamed ones,
    with the renamed links. *)
Lemma subtree_renamed (tree tree' : gmap Z CompNode) (f : Z -> Z) (l : list Z) :
  f UNUSED = UNUSED ->
  (forall y, y ∈ l -> f y <> UNUSED) ->
  (forall y, y ∈ l ->
     cn_Parent (nd tree' (f y)) = f (cn_Parent (nd tree y))
     /\ cn_LeftChild (nd tree' (f y)) = f (cn_LeftChild (nd tree y))
     /\ cn_RightChild (nd tree' (f y)) = f (cn_RightChild (nd tree y))) ->
  forall x p lx,
    subtree tree x p lx -> (forall y, y ∈ lx -> y ∈ l) ->
    subtree tree' (f x) (f p) (f <$> lx).
Proof.
  intros H0 Hnz Hf x p lx Hs.
  induction Hs as [p|x p ll lr Hx Hp Hl IHl Hr IHr]; intros Hsub.
  - rewrite H0. constructor.
  - rewrite fmap_app, fmap_cons.
    assert (Hxin : x ∈ l).
    { apply Hsub. apply elem_of_app. right. apply elem_of_cons. by left. }
    destruct (Hf x Hxin) as (Hp' & Hl' & Hr').
    constructor.
    + by apply Hnz.
    + by rewrite Hp', Hp.
    + rewrite Hl'. apply IHl. intros y Hy. apply Hsub, elem_of_app. by left.
    + rewrite Hr'. apply IHr. intros y Hy. apply Hsub, elem_of_app. right.
      apply elem_of_cons. by right.
Qed.

Lemma TREE_ROOT_nonzero : TREE_ROOT <> UNUSED.
Proof. discriminate. Qed.

(** In a well-formed tree the node replaced, its parent and its two
    children are apart from one another and from the new node. *)
Lemma tree_nodes_around (tree : gmap Z CompNode) (l : list Z)
    (newNode testNode p cl cr : Z) :
  tree_nodes tree l -> testNode ∈ l -> newNode ∉ l ->
  newNode <> UNUSED -> newNode <> TREE_ROOT ->
  nd tree testNode = mkCompNode p cl cr ->
  (newNode <> testNode /\ testNode <> UNUSED)
  /\ (p <> testNode /\ p <> newNode /\ p <> UNUSED)
  /\ (cl <> testNode /\ cl <> newNode /\ cl <> p)
  /\ (cr <> testNode /\ cr <> newNode /\ cr <> p)
  /\ (cl <> UNUSED -> cl <> cr)
  /\ ((p = TREE_ROOT /\ cn_RightChild (nd tree TREE_ROOT) = testNode)
      \/ (p ∈ l /\ p <> TREE_ROOT
          /\ ((cn_LeftChild (nd tree p) = testNode
               /\ cn_RightChild (nd tree p) <> testNode)
              \/ (cn_LeftChild (nd tree p) <> testNode
                  /\ cn_RightChild (nd tree p) = testNode)))).
Proof.
  intros Ht Hin Hnew Hn0 HnR Htest.
  pose proof Ht as (Hs & Hnd & Hroot & Hleft).
  assert (Hall0 : forall y, y ∈ l -> y <> UNUSED)
    by (intros y; eapply subtree_nonzero; eauto).
  assert (Hnt : newNode <> testNode) by (intros ->; done).
  assert (Ht0 : testNode <> UNUSED) by auto.
  destruct (tree_nodes_apart _ _ _ Ht Hin) as (ll & lr & Hsl & Hsr & Hap & Hll & Hlr).
  rewrite Htest in Hsl, Hsr. cbn in Hsl, Hsr.
  apply NoDup_app in Hap as (_ & Hlx & Hrx).
  apply NoDup_cons in Hrx as (Htr & _).
  assert (Htl : testNode ∉ ll).
  { intros Hc. apply (Hlx _ Hc). apply elem_of_cons. by left. }
  assert (Hcl : cl <> UNUSED -> cl ∈ ll)
    by (intros Hc; by apply (subtree_root_in _ _ _ _ Hsl)).
  assert (Hcr : cr <> UNUSED -> cr ∈ lr)
    by (intros Hc; by apply (subtree_root_in _ _ _ _ Hsr)).
  assert (Hclt : cl <> testNode).
  { intros ->. by apply Htl, Hcl. }
  assert (Hcrt : cr <> testNode).
  { intros ->. by apply Htr, Hcr. }
  assert (Hcln : cl <> newNode).
  { intros ->. by apply Hnew, Hll, Hcl. }
  assert (Hcrn : cr <> newNode).
  { intros ->. by apply Hnew, Hlr, Hcr. }
  assert (Hclcr : cl <> UNUSED -> cl <> cr).
  { intros Hc <-. apply (Hlx cl (Hcl Hc)). apply elem_of_cons. right. by apply Hcr. }
  assert (Hsub : subtree tree testNode p (ll ++ testNode :: lr)).
  { constructor; rewrite ?Htest; cbn; auto. }
  assert (Hclin : cl <> UNUSED -> cl ∈ ll ++ testNode :: lr).
  { intros Hc. apply elem_of_app. left. auto. }
  assert (Hcrin : cr <> UNUSED -> cr ∈ ll ++ testNode :: lr).
  { intros Hc. apply elem_of_app. right. apply elem_of_cons. right. auto. }
  assert (Htin : testNode ∈ ll ++ testNode :: lr).
  { apply elem_of_app. right. apply elem_of_cons. by left. }
  destruct (tree_nodes_parent _ _ _ Ht Hin) as [[Hp Hrc]|[Hpin Hlink]];
    rewrite Htest in *; cbn in *.
  - subst p.
    assert (Hrt : TREE_ROOT <> testNode) by (intros Hc; by rewrite Hc in Hroot).
    assert (Hrcl : cl <> TREE_ROOT).
    { intros ->. by apply Hroot, Hll, Hcl, TREE_ROOT_nonzero. }
    assert (Hrcr : cr <> TREE_ROOT).
    { intros ->. by apply Hroot, Hlr, Hcr, TREE_ROOT_nonzero. }
    split; [done|]. split; [auto using TREE_ROOT_nonzero|].
    split; [done|]. split; [done|]. split; [done|]. by left.
  - assert (Hp0 : p <> UNUSED) by auto.
    assert (HpR : p <> TREE_ROOT) by (intros ->; done).
    assert (Hpn : p <> newNode) by (intros ->; done).
    destruct (tree_nodes_apart _ _ _ Ht Hpin)
      as (llp & lrp & Hslp & Hsrp & Happ & _ & _).
    apply NoDup_app in Happ as (_ & Hlxp & Hrxp).
    apply NoDup_cons in Hrxp as (Hpr & _).
    assert (Hpl : p ∉ llp).
    { intros Hc. apply (Hlxp _ Hc). apply elem_of_cons. by left. }
    destruct (decide (cn_LeftChild (nd tree p) = testNode)) as [HL|HL].
    + rewrite HL in Hslp.
      pose proof (subtree_functional _ _ _ _ Hsub _ _ Hslp) as <-.
      assert (HR : cn_RightChild (nd tree p) <> testNode).
      { intros HR. rewrite HR in Hsrp.
        apply (Hlxp testNode Htin). apply elem_of_cons. right.
        by apply (subtree_root_in _ _ _ _ Hsrp). }
      repeat split; auto.
      * intros ->. done.
      * intros ->. by apply Hpl, Hclin.
      * intros ->. by apply Hpl, Hcrin.
      * right. repeat split; auto.
    + destruct Hlink as [|HR]; [done|].
      rewrite HR in Hsrp.
      pose proof (subtree_functional _ _ _ _ Hsub _ _ Hsrp) as <-.
      repeat split; auto.
      * intros ->. done.
      * intros ->. by apply Hpr, Hclin.
      * intros ->. by apply Hpr, Hcrin.
      * right. repeat split; auto.
Qed.

(** [replace_node] puts [newNode] in the place of [testNode] and leaves the
    rest of the tree as it is. *)
Lemma replace_node_tree_nodes (tree : gmap Z CompNode) (l : list Z)
    (newNode testNode : Z) :
  tree_nodes tree l -> testNode ∈ l -> newNode ∉ l ->
  newNode <> UNUSED -> newNode <> TREE_ROOT ->
  tree_nodes (replace_node tree newNode testNode)
    (renamed newNode testNode <$> l).
Proof.
  intros Ht Hin Hnew Hn0 HnR.
  destruct (nd tree testNode) as [p cl cr] eqn:Htest.
  destruct (tree_nodes_around _ _ _ _ _ _ _ Ht Hin Hnew Hn0 HnR Htest)
    as ((Hnt & Ht0) & (Hpt & Hpn & Hp0) & (Hclt & Hcln & Hclp)
        & (Hcrt & Hcrn & Hcrp) & Hclcr & Hpar).
  pose proof (replace_node_fields tree newNode testNode p cl cr Htest
                Hnt Hn0 Ht0 Hpt Hpn Hp0 Hclt Hcln Hclp Hcrt Hcrn Hcrp Hclcr)
    as Hfields.
  pose proof Ht as (Hs & Hnd & Hroot & Hleft).
  assert (Hall0 : forall y, y ∈ l -> y <> UNUSED)
    by (intros y; eapply subtree_nonzero; eauto).
  set (f := renamed newNode testNode).
  assert (Hfne : forall y, y <> testNode -> f y = y).
  { intros y Hy. unfold f, renamed. by case_decide. }
  assert (Hft : f testNode = newNode).
  { unfold f, renamed. by case_decide. }
  (* a link to [testNode] comes from its parent only *)
  assert (Hup : forall y, y ∈ l ->
            (cn_LeftChild (nd tree y) = testNode -> y = p)
            /\ (cn_RightChild (nd tree y) = testNode -> y = p)).
  { intros y Hy. destruct (tree_nodes_child _ _ _ Ht Hy) as [HL HR].
    split; intros Hc; rewrite Hc in *.
    - destruct (HL Ht0) as [_ Hp]. rewrite Htest in Hp. by cbn in Hp.
    - destruct (HR Ht0) as [_ Hp]. rewrite Htest in Hp. by cbn in Hp. }
  (* a parent link to [testNode] is held by its children only *)
  assert (Hdown : forall y, y ∈ l -> cn_Parent (nd tree y) = testNode ->
            y = cl \/ y = cr).
  { intros y Hy Hc.
    destruct (tree_nodes_parent _ _ _ Ht Hy) as [[HpR _]|[_ Hlink]].
    - rewrite Hc in HpR. exfalso. apply Hroot. by rewrite <- HpR.
    - rewrite Hc, Htest in Hlink. cbn in Hlink. destruct Hlink; auto. }
  assert (Hchild : forall c, c <> UNUSED -> c = cl \/ c = cr ->
            c ∈ l /\ cn_Parent (nd tree c) = testNode).
  { intros c Hc0 Hc. destruct (tree_nodes_child _ _ _ Ht Hin) as [HL HR].
    rewrite Htest in HL, HR. cbn in HL, HR.
    destruct Hc as [->| ->]; auto. }
  assert (Hlinks : forall y, y ∈ l ->
     cn_Parent (nd (replace_node tree newNode testNode) (f y))
       = f (cn_Parent (nd tree y))
     /\ cn_LeftChild (nd (replace_node tree newNode testNode) (f y))
          = f (cn_LeftChild (nd tree y))
     /\ cn_RightChild (nd (replace_node tree newNode testNode) (f y))
          = f (cn_RightChild (nd tree y))).
  { intros y Hy. pose proof (Hall0 y Hy) as Hy0.
    destruct (Hup y Hy) as [HupL HupR].
    destruct (decide (y = testNode)) as [->|Hyt].
    - rewrite Hft, Hfields by done. rewrite Htest.
      rewrite decide_False by done. rewrite decide_True by done.
      cbn. by rewrite !Hfne.
    - rewrite (Hfne y) by done.
      assert (Hyn : y <> newNode) by (intros ->; done).
      rewrite Hfields by done.
      rewrite decide_False by done. rewrite decide_False by done.
      destruct (decide (y = p)) as [->|Hyp].
      + destruct Hpar as [[HpR _]|(_ & _ & Hlink)];
          [exfalso; apply Hroot; by rewrite <- HpR|].
        assert (Hpp : cn_Parent (nd tree p) <> testNode).
        { intros Hc. destruct (Hdown p Hy Hc); congruence. }
        destruct Hlink as [[HL HR]|[HL HR]].
        * rewrite HL, Z.eqb_refl. cbn. by rewrite Hft, !Hfne.
        * destruct (Z.eqb_spec (cn_LeftChild (nd tree p)) testNode); [done|].
          cbn. by rewrite HR, Hft, !Hfne.
      + assert (HyL : cn_LeftChild (nd tree y) <> testNode) by auto.
        assert (HyR : cn_RightChild (nd tree y) <> testNode) by auto.
        destruct (decide (y = cl)) as [->|Hycl];
          [|destruct (decide (y = cr)) as [->|Hycr]].
        * destruct (Hchild cl Hy0) as [_ Hpc]; [by left|].
          cbn. by rewrite Hpc, Hft, !Hfne.
        * destruct (Hchild cr Hy0) as [_ Hpc]; [by right|].
          cbn. by rewrite Hpc, Hft, !Hfne.
        * assert (HyP : cn_Parent (nd tree y) <> testNode).
          { intros Hc. destruct (Hdown y Hy Hc); congruence. }
          by rewrite !Hfne. }
  assert (Hrootlinks :
            cn_RightChild (nd (replace_node tree newNode testNode) TREE_ROOT)
            = f (cn_RightChild (nd tree TREE_ROOT))
            /\ cn_LeftChild (nd (replace_node tree newNode testNode) TREE_ROOT)
               = UNUSED).
  { rewrite Hfields by apply TREE_ROOT_nonzero.
    assert (HRt : TREE_ROOT <> testNode) by (intros Hc; by rewrite Hc in Hroot).
    rewrite decide_False by done. rewrite decide_False by done.
    destruct Hpar as [[-> Hrc]|(Hpin & HpR & _)].
    - rewrite decide_True by done. rewrite Hleft.
      destruct (Z.eqb_spec UNUSED testNode); [congruence|].
      cbn. by rewrite Hrc, Hft.
    - rewrite decide_False by done.
      assert (Hrc : cn_RightChild (nd tree TREE_ROOT) <> testNode).
      { intros Hc. destruct (tree_nodes_parent _ _ _ Ht Hin) as [[Hp _]|[Hp _]];
          rewrite Htest in Hp; cbn in Hp; [congruence|].
        destruct (subtree_root_in _ _ _ _ Hs) as [_ Hp'];
          [by rewrite Hc|]. rewrite Hc, Htest in Hp'. cbn in Hp'. congruence. }
      assert (Hcl' : TREE_ROOT <> cl).
      { intros Hc. destruct (Hchild cl) as [Hc' _];
          [rewrite <- Hc; apply TREE_ROOT_nonzero|by left|].
        by rewrite <- Hc in Hc'. }
      assert (Hcr' : TREE_ROOT <> cr).
      { intros Hc. destruct (Hchild cr) as [Hc' _];
          [rewrite <- Hc; apply TREE_ROOT_nonzero|by right|].
        by rewrite <- Hc in Hc'. }
      rewrite decide_False by done. rewrite decide_False by done.
      by rewrite Hfne. }
  destruct Hrootlinks as [HrootR HrootL].
  split; [|split; [|split]].
  - rewrite HrootR.
    replace TREE_ROOT with (f TREE_ROOT) at 2.
    2:{ apply Hfne. intros Hc. by rewrite Hc in Hroot. }
    apply (subtree_renamed tree _ f l); [| |exact Hlinks|exact Hs|auto].
    + apply Hfne. auto.
    + intros y Hy. unfold f, renamed. case_decide; auto.
  - apply NoDup_fmap_2_strong; [|done].
    intros x y Hx Hy. unfold f, renamed.
    repeat case_decide; intros Heq; try congruence; exfalso; apply Hnew;
      first [by rewrite Heq|by rewrite <- Heq].
  - intros Hc. apply list_elem_of_fmap in Hc as (y & Hy & Hyin).
    unfold f, renamed in Hy. case_decide; [congruence|].
    apply Hroot. by rewrite Hy.
  - done.
Qed.

Lemma compare_phrase_le (window : gmap Z Z) (newNode testNode : Z) (n : nat) :
  forall i, fst (compare_phrase window newNode testNode i n) <= i + Z.of_nat n.
Proof.
  induction n as [|n IH]; intros i; simpl compare_phrase; [simpl; lia|].
  destruct (_ =? 0); [|simpl; lia].
  specialize (IH (i + 1)). lia.
Qed.

(** A descent that returns a full match has replaced the node it returns,
    and has met only nodes reached by child links on the way. *)
Lemma AddString_loop_full_match (fuel : nat) (tree : gmap Z CompNode)
    (window : gmap Z Z) (newNode : Z) (Q : Z -> Prop) :
  (forall y, Q y ->
     (cn_LeftChild (nd tree y) <> UNUSED -> Q (cn_LeftChild (nd tree y)))
     /\ (cn_RightChild (nd tree y) <> UNUSED -> Q (cn_RightChild (nd tree y)))) ->
  forall testNode matchLen matchPos tree' len pos,
    Q testNode -> matchLen < LOOK_AHEAD_SIZE ->
    AddString_loop fuel tree window newNode testNode matchLen matchPos
    = Some (tree', len, pos) ->
    LOOK_AHEAD_SIZE <= len ->
    tree' = replace_node tree newNode pos /\ Q pos /\ len = LOOK_AHEAD_SIZE.
Proof.
  intros HQ. induction fuel as [|fuel IH];
    intros testNode matchLen matchPos tree' len pos Hq Hm; [discriminate|].
  rewrite AddString_loop_unfold. cbv zeta.
  pose proof (compare_phrase_le window newNode testNode
                (Z.to_nat LOOK_AHEAD_SIZE) 0) as Hle.
  destruct (compare_phrase window newNode testNode 0 (Z.to_nat LOOK_AHEAD_SIZE))
    as [i delta].
  cbn [fst] in Hle. rewrite Z2Nat.id in Hle by (rewrite LOOK_AHEAD_SIZE_eq; lia).
  destruct (Z.geb_spec i matchLen) as [Hge|Hlt]; cbn [andb].
  - destruct (Z.geb_spec i LOOK_AHEAD_SIZE) as [Hfull|Hshort].
    + intros [= <- <- <-] _. split; [done|]. split; [done|]. lia.
    + destruct (delta >=? 0).
      * destruct (Z.eqb_spec (cn_RightChild (nd tree testNode)) UNUSED).
        -- intros [= <- <- <-] Hc. lia.
        -- apply IH; [by apply HQ|lia].
      * destruct (Z.eqb_spec (cn_LeftChild (nd tree testNode)) UNUSED).
        -- intros [= <- <- <-] Hc. lia.
        -- apply IH; [by apply HQ|lia].
  - destruct (delta >=? 0).
    + destruct (Z.eqb_spec (cn_RightChild (nd tree testNode)) UNUSED).
      * intros [= <- <- <-] Hc. lia.
      * apply IH; [by apply HQ|lia].
    + destruct (Z.eqb_spec (cn_LeftChild (nd tree testNode)) UNUSED).
      * intros [= <- <- <-] Hc. lia.
      * apply IH; [by apply HQ|lia].
Qed.

(** C6: when [AddString] finds a full match (a common prefix of
    [LOOK_AHEAD_SIZE] bytes) at a node [pos] of a well-formed tree, it
    replaces [pos] by the new node: the link of the parent of [pos] that led
    to [pos] leads to the new node, the new node has the parent and the two
    children [pos] had, both children have the new node as their parent,
    [pos] is detached (its parent is [UNUSED]), and the call returns that
    match.  The walk of the tree is as before with the new node in the place
    of [pos], so the number of nodes in the tree is unchanged. *)
Theorem AddString_full_match_replaces (tree : gmap Z CompNode) (window : gmap Z Z)
    (l : list Z) (newNode matchPos : Z) (tree' : gmap Z CompNode) (len pos : Z) :
  tree_nodes tree l -> l <> [] -> newNode ∉ l ->
  newNode <> UNUSED -> newNode <> TREE_ROOT ->
  AddString tree window newNode matchPos = Some (tree', len, pos) ->
  LOOK_AHEAD_SIZE <= len ->
  let test := nd tree pos in
  let parent := cn_Parent test in
  (pos ∈ l /\ len = LOOK_AHEAD_SIZE)
  /\ (cn_LeftChild (nd tree parent) = pos ->
      cn_LeftChild (nd tree' parent) = newNode)
  /\ (cn_RightChild (nd tree parent) = pos ->
      cn_RightChild (nd tree' parent) = newNode)
  /\ nd tree' newNode = test
  /\ (cn_LeftChild test <> UNUSED ->
      cn_Parent (nd tree' (cn_LeftChild test)) = newNode)
  /\ (cn_RightChild test <> UNUSED ->
      cn_Parent (nd tree' (cn_RightChild test)) = newNode)
  /\ cn_Parent (nd tree' pos) = UNUSED
  /\ tree_nodes tree' (renamed newNode pos <$> l)
  /\ length (renamed newNode pos <$> l) = length l.
Proof.
  intros Ht Hl Hnew Hn0 HnR Hadd Hlen test parent.
  unfold AddString in Hadd.
  destruct (Z.eqb_spec newNode END_OF_STREAM) as [|_]; [contradiction|].
  pose proof Ht as (Hs & Hnd & Hroot & Hleft).
  assert (Hrc : cn_RightChild (nd tree TREE_ROOT) ∈ l).
  { destruct (decide (cn_RightChild (nd tree TREE_ROOT) = UNUSED)) as [Hc|Hc].
    - rewrite Hc in Hs. inversion Hs; congruence.
    - by apply (subtree_root_in _ _ _ _ Hs). }
  apply (AddString_loop_full_match _ _ _ _ (fun y => y ∈ l)) in Hadd
    as (-> & Hin & ->);
    [|intros y Hy; destruct (tree_nodes_child tree l y Ht Hy) as [HL HR];
      split; intros Hc; [by apply HL|by apply HR]|done|done|done].
  subst test parent.
  destruct (nd tree pos) as [p cl cr] eqn:Htest. cbn.
  destruct (tree_nodes_around _ _ _ _ _ _ _ Ht Hin Hnew Hn0 HnR Htest)
    as ((Hnt & Ht0) & (Hpt & Hpn & Hp0) & (Hclt & Hcln & Hclp)
        & (Hcrt & Hcrn & Hcrp) & Hclcr & Hpar).
  pose proof (replace_node_fields tree newNode pos p cl cr Htest
                Hnt Hn0 Ht0 Hpt Hpn Hp0 Hclt Hcln Hclp Hcrt Hcrn Hcrp Hclcr)
    as Hfields.
  split; [done|].
  assert (Hp : nd (replace_node tree newNode pos) p =
               if cn_LeftChild (nd tree p) =? pos
               then mkCompNode (cn_Parent (nd tree p)) newNode
                      (cn_RightChild (nd tree p))
               else mkCompNode (cn_Parent (nd tree p))
                      (cn_LeftChild (nd tree p)) newNode).
  { rewrite Hfields by done.
    rewrite decide_False by done. rewrite decide_False by done.
    by rewrite decide_True. }
  split; [|split; [|split; [|split; [|split; [|split; [|split]]]]]].
  - intros HL. by rewrite Hp, HL, Z.eqb_refl.
  - intros HR. rewrite Hp.
    destruct (Z.eqb_spec (cn_LeftChild (nd tree p)) pos) as [HL|HL]; [|done].
    exfalso. destruct Hpar as [[-> _]|(_ & _ & [[_ Hc]|[Hc _]])]; try done.
    rewrite Hleft in HL. congruence.
  - rewrite Hfields by done. rewrite decide_False by done.
    by rewrite decide_True.
  - intros Hc. rewrite Hfields by done.
    rewrite decide_False by done. rewrite decide_False by done.
    rewrite decide_False by done. by rewrite decide_True.
  - intros Hc. rewrite Hfields by done.
    rewrite decide_False by done. rewrite decide_False by done.
    rewrite decide_False by done.
    destruct (decide (cr = cl)) as [->|]; [done|]. by rewrite decide_True.
  - rewrite Hfields by done. by rewrite decide_True.
  - by apply replace_node_tree_nodes.
  - apply length_fmap.
Qed.

Lemma initial_tree_nodes : tree_nodes initial_tree [1].
Proof. by apply (inorder_tree_nodes 3). Qed.

Lemma AddString_full_match_replaces_witness :
  (1 ∈ [1] /\ 18 = LOOK_AHEAD_SIZE)
  /\ nd (replace_node initial_tree 2 1) 2 = nd initial_tree 1
  /\ cn_Parent (nd (replace_node initial_tree 2 1) 1) = UNUSED
  /\ tree_nodes (replace_node initial_tree 2 1) [2].
Proof.
  pose proof (AddString_full_match_replaces initial_tree ∅ [1] 2 0
                (replace_node initial_tree 2 1) 18 1) as H.
  destruct H as (H1 & _ & _ & H4 & _ & _ & H7 & H8 & _).
  - exact initial_tree_nodes.
  - discriminate.
  - apply not_elem_of_cons. split; [discriminate|apply not_elem_of_nil].
  - discriminate.
  - discriminate.
  - vm_compute. reflexivity.
  - discriminate.
  - split; [exact H1|]. split; [exact H4|]. split; [exact H7|exact H8].
Defined.

(** ** Steps of the encoder *)


Lemma flush_replace_unfold (fuel : nat) (host_le : bool) (f : frame) :
  flush_replace (S fuel) host_le f =
  if f_replaceCnt f =? 0 then
    if f_lookAhead f >=? 0 then
      flush_replace fuel host_le (emit_token host_le f)
    else Some f
  else
    match delete_ahead f with
    | None => None
    | Some f =>
        match advance f (f_window f) (f_lookAhead f - 1) with
        | None => None
        | Some f => flush_replace fuel host_le f
        end
    end.
Proof. reflexivity. Qed.

Lemma DeleteString_detached (tree : gmap Z CompNode) (node : Z) :
  cn_Parent (nd tree node) = UNUSED -> DeleteString tree node = Some tree.
Proof. intros H. unfold DeleteString. by rewrite H. Qed.

Lemma AddString_initial_tree (window : gmap Z Z) (newNode matchPos : Z) :
  exists tree len pos,
    AddString initial_tree window newNode matchPos = Some (tree, len, pos).
Proof.
  unfold AddString. destruct (newNode =? END_OF_STREAM); [eauto|].
  destruct tree_fuel_pos as [fuel ->]. rewrite AddString_loop_unfold.
  destruct (compare_phrase _ _ _ _ _) as [i delta]. cbv zeta.
  change (cn_RightChild (nd initial_tree TREE_ROOT)) with 1.
  change (cn_RightChild (nd initial_tree 1)) with 0.
  change (cn_LeftChild (nd initial_tree 1)) with 0.
  change (0 =? UNUSED) with true. cbv iota.
  destruct (_ && _); [eauto|]. destruct (delta >=? 0); eauto.
Qed.

(** A token that fits in the word in progress. *)
Lemma WriteBits_fits (host_le : bool) (bs : CompressBitStream)
    (headBit code numBits : Z) :
  1 <= bs_BitsLeft bs <= 32 -> 0 <= numBits < bs_BitsLeft bs - 1 ->
  WriteBits host_le bs headBit code numBits =
  mkCompressBitStream (bs_Out bs) (bs_BitsLeft bs - 1 - numBits)
    (Z.lor (Z.lor (bs_BitBuffer bs) (shl32 headBit (bs_BitsLeft bs - 1)))
       (shl32 code (bs_BitsLeft bs - 1 - numBits))).
Proof.
  intros Hb Hn. unfold WriteBits.
  rewrite (WordFacts.u32_small (bs_BitsLeft bs - 1)) by lia.
  destruct (Z.geb_spec numBits (bs_BitsLeft bs - 1)); [lia|].
  by rewrite WordFacts.u32_small by lia.
Qed.

(** The word that two literals and the terminator leave in the buffer. *)
Lemma empty_stream_buffer (b1 b2 : Z) :
  0 <= b1 < 256 -> 0 <= b2 < 256 ->
  Z.lor
    (Z.lor
       (Z.lor (Z.lor (Z.lor (Z.lor 0 (shl32 1 31)) (shl32 b1 23)) (shl32 1 22))
          (shl32 b2 14))
       (shl32 0 13))
    (shl32 0 1)
  = empty_stream_word b1 b2.
Proof.
  intros H1 H2. unfold shl32, empty_stream_word.
  rewrite !Z.shiftl_0_l, !Z.shiftl_mul_pow2 by lia.
  rewrite !WordFacts.u32_small by lia.
  rewrite !Z.lor_0_r, Z.lor_0_l.
  rewrite (WordFacts.lor_mul_pow2 1 _ 31) by lia.
  replace (1 * 2 ^ 31 + b1 * 2 ^ 23) with ((256 + b1) * 2 ^ 23) by lia.
  replace (1 * 2 ^ 22) with (2 ^ 22) by lia.
  rewrite (WordFacts.lor_mul_pow2 _ _ 23) by lia.
  replace ((256 + b1) * 2 ^ 23 + 2 ^ 22) with ((513 + 2 * b1) * 2 ^ 22) by lia.
  replace (b2 * 2 ^ 14) with (b2 * 2 ^ 14 + 0) at 1 by lia.
  rewrite Z.add_0_r.
  rewrite (WordFacts.lor_mul_pow2 _ _ 22) by lia. lia.
Qed.

(** Closing an encoder that was fed nothing: the sink receives one word. *)
Lemma DeleteCompressor_fresh (host_le : bool) (window : gmap Z Z) (a : bool) :
  0 <= rd window 1 < 256 -> 0 <= rd window 2 < 256 ->
  exists comp,
    DeleteCompressor host_le
      (mkCompressor window initial_tree 1 0 0 1 0 (InitBitStream []) false a true)
    = Some (COMP_OK, comp)
    /\ bs_Out (ch_BitStream comp)
       = [byteswap_if_little_endian host_le
            (empty_stream_word (rd window 1) (rd window 2))].
Proof.
  intros H1 H2.
  destruct (AddString_initial_tree window 3 0) as (t & len & pos & Hadd).
  unfold DeleteCompressor, FlushCompressor, load_frame, flush_fuel.
  cbn [ch_Cookie negb ch_SecondPass ch_Tree ch_Window ch_BitStream ch_LookAhead
       ch_CurrentPos ch_ReplaceCnt ch_MatchLen ch_MatchPos
       f_lookAhead f_replaceCnt].
  ev (1 >=? 0). cbv iota.
  ev (Z.to_nat (0 + 2 * Z.max 1 0 + 5)).
  unfold emit_token at 1.
  cbn [f_matchLen f_lookAhead f_tree f_window f_bs f_currentPos f_matchPos].
  ev (0 >? 1). cbv iota. ev (0 <=? BREAK_EVEN). cbv iota.
  rewrite flush_replace_unfold. cbn [f_replaceCnt]. ev (1 =? 0). cbv iota.
  unfold delete_ahead at 1.
  cbn [f_matchLen f_lookAhead f_tree f_window f_bs f_currentPos f_matchPos
       f_replaceCnt].
  rewrite DeleteString_detached by reflexivity.
  unfold advance at 1.
  cbn [f_matchLen f_lookAhead f_tree f_window f_bs f_currentPos f_matchPos
       f_replaceCnt].
  ev (1 - 1 =? 0). cbv iota. ev (MOD_WINDOW (1 + 1)). ev (u32 (1 - 1)). ev (1 - 1).
  rewrite flush_replace_unfold. cbn [f_replaceCnt f_lookAhead].
  ev (0 =? 0). ev (0 >=? 0). cbv iota.
  unfold emit_token at 1.
  cbn [f_matchLen f_lookAhead f_tree f_window f_bs f_currentPos f_matchPos].
  ev (0 >? 0). cbv iota. ev (0 <=? BREAK_EVEN). cbv iota.
  rewrite flush_replace_unfold. cbn [f_replaceCnt]. ev (1 =? 0). cbv iota.
  unfold delete_ahead at 1.
  cbn [f_matchLen f_lookAhead f_tree f_window f_bs f_currentPos f_matchPos
       f_replaceCnt].
  rewrite DeleteString_detached by reflexivity.
  unfold advance at 1.
  cbn [f_matchLen f_lookAhead f_tree f_window f_bs f_currentPos f_matchPos
       f_replaceCnt].
  ev (0 - 1 =? 0). cbv iota. ev (MOD_WINDOW (2 + 1)). ev (u32 (1 - 1)). ev (0 - 1).
  rewrite Hadd.
  rewrite flush_replace_unfold. cbn [f_replaceCnt f_lookAhead].
  ev (0 =? 0). ev (-1 >=? 0). cbv iota.
  cbn [f_bs f_tree].
  eexists. split; [reflexivity|]. cbn [ch_BitStream].
  unfold InitBitStream.
  rewrite (WriteBits_fits _ (mkCompressBitStream _ 32 _)) by (cbn; lia).
  cbn [bs_Out bs_BitsLeft bs_BitBuffer].
  rewrite (WriteBits_fits _ (mkCompressBitStream _ (32 - 1 - 8) _))
    by (cbn; lia).
  cbn [bs_Out bs_BitsLeft bs_BitBuffer].
  rewrite (WriteBits_fits _ (mkCompressBitStream _ (32 - 1 - 8 - 1 - 8) _))
    by (cbn; unfold INDEX_BIT_COUNT; lia).
  cbn [bs_Out bs_BitsLeft bs_BitBuffer].
  unfold CleanupBitStream. cbn [bs_Out bs_BitsLeft bs_BitBuffer].
  unfold INDEX_BIT_COUNT, END_OF_STREAM.
  ev (32 - 1 - 8 - 1 - 8 - 1 - 12 =? 32). cbv iota.
  ev (32 - 1). ev (31 - 8). ev (23 - 1). ev (22 - 8). ev (14 - 1). ev (13 - 12).
  by rewrite empty_stream_buffer.
Qed.

Lemma CreateCompressor_result (out : list Z) (workbuf fresh : option Compressor)
    (comp : Compressor) :
  CreateCompressor (Some out) workbuf fresh = (COMP_OK, Some comp) ->
  exists window a,
    comp = mkCompressor window initial_tree 1 0 0 1 0 (InitBitStream out)
             false a true.
Proof.
  unfold CreateCompressor. intros H.
  destruct workbuf as [b|]; [|destruct fresh as [b|]]; inversion H; eauto.
Qed.

Lemma FeedCompressor_nil (host_le : bool) (comp : Compressor) :
  ch_Cookie comp = true -> FeedCompressor host_le comp [] = Some (COMP_OK, comp).
Proof. intros H. unfold FeedCompressor. by rewrite H. Qed.


(** ** Feeding in several calls *)

Lemma FeedCompressor_feed_bytes (host_le : bool) (comp : Compressor)
    (data : list Z) :
  ch_Cookie comp = true ->
  FeedCompressor host_le comp data
  = match feed_bytes host_le comp
            (take (Z.to_nat (u32 (Z.of_nat (length data) * 4)))
               (words_bytes host_le data)) with
    | Some comp' => Some (COMP_OK, comp')
    | None => None
    end.
Proof.
  intros Hc. unfold FeedCompressor, feed_bytes. rewrite Hc. cbn [negb]. cbv zeta.
  destruct (take _ _) as [|b src']; [reflexivity|].
  destruct (ch_SecondPass comp).
  - destruct (feed_newData _ _); [|reflexivity].
    by destruct (feed_replace _ _ _).
  - destruct (feed_fill _ _ _) as [[window lookAhead] [src|]]; [|reflexivity].
    by destruct (feed_replace _ _ _).
Qed.

Lemma word_bytes_length (host_le : bool) (w : Z) :
  length (word_bytes host_le w) = 4%nat.
Proof. unfold word_bytes. by destruct host_le. Qed.

Lemma words_bytes_length (host_le : bool) (ws : list Z) :
  length (words_bytes host_le ws) = (4 * length ws)%nat.
Proof.
  unfold words_bytes. induction ws as [|w ws IH]; [reflexivity|].
  cbn [map concat]. rewrite length_app, word_bytes_length, IH. cbn [length]. lia.
Qed.

Lemma words_bytes_app (host_le : bool) (ws1 ws2 : list Z) :
  words_bytes host_le (ws1 ++ ws2)
  = words_bytes host_le ws1 ++ words_bytes host_le ws2.
Proof. unfold words_bytes. by rewrite map_app, concat_app. Qed.

(** Below 2^30 words the byte count does not wrap: all the bytes are read. *)
Lemma FeedCompressor_all_bytes (host_le : bool) (comp : Compressor)
    (data : list Z) :
  ch_Cookie comp = true -> Z.of_nat (length data) < 2 ^ 30 ->
  FeedCompressor host_le comp data
  = match feed_bytes host_le comp (words_bytes host_le data) with
    | Some comp' => Some (COMP_OK, comp')
    | None => None
    end.
Proof.
  intros Hc Hlen. rewrite FeedCompressor_feed_bytes by done.
  rewrite WordFacts.u32_small by lia.
  rewrite take_ge; [reflexivity|]. rewrite words_bytes_length. lia.
Qed.

Lemma feed_replace_unfold (host_le : bool) (f : frame) (src : list Z) :
  feed_replace host_le f src =
  let body (f : frame) : option frame :=
    match delete_ahead f with
    | None => None
    | Some f =>
        match src with
        | [] => Some f
        | b :: src' =>
            match feed_newData f b with
            | None => None
            | Some f => feed_replace host_le f src'
            end
        end
    end in
  if f_replaceCnt f =? 0 then
    let f := emit_token host_le f in
    if f_replaceCnt f =? 0 then None else body f
  else body f.
Proof. by destruct src. Qed.

(** Running out of data in the inner loop and coming back at [newData] is
    the same as not running out. *)
Lemma feed_replace_app (host_le : bool) (src1 : list Z) (b : Z) (src2 : list Z)
    (f : frame) :
  feed_replace host_le f (src1 ++ b :: src2)
  = match feed_replace host_le f src1 with
    | None => None
    | Some f1 =>
        match feed_newData f1 b with
        | None => None
        | Some f2 => feed_replace host_le f2 src2
        end
    end.
Proof.
  revert f. induction src1 as [|a src1 IH]; intros f.
  - cbn [app]. rewrite (feed_replace_unfold _ f (b :: src2)).
    rewrite (feed_replace_unfold _ f []). cbv zeta.
    destruct (f_replaceCnt f =? 0).
    + destruct (f_replaceCnt (emit_token host_le f) =? 0); [reflexivity|].
      by destruct (delete_ahead _).
    + by destruct (delete_ahead _).
  - cbn [app]. rewrite (feed_replace_unfold _ f (a :: src1 ++ b :: src2)).
    rewrite (feed_replace_unfold _ f (a :: src1)). cbv zeta.
    destruct (f_replaceCnt f =? 0).
    + destruct (f_replaceCnt (emit_token host_le f) =? 0); [reflexivity|].
      destruct (delete_ahead _) as [f1|]; [|reflexivity].
      destruct (feed_newData f1 a) as [f2|]; [|reflexivity]. apply IH.
    + destruct (delete_ahead _) as [f1|]; [|reflexivity].
      destruct (feed_newData f1 a) as [f2|]; [|reflexivity]. apply IH.
Qed.

Lemma feed_fill_unfold (window : gmap Z Z) (lookAhead : Z) (src : list Z) :
  feed_fill window lookAhead src =
  if lookAhead <=? LOOK_AHEAD_SIZE then
    match src with
    | [] => (window, lookAhead, None)
    | b :: src' => feed_fill (<[lookAhead := b]> window) (lookAhead + 1) src'
    end
  else (window, lookAhead, Some src).
Proof. by destruct src. Qed.

(** Running out of data while the look-ahead buffer is loaded. *)
Lemma feed_fill_app (src1 src2 : list Z) (window : gmap Z Z) (lookAhead : Z) :
  feed_fill window lookAhead (src1 ++ src2)
  = match feed_fill window lookAhead src1 with
    | (window1, lookAhead1, None) => feed_fill window1 lookAhead1 src2
    | (window1, lookAhead1, Some src) => (window1, lookAhead1, Some (src ++ src2))
    end.
Proof.
  revert window lookAhead. induction src1 as [|a src1 IH]; intros window lookAhead.
  - cbn [app]. rewrite (feed_fill_unfold window lookAhead []).
    destruct (lookAhead <=? LOOK_AHEAD_SIZE) eqn:E; [reflexivity|].
    rewrite feed_fill_unfold, E. reflexivity.
  - cbn [app]. rewrite (feed_fill_unfold window lookAhead (a :: src1 ++ src2)).
    rewrite (feed_fill_unfold window lookAhead (a :: src1)).
    destruct (lookAhead <=? LOOK_AHEAD_SIZE); [apply IH|reflexivity].
Qed.

Lemma load_save_frame (comp : Compressor) (f : frame) :
  load_frame (save_frame comp f) = f.
Proof. by destruct f. Qed.

Lemma feed_bytes_nil (host_le : bool) (comp : Compressor) :
  feed_bytes host_le comp [] = Some comp.
Proof. reflexivity. Qed.

Lemma feed_bytes_second_pass (host_le : bool) (comp : Compressor) (f : frame)
    (b : Z) (src : list Z) :
  feed_bytes host_le (save_frame comp f) (b :: src)
  = match feed_newData f b with
    | None => None
    | Some f1 =>
        match feed_replace host_le f1 src with
        | None => None
        | Some f2 => Some (save_frame comp f2)
        end
    end.
Proof.
  unfold feed_bytes. rewrite load_save_frame. cbn [save_frame ch_SecondPass].
  destruct (feed_newData f b); [|reflexivity].
  by destruct (feed_replace _ _ _).
Qed.

(** The bytes of two calls, read in one call, leave the encoder in the same
    state. *)
Lemma feed_bytes_app (host_le : bool) (comp : Compressor) (src1 src2 : list Z) :
  feed_bytes host_le comp (src1 ++ src2)
  = match feed_bytes host_le comp src1 with
    | None => None
    | Some comp1 => feed_bytes host_le comp1 src2
    end.
Proof.
  destruct src2 as [|b src2].
  { rewrite app_nil_r. by destruct (feed_bytes _ _ _). }
  destruct src1 as [|a src1]; [reflexivity|].
  unfold feed_bytes at 1 2. cbn [app]. cbv zeta.
  destruct (ch_SecondPass comp) eqn:Hsp.
  - destruct (feed_newData _ a) as [f1|]; [|reflexivity].
    rewrite feed_replace_app.
    destruct (feed_replace host_le f1 src1) as [f2|]; [|reflexivity].
    rewrite feed_bytes_second_pass.
    destruct (feed_newData f2 b); [|reflexivity].
    by destruct (feed_replace _ _ _).
  - change (a :: src1 ++ b :: src2) with ((a :: src1) ++ b :: src2).
    rewrite feed_fill_app.
    destruct (feed_fill _ _ (a :: src1)) as [[window1 lookAhead1] [src|]].
    + rewrite feed_replace_app.
      destruct (feed_replace host_le _ src) as [f2|]; [|reflexivity].
      rewrite feed_bytes_second_pass.
      destruct (feed_newData f2 b); [|reflexivity].
      by destruct (feed_replace _ _ _).
    + unfold feed_bytes, load_frame.
      cbn [ch_SecondPass ch_Window ch_Tree ch_LookAhead ch_MatchLen ch_MatchPos
           ch_CurrentPos ch_ReplaceCnt ch_BitStream ch_AllocatedStructure
           ch_Cookie f_window f_lookAhead f_tree f_bs f_currentPos f_replaceCnt
           f_matchLen f_matchPos].
      try rewrite Hsp.
      destruct (feed_fill window1 lookAhead1 (b :: src2))
        as [[window2 lookAhead2] [src|]]; [|reflexivity].
      by destruct (feed_replace _ _ _).
Qed.

Lemma feed_bytes_cookie (host_le : bool) (comp comp' : Compressor)
    (src : list Z) :
  feed_bytes host_le comp src = Some comp' -> ch_Cookie comp' = ch_Cookie comp.
Proof.
  unfold feed_bytes. destruct src as [|b src]; [by intros [= <-]|].
  destruct (ch_SecondPass comp).
  - destruct (feed_newData _ _); [|done].
    destruct (feed_replace _ _ _); [|done]. by intros [= <-].
  - destruct (feed_fill _ _ _) as [[window lookAhead] [src1|]].
    + destruct (feed_replace _ _ _); [|done]. by intros [= <-].
    + by intros [= <-].
Qed.

(** Chunks that hold fewer than 2^30 words in all: feeding them in turn is
    reading all their bytes in one call. *)
Lemma feed_chunks_bytes (host_le : bool) (chunks : list (list Z))
    (comp : Compressor) :
  ch_Cookie comp = true -> Z.of_nat (length (concat chunks)) < 2 ^ 30 ->
  feed_chunks host_le comp chunks
  = feed_bytes host_le comp (words_bytes host_le (concat chunks)).
Proof.
  revert comp. induction chunks as [|data chunks IH]; intros comp Hc Hlen.
  - reflexivity.
  - cbn [concat] in *. rewrite length_app in Hlen.
    cbn [feed_chunks]. rewrite FeedCompressor_all_bytes by (done || lia).
    rewrite words_bytes_app, feed_bytes_app.
    destruct (feed_bytes host_le comp (words_bytes host_le data)) as [comp1|] eqn:E;
      [|reflexivity].
    apply IH; [|lia]. apply feed_bytes_cookie in E. congruence.
Qed.

(** C7 fails as it is written, for an input of 2^30 + 1 words: the byte
    count [numDataWords * 4] is kept in 32 bits.  Fed as one chunk, the count
    is 4 and only the first word, 0x41424344, is compressed; fed as a chunk
    of 2^30 words and a chunk of one word, the first call reads nothing and
    only the last word, 0x45464748, is compressed. *)
Lemma FeedCompressor_byte_count_wraps :
  Z.of_nat (length (wrap_chunk ++ [0x45464748])) = 2 ^ 30 + 1
  /\ compress_chunks false zero_Compressor [wrap_chunk ++ [0x45464748]]
     = compress_chunks false zero_Compressor [[0x41424344]]
  /\ compress_chunks false zero_Compressor [wrap_chunk; [0x45464748]]
     = compress_chunks false zero_Compressor [[0x45464748]]
  /\ compress_chunks false zero_Compressor [[0x41424344]]
     = Some [0xA0D0A874; 0x48040000; 0x00000000]
  /\ compress_chunks false zero_Compressor [[0x45464748]]
     = Some [0xA2D1A8F4; 0x88040000; 0x00000000].
Proof.
  assert (Hl : Z.of_nat (length wrap_chunk) = 2 ^ 30).
  { unfold wrap_chunk. cbn [length]. rewrite repeat_length. lia. }
  split; [rewrite length_app; cbn [length]; lia|].
  split; [|split; [|split; vm_compute; reflexivity]].
  - unfold compress_chunks.
    destruct (CreateCompressor _ _ _) as [r [comp|]] eqn:Hc; [|reflexivity].
    assert (Hck : ch_Cookie comp = true) by (by inversion Hc).
    cbn [feed_chunks]. rewrite !FeedCompressor_feed_bytes by done.
    rewrite length_app, Nat2Z.inj_add, Hl.
    change (Z.of_nat (length [0x45464748])) with 1.
    change (Z.to_nat (u32 ((2 ^ 30 + 1) * 4))) with 4%nat.
    change (Z.to_nat (u32 (Z.of_nat (length [0x41424344]) * 4))) with 4%nat.
    reflexivity.
  - unfold compress_chunks.
    destruct (CreateCompressor _ _ _) as [r [comp|]] eqn:Hc; [|reflexivity].
    assert (Hck : ch_Cookie comp = true) by (by inversion Hc).
    cbn [feed_chunks]. rewrite (FeedCompressor_feed_bytes _ _ wrap_chunk) by done.
    rewrite Hl. change (Z.to_nat (u32 (2 ^ 30 * 4))) with 0%nat.
    rewrite take_0. reflexivity.
Qed.

(** C7, amended with the bound under which the byte count of a call does
    not wrap: for every input of fewer than 2^30 words and every partition
    of it into chunks, feeding the chunks in turn and closing gives the
    output of feeding the input as one chunk and closing; so any two
    partitions of the input give the same output, among them the partitions
    [1, 999], [500, 500] and [333, 333, 334] of an input of 1000 words. *)
Theorem FeedCompressor_streaming (host_le : bool) (buffer : Compressor)
    (chunks : list (list Z)) :
  Z.of_nat (length (concat chunks)) < 2 ^ 30 ->
  compress_chunks host_le buffer chunks
  = compress_chunks host_le buffer [concat chunks]
  /\ (forall chunks', concat chunks' = concat chunks ->
      compress_chunks host_le buffer chunks'
      = compress_chunks host_le buffer chunks)
  /\ (length (concat chunks) = 1000%nat ->
      let X := concat chunks in
      compress_chunks host_le buffer [take 1 X; drop 1 X]
      = compress_chunks host_le buffer [take 500 X; drop 500 X]
      /\ compress_chunks host_le buffer [take 500 X; drop 500 X]
         = compress_chunks host_le buffer
             [take 333 X; take 333 (drop 333 X); drop 666 X]).
Proof.
  intros Hlen.
  assert (Hall : forall chunks', concat chunks' = concat chunks ->
            compress_chunks host_le buffer chunks'
            = compress_chunks host_le buffer [concat chunks]).
  { intros chunks' Heq. unfold compress_chunks.
    destruct (CreateCompressor _ _ _) as [r [comp|]] eqn:Hc; [|reflexivity].
    assert (Hck : ch_Cookie comp = true) by (by inversion Hc).
    rewrite !feed_chunks_bytes; [| done | | done |].
    - by rewrite Heq, (concat_cons (concat chunks) []), concat_nil, app_nil_r.
    - by rewrite (concat_cons (concat chunks) []), concat_nil, app_nil_r.
    - by rewrite Heq. }
  split; [by apply Hall|].
  split; [intros chunks' Heq; by rewrite (Hall chunks'), (Hall chunks)|].
  intros _ X. split.
  - rewrite (Hall [take 1 X; drop 1 X]), (Hall [take 500 X; drop 500 X]); [done| |].
    + cbn [concat]. by rewrite app_nil_r, take_drop.
    + cbn [concat]. by rewrite app_nil_r, take_drop.
  - rewrite (Hall [take 500 X; drop 500 X]),
      (Hall [take 333 X; take 333 (drop 333 X); drop 666 X]); [done| |].
    + cbn [concat]. rewrite app_nil_r.
      transitivity (take 333 X ++ drop 333 X); [|apply take_drop]. f_equal.
      transitivity (take 333 (drop 333 X) ++ drop 333 (drop 333 X));
        [|apply take_drop].
      f_equal. by rewrite drop_drop.
    + cbn [concat]. by rewrite app_nil_r, take_drop.
Qed.

Lemma FeedCompressor_streaming_witness :
  Z.of_nat (length (concat [[0x41424344]; [0x45464748; 0x41424344]])) < 2 ^ 30
  /\ compress_chunks true zero_Compressor [[0x41424344]; [0x45464748; 0x41424344]]
     = compress_chunks true zero_Compressor [[0x41424344; 0x45464748; 0x41424344]].
Proof.
  assert (H : Z.of_nat (length (concat [[0x41424344]; [0x45464748; 0x41424344]]))
              < 2 ^ 30) by (cbn; lia).
  split; [exact H|].
  exact (proj1 (FeedCompressor_streaming true zero_Compressor
                  [[0x41424344]; [0x45464748; 0x41424344]] H)).
Defined.

End CompressFacts.

(** * Properties of the decoder *)

Module DecompressFacts.
Import Decompress DecompressSpec.

(** ** ReadBits *)

(** C9, as it is written, fails: with three bits left in the buffer and no
    word left to fetch, a request for eight bits returns 0 and sets the
    error flag, but the next request, for one bit, returns 1. *)
Lemma ReadBits_after_underflow_nonzero :
  let bs := mkDecompressBitStream [] 0 3 7 false in
  bs_NumDataWords bs = 0
  /\ 8 > bs_BitsLeft bs
  /\ snd (ReadBits false bs 8) = 0
  /\ bs_Error (fst (ReadBits false bs 8)) = true
  /\ snd (ReadBits false (fst (ReadBits false bs 8)) 1) = 1.
Proof. repeat split; reflexivity. Qed.

(** C9, amended: when no word is left to fetch, a [ReadBits] request for
    more bits than the buffer holds returns 0, sets the error flag and
    changes nothing else; after it every run of [ReadBits] calls that each
    ask for more bits than the buffer holds returns only zeros, and the
    error flag stays set.  (A request that fits the buffer is still served
    from it.) *)
Theorem ReadBits_underflow (host_le : bool) (bs : DecompressBitStream)
    (numBits : Z) (counts : list Z) :
  bs_NumDataWords bs = 0 ->
  numBits > bs_BitsLeft bs ->
  Forall (fun n => n > bs_BitsLeft bs) counts ->
  let bs' :=
    mkDecompressBitStream (bs_Data bs) (bs_NumDataWords bs) (bs_BitsLeft bs)
      (bs_BitBuffer bs) true in
  ReadBits host_le bs numBits = (bs', 0)
  /\ read_all host_le bs' counts = (bs', map (fun _ => 0) counts).
Proof.
  intros Hn Hb Hc.
  assert (Hfail : forall b n,
             bs_NumDataWords b = 0 -> n > bs_BitsLeft b ->
             ReadBits host_le b n =
             (mkDecompressBitStream (bs_Data b) (bs_NumDataWords b)
                (bs_BitsLeft b) (bs_BitBuffer b) true, 0)).
  { intros b n Hn' Hb'. unfold ReadBits.
    destruct (Z.gtb_spec n (bs_BitsLeft b)); [|lia].
    rewrite Hn'. reflexivity. }
  split; [by apply Hfail|].
  induction Hc as [|n counts Hgt Hc IH]; [reflexivity|].
  simpl. rewrite Hfail by (simpl; assumption). simpl.
  rewrite IH. reflexivity.
Qed.

Lemma ReadBits_underflow_witness :
  let bs := mkDecompressBitStream [] 0 3 7 false in
  ReadBits true bs 8 = (mkDecompressBitStream [] 0 3 7 true, 0)
  /\ read_all true (mkDecompressBitStream [] 0 3 7 true) [4; 12; 8]
     = (mkDecompressBitStream [] 0 3 7 true, [0; 0; 0]).
Proof.
  apply (ReadBits_underflow true (mkDecompressBitStream [] 0 3 7 false) 8
           [4; 12; 8]).
  - reflexivity.
  - simpl. lia.
  - repeat constructor; simpl; lia.
Defined.

(** ** Steps of the decoder *)


Lemma decode_loop_unfold (fuel : nat) (host_le : bool) (d : dframe) :
  decode_loop (S fuel) host_le d =
  if bs_NumDataWords (d_bs d) =? 0 then Some d
  else
    let '(d, stop) := decode_token host_le d in
    if stop then Some d else decode_loop fuel host_le d.
Proof. reflexivity. Qed.

(** A new decoder that is fed one word whose first bit is set reads one
    literal from it and stops, since no word is left to fetch: the sink
    receives nothing, and closing reports no error. *)
Lemma decode_single_word_literal (host_le : bool) (window : gmap Z Z)
    (bs0 : DecompressBitStream) (a : bool) (w : Z) :
  2 ^ 31 <= w < 2 ^ 32 ->
  exists decomp,
    FeedDecompressor host_le
      (mkDecompressor [] 0 4 1 window (InitBitStream bs0) a true)
      [byteswap_if_little_endian host_le w]
    = Some (COMP_OK, decomp)
    /\ DeleteDecompressor host_le decomp = (COMP_OK, []).
Proof.
  intros Hw.
  assert (Htag : Z.land (shr32 w 31) (mask 1) = 1).
  { unfold shr32. rewrite Z.shiftr_div_pow2 by lia.
    assert (Hq : w / 2 ^ 31 = 1).
    { symmetry. apply (Z.div_unique_pos _ _ _ (w - 2 ^ 31)); lia. }
    by rewrite Hq. }
  unfold FeedDecompressor, internalFeedDecompressor, FeedBitStream, InitBitStream,
    decode_fuel.
  cbn [dh_Cookie negb dh_Out dh_WordBuffer dh_BytesLeft dh_Window dh_Pos
       dh_BitStream dh_AllocatedStructure bs_Data bs_NumDataWords bs_BitsLeft
       bs_BitBuffer bs_Error length].
  ev (Z.to_nat (32 * Z.of_nat 1 + 0 + 1)). ev (Z.of_nat 1).
  rewrite decode_loop_unfold. cbn [d_bs bs_NumDataWords]. ev (1 =? 0). cbv iota.
  unfold decode_token at 1. cbn [d_bs].
  unfold ReadBits at 1.
  cbn [bs_Data bs_NumDataWords bs_BitsLeft bs_BitBuffer bs_Error hd tail].
  ev (1 >? 0). ev (0 =? 0). ev (1 =? 0). cbv iota. ev (u32 (1 - 1)).
  rewrite WordFacts.byteswap_if_little_endian_involutive by lia.
  unfold take_bits at 1.
  cbn [bs_Data bs_NumDataWords bs_BitsLeft bs_BitBuffer bs_Error].
  ev (u32 (32 - 1)). rewrite Htag. ev (Z.lor 0 1 =? 0). cbv iota.
  unfold ReadBits at 1.
  cbn [bs_Data bs_NumDataWords bs_BitsLeft bs_BitBuffer bs_Error].
  ev (8 >? 31). cbv iota.
  unfold take_bits at 1.
  cbn [bs_Data bs_NumDataWords bs_BitsLeft bs_BitBuffer bs_Error].
  unfold put_byte, with_bs.
  cbn [d_out d_wordBuffer d_bytesLeft d_window d_pos d_bs].
  ev (4 =? 0). cbv iota.
  rewrite decode_loop_unfold. cbn [d_bs bs_NumDataWords]. ev (0 =? 0). cbv iota.
  cbn [d_out d_wordBuffer d_bytesLeft d_window d_pos d_bs].
  eexists. split; [reflexivity|].
  unfold DeleteDecompressor.
  cbn [dh_Cookie negb dh_Out dh_WordBuffer dh_BytesLeft dh_BitStream
       bs_NumDataWords bs_Error].
  ev (u32 (4 - 1) =? 0). ev (0 =? 0). reflexivity.
Qed.

(** ** The three ways of ReadBits *)


Lemma ReadBits_cases (host_le : bool) (bs : DecompressBitStream) (numBits : Z) :
  0 <= numBits <= 32 -> bs_ok bs ->
  let bs' := fst (ReadBits host_le bs numBits) in
  (numBits <= bs_BitsLeft bs
   /\ bs' = mkDecompressBitStream (bs_Data bs) (bs_NumDataWords bs)
              (bs_BitsLeft bs - numBits) (bs_BitBuffer bs) (bs_Error bs))
  \/ (bs_BitsLeft bs < numBits /\ bs_NumDataWords bs <> 0
      /\ bs' = mkDecompressBitStream (tail (bs_Data bs)) (bs_NumDataWords bs - 1)
                 (32 - (numBits - bs_BitsLeft bs))
                 (byteswap_if_little_endian host_le (hd 0 (bs_Data bs)))
                 (bs_Error bs))
  \/ (bs_BitsLeft bs < numBits /\ bs_NumDataWords bs = 0
      /\ bs' = mkDecompressBitStream (bs_Data bs) (bs_NumDataWords bs)
                 (bs_BitsLeft bs) (bs_BitBuffer bs) true).
Proof.
  intros Hn [Hb Hw]. unfold ReadBits.
  destruct (Z.gtb_spec numBits (bs_BitsLeft bs)) as [Hgt|Hle].
  - destruct (Z.eqb_spec (bs_NumDataWords bs) 0) as [H0|H0].
    + right. right. by rewrite H0.
    + right. left. split; [lia|]. split; [done|].
      unfold take_bits. cbn [fst bs_Data bs_NumDataWords bs_BitsLeft bs_BitBuffer
                                bs_Error].
      rewrite (WordFacts.u32_small (bs_NumDataWords bs - 1)) by lia.
      destruct (Z.eqb_spec (bs_BitsLeft bs) 0) as [Hz|Hz].
      * rewrite Hz, WordFacts.u32_small by lia. do 3 f_equal. lia.
      * rewrite (WordFacts.u32_small (numBits - bs_BitsLeft bs)) by lia.
        by rewrite WordFacts.u32_small by lia.
  - left. split; [lia|]. unfold take_bits. cbn [fst].
    by rewrite WordFacts.u32_small by lia.
Qed.

Lemma ReadBits_ok (host_le : bool) (bs : DecompressBitStream) (numBits : Z) :
  0 <= numBits <= 32 -> bs_ok bs -> bs_ok (fst (ReadBits host_le bs numBits)).
Proof.
  intros Hn Hok. pose proof Hok as [Hb Hw].
  destruct (ReadBits_cases host_le bs numBits Hn Hok)
    as [(H1 & ->)|[(H1 & H2 & ->)|(H1 & H2 & ->)]]; split; cbn; lia.
Qed.

(** A read that finds its bits, in the buffer or in a word it can fetch,
    leaves the error flag as it is and uses up exactly its bits. *)
Lemma ReadBits_served (host_le : bool) (bs : DecompressBitStream) (numBits : Z) :
  0 <= numBits <= 32 -> bs_ok bs ->
  numBits <= bs_BitsLeft bs \/ bs_NumDataWords bs <> 0 ->
  let bs' := fst (ReadBits host_le bs numBits) in
  bs_Error bs' = bs_Error bs
  /\ bits_unread bs' = bits_unread bs - numBits
  /\ (bs_NumDataWords bs' = bs_NumDataWords bs
      \/ 32 - numBits <= bs_BitsLeft bs').
Proof.
  intros Hn Hok Hs. pose proof Hok as [Hb Hw]. unfold bits_unread.
  destruct (ReadBits_cases host_le bs numBits Hn Hok)
    as [(H1 & ->)|[(H1 & H2 & ->)|(H1 & H2 & ->)]]; cbn; [| |lia];
    (split; [done|]); split; lia.
Qed.

(** ** The token loop *)

Lemma put_byte_bs (host_le : bool) (d : dframe) (c : Z) :
  d_bs (put_byte host_le d c) = d_bs d.
Proof. unfold put_byte. by destruct (d_bytesLeft d =? 0). Qed.

Lemma copy_match_bs (host_le : bool) (n : nat) :
  forall d i, d_bs (copy_match host_le d i n) = d_bs d.
Proof.
  induction n as [|n IH]; intros d i; [done|].
  simpl. by rewrite IH, put_byte_bs.
Qed.

(** A token that starts while a word is left to fetch finds all its bits:
    it needs at most one word.  So it never sets the error flag, and it
    reads at least one bit. *)
Lemma decode_token_served (host_le : bool) (d : dframe) :
  bs_ok (d_bs d) -> bs_NumDataWords (d_bs d) <> 0 ->
  let d' := fst (decode_token host_le d) in
  bs_ok (d_bs d')
  /\ bs_Error (d_bs d') = bs_Error (d_bs d)
  /\ bits_unread (d_bs d') < bits_unread (d_bs d).
Proof.
  intros Hok Hn. unfold decode_token.
  pose proof (ReadBits_ok host_le (d_bs d) 1 ltac:(lia) Hok) as Hok1.
  pose proof (ReadBits_served host_le (d_bs d) 1 ltac:(lia) Hok ltac:(by right))
    as (He1 & Hu1 & Hc1).
  destruct (ReadBits host_le (d_bs d) 1) as [bs1 tag]. cbn [fst] in *.
  pose proof Hok as [Hb Hw]. pose proof Hok1 as [Hb1 Hw1].
  unfold bits_unread in *.
  destruct (tag =? 0).
  - assert (Hs2 : INDEX_BIT_COUNT <= bs_BitsLeft bs1 \/ bs_NumDataWords bs1 <> 0)
      by (unfold INDEX_BIT_COUNT; lia).
    pose proof (ReadBits_ok host_le bs1 INDEX_BIT_COUNT
                  ltac:(unfold INDEX_BIT_COUNT; lia) Hok1) as Hok2.
    pose proof (ReadBits_served host_le bs1 INDEX_BIT_COUNT
                  ltac:(unfold INDEX_BIT_COUNT; lia) Hok1 Hs2)
      as (He2 & Hu2 & Hc2).
    destruct (ReadBits host_le bs1 INDEX_BIT_COUNT) as [bs2 matchPos].
    cbn [fst] in *. pose proof Hok2 as [Hb2 Hw2].
    unfold bits_unread, INDEX_BIT_COUNT in *.
    destruct (matchPos =? END_OF_STREAM).
    + cbn. split; [done|]. split; [congruence|lia].
    + assert (Hs3 : LENGTH_BIT_COUNT <= bs_BitsLeft bs2
                    \/ bs_NumDataWords bs2 <> 0)
        by (unfold LENGTH_BIT_COUNT; lia).
      pose proof (ReadBits_ok host_le bs2 LENGTH_BIT_COUNT
                    ltac:(unfold LENGTH_BIT_COUNT; lia) Hok2) as Hok3.
      pose proof (ReadBits_served host_le bs2 LENGTH_BIT_COUNT
                    ltac:(unfold LENGTH_BIT_COUNT; lia) Hok2 Hs3)
        as (He3 & Hu3 & Hc3).
      destruct (ReadBits host_le bs2 LENGTH_BIT_COUNT) as [bs3 len].
      cbn [fst] in *. rewrite copy_match_bs. cbn.
      unfold bits_unread, LENGTH_BIT_COUNT in *.
      split; [done|]. split; [congruence|lia].
  - assert (Hs2 : 8 <= bs_BitsLeft bs1 \/ bs_NumDataWords bs1 <> 0) by lia.
    pose proof (ReadBits_ok host_le bs1 8 ltac:(lia) Hok1) as Hok2.
    pose proof (ReadBits_served host_le bs1 8 ltac:(lia) Hok1 Hs2)
      as (He2 & Hu2 & Hc2).
    destruct (ReadBits host_le bs1 8) as [bs2 c]. cbn [fst] in *.
    rewrite put_byte_bs. cbn. unfold bits_unread in *.
    split; [done|]. split; [congruence|lia].
Qed.

(** The loop ends, with the fuel of [decode_fuel]; it leaves the error flag
    as it found it; and it stops either on END_OF_STREAM or with no word
    left to fetch. *)
Lemma decode_loop_stop_total (host_le : bool) (fuel : nat) :
  forall d,
    bs_ok (d_bs d) ->
    (Z.to_nat (bits_unread (d_bs d)) < fuel)%nat ->
    exists d' stop,
      decode_loop_stop fuel host_le d = Some (d', stop)
      /\ bs_ok (d_bs d')
      /\ bs_Error (d_bs d') = bs_Error (d_bs d)
      /\ (stop = false -> bs_NumDataWords (d_bs d') = 0)
      /\ (bs_NumDataWords (d_bs d) <> 0 ->
          bits_unread (d_bs d') < bits_unread (d_bs d)).
Proof.
  induction fuel as [|fuel IH]; intros d Hok Hf; [lia|].
  simpl. destruct (Z.eqb_spec (bs_NumDataWords (d_bs d)) 0) as [H0|H0].
  - exists d, false. split; [done|]. split; [done|]. split; [done|].
    split; [done|]. intros Hc. contradiction.
  - pose proof (decode_token_served host_le d Hok H0) as (Hok1 & He1 & Hu1).
    destruct (decode_token host_le d) as [d1 stop]. cbn [fst] in *.
    destruct stop.
    + exists d1, true. split; [done|]. split; [done|]. split; [done|].
      split; [discriminate|]. intros _. done.
    + pose proof Hok as [Hb Hw]. pose proof Hok1 as [Hb1 Hw1].
      destruct (IH d1 Hok1) as (d' & stop & Hl & Hok' & He' & Hs' & Hu').
      { unfold bits_unread in *. lia. }
      exists d', stop. split; [done|]. split; [done|]. split; [congruence|].
      split; [done|]. intros _.
      destruct (Z.eqb_spec (bs_NumDataWords (d_bs d1)) 0) as [H1|H1].
      * destruct fuel; [discriminate Hl|]. simpl in Hl.
        destruct (Z.eqb_spec (bs_NumDataWords (d_bs d1)) 0); [|done].
        inversion Hl; subst. lia.
      * specialize (Hu' H1). lia.
Qed.

Lemma decode_loop_stop_fst (host_le : bool) (fuel : nat) :
  forall d, decode_loop fuel host_le d = fst <$> decode_loop_stop fuel host_le d.
Proof.
  induction fuel as [|fuel IH]; intros d; [done|].
  simpl. destruct (bs_NumDataWords (d_bs d) =? 0); [done|].
  destruct (decode_token host_le d) as [d1 stop]. destruct stop; [done|].
  apply IH.
Qed.

(** ** FeedDecompressor and DeleteDecompressor *)

Lemma FeedDecompressor_total (host_le : bool) (decomp : Decompressor)
    (data : list Z) :
  dh_Cookie decomp = true ->
  0 <= bs_BitsLeft (dh_BitStream decomp) <= 32 ->
  Z.of_nat (length data) < 2 ^ 32 ->
  exists decomp' stop,
    FeedDecompressor host_le decomp data = Some (COMP_OK, decomp')
    /\ halts_on_end_of_stream host_le decomp data = Some stop
    /\ dh_Cookie decomp' = true
    /\ 0 <= bs_BitsLeft (dh_BitStream decomp') <= 32
    /\ bs_Error (dh_BitStream decomp') = bs_Error (dh_BitStream decomp)
    /\ (stop = false -> bs_NumDataWords (dh_BitStream decomp') = 0)
    /\ (data <> [] ->
        bits_unread (dh_BitStream decomp')
        < 32 * Z.of_nat (length data) + bs_BitsLeft (dh_BitStream decomp)).
Proof.
  intros Hc Hb Hlen.
  unfold FeedDecompressor, internalFeedDecompressor, halts_on_end_of_stream.
  rewrite Hc. cbn [negb].
  set (bs := FeedBitStream (dh_BitStream decomp) data (Z.of_nat (length data))).
  set (d := mkDframe _ _ _ _ _ bs).
  assert (Hok : bs_ok (d_bs d)) by (split; cbn; lia).
  destruct (decode_loop_stop_total host_le (decode_fuel bs) d Hok)
    as (d' & stop & Hl & Hok' & He & Hs & Hu).
  { unfold decode_fuel, bits_unread. cbn. lia. }
  rewrite decode_loop_stop_fst, Hl. cbn.
  eexists _, stop. split; [reflexivity|]. split; [done|]. split; [done|].
  split; [apply Hok'|]. split; [done|]. split; [done|].
  intros Hd. apply Hu. cbn. destruct data; [done|]. cbn [length]. lia.
Qed.

(** The error flag is never set by feeding: whatever the words and however
    they are cut into calls, closing does not report missing data. *)
Theorem decoder_never_reports_missing_data (host_le : bool) (out : list Z)
    (workbuf : option Decompressor) (fresh : bool) (decomp : Decompressor)
    (chunks : list (list Z)) :
  CreateDecompressor (Some out) workbuf fresh = (COMP_OK, Some decomp) ->
  Forall (fun data => Z.of_nat (length data) < 2 ^ 32) chunks ->
  exists decomp',
    feed_chunks host_le decomp chunks = Some decomp'
    /\ fst (DeleteDecompressor host_le decomp') <> COMP_ERR_DATAMISSING.
Proof.
  intros Hc Hlen.
  assert (Hinit : dh_Cookie decomp = true
                  /\ 0 <= bs_BitsLeft (dh_BitStream decomp) <= 32
                  /\ bs_Error (dh_BitStream decomp) = false).
  { unfold CreateDecompressor in Hc.
    destruct workbuf as [b|]; [|destruct fresh]; inversion Hc; cbn; lia. }
  clear Hc. revert decomp Hinit.
  induction Hlen as [|data chunks Hd Hlen IH]; intros decomp (Hc & Hb & He).
  - exists decomp. split; [done|]. unfold DeleteDecompressor.
    rewrite Hc, He. cbn.
    by destruct (bs_NumDataWords (dh_BitStream decomp) =? 0).
  - destruct (FeedDecompressor_total host_le decomp data Hc Hb Hd)
      as (d1 & stop & Hf & _ & Hc1 & Hb1 & He1 & _).
    cbn. rewrite Hf. apply IH. split; [done|]. split; [done|congruence].
Qed.

(** C2 fails on the code.  The stream of the one word 0x41424344 has three
    words.  Without its last word it is decoded to the end of the second
    word and closing returns no error (not DataMissing): the token loop
    starts a token only while a word is left to fetch, so the data never
    run out inside a token.  The bytes produced are all of the original. *)
Lemma truncated_stream_reports_no_error :
  CompressSpec.compress_chunks false CompressSpec.zero_Compressor [[0x41424344]]
  = Some [0xA0D0A874; 0x48040000; 0x00000000]
  /\ decompress_chunks false [[0xA0D0A874; 0x48040000]]
     = Some (COMP_OK, [0x41424344])
  /\ decompress_chunks false [[0xA0D0A874]; [0x48040000]]
     = Some (COMP_OK, [0x41424344]).
Proof. repeat split; vm_compute; reflexivity. Qed.

(** ** No latch on END_OF_STREAM *)

Lemma FeedDecompressor_with_unread (host_le : bool) (decomp : Decompressor)
    (data data0 : list Z) (n0 : Z) :
  dh_Cookie decomp = true ->
  FeedDecompressor host_le (with_unread decomp data0 n0) data
  = FeedDecompressor host_le decomp data.
Proof.
  intros Hc. unfold FeedDecompressor. cbn [with_unread dh_Cookie].
  rewrite Hc. reflexivity.
Qed.

(** C10: the decoder does not latch termination across feed calls.  A
    call with a nonzero word count returns, and: the words and the count
    that the call before left unread, by halting on END_OF_STREAM or else,
    are overwritten and have no effect on it; it enters the token loop again
    and reads at least one more token from the bit buffer and the new words;
    and closing after it reports DataRemains only when this last call halted
    on END_OF_STREAM with words of its own unread. *)
Theorem FeedDecompressor_does_not_latch (host_le : bool)
    (decomp : Decompressor) (data : list Z) :
  dh_Cookie decomp = true ->
  0 <= bs_BitsLeft (dh_BitStream decomp) <= 32 ->
  data <> [] -> Z.of_nat (length data) < 2 ^ 32 ->
  exists decomp',
    FeedDecompressor host_le decomp data = Some (COMP_OK, decomp')
    /\ (forall data0 n0,
          FeedDecompressor host_le (with_unread decomp data0 n0) data
          = Some (COMP_OK, decomp'))
    /\ bits_unread (dh_BitStream decomp')
       < 32 * Z.of_nat (length data) + bs_BitsLeft (dh_BitStream decomp)
    /\ (fst (DeleteDecompressor host_le decomp') = COMP_ERR_DATAREMAINS ->
        halts_on_end_of_stream host_le decomp data = Some true
        /\ bs_NumDataWords (dh_BitStream decomp') <> 0)
    /\ (halts_on_end_of_stream host_le decomp data = Some false ->
        bs_NumDataWords (dh_BitStream decomp') = 0
        /\ fst (DeleteDecompressor host_le decomp') <> COMP_ERR_DATAREMAINS).
Proof.
  intros Hc Hb Hd Hlen.
  destruct (FeedDecompressor_total host_le decomp data Hc Hb Hlen)
    as (d1 & stop & Hf1 & Hh & Hc1 & Hb1 & He1 & Hs & Hu).
  exists d1. split; [exact Hf1|].
  split; [intros data0 n0; by rewrite FeedDecompressor_with_unread by done|].
  split; [by apply Hu|].
  unfold DeleteDecompressor. rewrite Hc1. cbn [negb fst].
  destruct (Z.eqb_spec (bs_NumDataWords (dh_BitStream d1)) 0) as [H0|H0].
  - split; [by destruct (bs_Error (dh_BitStream d1))|].
    intros _. split; [done|]. by destruct (bs_Error (dh_BitStream d1)).
  - split.
    + intros _. split; [|done]. destruct stop; [done|]. by specialize (Hs eq_refl).
    + intros Hf. rewrite Hh in Hf. injection Hf as ->. by specialize (Hs eq_refl).
Qed.

(** The decoder that has halted on END_OF_STREAM and would report
    DataRemains decodes the word of a later call as a reference, emits three
    words, and then reports no error. *)
Lemma FeedDecompressor_does_not_latch_witness :
  FeedDecompressor false new_Decompressor [0xA0C00000; 0xDEADBEEF]
  = Some (COMP_OK, halted_Decompressor)
  /\ halts_on_end_of_stream false new_Decompressor [0xA0C00000; 0xDEADBEEF]
     = Some true
  /\ DeleteDecompressor false halted_Decompressor = (COMP_ERR_DATAREMAINS, [])
  /\ exists decomp',
       FeedDecompressor false halted_Decompressor [0x00180000]
       = Some (COMP_OK, decomp')
       /\ bits_unread (dh_BitStream decomp') < 32 * 1 + 1
       /\ DeleteDecompressor false decomp'
          = (COMP_OK, [0x41004100; 0x41004100; 0x41004100]).
Proof.
  split; [vm_compute; reflexivity|]. split; [vm_compute; reflexivity|].
  split; [vm_compute; reflexivity|].
  assert (H1 : dh_Cookie halted_Decompressor = true) by reflexivity.
  assert (H2 : 0 <= bs_BitsLeft (dh_BitStream halted_Decompressor) <= 32)
    by (cbn; lia).
  assert (H3 : [0x00180000] <> []) by discriminate.
  assert (H4 : Z.of_nat (length [0x00180000]) < 2 ^ 32) by (cbn; lia).
  destruct (FeedDecompressor_does_not_latch false halted_Decompressor
              [0x00180000] H1 H2 H3 H4) as (decomp' & Hf & _ & Hu & _).
  exists decomp'. split; [exact Hf|]. split; [exact Hu|].
  vm_compute in Hf. injection Hf as <-. reflexivity.
Defined.

End DecompressFacts.

(** * The encoder and the decoder together *)

Import Compress CompressSpec.

(** ** The empty input *)

(** C3, as it is written, fails: an encoder built in a zero-filled buffer,
    fed zero words and closed, produces exactly one word, but its value is
    0x80400000: closing emits a literal for each of the window bytes at
    positions 1 and 2 before the terminator. *)
Lemma empty_input_word_not_zero :
  let buffer :=
    mkCompressor ∅ ∅ 0 0 0 0 0 (mkCompressBitStream [] 0 0) false false false in
  exists comp comp1 comp2,
    CreateCompressor (Some []) None (Some buffer) = (COMP_OK, Some comp)
    /\ FeedCompressor false comp [] = Some (COMP_OK, comp1)
    /\ DeleteCompressor false comp1 = Some (COMP_OK, comp2)
    /\ bs_Out (ch_BitStream comp2) = [0x80400000]
    /\ bs_Out (ch_BitStream comp2) <> [0x00000000].
Proof.
  do 3 eexists. split; [reflexivity|]. split; [reflexivity|].
  split; [vm_compute; reflexivity|]. split; [reflexivity|discriminate].
Qed.

(** C3, amended: creating an encoder, feeding it zero words and closing it
    produces exactly one output word; the word holds a literal token for
    each of the window bytes at positions 1 and 2, then the 13 terminator
    bits and one zero bit, so it is never 0x00000000 (it is 0x80400000 in
    wire order when the two window bytes are zero); decoding that single
    word yields zero output words and no error. *)
Theorem empty_input_stream (host_le : bool) (workbuf fresh : option Compressor)
    (comp : Compressor) :
  CreateCompressor (Some []) workbuf fresh = (COMP_OK, Some comp) ->
  0 <= rd (ch_Window comp) 1 < 256 ->
  0 <= rd (ch_Window comp) 2 < 256 ->
  let word :=
    byteswap_if_little_endian host_le
      (empty_stream_word (rd (ch_Window comp) 1) (rd (ch_Window comp) 2)) in
  (exists comp1 comp2,
      FeedCompressor host_le comp [] = Some (COMP_OK, comp1)
      /\ DeleteCompressor host_le comp1 = Some (COMP_OK, comp2)
      /\ bs_Out (ch_BitStream comp2) = [word])
  /\ word <> 0
  /\ (rd (ch_Window comp) 1 = 0 -> rd (ch_Window comp) 2 = 0 ->
      word = byteswap_if_little_endian host_le 0x80400000)
  /\ (forall dworkbuf dfresh decomp,
        Decompress.CreateDecompressor (Some []) dworkbuf dfresh
        = (COMP_OK, Some decomp) ->
        exists decomp1,
          Decompress.FeedDecompressor host_le decomp [word]
          = Some (COMP_OK, decomp1)
          /\ Decompress.DeleteDecompressor host_le decomp1 = (COMP_OK, [])).
Proof.
  intros Hc H1 H2 word.
  apply CompressFacts.CreateCompressor_result in Hc as (window & a & ->).
  cbn [ch_Window] in *.
  assert (Hw : 2 ^ 31 <= empty_stream_word (rd window 1) (rd window 2) < 2 ^ 32)
    by (unfold empty_stream_word; lia).
  split; [|split; [|split]].
  - destruct (CompressFacts.DeleteCompressor_fresh host_le window a H1 H2)
      as (comp2 & Hd & Hout).
    eexists _, comp2. split; [by apply CompressFacts.FeedCompressor_nil|].
    split; assumption.
  - intros Hz.
    assert (Hb : byteswap_if_little_endian host_le word = 0)
      by (rewrite Hz; by destruct host_le).
    unfold word in Hb.
    rewrite WordFacts.byteswap_if_little_endian_involutive in Hb by lia. lia.
  - intros E1 E2. unfold word. rewrite E1, E2. reflexivity.
  - intros dworkbuf dfresh decomp Hd.
    assert (Hfresh : exists dwindow bs0 da,
               decomp =
               Decompress.mkDecompressor [] 0 4 1 dwindow
                 (Decompress.InitBitStream bs0) da true).
    { unfold Decompress.CreateDecompressor in Hd.
      destruct dworkbuf as [b|]; [|destruct dfresh]; inversion Hd; eauto. }
    destruct Hfresh as (dwindow & bs0 & da & ->).
    by apply DecompressFacts.decode_single_word_literal.
Qed.

Lemma empty_input_stream_witness :
  let buffer :=
    mkCompressor {[1 := 65; 2 := 66]} ∅ 0 0 0 0 0 (mkCompressBitStream [] 0 0)
      false false false in
  exists comp,
    CreateCompressor (Some []) (Some buffer) None = (COMP_OK, Some comp)
    /\ byteswap_if_little_endian true (empty_stream_word 65 66) <> 0.
Proof.
  eexists. split; [reflexivity|].
  pose proof (empty_input_stream true
    (Some (mkCompressor {[1 := 65; 2 := 66]} ∅ 0 0 0 0 0
             (mkCompressBitStream [] 0 0) false false false)) None _ eq_refl)
    as H.
  cbv zeta in H. destruct H as (_ & Hnz & _).
  - change (0 <= 65 < 256). lia.
  - change (0 <= 66 < 256). lia.
  - exact Hnz.
Defined.

(** ** The round trip *)

(** Inputs of one word and of four words come back as they were, on a host
    of either byte order (on a little-endian host the words of the stream
    are byte-swapped, so that its bytes in memory are the same). *)
Lemma round_trip_examples :
  compress_chunks false zero_Compressor [[0x41424344]]
  = Some [0xA0D0A874; 0x48040000; 0x00000000]
  /\ DecompressSpec.decompress_chunks false
       [[0xA0D0A874; 0x48040000; 0x00000000]]
     = Some (COMP_OK, [0x41424344])
  /\ compress_chunks true zero_Compressor
       [[0x41414141; 0x41414141; 0x41414141; 0x41414141]]
     = Some [0x200780A0; 0x00000010]
  /\ DecompressSpec.decompress_chunks true [[0x200780A0; 0x00000010]]
     = Some (COMP_OK, [0x41414141; 0x41414141; 0x41414141; 0x41414141]).
Proof. repeat split; vm_compute; reflexivity. Qed.

(** C1 fails on the code for the input [window_wrap_input] of 1034 words
    (on a little-endian host, for the words that hold the same bytes).  When the window wraps, [DeleteString] has
    cut every phrase but one out of the tree (the parent links it leaves
    behind on the nodes it drops make later deletions unlink live subtrees),
    position 0 is never inserted, and the deletion of position 18 leaves the
    tree empty; [AddString] then compares the new phrases with position 0,
    the UNUSED sentinel, and the encoder emits a reference at offset 0 in
    the word of index 127.  The decoder reads that offset as END_OF_STREAM:
    it stops there, the last word of the stream is left unread, closing
    returns DataRemains, and only the first 1032 words of the input have
    come out. *)
Lemma round_trip_fails_at_window_wrap (host_le : bool) :
  let X := map (byteswap_if_little_endian host_le) window_wrap_input in
  length X = 1034%nat
  /\ exists stream,
       compress_chunks host_le zero_Compressor [X] = Some stream
       /\ length stream = 129%nat
       /\ stream !! 127%nat = Some (byteswap_if_little_endian host_le 0x000C2000)
       /\ DecompressSpec.decompress_chunks host_le [stream]
          = Some (COMP_ERR_DATAREMAINS, take 1032 X)
       /\ take 1032 X <> X.
Proof.
  split; [destruct host_le; reflexivity|].
  destruct host_le.
  - eexists. split; [vm_compute; reflexivity|].
    split; [reflexivity|]. split; [reflexivity|].
    split; [vm_compute; reflexivity|].
    intros H. apply (f_equal length) in H. vm_compute in H. discriminate H.
  - eexists. split; [vm_compute; reflexivity|].
    split; [reflexivity|]. split; [reflexivity|].
    split; [vm_compute; reflexivity|].
    intros H. apply (f_equal length) in H. vm_compute in H. discriminate H.
Qed.

(** The tree of the encoder after the first 1029 words of that input: the
    dummy root has no child, and the last match found is at position 2 of a
    tree that hangs from the sentinel. *)
Lemma tree_empty_after_window_wrap :
  match CreateCompressor (Some []) (Some zero_Compressor) None with
  | (_, Some comp) =>
      match FeedCompressor false comp (take 1029 window_wrap_input) with
      | Some (result, comp') =>
          result = COMP_OK
          /\ cn_RightChild (nd (ch_Tree comp') TREE_ROOT) = UNUSED
          /\ ch_CurrentPos comp' = 3
          /\ ch_MatchPos comp' = 2
      | None => False
      end
  | (_, None) => False
  end.
Proof. vm_compute. repeat split. Qed.

(** The round trip fails as well for an input of 2^30 words: [FeedCompressor]
    keeps the byte count [numDataWords * 4] in 32 bits, the count is 0 and
    the call returns at once; closing writes the stream of the empty input,
    and decoding it yields no word at all. *)
Lemma round_trip_loses_2_30_words :
  Z.of_nat (length wrap_chunk) = 2 ^ 30
  /\ compress_chunks false zero_Compressor [wrap_chunk] = Some [0x80400000]
  /\ DecompressSpec.decompress_chunks false [[0x80400000]] = Some (COMP_OK, [])
  /\ wrap_chunk <> [].
Proof.
  assert (Hl : Z.of_nat (length wrap_chunk) = 2 ^ 30).
  { unfold wrap_chunk. cbn [length]. rewrite repeat_length. lia. }
  split; [exact Hl|]. split; [|split; [vm_compute; reflexivity|discriminate]].
  transitivity (compress_chunks false zero_Compressor []);
    [|vm_compute; reflexivity].
  unfold compress_chunks.
  destruct (CreateCompressor _ _ _) as [r [comp|]] eqn:Hc; [|reflexivity].
  assert (Hck : ch_Cookie comp = true) by (by inversion Hc).
  cbn [feed_chunks].
  rewrite (CompressFacts.FeedCompressor_feed_bytes _ _ wrap_chunk) by done.
  rewrite Hl. change (Z.to_nat (u32 (2 ^ 30 * 4))) with 0%nat.
  rewrite take_0. reflexivity.
Qed.


(** * Powers of two *)

Module BitArith.

Lemma pow2_pos (k : Z) : 0 <= k -> 0 < 2 ^ k.
Proof. intros. apply Z.pow_pos_nonneg; lia. Qed.

Lemma pow2_add (a b : Z) : 0 <= a -> 0 <= b -> 2 ^ (a + b) = 2 ^ a * 2 ^ b.
Proof. intros. by apply Z.pow_add_r. Qed.

Lemma pow2_le (a b : Z) : 0 <= a <= b -> 2 ^ a <= 2 ^ b.
Proof. intros. apply Z.pow_le_mono_r; lia. Qed.

(** Quotient and remainder, read off a decomposition. *)
Lemma div_mod_decompose (x m q r : Z) :
  x = q * m + r -> 0 <= r < m -> x / m = q /\ x mod m = r.
Proof.
  intros -> Hr. split.
  - rewrite Z.div_add_l by lia. rewrite Z.div_small by lia. lia.
  - rewrite Z.add_comm, Z.mod_add by lia. by apply Z.mod_small.
Qed.

Lemma mask_ones (n : Z) : mask n = Z.ones n.
Proof. unfold mask. rewrite Z.ones_equiv, Z.shiftl_1_l. lia. Qed.

Lemma land_mask (x n : Z) : 0 <= n -> Z.land x (mask n) = x mod 2 ^ n.
Proof. intros. rewrite mask_ones. by apply Z.land_ones. Qed.

Lemma shl32_small (x k : Z) :
  0 <= k -> 0 <= x -> x * 2 ^ k < 2 ^ 32 -> shl32 x k = x * 2 ^ k.
Proof.
  intros Hk Hx Hlt. unfold shl32, u32. rewrite Z.shiftl_mul_pow2 by lia.
  apply Z.mod_small. pose proof (pow2_pos k Hk). nia.
Qed.

(** A left shift by [32 - m] keeps the low [m] bits. *)
Lemma shl32_low (x m : Z) :
  0 <= m <= 32 -> shl32 x (32 - m) = (x mod 2 ^ m) * 2 ^ (32 - m).
Proof.
  intros Hm. unfold shl32, u32. rewrite Z.shiftl_mul_pow2 by lia.
  replace (2 ^ 32) with (2 ^ m * 2 ^ (32 - m))
    by (rewrite <- pow2_add by lia; f_equal; lia).
  rewrite Z.mul_mod_distr_r; [reflexivity| |];
    pose proof (pow2_pos m); pose proof (pow2_pos (32 - m)); lia.
Qed.

Lemma shr32_div (x k : Z) : 0 <= k -> shr32 x k = x / 2 ^ k.
Proof. intros. unfold shr32. by apply Z.shiftr_div_pow2. Qed.

Lemma lor_pow2_l (a x k : Z) :
  0 <= k -> 0 <= x < 2 ^ k -> Z.lor x (a * 2 ^ k) = a * 2 ^ k + x.
Proof. intros. rewrite Z.lor_comm. by apply WordFacts.lor_mul_pow2. Qed.

Lemma div_pow2_lt (c a b : Z) :
  0 <= a -> 0 <= b -> 0 <= c < 2 ^ (a + b) -> 0 <= c / 2 ^ a < 2 ^ b.
Proof.
  intros Ha Hb Hc. pose proof (pow2_pos a Ha). split.
  - apply Z.div_pos; lia.
  - apply Z.div_lt_upper_bound; [lia|]. rewrite <- pow2_add by lia. lia.
Qed.

Lemma mod_mod_pow2 (x a b : Z) :
  0 <= a <= b -> (x mod 2 ^ b) mod 2 ^ a = x mod 2 ^ a.
Proof.
  intros H. apply Z.mod_mod_divide.
  exists (2 ^ (b - a)). rewrite <- pow2_add by lia. f_equal. lia.
Qed.

End BitArith.


(** * The one-call interface *)

Module SimpleFacts.
Import Simple.

Lemma put_words_app (ctx : Context) (ws1 ws2 : list Z) :
  put_words ctx (ws1 ++ ws2) = put_words (put_words ctx ws1) ws2.
Proof. apply fold_left_app. Qed.

Lemma put_words_full (ws : list Z) (ctx : Context) :
  Z.of_nat (length (dest ctx)) >= max ctx ->
  put_words ctx ws
  = match ws with
    | [] => ctx
    | _ :: _ => mkContext (dest ctx) (max ctx) true
    end.
Proof.
  revert ctx. induction ws as [|w ws IH]; intros ctx Hfull; [reflexivity|].
  cbn [put_words fold_left]. unfold PutWord at 2.
  destruct (Z.geb_spec (Z.of_nat (length (dest ctx))) (max ctx)); [|lia].
  fold (put_words (mkContext (dest ctx) (max ctx) true) ws).
  rewrite IH by (cbn; lia). by destruct ws.
Qed.

Lemma put_words_state (ws : list Z) (ctx : Context) :
  Z.of_nat (length (dest ctx)) <= max ctx ->
  let room := Z.to_nat (max ctx - Z.of_nat (length (dest ctx))) in
  put_words ctx ws
  = mkContext (dest ctx ++ take room ws) (max ctx)
      (if decide (room < length ws)%nat then true else overflow ctx).
Proof.
  revert ctx. induction ws as [|w ws IH]; intros ctx Hle room.
  - cbn. rewrite take_nil, app_nil_r. destruct (decide _); [lia|by destruct ctx].
  - cbn [put_words fold_left]. unfold PutWord at 2.
    destruct (Z.geb_spec (Z.of_nat (length (dest ctx))) (max ctx)) as [Hge|Hlt].
    + fold (put_words (mkContext (dest ctx) (max ctx) true) ws).
      rewrite put_words_full by (cbn; lia).
      assert (room = 0%nat) as -> by (unfold room; lia).
      rewrite take_0, app_nil_r. cbn [length].
      destruct (decide _); [|lia]. by destruct ws.
    + fold (put_words (mkContext (dest ctx ++ [w]) (max ctx) (overflow ctx)) ws).
      rewrite IH by (cbn; rewrite length_app; cbn; lia). cbn [dest max overflow].
      rewrite length_app. cbn [length].
      assert (room = S (Z.to_nat (max ctx - Z.of_nat (length (dest ctx) + 1))))
        as -> by (unfold room; lia).
      cbn [take]. rewrite <- app_assoc. cbn [app]. f_equal.
      repeat destruct (decide _); (reflexivity || lia).
Qed.

Lemma put_words_spec (ws : list Z) (resultWords : Z) :
  0 <= resultWords ->
  let ctx := put_words (mkContext [] resultWords false) ws in
  dest ctx = take (Z.to_nat resultWords) ws
  /\ Z.of_nat (length (dest ctx)) <= resultWords
  /\ max ctx = resultWords
  /\ (overflow ctx = true <-> resultWords < Z.of_nat (length ws))
  /\ (overflow ctx = false -> dest ctx = ws).
Proof.
  intros Hr ctx. unfold ctx. rewrite put_words_state by (cbn; lia).
  cbn [dest max overflow length app]. rewrite Z.sub_0_r.
  split; [reflexivity|]. split; [rewrite length_take; lia|].
  split; [reflexivity|].
  destruct (decide _) as [Hlt|Hge].
  - split; [split; [lia|done]|done].
  - split; [split; [done|lia]|]. intros _. apply take_ge. lia.
Qed.

(** X1: [PutWord] never stores past the end of the result buffer.  Called
    for the words [ws] in turn on a buffer of [resultWords] words, it stores
    the first [resultWords] of them, in order, and sets the overflow flag
    exactly when there were more. *)
Theorem PutWord_bounded (ws : list Z) (resultWords : Z) :
  0 <= resultWords ->
  let ctx := put_words (mkContext [] resultWords false) ws in
  dest ctx = take (Z.to_nat resultWords) ws
  /\ Z.of_nat (length (dest ctx)) <= resultWords
  /\ max ctx = resultWords
  /\ (overflow ctx = true <-> resultWords < Z.of_nat (length ws))
  /\ (overflow ctx = false -> dest ctx = ws).
Proof. exact (put_words_spec ws resultWords). Qed.

Lemma PutWord_bounded_witness :
  let ctx := put_words (mkContext [] 2 false) [7; 8; 9] in
  dest ctx = [7; 8] /\ overflow ctx = true.
Proof.
  pose proof (PutWord_bounded [7; 8; 9] 2) as H.
  assert (H0 : 0 <= 2) by lia. specialize (H H0). cbv zeta in H.
  destruct H as (Hd & _ & _ & Ho & _).
  split; [exact Hd|]. apply Ho. cbn. lia.
Defined.

Lemma to_int_small (x : Z) : 0 <= x < 2 ^ 31 -> to_int x = x.
Proof.
  intros H. unfold to_int. rewrite Z.mod_small by lia. lia.
Qed.

Lemma simple_return_ok (ws : list Z) (resultWords : Z) :
  0 <= resultWords < 2 ^ 31 ->
  simple_return COMP_OK (put_words (mkContext [] resultWords false) ws)
  = if decide (Z.of_nat (length ws) <= resultWords)
    then SR_words (Z.of_nat (length ws))
    else SR_error COMP_ERR_OVERFLOW.
Proof.
  intros Hr.
  destruct (put_words_spec ws resultWords ltac:(lia)) as (Hd & Hl & _ & Ho & Hall).
  unfold simple_return.
  destruct (decide (Z.of_nat (length ws) <= resultWords)) as [Hle|Hgt].
  - destruct (overflow _) eqn:E.
    + destruct Ho as [Ho _]. specialize (Ho eq_refl). lia.
    + rewrite (Hall eq_refl). by rewrite to_int_small by lia.
  - destruct Ho as [_ Ho]. rewrite Ho by lia. reflexivity.
Qed.

Lemma put_words_dest (ws : list Z) (resultWords : Z) :
  0 <= resultWords ->
  dest (put_words (mkContext [] resultWords false) ws)
  = take (Z.to_nat resultWords) ws.
Proof. intros Hr. by destruct (put_words_spec ws resultWords Hr) as (Hd & _). Qed.

Lemma SimpleDecompress_chunks (host_le : bool) (source : list Z)
    (resultWords : Z) :
  Z.of_nat (length source) < 2 ^ 32 -> 0 <= resultWords < 2 ^ 31 ->
  exists err out,
    DecompressSpec.decompress_chunks host_le [source] = Some (err, out)
    /\ (err = COMP_OK \/ err = COMP_ERR_DATAREMAINS)
    /\ SimpleDecompress host_le true source resultWords
       = Some (match err with
               | COMP_OK =>
                   if decide (Z.of_nat (length out) <= resultWords)
                   then SR_words (Z.of_nat (length out))
                   else SR_error COMP_ERR_OVERFLOW
               | _ => SR_error err
               end,
               take (Z.to_nat resultWords) out).
Proof.
  intros Hlen Hr.
  unfold DecompressSpec.decompress_chunks, SimpleDecompress.
  cbn [Decompress.CreateDecompressor DecompressSpec.feed_chunks].
  set (d0 := Decompress.mkDecompressor _ _ _ _ _ _ _ _).
  destruct (DecompressFacts.FeedDecompressor_total host_le d0 source)
    as (d1 & stop & Hf & _ & Hc & Hb & He & _); [reflexivity|cbn; lia|done|].
  rewrite Hf.
  destruct (Decompress.DeleteDecompressor host_le d1) as [err out] eqn:Hd.
  exists err, out. split; [reflexivity|].
  assert (Herr : err = COMP_OK \/ err = COMP_ERR_DATAREMAINS).
  { unfold Decompress.DeleteDecompressor in Hd. rewrite Hc, He in Hd.
    cbn in Hd. destruct (_ =? 0) in Hd; inversion Hd; auto. }
  split; [exact Herr|].
  rewrite put_words_dest by lia. f_equal. f_equal.
  destruct Herr as [-> | ->]; [|reflexivity].
  by apply simple_return_ok.
Qed.



Lemma with_allocated_FeedCompressor (host_le : bool) (a : bool)
    (comp : Compress.Compressor) (data : list Z) :
  Compress.FeedCompressor host_le (with_allocated a comp) data
  = match Compress.FeedCompressor host_le comp data with
    | Some (err, comp') => Some (err, with_allocated a comp')
    | None => None
    end.
Proof.
  unfold Compress.FeedCompressor.
  change (Compress.load_frame (with_allocated a comp))
    with (Compress.load_frame comp).
  cbn [with_allocated Compress.ch_Cookie Compress.ch_SecondPass].
  destruct (Compress.ch_Cookie comp); cbn [negb]; [|reflexivity].
  cbv zeta. destruct (take _ _) as [|b src]; [reflexivity|].
  destruct (Compress.ch_SecondPass comp).
  - destruct (Compress.feed_newData _ _); [|reflexivity].
    by destruct (Compress.feed_replace _ _ _).
  - destruct (Compress.feed_fill _ _ _) as [[window lookAhead] [src1|]];
      [|reflexivity].
    by destruct (Compress.feed_replace _ _ _).
Qed.

Lemma with_allocated_DeleteCompressor (host_le : bool) (a : bool)
    (comp : Compress.Compressor) :
  Compress.DeleteCompressor host_le (with_allocated a comp)
  = match Compress.DeleteCompressor host_le comp with
    | Some (err, comp') => Some (err, with_allocated a comp')
    | None => None
    end.
Proof.
  unfold Compress.DeleteCompressor, Compress.FlushCompressor.
  change (Compress.load_frame (with_allocated a comp))
    with (Compress.load_frame comp).
  cbn [with_allocated Compress.ch_Cookie Compress.ch_SecondPass].
  destruct (Compress.ch_Cookie comp); cbn [negb]; [|reflexivity].
  destruct (Compress.ch_SecondPass comp).
  - destruct (Compress.advance _ _ _); [|reflexivity].
    by destruct (Compress.flush_replace _ _ _).
  - destruct (_ >=? 0); [|reflexivity].
    by destruct (Compress.flush_replace _ _ _).
Qed.

Lemma SimpleCompress_stream (host_le : bool) (buffer : Compress.Compressor)
    (source : list Z) (resultWords : Z) (r : simple_result) (stored : list Z) :
  0 <= resultWords < 2 ^ 31 ->
  SimpleCompress host_le (Some buffer) source resultWords = Some (r, stored) ->
  exists stream,
    compress_chunks host_le buffer [source] = Some stream
    /\ stored = take (Z.to_nat resultWords) stream
    /\ r = (if decide (Z.of_nat (length stream) <= resultWords)
            then SR_words (Z.of_nat (length stream))
            else SR_error COMP_ERR_OVERFLOW).
Proof.
  intros Hr.
  unfold SimpleCompress, compress_chunks.
  cbn [Compress.CreateCompressor feed_chunks].
  set (c1 := Compress.mkCompressor _ _ _ _ _ _ _ _ _ true _).
  set (c0 := Compress.mkCompressor _ _ _ _ _ _ _ _ _ false _).
  change c1 with (with_allocated true c0).
  rewrite with_allocated_FeedCompressor.
  destruct (Compress.FeedCompressor host_le c0 source) as [[e1 c2]|] eqn:Hf;
    [|done].
  rewrite with_allocated_DeleteCompressor.
  destruct (Compress.DeleteCompressor host_le c2) as [[e2 c3]|] eqn:Hd; [|done].
  cbn [with_allocated Compress.ch_BitStream].
  intros [= <- <-]. eexists. split; [reflexivity|].
  split; [by apply put_words_dest; lia|].
  assert (e2 = COMP_OK) as ->.
  { assert (Hck : Compress.ch_Cookie c2 = true).
    { rewrite CompressFacts.FeedCompressor_feed_bytes in Hf by reflexivity.
      destruct (feed_bytes _ _ _) as [c|] eqn:Hb; [|done].
      injection Hf as _ <-. by apply CompressFacts.feed_bytes_cookie in Hb. }
    unfold Compress.DeleteCompressor in Hd. rewrite Hck in Hd. cbn [negb] in Hd.
    destruct (Compress.FlushCompressor _ _); by inversion Hd. }
  by apply simple_return_ok.
Qed.

(** X3: when [SimpleCompress] returns, the words its sink received are the
    stream of the three-call interface for the same source (created in a
    buffer with the contents of the block [malloc] returned).  It never
    stores more than [resultWords] words: it returns the length of the stream
    and has stored all of it when it fits, and returns OVERFLOW, with the
    first [resultWords] words stored, when it does not.  When [malloc] fails
    it returns NOMEM and stores nothing. *)
Theorem SimpleCompress_result (host_le : bool) (buffer : Compress.Compressor)
    (source : list Z) (resultWords : Z) (r : simple_result) (stored : list Z) :
  0 <= resultWords < 2 ^ 31 ->
  SimpleCompress host_le (Some buffer) source resultWords = Some (r, stored) ->
  SimpleCompress host_le None source resultWords
  = Some (SR_error COMP_ERR_NOMEM, [])
  /\ exists stream,
       compress_chunks host_le buffer [source] = Some stream
       /\ stored = take (Z.to_nat resultWords) stream
       /\ r = (if decide (Z.of_nat (length stream) <= resultWords)
               then SR_words (Z.of_nat (length stream))
               else SR_error COMP_ERR_OVERFLOW).
Proof.
  intros Hr H. split; [reflexivity|]. by eapply SimpleCompress_stream.
Qed.

Lemma SimpleCompress_result_witness :
  SimpleCompress false (Some zero_Compressor) [0x41424344] 2
  = Some (SR_error COMP_ERR_OVERFLOW, [0xA0D0A874; 0x48040000])
  /\ exists stream,
       compress_chunks false zero_Compressor [[0x41424344]] = Some stream
       /\ [0xA0D0A874; 0x48040000] = take (Z.to_nat 2) stream
       /\ SR_error COMP_ERR_OVERFLOW
          = (if decide (Z.of_nat (length stream) <= 2)
             then SR_words (Z.of_nat (length stream))
             else SR_error COMP_ERR_OVERFLOW).
Proof.
  assert (H : SimpleCompress false (Some zero_Compressor) [0x41424344] 2
              = Some (SR_error COMP_ERR_OVERFLOW, [0xA0D0A874; 0x48040000]))
    by (vm_compute; reflexivity).
  assert (Hr : 0 <= 2 < 2 ^ 31) by lia.
  split; [exact H|].
  exact (proj2 (SimpleCompress_result false zero_Compressor [0x41424344] 2
                  _ _ Hr H)).
Defined.

End SimpleFacts.


(** * The search for a match *)

Module MatchFacts.
Import Compress CompressSpec.

(** The loop that compares two phrases stops at the first byte that
    differs. *)
Lemma compare_phrase_prefix (window : gmap Z Z) (newNode testNode : Z) (n : nat) :
  forall i,
    let r := compare_phrase window newNode testNode i n in
    i <= fst r <= i + Z.of_nat n
    /\ (forall k, i <= k < fst r ->
        rd window (MOD_WINDOW (newNode + k)) = rd window (MOD_WINDOW (testNode + k)))
    /\ (fst r < i + Z.of_nat n ->
        snd r = rd window (MOD_WINDOW (newNode + fst r))
                - rd window (MOD_WINDOW (testNode + fst r))
        /\ snd r <> 0)
    /\ (fst r = i + Z.of_nat n -> snd r = 0).
Proof.
  induction n as [|n IH]; intros i r.
  - subst r. cbn [compare_phrase fst snd]. repeat split; intros; lia.
  - subst r. cbn [compare_phrase].
    destruct (Z.eqb_spec
                (rd window (MOD_WINDOW (newNode + i))
                 - rd window (MOD_WINDOW (testNode + i))) 0) as [He|Hne].
    + specialize (IH (i + 1)). cbv zeta in IH.
      destruct (compare_phrase window newNode testNode (i + 1) n) as [j delta].
      cbn [fst snd] in *. destruct IH as (Hj & Heq & Hlt & Hfull).
      split; [lia|]. split.
      * intros k Hk. destruct (decide (k = i)) as [->|Hki]; [lia|].
        apply Heq. lia.
      * split; [intros H; apply Hlt; lia|intros H; apply Hfull; lia].
    + cbn [fst snd]. split; [lia|]. split; [intros k Hk; lia|].
      split; [done|lia].
Qed.

Lemma AddString_loop_match (fuel : nat) (window : gmap Z Z) (newNode : Z) :
  forall (tree : gmap Z CompNode) (testNode matchLen matchPos : Z)
         (tree' : gmap Z CompNode) (len pos : Z),
    0 <= matchLen <= LOOK_AHEAD_SIZE ->
    (forall k, 0 <= k < matchLen ->
       rd window (MOD_WINDOW (newNode + k)) = rd window (MOD_WINDOW (matchPos + k))) ->
    AddString_loop fuel tree window newNode testNode matchLen matchPos
    = Some (tree', len, pos) ->
    matchLen <= len <= LOOK_AHEAD_SIZE
    /\ (forall k, 0 <= k < len ->
          rd window (MOD_WINDOW (newNode + k)) = rd window (MOD_WINDOW (pos + k))).
Proof.
  induction fuel as [|fuel IH]; intros tree testNode matchLen matchPos tree' len pos
    Hlen Hpre Hadd; [discriminate Hadd|].
  rewrite CompressFacts.AddString_loop_unfold in Hadd.
  pose proof (compare_phrase_prefix window newNode testNode
                (Z.to_nat LOOK_AHEAD_SIZE) 0) as Hc.
  cbv zeta in Hc.
  destruct (compare_phrase window newNode testNode 0 (Z.to_nat LOOK_AHEAD_SIZE))
    as [i delta].
  cbn [fst snd] in Hc. destruct Hc as (Hi & Heq & _).
  rewrite CompressFacts.LOOK_AHEAD_SIZE_eq in *.
  change (Z.of_nat (Z.to_nat 18)) with 18 in Hi.
  cbv zeta in Hadd.
  assert (Hnew :
    0 <= (if i >=? matchLen then i else matchLen) <= 18
    /\ matchLen <= (if i >=? matchLen then i else matchLen)
    /\ forall k, 0 <= k < (if i >=? matchLen then i else matchLen) ->
         rd window (MOD_WINDOW (newNode + k))
         = rd window (MOD_WINDOW ((if i >=? matchLen then testNode else matchPos) + k))).
  { destruct (Z.geb_spec i matchLen); (split; [lia|]); (split; [lia|]); auto. }
  destruct Hnew as (Hr & Hmono & Hpre').
  destruct ((i >=? matchLen) && _).
  { injection Hadd as _ <- <-. split; [lia|exact Hpre']. }
  destruct (delta >=? 0).
  - destruct (_ =? UNUSED).
    + injection Hadd as _ <- <-. split; [lia|exact Hpre'].
    + apply IH in Hadd; [|lia|exact Hpre']. split; [lia|apply Hadd].
  - destruct (_ =? UNUSED).
    + injection Hadd as _ <- <-. split; [lia|exact Hpre'].
    + apply IH in Hadd; [|lia|exact Hpre']. split; [lia|apply Hadd].
Qed.

Lemma AddString_result (tree : gmap Z CompNode)
    (window : gmap Z Z) (newNode matchPos : Z) (tree' : gmap Z CompNode)
    (len pos : Z) :
  AddString tree window newNode matchPos = Some (tree', len, pos) ->
  0 <= len <= LOOK_AHEAD_SIZE
  /\ (forall k, 0 <= k < len ->
        rd window (MOD_WINDOW (newNode + k)) = rd window (MOD_WINDOW (pos + k)))
  /\ (newNode = END_OF_STREAM -> tree' = tree /\ len = 0 /\ pos = matchPos).
Proof.
  unfold AddString. intros H.
  destruct (Z.eqb_spec newNode END_OF_STREAM) as [He|Hne].
  - injection H as <- <- <-. rewrite CompressFacts.LOOK_AHEAD_SIZE_eq.
    split; [lia|]. split; [intros k Hk; lia|done].
  - apply AddString_loop_match in H.
    + destruct H as (Hl & Hp). split; [lia|]. split; [exact Hp|done].
    + rewrite CompressFacts.LOOK_AHEAD_SIZE_eq. lia.
    + intros k Hk. lia.
Qed.

(** X4: the match [AddString] reports is a true one, whatever the shape of
    the tree: the returned length is at most [LOOK_AHEAD_SIZE] and the window
    holds the same bytes at the new position and at the reported position,
    for that length.  For position 0 nothing is searched: the length is 0 and
    the tree and [*matchPos] are left as they are. *)
Theorem AddString_match_is_common_prefix (tree : gmap Z CompNode)
    (window : gmap Z Z) (newNode matchPos : Z) (tree' : gmap Z CompNode)
    (len pos : Z) :
  AddString tree window newNode matchPos = Some (tree', len, pos) ->
  0 <= len <= LOOK_AHEAD_SIZE
  /\ (forall k, 0 <= k < len ->
        rd window (MOD_WINDOW (newNode + k)) = rd window (MOD_WINDOW (pos + k)))
  /\ (newNode = END_OF_STREAM -> tree' = tree /\ len = 0 /\ pos = matchPos).
Proof. apply AddString_result. Qed.

Lemma AddString_match_is_common_prefix_witness :
  exists tree',
    AddString tie_tree tie_window 200 0 = Some (tree', 3, 100)
    /\ 0 <= 3 <= LOOK_AHEAD_SIZE
    /\ (forall k, 0 <= k < 3 ->
          rd tie_window (MOD_WINDOW (200 + k)) = rd tie_window (MOD_WINDOW (100 + k))).
Proof.
  destruct (AddString tie_tree tie_window 200 0) as [[[tree' len] pos]|] eqn:H;
    [|vm_compute in H; discriminate H].
  assert (Hv : len = 3 /\ pos = 100).
  { vm_compute in H. injection H as _ <- <-. split; reflexivity. }
  destruct Hv as [-> ->].
  exists tree'. split; [reflexivity|].
  destruct (AddString_match_is_common_prefix _ _ _ _ _ _ _ H) as (H1 & H2 & _).
  split; [exact H1|exact H2].
Defined.

End MatchFacts.


(** * The bit writer *)

Module BitWriterFacts.
Import Compress BitSpec.

Lemma wire_value_snoc (ws : list Z) (w : Z) :
  wire_value (ws ++ [w]) = wire_value ws * 2 ^ 32 + w.
Proof. unfold wire_value. by rewrite fold_left_app. Qed.

Lemma wire_snoc (host_le : bool) (ws : list Z) (w : Z) :
  0 <= w < 2 ^ 32 ->
  wire host_le (ws ++ [byteswap_if_little_endian host_le w])
  = wire host_le ws ++ [w].
Proof.
  intros Hw. unfold wire. rewrite map_app. cbn [map].
  by rewrite WordFacts.byteswap_if_little_endian_involutive.
Qed.

Lemma WriteBits_spec (host_le : bool) (bs : CompressBitStream)
    (headBit code numBits : Z) :
  writer_ok bs -> headBit = 0 \/ headBit = 1 -> 0 <= numBits <= 31 ->
  0 <= code < 2 ^ numBits ->
  let bs' := WriteBits host_le bs headBit code numBits in
  writer_ok bs'
  /\ written_bits bs' = written_bits bs + 1 + numBits
  /\ written_value host_le bs'
     = written_value host_le bs * 2 ^ (numBits + 1) + headBit * 2 ^ numBits + code.
Proof.
  destruct bs as [out BL B]. unfold writer_ok, written_bits, written_value.
  cbn [bs_Out bs_BitsLeft bs_BitBuffer].
  intros (HBL & HB & Hmod & Hout) Hh Hn Hc.
  set (b := BL - 1).
  set (X := 2 ^ b). set (Q := 2 ^ (32 - BL)).
  assert (HX : 0 < X) by (apply BitArith.pow2_pos; lia).
  assert (HQ : 0 < Q) by (apply BitArith.pow2_pos; lia).
  assert (HBLX : 2 ^ BL = 2 * X).
  { unfold X, b. replace BL with (1 + (BL - 1)) at 1 by lia.
    rewrite BitArith.pow2_add by lia. reflexivity. }
  assert (H32 : 2 ^ 32 = Q * (2 * X)).
  { rewrite <- HBLX. unfold Q. rewrite <- BitArith.pow2_add by lia.
    f_equal. lia. }
  set (B1 := B / 2 ^ BL).
  assert (HB1 : B = B1 * (2 * X)).
  { rewrite <- HBLX. unfold B1. rewrite Z.mul_comm.
    apply Z.div_exact; [|exact Hmod]. rewrite HBLX. lia. }
  assert (HB1r : 0 <= B1 < Q) by nia.
  unfold WriteBits. cbn [bs_Out bs_BitsLeft bs_BitBuffer].
  rewrite (WordFacts.u32_small (BL - 1)) by lia. fold b.
  assert (Hhx : 0 <= headBit * X < 2 * X) by (destruct Hh as [-> | ->]; lia).
  rewrite (BitArith.shl32_small headBit b) by (fold X; lia). fold X.
  assert (HBh : Z.lor B (headBit * X) = (2 * B1 + headBit) * X).
  { rewrite HB1. rewrite <- HBLX.
    rewrite WordFacts.lor_mul_pow2 by (rewrite ?HBLX; lia).
    rewrite HBLX. ring. }
  rewrite HBh.
  destruct (Z.geb_spec numBits b) as [Hge|Hlt].
  - (* the word is completed and sent *)
    set (m := numBits - b).
    rewrite (WordFacts.u32_small m) by (unfold m; lia).
    rewrite (WordFacts.u32_small (32 - m)) by (unfold m; lia).
    set (Y := 2 ^ m).
    assert (HY : 0 < Y) by (apply BitArith.pow2_pos; unfold m; lia).
    assert (HnY : 2 ^ numBits = Y * X).
    { unfold Y, X. rewrite <- BitArith.pow2_add by (unfold m; lia).
      f_equal. unfold m. lia. }
    assert (Hn1 : 2 ^ (numBits + 1) = 2 * (Y * X)).
    { rewrite Z.add_comm, BitArith.pow2_add by lia. by rewrite HnY. }
    rewrite BitArith.shr32_div by (unfold m; lia). fold Y.
    pose proof (Z.div_mod code Y ltac:(lia)) as Hdm.
    pose proof (Z.mod_pos_bound code Y HY) as Hcl.
    set (ch := code / Y) in *. set (cl := code mod Y) in *.
    assert (Hch : 0 <= ch < X).
    { unfold ch, Y, X. apply BitArith.div_pow2_lt; [unfold m; lia|lia|].
      replace (m + b) with numBits by (unfold m; lia). exact Hc. }
    pose proof (BitArith.lor_pow2_l (2 * B1 + headBit) ch b ltac:(lia)
                  ltac:(fold X; lia)) as Hlor.
    fold X in Hlor. rewrite Hlor. clear Hlor.
    assert (Hword : 0 <= (2 * B1 + headBit) * X + ch < 2 ^ 32).
    { rewrite H32. destruct Hh as [-> | ->]; nia. }
    assert (Hbuf : (if m =? 0 then 0 else shl32 code (32 - m))
                   = cl * 2 ^ (32 - m)).
    { destruct (Z.eqb_spec m 0) as [Hm|Hm].
      - assert (Y = 1) by (unfold Y; rewrite Hm; reflexivity). lia.
      - rewrite BitArith.shl32_low by (unfold m; lia). reflexivity. }
    rewrite Hbuf. cbn [bs_Out bs_BitsLeft bs_BitBuffer].
    assert (HZ : 0 < 2 ^ (32 - m)) by (apply BitArith.pow2_pos; unfold m; lia).
    assert (HYZ : Y * 2 ^ (32 - m) = 2 ^ 32).
    { unfold Y. rewrite <- BitArith.pow2_add by (unfold m; lia). f_equal. lia. }
    split; [|split].
    + split; [unfold m; lia|]. split; [nia|]. split; [apply Z.mod_mul; lia|].
      apply Forall_app. split; [exact Hout|]. apply Forall_singleton.
      by apply WordFacts.byteswap_if_little_endian_range.
    + rewrite length_app. cbn [length]. unfold m, b. lia.
    + rewrite wire_snoc by exact Hword. rewrite wire_value_snoc.
      rewrite Z.div_mul by lia.
      replace (32 - (32 - m)) with m by lia. fold Y.
      rewrite Hn1, HnY, H32. fold Q. fold B1. rewrite Hdm. ring.
  - (* the bits fit in the buffer *)
    set (d := b - numBits).
    rewrite (WordFacts.u32_small d) by (unfold d; lia).
    set (D := 2 ^ d). set (N := 2 ^ numBits).
    assert (HD : 0 < D) by (apply BitArith.pow2_pos; unfold d; lia).
    assert (HN : 0 < N) by (apply BitArith.pow2_pos; lia).
    assert (HXD : X = N * D).
    { unfold X, N, D. rewrite <- BitArith.pow2_add by (unfold d; lia).
      f_equal. unfold d. lia. }
    assert (Hn1 : 2 ^ (numBits + 1) = 2 * N).
    { rewrite Z.add_comm, BitArith.pow2_add by lia. reflexivity. }
    rewrite (BitArith.shl32_small code d) by (fold D; unfold d; nia).
    fold D.
    pose proof (WordFacts.lor_mul_pow2 (2 * B1 + headBit) (code * D) b
                  ltac:(lia) ltac:(fold X; fold N in Hc; nia)) as Hlor.
    fold X in Hlor. rewrite Hlor. clear Hlor.
    cbn [bs_Out bs_BitsLeft bs_BitBuffer].
    assert (Hval : (2 * B1 + headBit) * X + code * D
                   = ((2 * B1 + headBit) * N + code) * D) by (rewrite HXD; ring).
    split; [|split].
    + split; [unfold d; lia|]. split.
      * rewrite H32. fold N in Hc. destruct Hh as [-> | ->]; nia.
      * split; [|exact Hout]. rewrite Hval. apply Z.mod_mul. lia.
    + unfold d, b. lia.
    + rewrite Hval, Z.div_mul by lia.
      assert (HQd : 2 ^ (32 - d) = Q * (2 * N)).
      { unfold Q. rewrite <- Hn1, <- BitArith.pow2_add by lia.
        f_equal. unfold d, b. lia. }
      rewrite HQd, Hn1. fold Q. fold B1. fold N. ring.
Qed.

(** X5: [WriteBits] appends exactly the header bit and the [numBits] bits
    of the code, first bit first, to what was written before, and leaves the
    writer in a state from which the next call does the same. *)
Theorem WriteBits_appends (host_le : bool) (bs : CompressBitStream)
    (headBit code numBits : Z) :
  writer_ok bs -> headBit = 0 \/ headBit = 1 -> 0 <= numBits <= 31 ->
  0 <= code < 2 ^ numBits ->
  let bs' := WriteBits host_le bs headBit code numBits in
  writer_ok bs'
  /\ written_bits bs' = written_bits bs + 1 + numBits
  /\ written_value host_le bs'
     = written_value host_le bs * 2 ^ (numBits + 1) + headBit * 2 ^ numBits + code.
Proof. apply WriteBits_spec. Qed.

Lemma WriteBits_appends_witness :
  let bs := WriteBits false (InitBitStream []) 1 0x41 8 in
  writer_ok bs /\ written_bits bs = 9 /\ written_value false bs = 0x141.
Proof.
  assert (H0 : writer_ok (InitBitStream [])).
  { unfold writer_ok. cbn. split; [lia|]. split; [lia|]. split; [reflexivity|].
    constructor. }
  assert (H1 : (1 = 0 \/ 1 = 1)) by (right; reflexivity).
  assert (H2 : 0 <= 8 <= 31) by lia.
  assert (H3 : 0 <= 0x41 < 2 ^ 8) by lia.
  exact (WriteBits_appends false (InitBitStream []) 1 0x41 8 H0 H1 H2 H3).
Defined.

End BitWriterFacts.


(** * The bit reader *)

Module BitReaderFacts.
Import Decompress DecompressSpec BitSpec.

Lemma wire_value_acc (ws : list Z) (acc : Z) :
  fold_left (fun acc w => acc * 2 ^ 32 + w) ws acc
  = acc * 2 ^ (32 * Z.of_nat (length ws)) + wire_value ws.
Proof.
  unfold wire_value. revert acc. induction ws as [|w ws IH]; intros acc.
  - cbn. lia.
  - cbn [fold_left length]. rewrite IH, (IH (0 * 2 ^ 32 + w)).
    replace (32 * Z.of_nat (S (length ws)))
      with (32 + 32 * Z.of_nat (length ws)) by lia.
    rewrite BitArith.pow2_add by lia. ring.
Qed.

Lemma wire_value_cons (w : Z) (ws : list Z) :
  wire_value (w :: ws) = w * 2 ^ (32 * Z.of_nat (length ws)) + wire_value ws.
Proof.
  unfold wire_value at 1. cbn [fold_left]. rewrite wire_value_acc. f_equal.
Qed.

Lemma wire_value_range (ws : list Z) :
  Forall (fun w => 0 <= w < 2 ^ 32) ws ->
  0 <= wire_value ws < 2 ^ (32 * Z.of_nat (length ws)).
Proof.
  induction 1 as [|w ws Hw Hws IH]; [cbn; lia|].
  rewrite wire_value_cons. cbn [length].
  replace (32 * Z.of_nat (S (length ws)))
    with (32 + 32 * Z.of_nat (length ws)) by lia.
  rewrite BitArith.pow2_add by lia.
  pose proof (BitArith.pow2_pos (32 * Z.of_nat (length ws)) ltac:(lia)). nia.
Qed.

Lemma wire_range (host_le : bool) (ws : list Z) :
  Forall (fun w => 0 <= w < 2 ^ 32) ws ->
  Forall (fun w => 0 <= w < 2 ^ 32) (wire host_le ws).
Proof.
  intros H. unfold wire. apply Forall_fmap. eapply Forall_impl; [exact H|].
  intros w Hw. by apply WordFacts.byteswap_if_little_endian_range.
Qed.

Lemma wire_length (host_le : bool) (ws : list Z) :
  length (wire host_le ws) = length ws.
Proof. apply length_map. Qed.

Lemma ReadBits_spec (host_le : bool) (bs : DecompressBitStream) (numBits : Z) :
  reader_ok bs -> 0 <= numBits <= 31 -> numBits <= bits_unread bs ->
  let bs' := fst (ReadBits host_le bs numBits) in
  let value := snd (ReadBits host_le bs numBits) in
  reader_ok bs'
  /\ bits_unread bs' = bits_unread bs - numBits
  /\ value = unread_value host_le bs / 2 ^ bits_unread bs'
  /\ unread_value host_le bs' = unread_value host_le bs mod 2 ^ bits_unread bs'
  /\ 0 <= value < 2 ^ numBits
  /\ bs_Error bs' = bs_Error bs.
Proof.
  destruct bs as [data num k B err].
  unfold reader_ok, bits_unread, unread_value.
  cbn [bs_Data bs_NumDataWords bs_BitsLeft bs_BitBuffer bs_Error].
  intros (Hk & HB & Hnum & Hnum32 & Hdata) Hn Hle.
  unfold ReadBits. cbn [bs_Data bs_NumDataWords bs_BitsLeft bs_BitBuffer bs_Error].
  destruct (Z.gtb_spec numBits k) as [Hgt|Hfit].
  - (* a word is fetched *)
    assert (Hnum1 : 1 <= num) by lia.
    destruct (Z.eqb_spec num 0) as [|_]; [lia|].
    destruct data as [|w0 data]; [cbn in Hnum; lia|].
    cbn [hd tail length] in *.
    apply Forall_cons in Hdata as [Hw0 Hdata].
    set (W := byteswap_if_little_endian host_le w0).
    assert (HW : 0 <= W < 2 ^ 32)
      by (by apply WordFacts.byteswap_if_little_endian_range).
    set (m := numBits - k).
    assert (Hm : 1 <= m <= 31) by (unfold m; lia).
    assert (Hres : (if k =? 0 then 0
                    else Z.land (shl32 B m) (mask numBits))
                   = (B mod 2 ^ k) * 2 ^ m).
    { destruct (Z.eqb_spec k 0) as [->|Hk0].
      - rewrite Z.pow_0_r, Z.mod_1_r. lia.
      - rewrite BitArith.land_mask by lia.
        unfold shl32, u32. rewrite Z.shiftl_mul_pow2 by lia.
        rewrite BitArith.mod_mod_pow2 by lia.
        replace (2 ^ numBits) with (2 ^ k * 2 ^ m)
          by (rewrite <- BitArith.pow2_add by lia; f_equal; unfold m; lia).
        rewrite Z.mul_mod_distr_r; [reflexivity| |];
          pose proof (BitArith.pow2_pos k); pose proof (BitArith.pow2_pos m); lia. }
    rewrite Hres.
    assert (Hnb : (if k =? 0 then numBits else u32 m) = m).
    { destruct (Z.eqb_spec k 0) as [->|Hk0]; [unfold m; lia|].
      apply WordFacts.u32_small. lia. }
    rewrite Hnb. unfold take_bits.
    cbn [bs_Data bs_NumDataWords bs_BitsLeft bs_BitBuffer bs_Error fst snd].
    rewrite (WordFacts.u32_small (32 - m)) by lia.
    rewrite (WordFacts.u32_small (num - 1)) by lia.
    fold W.
    set (Z1 := 2 ^ (32 - m)). set (M := 2 ^ m).
    assert (HZ1 : 0 < Z1) by (apply BitArith.pow2_pos; lia).
    assert (HM : 0 < M) by (apply BitArith.pow2_pos; lia).
    assert (HMZ : M * Z1 = 2 ^ 32).
    { unfold M, Z1. rewrite <- BitArith.pow2_add by lia. f_equal. lia. }
    rewrite BitArith.shr32_div, BitArith.land_mask by lia. fold Z1. fold M.
    pose proof (Z.div_mod W Z1 ltac:(lia)) as HWdm.
    pose proof (Z.mod_pos_bound W Z1 HZ1) as HWl.
    set (Wh := W / Z1) in *. set (Wl := W mod Z1) in *.
    assert (HWh : 0 <= Wh < M).
    { split; [apply Z.div_pos; lia|]. apply Z.div_lt_upper_bound; lia. }
    rewrite (Z.mod_small Wh M) by lia.
    pose proof (Z.mod_pos_bound B (2 ^ k) (BitArith.pow2_pos k ltac:(lia))) as HBk.
    set (Bk := B mod 2 ^ k) in *.
    pose proof (WordFacts.lor_mul_pow2 Bk Wh m ltac:(lia) ltac:(fold M; lia))
      as Hlor.
    fold M in Hlor. rewrite Hlor. clear Hlor.
    set (L := Z.of_nat (length data)) in *.
    assert (HL : num - 1 = L) by lia.
    rewrite HL.
    set (P := 2 ^ (32 * L)).
    assert (HP : 0 < P) by (apply BitArith.pow2_pos; lia).
    assert (HnumP : 2 ^ (32 * num) = 2 ^ 32 * P).
    { unfold P. rewrite <- BitArith.pow2_add by lia. f_equal. lia. }
    assert (HN' : 2 ^ (32 * L + (32 - m)) = Z1 * P).
    { unfold Z1, P. rewrite <- BitArith.pow2_add by lia. f_equal. lia. }
    pose proof (wire_value_range (wire host_le data) (wire_range _ _ Hdata)) as Hwv.
    rewrite wire_length in Hwv. fold L in Hwv. fold P in Hwv.
    change (wire host_le (w0 :: data)) with (W :: wire host_le data).
    rewrite wire_value_cons, wire_length. fold L. fold P.
    set (wv := wire_value (wire host_le data)) in *.
    rewrite HnumP, HN'.
    assert (Hdec : Bk * (2 ^ 32 * P) + (W * P + wv)
                   = (Bk * M + Wh) * (Z1 * P) + (Wl * P + wv)).
    { rewrite <- HMZ, HWdm. ring. }
    assert (Hrem : 0 <= Wl * P + wv < Z1 * P) by nia.
    destruct (BitArith.div_mod_decompose _ _ _ _ Hdec Hrem) as [Hq Hr].
    rewrite Hq, Hr.
    split; [repeat split; try lia; assumption|].
    split; [unfold m; lia|]. split; [reflexivity|].
    split; [reflexivity|]. split; [|reflexivity].
    replace (2 ^ numBits) with (2 ^ k * M)
      by (unfold M; rewrite <- BitArith.pow2_add by lia; f_equal; unfold m; lia).
    nia.
  - (* the buffer holds the bits *)
    unfold take_bits.
    cbn [bs_Data bs_NumDataWords bs_BitsLeft bs_BitBuffer bs_Error fst snd].
    rewrite (WordFacts.u32_small (k - numBits)) by lia.
    set (j := k - numBits).
    rewrite Z.lor_0_l, BitArith.shr32_div, BitArith.land_mask by (unfold j; lia).
    set (J := 2 ^ j). set (N := 2 ^ numBits).
    assert (HJ : 0 < J) by (apply BitArith.pow2_pos; unfold j; lia).
    assert (HN : 0 < N) by (apply BitArith.pow2_pos; lia).
    assert (HkJ : 2 ^ k = J * N).
    { unfold J, N. rewrite <- BitArith.pow2_add by (unfold j; lia).
      f_equal. unfold j. lia. }
    set (L := Z.of_nat (length data)) in *.
    set (P := 2 ^ (32 * num)).
    assert (HP : 0 < P) by (apply BitArith.pow2_pos; lia).
    assert (HN' : 2 ^ (32 * num + j) = J * P).
    { unfold J, P. rewrite <- BitArith.pow2_add by (unfold j; lia).
      f_equal. lia. }
    pose proof (wire_value_range (wire host_le data) (wire_range _ _ Hdata)) as Hwv.
    rewrite wire_length in Hwv. fold L in Hwv. rewrite <- Hnum in Hwv.
    fold P in Hwv.
    set (wv := wire_value (wire host_le data)) in *.
    rewrite HN', HkJ, Z.rem_mul_r by lia.
    pose proof (Z.mod_pos_bound B J HJ) as HBl.
    pose proof (Z.mod_pos_bound (B / J) N HN) as HBh.
    set (Bl := B mod J) in *. set (Bh := (B / J) mod N) in *.
    assert (Hdec : (Bl + J * Bh) * P + wv = Bh * (J * P) + (Bl * P + wv)) by ring.
    assert (Hrem : 0 <= Bl * P + wv < J * P) by nia.
    destruct (BitArith.div_mod_decompose _ _ _ _ Hdec Hrem) as [Hq Hr].
    rewrite Hq, Hr.
    split; [repeat split; try lia; assumption|].
    split; [unfold j; lia|]. split; [reflexivity|].
    split; [reflexivity|]. split; [lia|reflexivity].
Qed.

(** X6: when enough bits are left, [ReadBits] returns the next [numBits]
    bits, first bit first, and leaves exactly the bits after them to be read;
    the error flag is not touched. *)
Theorem ReadBits_reads (host_le : bool) (bs : DecompressBitStream) (numBits : Z) :
  reader_ok bs -> 0 <= numBits <= 31 -> numBits <= bits_unread bs ->
  let bs' := fst (ReadBits host_le bs numBits) in
  let value := snd (ReadBits host_le bs numBits) in
  reader_ok bs'
  /\ bits_unread bs' = bits_unread bs - numBits
  /\ value = unread_value host_le bs / 2 ^ bits_unread bs'
  /\ unread_value host_le bs' = unread_value host_le bs mod 2 ^ bits_unread bs'
  /\ 0 <= value < 2 ^ numBits
  /\ bs_Error bs' = bs_Error bs.
Proof. apply ReadBits_spec. Qed.

Lemma ReadBits_reads_witness :
  let bs := mkDecompressBitStream [0xA0D0A874] 1 0 0 false in
  reader_ok bs
  /\ snd (ReadBits false bs 9) = 0x141
  /\ snd (ReadBits false bs 9) = unread_value false bs / 2 ^ 23
  /\ bits_unread (fst (ReadBits false bs 9)) = 23.
Proof.
  assert (H0 : reader_ok (mkDecompressBitStream [0xA0D0A874] 1 0 0 false)).
  { unfold reader_ok. cbn. split; [lia|]. split; [lia|]. split; [reflexivity|].
    split; [lia|]. repeat constructor; lia. }
  assert (H1 : 0 <= 9 <= 31) by lia.
  assert (H2 : 9 <= bits_unread (mkDecompressBitStream [0xA0D0A874] 1 0 0 false))
    by (unfold bits_unread; cbn [bs_NumDataWords bs_BitsLeft]; lia).
  destruct (ReadBits_reads false _ 9 H0 H1 H2) as (_ & Hb & Hv & _).
  split; [exact H0|]. split; [reflexivity|]. split; [exact Hv|exact Hb].
Defined.

End BitReaderFacts.


(** * The bit writer and the bit reader together *)

Module BitRoundTrip.
Import BitSpec.

Lemma fields_bits_nonneg (fields : list (Z * Z * Z)) :
  Forall field_ok fields -> 0 <= fields_bits fields.
Proof.
  induction 1 as [|[[h c] n] fields Hf _ IH]; cbn [fields_bits]; [lia|].
  destruct Hf as (_ & Hn & _). lia.
Qed.

Lemma fields_value_range (fields : list (Z * Z * Z)) :
  Forall field_ok fields -> 0 <= fields_value fields < 2 ^ fields_bits fields.
Proof.
  induction 1 as [|[[h c] n] fields Hf Hfs IH]; cbn [fields_bits fields_value].
  - cbn. lia.
  - destruct Hf as (Hh & Hn & Hc).
    pose proof (fields_bits_nonneg fields Hfs) as Hb.
    replace (1 + n + fields_bits fields) with (1 + (n + fields_bits fields)) by lia.
    rewrite !BitArith.pow2_add by lia.
    pose proof (BitArith.pow2_pos n ltac:(lia)).
    pose proof (BitArith.pow2_pos (fields_bits fields) Hb).
    change (2 ^ 1) with 2. destruct Hh as [-> | ->]; nia.
Qed.

Lemma write_all_appends (host_le : bool) (fields : list (Z * Z * Z))
    (bs : Compress.CompressBitStream) :
  writer_ok bs -> Forall field_ok fields ->
  let bs' := write_all host_le bs fields in
  writer_ok bs'
  /\ written_bits bs' = written_bits bs + fields_bits fields
  /\ written_value host_le bs'
     = written_value host_le bs * 2 ^ fields_bits fields + fields_value fields.
Proof.
  intros Hok Hfs. revert bs Hok.
  induction Hfs as [|[[h c] n] fields Hf Hfs IH]; intros bs Hok.
  - cbn. split; [exact Hok|]. split; lia.
  - cbn [write_all fields_bits fields_value]. destruct Hf as (Hh & Hn & Hc).
    destruct (BitWriterFacts.WriteBits_spec host_le bs h c n Hok Hh Hn Hc)
      as (Hok1 & Hb1 & Hv1).
    destruct (IH _ Hok1) as (Hok2 & Hb2 & Hv2).
    split; [exact Hok2|]. split; [lia|].
    rewrite Hv2, Hv1.
    pose proof (fields_bits_nonneg fields Hfs) as Hb.
    replace (1 + n + fields_bits fields) with ((n + 1) + fields_bits fields) by lia.
    rewrite (BitArith.pow2_add (n + 1)) by lia. ring.
Qed.

(** What [CleanupBitStream] leaves in the sink: the bits written, padded
    with zeros to a whole number of words. *)
Lemma CleanupBitStream_pads (host_le : bool) (bs : Compress.CompressBitStream) :
  writer_ok bs ->
  let out := Compress.bs_Out (Compress.CleanupBitStream host_le bs) in
  exists pad,
    0 <= pad < 32
    /\ 32 * Z.of_nat (length out) = written_bits bs + pad
    /\ wire_value (wire host_le out) = written_value host_le bs * 2 ^ pad
    /\ Forall (fun w => 0 <= w < 2 ^ 32) out.
Proof.
  destruct bs as [out BL B]. unfold writer_ok, written_bits, written_value.
  cbn [Compress.bs_Out Compress.bs_BitsLeft Compress.bs_BitBuffer].
  intros (HBL & HB & Hmod & Hout). unfold Compress.CleanupBitStream.
  cbn [Compress.bs_Out Compress.bs_BitsLeft Compress.bs_BitBuffer].
  destruct (Z.eqb_spec BL 32) as [->|Hne].
  - cbn [Compress.bs_Out]. exists 0. split; [lia|]. split; [lia|].
    split; [|exact Hout]. rewrite Z.div_small by lia.
    change (2 ^ (32 - 32)) with 1. change (2 ^ 0) with 1. lia.
  - cbn [Compress.bs_Out]. exists BL. split; [lia|].
    split; [rewrite length_app; cbn [length]; lia|]. split.
    + rewrite BitWriterFacts.wire_snoc by exact HB.
      rewrite BitWriterFacts.wire_value_snoc.
      pose proof (BitArith.pow2_pos BL ltac:(lia)) as HP.
      rewrite Z.mul_add_distr_r, <- Z.mul_assoc, <- BitArith.pow2_add by lia.
      replace (32 - BL + BL) with 32 by lia. f_equal.
      pose proof (proj2 (Z.div_exact B (2 ^ BL) ltac:(lia)) Hmod). lia.
    + apply Forall_app. split; [exact Hout|]. apply Forall_singleton.
      by apply WordFacts.byteswap_if_little_endian_range.
Qed.

Lemma read_all_fields (host_le : bool) (fields : list (Z * Z * Z)) :
  Forall field_ok fields ->
  forall (bs : Decompress.DecompressBitStream) (pad rest : Z),
    reader_ok bs -> 0 <= pad -> 0 <= rest < 2 ^ pad ->
    DecompressSpec.bits_unread bs = fields_bits fields + pad ->
    unread_value host_le bs = fields_value fields * 2 ^ pad + rest ->
    let bs' := fst (DecompressSpec.read_all host_le bs (field_counts fields)) in
    snd (DecompressSpec.read_all host_le bs (field_counts fields))
    = field_values fields
    /\ Decompress.bs_Error bs' = Decompress.bs_Error bs
    /\ DecompressSpec.bits_unread bs' = pad.
Proof.
  induction 1 as [|[[h c] n] fields Hf Hfs IH]; intros bs pad rest Hok Hpad Hrest
    Hbits Hval.
  - cbn. split; [reflexivity|]. split; [reflexivity|]. cbn in Hbits. lia.
  - destruct Hf as (Hh & Hn & Hc).
    pose proof (fields_bits_nonneg fields Hfs) as Hb.
    pose proof (fields_value_range fields Hfs) as Hv.
    cbn [fields_bits fields_value] in Hbits, Hval.
    cbn [field_counts field_values flat_map app DecompressSpec.read_all].
    fold (field_counts fields). fold (field_values fields).
    (* the header bit *)
    destruct (BitReaderFacts.ReadBits_spec host_le bs 1 Hok ltac:(lia) ltac:(lia))
      as (Hok1 & Hb1 & Hv1 & Hu1 & _ & He1).
    destruct (Decompress.ReadBits host_le bs 1) as [bs1 v1]. cbn [fst snd] in *.
    set (F := 2 ^ fields_bits fields) in *. set (P := 2 ^ pad) in *.
    set (N := 2 ^ n) in *.
    assert (HF : 0 < F) by (by apply BitArith.pow2_pos).
    assert (HP : 0 < P) by (by apply BitArith.pow2_pos).
    assert (HN : 0 < N) by (apply BitArith.pow2_pos; lia).
    assert (Hb1' : 2 ^ DecompressSpec.bits_unread bs1 = N * F * P).
    { rewrite Hb1, Hbits. unfold N, F, P.
      rewrite <- !BitArith.pow2_add by lia. f_equal. lia. }
    rewrite Hb1' in Hv1, Hu1.
    assert (Hdec1 : ((h * N + c) * F + fields_value fields) * P + rest
                    = h * (N * F * P) + ((c * F + fields_value fields) * P + rest))
      by ring.
    assert (Hrem1 : 0 <= (c * F + fields_value fields) * P + rest < N * F * P).
    { split; [nia|].
      assert (c * F + fields_value fields <= N * F - 1) by nia. nia. }
    rewrite Hval in Hv1, Hu1.
    destruct (BitArith.div_mod_decompose _ _ _ _ Hdec1 Hrem1) as [Hq1 Hr1].
    rewrite Hq1 in Hv1. rewrite Hr1 in Hu1. subst v1.
    (* the code *)
    destruct (BitReaderFacts.ReadBits_spec host_le bs1 n Hok1 Hn ltac:(lia))
      as (Hok2 & Hb2 & Hv2 & Hu2 & _ & He2).
    destruct (Decompress.ReadBits host_le bs1 n) as [bs2 v2]. cbn [fst snd] in *.
    assert (Hb2' : 2 ^ DecompressSpec.bits_unread bs2 = F * P).
    { rewrite Hb2, Hb1, Hbits. unfold F, P.
      rewrite <- !BitArith.pow2_add by lia. f_equal. lia. }
    rewrite Hb2', Hu1 in Hv2, Hu2.
    assert (Hrem2 : 0 <= fields_value fields * P + rest < F * P) by nia.
    assert (Hdec2 : (c * F + fields_value fields) * P + rest
                    = c * (F * P) + (fields_value fields * P + rest)) by ring.
    destruct (BitArith.div_mod_decompose _ _ _ _ Hdec2 Hrem2) as [Hq2 Hr2].
    rewrite Hq2 in Hv2. rewrite Hr2 in Hu2. subst v2.
    specialize (IH bs2 pad rest Hok2 Hpad Hrest ltac:(lia) Hu2).
    cbv zeta in IH.
    destruct (DecompressSpec.read_all host_le bs2 (field_counts fields))
      as [bs3 vs]. cbn [fst snd] in *.
    destruct IH as (-> & He3 & Hb3).
    split; [reflexivity|]. split; [congruence|exact Hb3].
Qed.

(** X7: the bit reader reads back what the bit writer wrote.  For every
    run of fields (a header bit and a code of up to 31 bits each) written by
    [WriteBits] from a new bit stream and flushed by [CleanupBitStream], a
    new reader fed the words the sink received returns, for the requests of
    1 bit and of the width of the code in turn, the header bits and the codes
    that were written; it does not set its error flag, and fewer than 32 bits
    of padding are left. *)
Theorem ReadBits_reads_back_WriteBits (host_le : bool)
    (fields : list (Z * Z * Z)) (rb : Decompress.DecompressBitStream) :
  Forall field_ok fields ->
  let out :=
    Compress.bs_Out
      (Compress.CleanupBitStream host_le
         (write_all host_le (Compress.InitBitStream []) fields)) in
  Z.of_nat (length out) < 2 ^ 32 ->
  let reader :=
    Decompress.FeedBitStream (Decompress.InitBitStream rb) out
      (Z.of_nat (length out)) in
  let '(reader', values) :=
    DecompressSpec.read_all host_le reader (field_counts fields) in
  values = field_values fields
  /\ Decompress.bs_Error reader' = false
  /\ 0 <= DecompressSpec.bits_unread reader' < 32
  /\ 32 * Z.of_nat (length out) = fields_bits fields + DecompressSpec.bits_unread reader'.
Proof.
  intros Hfs out Hlen reader.
  assert (H0 : writer_ok (Compress.InitBitStream [])).
  { unfold writer_ok. cbn. split; [lia|]. split; [lia|]. split; [reflexivity|].
    constructor. }
  destruct (write_all_appends host_le fields _ H0 Hfs) as (Hok & Hb & Hv).
  destruct (CleanupBitStream_pads host_le _ Hok) as (pad & Hpad & Hbits & Hval & Hout).
  fold out in Hbits, Hval, Hout.
  change (written_bits (Compress.InitBitStream [])) with 0 in Hb.
  change (written_value host_le (Compress.InitBitStream [])) with 0 in Hv.
  rewrite Hb in Hbits. rewrite Hv in Hval.
  assert (Hr : reader_ok reader).
  { unfold reader_ok, reader. cbn. split; [lia|]. split; [lia|].
    split; [reflexivity|]. split; [exact Hlen|exact Hout]. }
  pose proof (read_all_fields host_le fields Hfs reader pad 0 Hr ltac:(lia)
                ltac:(pose proof (BitArith.pow2_pos pad); lia)) as H.
  cbv zeta in H.
  destruct (DecompressSpec.read_all host_le reader (field_counts fields))
    as [reader' values]. cbn [fst snd] in H.
  destruct H as (Hvals & He & Hu).
  - unfold DecompressSpec.bits_unread, reader. cbn. lia.
  - unfold unread_value, reader, Decompress.FeedBitStream,
      Decompress.InitBitStream.
    cbn [Decompress.bs_Data Decompress.bs_BitsLeft Decompress.bs_BitBuffer
         Decompress.bs_NumDataWords].
    rewrite Hval, Zmod_0_l. lia.
  - split; [exact Hvals|]. split; [rewrite He; reflexivity|].
    split; [lia|]. lia.
Qed.

Lemma ReadBits_reads_back_WriteBits_witness :
  let fields := [(1, 0x41, 8); (0, 0x0123, 16); (1, 0x42, 8); (0, 0, 12)] in
  Forall field_ok fields
  /\ snd (DecompressSpec.read_all true
            (Decompress.FeedBitStream
               (Decompress.InitBitStream
                  (Decompress.mkDecompressBitStream [] 0 7 9 true))
               (Compress.bs_Out
                  (Compress.CleanupBitStream true
                     (write_all true (Compress.InitBitStream []) fields)))
               2)
            (field_counts fields))
     = [1; 0x41; 0; 0x0123; 1; 0x42; 0; 0].
Proof.
  assert (H0 : Forall field_ok
                 [(1, 0x41, 8); (0, 0x0123, 16); (1, 0x42, 8); (0, 0, 12)]).
  { repeat constructor; cbn; lia. }
  split; [exact H0|].
  pose proof (ReadBits_reads_back_WriteBits true _
                (Decompress.mkDecompressBitStream [] 0 7 9 true) H0) as H.
  cbv zeta in H.
  assert (Hl : Z.of_nat
                 (length
                    (Compress.bs_Out
                       (Compress.CleanupBitStream true
                          (write_all true (Compress.InitBitStream [])
                             [(1, 0x41, 8); (0, 0x0123, 16); (1, 0x42, 8);
                              (0, 0, 12)]))))
               < 2 ^ 32) by (vm_compute; reflexivity).
  specialize (H Hl).
  change (length _) with 2%nat in H. change (Z.of_nat 2) with 2 in H.
  destruct (DecompressSpec.read_all _ _ _) as [r vs].
  destruct H as (-> & _). reflexivity.
Defined.

End BitRoundTrip.


(** * The size of the stream *)

Module SizeFacts.
Import Compress CompressSpec BitSpec EncoderSpec.

Lemma WriteBits_count (host_le : bool) (bs : CompressBitStream)
    (headBit code numBits : Z) :
  1 <= bs_BitsLeft bs <= 32 -> 0 <= numBits <= 31 ->
  let bs' := WriteBits host_le bs headBit code numBits in
  1 <= bs_BitsLeft bs' <= 32
  /\ written_bits bs' = written_bits bs + 1 + numBits
  /\ (length (bs_Out bs) <= length (bs_Out bs'))%nat.
Proof.
  intros HBL Hn. unfold WriteBits, written_bits.
  rewrite (WordFacts.u32_small (bs_BitsLeft bs - 1)) by lia.
  destruct (Z.geb_spec numBits (bs_BitsLeft bs - 1)).
  - rewrite (WordFacts.u32_small (numBits - _)) by lia.
    rewrite (WordFacts.u32_small (32 - _)) by lia.
    cbn [bs_Out bs_BitsLeft]. rewrite length_app. cbn [length]. lia.
  - rewrite (WordFacts.u32_small (_ - numBits)) by lia.
    cbn [bs_Out bs_BitsLeft]. lia.
Qed.

Lemma emit_token_credit (host_le : bool) (f : frame) :
  frame_ok f ->
  let f' := emit_token host_le f in
  frame_ok f'
  /\ 1 <= f_replaceCnt f'
  /\ credit f' <= written_bits (f_bs f)
  /\ written_bits (f_bs f) <= written_bits (f_bs f')
  /\ (length (bs_Out (f_bs f)) <= length (bs_Out (f_bs f')))%nat
  /\ f_lookAhead f' = f_lookAhead f
  /\ (0 <= f_lookAhead f -> f_replaceCnt f' <= f_lookAhead f + 1).
Proof.
  intros (HBL & Hrc & Hml). rewrite CompressFacts.LOOK_AHEAD_SIZE_eq in *.
  unfold emit_token.
  set (matchLen := if f_matchLen f >? f_lookAhead f then f_lookAhead f
                   else f_matchLen f).
  assert (Hm : matchLen <= 18 /\ matchLen <= f_lookAhead f).
  { unfold matchLen. destruct (Z.gtb_spec (f_matchLen f) (f_lookAhead f)); lia. }
  unfold frame_ok, credit. rewrite CompressFacts.LOOK_AHEAD_SIZE_eq.
  destruct (Z.leb_spec matchLen BREAK_EVEN) as [Hlit|Href];
    unfold BREAK_EVEN in *; cbn [f_bs f_replaceCnt f_matchLen f_lookAhead].
  - destruct (WriteBits_count host_le (f_bs f) 1
                (rd (f_window f) (f_currentPos f)) 8 HBL ltac:(lia))
      as (HBL' & Hb & Hl).
    rewrite Hb. repeat split; lia.
  - rewrite (WordFacts.u32_small matchLen) by lia.
    destruct (WriteBits_count host_le (f_bs f) 0
                (Z.lor (shl32 (f_matchPos f) LENGTH_BIT_COUNT)
                   (u32 (matchLen - (2 + 1))))
                (INDEX_BIT_COUNT + LENGTH_BIT_COUNT) HBL
                ltac:(unfold INDEX_BIT_COUNT, LENGTH_BIT_COUNT; lia))
      as (HBL' & Hb & Hl).
    rewrite Hb. unfold INDEX_BIT_COUNT, LENGTH_BIT_COUNT in *.
    repeat split; lia.
Qed.

Lemma delete_ahead_credit (f f' : frame) :
  frame_ok f -> 1 <= f_replaceCnt f -> delete_ahead f = Some f' ->
  frame_ok f'
  /\ f_bs f' = f_bs f
  /\ f_replaceCnt f' = f_replaceCnt f - 1
  /\ f_lookAhead f' = f_lookAhead f
  /\ f_window f' = f_window f.
Proof.
  intros (HBL & Hrc & Hml) H1. rewrite CompressFacts.LOOK_AHEAD_SIZE_eq in *.
  unfold delete_ahead. destruct (DeleteString _ _); [|done].
  intros [= <-]. unfold frame_ok. rewrite CompressFacts.LOOK_AHEAD_SIZE_eq.
  cbn [f_bs f_replaceCnt f_matchLen f_lookAhead f_window].
  rewrite WordFacts.u32_small by lia. repeat split; lia.
Qed.

Lemma advance_credit (f f' : frame) (window : gmap Z Z) (lookAhead : Z) :
  frame_ok f -> advance f window lookAhead = Some f' ->
  frame_ok f'
  /\ f_bs f' = f_bs f
  /\ f_replaceCnt f' = f_replaceCnt f
  /\ f_lookAhead f' = lookAhead.
Proof.
  intros (HBL & Hrc & Hml). unfold advance.
  destruct (lookAhead =? 0).
  - intros [= <-]. unfold frame_ok. cbn. repeat split; lia.
  - destruct (AddString _ _ _ _) as [[[tree len] pos]|] eqn:Hadd; [|done].
    intros [= <-]. apply MatchFacts.AddString_result in Hadd as (Hlen & _).
    unfold frame_ok. cbn. repeat split; lia.
Qed.

(** The inner loop of [FeedCompressor]: nine bits of credit for each byte
    read, and for the deletion after which the data ran out. *)
Lemma feed_replace_credit (host_le : bool) (src : list Z) :
  forall f f',
    frame_ok f -> feed_replace host_le f src = Some f' ->
    frame_ok f'
    /\ credit f' <= credit f + 9 * (Z.of_nat (length src) + 1)
    /\ f_lookAhead f' = f_lookAhead f
    /\ f_replaceCnt f' <= LOOK_AHEAD_SIZE - 1.
Proof.
  induction src as [|b src IH]; intros f f' Hok Hfeed;
    rewrite CompressFacts.feed_replace_unfold in Hfeed; cbv zeta in Hfeed.
  - assert (Hstep : forall g, frame_ok g -> 1 <= f_replaceCnt g ->
              match delete_ahead g with Some g' => Some g' | None => None end
              = Some f' ->
              frame_ok f' /\ credit f' = credit g + 9
              /\ f_lookAhead f' = f_lookAhead g
              /\ f_replaceCnt f' <= LOOK_AHEAD_SIZE - 1).
    { intros g Hg H1 Hd. destruct (delete_ahead g) as [g'|] eqn:E; [|done].
      injection Hd as ->.
      destruct (delete_ahead_credit _ _ Hg H1 E) as (Hok' & Hbs & Hrc & Hla & _).
      destruct Hg as (_ & Hgrc & _).
      split; [exact Hok'|]. unfold credit. rewrite Hbs, Hrc.
      split; [lia|]. split; [exact Hla|lia]. }
    cbn [length]. destruct (Z.eqb_spec (f_replaceCnt f) 0) as [H0|H0].
    + destruct (emit_token_credit host_le f Hok) as (Hok1 & H1 & Hc1 & _ & _ & Hla1 & _).
      destruct (Z.eqb_spec (f_replaceCnt (emit_token host_le f)) 0); [lia|].
      destruct (Hstep _ Hok1 H1 Hfeed) as (Hok' & Hc & Hla & Hrc).
      split; [exact Hok'|]. unfold credit in *. rewrite H0.
      split; [lia|]. split; [congruence|exact Hrc].
    + destruct Hok as (HBL & Hrc0 & Hml).
      destruct (Hstep f (conj HBL (conj Hrc0 Hml)) ltac:(lia) Hfeed)
        as (Hok' & Hc & Hla & Hrc).
      split; [exact Hok'|]. split; [lia|]. split; [exact Hla|exact Hrc].
  - assert (Hstep : forall g, frame_ok g -> 1 <= f_replaceCnt g ->
              match delete_ahead g with
              | Some g' =>
                  match feed_newData g' b with
                  | Some g'' => feed_replace host_le g'' src
                  | None => None
                  end
              | None => None
              end = Some f' ->
              frame_ok f'
              /\ credit f' <= credit g + 9 + 9 * (Z.of_nat (length src) + 1)
              /\ f_lookAhead f' = f_lookAhead g
              /\ f_replaceCnt f' <= LOOK_AHEAD_SIZE - 1).
    { intros g Hg H1 Hd. destruct (delete_ahead g) as [g'|] eqn:E; [|done].
      destruct (delete_ahead_credit _ _ Hg H1 E) as (Hok' & Hbs & Hrc & Hla & _).
      destruct (feed_newData g' b) as [g''|] eqn:E2; [|done].
      unfold feed_newData in E2.
      destruct (advance_credit _ _ _ _ Hok' E2) as (Hok2 & Hbs2 & Hrc2 & Hla2).
      destruct (IH _ _ Hok2 Hd) as (Hok3 & Hc3 & Hla3 & Hrc3).
      split; [exact Hok3|]. unfold credit in *.
      rewrite Hbs2, Hrc2, Hbs, Hrc in Hc3.
      split; [lia|]. split; [congruence|exact Hrc3]. }
    cbn [length]. destruct (Z.eqb_spec (f_replaceCnt f) 0) as [H0|H0].
    + destruct (emit_token_credit host_le f Hok) as (Hok1 & H1 & Hc1 & _ & _ & Hla1 & _).
      destruct (Z.eqb_spec (f_replaceCnt (emit_token host_le f)) 0); [lia|].
      destruct (Hstep _ Hok1 H1 Hfeed) as (Hok' & Hc & Hla & Hrc).
      split; [exact Hok'|]. unfold credit in *. rewrite H0.
      split; [lia|]. split; [congruence|exact Hrc].
    + destruct Hok as (HBL & Hrc0 & Hml).
      destruct (Hstep f (conj HBL (conj Hrc0 Hml)) ltac:(lia) Hfeed)
        as (Hok' & Hc & Hla & Hrc).
      split; [exact Hok'|]. split; [lia|]. split; [exact Hla|exact Hrc].
Qed.

Lemma feed_fill_count (src : list Z) :
  forall (window : gmap Z Z) (lookAhead : Z) (window' : gmap Z Z)
         (lookAhead' : Z) (r : option (list Z)),
    lookAhead <= LOOK_AHEAD_SIZE + 1 ->
    feed_fill window lookAhead src = (window', lookAhead', r) ->
    match r with
    | None =>
        lookAhead' = lookAhead + Z.of_nat (length src)
        /\ lookAhead' <= LOOK_AHEAD_SIZE
    | Some rest =>
        lookAhead' = LOOK_AHEAD_SIZE + 1
        /\ Z.of_nat (length rest)
           = lookAhead + Z.of_nat (length src) - (LOOK_AHEAD_SIZE + 1)
    end.
Proof.
  induction src as [|b src IH]; intros window lookAhead window' lookAhead' r Hla H;
    rewrite CompressFacts.feed_fill_unfold in H;
    destruct (Z.leb_spec lookAhead LOOK_AHEAD_SIZE) as [Hle|Hgt].
  - injection H as <- <- <-. cbn [length]. lia.
  - injection H as <- <- <-. cbn [length]. lia.
  - apply IH in H; [|lia]. cbn [length]. destruct r; lia.
  - injection H as <- <- <-. cbn [length]. lia.
Qed.

(** The state of the encoder after one more call. *)
Lemma feed_bytes_fed (host_le : bool) (comp comp' : Compressor) (src : list Z)
    (n : Z) :
  0 <= n -> fed comp n -> feed_bytes host_le comp src = Some comp' ->
  fed comp' (n + Z.of_nat (length src)).
Proof.
  intros Hn (Hok & Hst). unfold feed_bytes.
  destruct src as [|b src]; [intros [= <-]; cbn; rewrite Z.add_0_r; by split|].
  cbv zeta. rewrite CompressFacts.LOOK_AHEAD_SIZE_eq in *.
  destruct Hst as [(Hsp & Hn18 & Hla & Hrc & Hbits)|(Hsp & Hn18 & Hla & Hrc & Hcr)];
    rewrite Hsp.
  - (* the look-ahead buffer is being loaded *)
    destruct (feed_fill _ _ _) as [[window lookAhead] [rest|]] eqn:Hfill.
    + apply feed_fill_count in Hfill;
        [|rewrite CompressFacts.LOOK_AHEAD_SIZE_eq; cbn [load_frame f_lookAhead]; lia].
      rewrite CompressFacts.LOOK_AHEAD_SIZE_eq in Hfill.
      cbn [load_frame f_lookAhead] in Hfill. destruct Hfill as (-> & Hrest).
      set (f0 := mkFrame _ _ _ _ _ _ _ _).
      assert (Hok0 : frame_ok f0) by exact Hok.
      destruct (emit_token_credit host_le f0 Hok0)
        as (Hok1 & H1 & Hc1 & _ & _ & Hla1 & _).
      destruct (feed_replace _ _ _) as [f2|] eqn:Hfeed; [|done].
      intros [= <-].
      destruct (feed_replace_credit host_le rest _ _ Hok1 Hfeed)
        as (Hok2 & Hc2 & Hla2 & Hrc2).
      rewrite CompressFacts.LOOK_AHEAD_SIZE_eq in Hrc2.
      split; [by rewrite CompressFacts.load_save_frame|].
      right. rewrite CompressFacts.LOOK_AHEAD_SIZE_eq.
      rewrite CompressFacts.load_save_frame.
      cbn [save_frame ch_SecondPass ch_LookAhead ch_ReplaceCnt].
      split; [reflexivity|]. split; [lia|].
      split; [rewrite Hla2, Hla1; reflexivity|]. split; [lia|].
      change (written_bits (f_bs f0)) with (written_bits (ch_BitStream comp)) in Hc1.
      lia.
    + apply feed_fill_count in Hfill;
        [|rewrite CompressFacts.LOOK_AHEAD_SIZE_eq; cbn [load_frame f_lookAhead]; lia].
      rewrite CompressFacts.LOOK_AHEAD_SIZE_eq in Hfill.
      cbn [load_frame f_lookAhead] in Hfill. destruct Hfill as (-> & Hle).
      intros [= <-]. split; [exact Hok|]. left.
      rewrite CompressFacts.LOOK_AHEAD_SIZE_eq.
      cbn [ch_SecondPass ch_LookAhead ch_ReplaceCnt ch_BitStream].
      cbn [length] in *. repeat split; (assumption || lia).
  - (* the main loop is running *)
    destruct (feed_newData _ b) as [f1|] eqn:Hnew; [|done].
    unfold feed_newData in Hnew.
    destruct (advance_credit _ _ _ _ Hok Hnew) as (Hok1 & Hbs1 & Hrc1 & Hla1).
    destruct (feed_replace _ _ _) as [f2|] eqn:Hfeed; [|done].
    intros [= <-].
    destruct (feed_replace_credit host_le src _ _ Hok1 Hfeed)
      as (Hok2 & Hc2 & Hla2 & Hrc2).
    rewrite CompressFacts.LOOK_AHEAD_SIZE_eq in Hrc2.
    split; [by rewrite CompressFacts.load_save_frame|].
    right. rewrite CompressFacts.LOOK_AHEAD_SIZE_eq.
    rewrite CompressFacts.load_save_frame.
    cbn [save_frame ch_SecondPass ch_LookAhead ch_ReplaceCnt].
    split; [reflexivity|]. cbn [length]. split; [lia|].
    split; [rewrite Hla2, Hla1; exact Hla|]. split; [lia|].
    unfold credit in *. rewrite Hbs1, Hrc1 in Hc2.
    cbn [load_frame f_bs f_replaceCnt] in *. lia.
Qed.

(** The loop of [FlushCompressor]: nine bits of credit for each byte of
    look-ahead left, and one more. *)
Lemma flush_replace_credit (host_le : bool) (fuel : nat) :
  forall f f',
    frame_ok f -> -1 <= f_lookAhead f -> f_replaceCnt f <= f_lookAhead f + 1 ->
    flush_replace fuel host_le f = Some f' ->
    1 <= bs_BitsLeft (f_bs f') <= 32
    /\ written_bits (f_bs f') <= credit f + 9 * (f_lookAhead f + 1)
    /\ written_bits (f_bs f) <= written_bits (f_bs f').
Proof.
  induction fuel as [|fuel IH]; intros f f' Hok Hla Hrc Hflush; [done|].
  rewrite CompressFacts.flush_replace_unfold in Hflush.
  destruct (Z.eqb_spec (f_replaceCnt f) 0) as [H0|H0].
  - destruct (Z.geb_spec (f_lookAhead f) 0) as [Hge|Hlt].
    + destruct (emit_token_credit host_le f Hok)
        as (Hok1 & H1 & Hc1 & Hmono & _ & Hla1 & Hrc1).
      apply IH in Hflush; [|exact Hok1|lia|rewrite Hla1; apply Hrc1; lia].
      destruct Hflush as (HBL & Hb & Hm). rewrite Hla1 in Hb.
      unfold credit in *. rewrite H0. split; [exact HBL|]. split; lia.
    + injection Hflush as <-. destruct Hok as (HBL & _).
      unfold credit. rewrite H0. split; [exact HBL|]. split; lia.
  - destruct (delete_ahead f) as [f1|] eqn:Hdel; [|done].
    assert (Hrc1 : 1 <= f_replaceCnt f) by (destruct Hok as (_ & ? & _); lia).
    destruct (delete_ahead_credit _ _ Hok Hrc1 Hdel)
      as (Hok1 & Hbs1 & Hr1 & Hla1 & Hw1).
    destruct (advance f1 _ _) as [f2|] eqn:Hadv; [|done].
    destruct (advance_credit _ _ _ _ Hok1 Hadv) as (Hok2 & Hbs2 & Hr2 & Hla2).
    apply IH in Hflush; [|exact Hok2|lia|lia].
    destruct Hflush as (HBL & Hb & Hm).
    unfold credit in *. rewrite Hla2, Hbs2, Hr2, Hbs1, Hr1, Hla1 in *.
    split; [exact HBL|]. split; lia.
Qed.

Lemma CleanupBitStream_count (host_le : bool) (bs : CompressBitStream) :
  1 <= bs_BitsLeft bs <= 32 ->
  let out := bs_Out (CleanupBitStream host_le bs) in
  written_bits bs <= 32 * Z.of_nat (length out) <= written_bits bs + 31.
Proof.
  intros HBL. unfold CleanupBitStream, written_bits.
  destruct (Z.eqb_spec (bs_BitsLeft bs) 32) as [E|E]; cbn [bs_Out].
  - lia.
  - rewrite length_app. cbn [length]. lia.
Qed.

(** Closing an encoder that was fed [n] bytes. *)
Lemma DeleteCompressor_fed (host_le : bool) (comp comp' : Compressor)
    (err : comp_result) (n : Z) :
  0 <= n -> fed comp n -> ch_Cookie comp = true ->
  DeleteCompressor host_le comp = Some (err, comp') ->
  let out := bs_Out (ch_BitStream comp') in
  err = COMP_OK
  /\ ch_Cookie comp' = false
  /\ written_bits (ch_BitStream comp) + 13 <= 32 * Z.of_nat (length out)
  /\ 32 * Z.of_nat (length out) <= 9 * n + 62.
Proof.
  intros Hn (Hok & Hst) Hck. unfold DeleteCompressor. rewrite Hck. cbn [negb].
  destruct (FlushCompressor host_le comp) as [f|] eqn:Hflush; [|done].
  intros [= <- <-]. cbn [ch_BitStream ch_Cookie].
  assert (Hf : 1 <= bs_BitsLeft (f_bs f) <= 32
               /\ written_bits (f_bs f) <= 9 * (n + 2)
               /\ written_bits (ch_BitStream comp) <= written_bits (f_bs f)).
  { unfold FlushCompressor in Hflush.
    rewrite CompressFacts.LOOK_AHEAD_SIZE_eq in *.
    destruct Hst as [(Hsp & Hn18 & Hla & Hrc & Hbits)|(Hsp & Hn18 & Hla & Hrc & Hcr)];
      rewrite Hsp in Hflush.
    - cbn [load_frame f_lookAhead] in Hflush.
      destruct (Z.geb_spec (ch_LookAhead comp) 0); [|lia].
      destruct (emit_token_credit host_le _ Hok)
        as (Hok1 & H1 & Hc1 & Hmono & _ & Hla1 & Hrc1).
      apply flush_replace_credit in Hflush;
        [|exact Hok1|rewrite Hla1; cbn; lia|rewrite Hla1; apply Hrc1; cbn; lia].
      destruct Hflush as (HBL & Hb & Hm). rewrite Hla1 in Hb.
      cbn [load_frame f_lookAhead f_bs] in *. split; [exact HBL|]. split; lia.
    - destruct (advance _ _ _) as [f1|] eqn:Hadv; [|done].
      destruct (advance_credit _ _ _ _ Hok Hadv) as (Hok1 & Hbs1 & Hr1 & Hla1).
      apply flush_replace_credit in Hflush;
        [|exact Hok1|rewrite Hla1; cbn; lia|rewrite Hla1, Hr1; cbn; lia].
      destruct Hflush as (HBL & Hb & Hm).
      unfold credit in *. rewrite Hla1, Hbs1, Hr1 in *.
      cbn [load_frame f_lookAhead f_bs f_replaceCnt] in *.
      destruct Hok as (_ & Hrc0 & _). cbn [load_frame f_replaceCnt] in Hrc0.
      split; [exact HBL|]. split; lia. }
  destruct Hf as (HBL & Hb & Hm).
  destruct (WriteBits_count host_le (f_bs f) 0 END_OF_STREAM INDEX_BIT_COUNT HBL
              ltac:(unfold INDEX_BIT_COUNT; lia)) as (HBL1 & Hb1 & _).
  pose proof (CleanupBitStream_count host_le _ HBL1) as Hc. cbv zeta in Hc.
  unfold INDEX_BIT_COUNT in *.
  split; [reflexivity|]. split; [reflexivity|]. lia.
Qed.

Lemma created_fed (workbuf fresh : option Compressor) (comp : Compressor) :
  CreateCompressor (Some []) workbuf fresh = (COMP_OK, Some comp) ->
  fed comp 0 /\ ch_Cookie comp = true /\ bs_Out (ch_BitStream comp) = [].
Proof.
  intros H. apply CompressFacts.CreateCompressor_result in H as (w & a & ->).
  split; [|done]. split.
  - unfold frame_ok. cbn. rewrite CompressFacts.LOOK_AHEAD_SIZE_eq. lia.
  - left. rewrite CompressFacts.LOOK_AHEAD_SIZE_eq. cbn.
    unfold written_bits. cbn. repeat split; lia.
Qed.

Lemma feed_chunks_fed (host_le : bool) (workbuf fresh : option Compressor)
    (comp0 comp : Compressor) (chunks : list (list Z)) :
  CreateCompressor (Some []) workbuf fresh = (COMP_OK, Some comp0) ->
  Z.of_nat (length (concat chunks)) < 2 ^ 30 ->
  feed_chunks host_le comp0 chunks = Some comp ->
  fed comp (4 * Z.of_nat (length (concat chunks))) /\ ch_Cookie comp = true.
Proof.
  intros Hc Hlen Hfeed.
  destruct (created_fed _ _ _ Hc) as (Hfed0 & Hck0 & Hout0).
  rewrite CompressFacts.feed_chunks_bytes in Hfeed by done.
  pose proof (feed_bytes_fed _ _ _ _ 0 ltac:(lia) Hfed0 Hfeed) as Hfed.
  pose proof (CompressFacts.feed_bytes_cookie _ _ _ _ Hfeed) as Hck.
  rewrite CompressFacts.words_bytes_length in Hfed.
  split; [|congruence].
  replace (4 * Z.of_nat (length (concat chunks)))
    with (0 + Z.of_nat (4 * length (concat chunks))) by lia.
  exact Hfed.
Qed.

Lemma compress_chunks_size (host_le : bool) (buffer : Compressor)
    (chunks : list (list Z)) (stream : list Z) :
  Z.of_nat (length (concat chunks)) < 2 ^ 30 ->
  compress_chunks host_le buffer chunks = Some stream ->
  (1 <= length stream)%nat
  /\ 32 * Z.of_nat (length stream) <= 36 * Z.of_nat (length (concat chunks)) + 62.
Proof.
  intros Hlen. unfold compress_chunks.
  destruct (CreateCompressor _ _ _) as [r [comp0|]] eqn:Hc; [|done].
  assert (r = COMP_OK) as -> by (by inversion Hc).
  destruct (feed_chunks _ _ _) as [comp|] eqn:Hfeed; [|done].
  destruct (feed_chunks_fed _ _ _ _ _ _ Hc Hlen Hfeed) as (Hfed & Hck).
  destruct (DeleteCompressor host_le comp) as [[err comp']|] eqn:Hdel; [|done].
  intros [= <-].
  assert (Hn : 0 <= 4 * Z.of_nat (length (concat chunks))) by lia.
  destruct (DeleteCompressor_fed host_le comp comp' err _ Hn Hfed Hck Hdel)
    as (_ & _ & Hlo & Hhi).
  assert (0 <= written_bits (ch_BitStream comp)).
  { destruct Hfed as ((HBL & _) & _). unfold written_bits.
    cbn [load_frame f_bs] in HBL. lia. }
  split; lia.
Qed.

(** X8: the stream is never longer than nine bits for each byte of the
    input, and 62 bits: for an input of [W] words, fewer than 2^30, fed in
    any number of calls, the encoder sends at least one word and at most
    [(36 * W + 62) / 32] words to the sink. *)
Theorem compressed_size_bound (host_le : bool) (buffer : Compressor)
    (chunks : list (list Z)) (stream : list Z) :
  Z.of_nat (length (concat chunks)) < 2 ^ 30 ->
  compress_chunks host_le buffer chunks = Some stream ->
  (1 <= length stream)%nat
  /\ 32 * Z.of_nat (length stream) <= 36 * Z.of_nat (length (concat chunks)) + 62.
Proof. apply compress_chunks_size. Qed.

Lemma compressed_size_bound_witness :
  compress_chunks false zero_Compressor [[0x41424344]]
  = Some [0xA0D0A874; 0x48040000; 0x00000000]
  /\ (1 <= 3)%nat /\ 32 * 3 <= 36 * 1 + 62.
Proof.
  assert (H : compress_chunks false zero_Compressor [[0x41424344]]
              = Some [0xA0D0A874; 0x48040000; 0x00000000])
    by (vm_compute; reflexivity).
  assert (Hl : Z.of_nat (length (concat [[0x41424344]])) < 2 ^ 30) by (cbn; lia).
  split; [exact H|].
  exact (compressed_size_bound false zero_Compressor [[0x41424344]] _ Hl H).
Defined.

(** X9: a result buffer of [(36 * W + 62) / 32] words, rounded up, is
    always enough for [SimpleCompress] on a source of [W] words: when it
    returns it does not report OVERFLOW, it returns the number of words of
    the stream (at least one) and the result buffer holds the whole stream. *)
Theorem SimpleCompress_never_overflows (host_le : bool) (buffer : Compressor)
    (source : list Z) (resultWords : Z) (r : Simple.simple_result)
    (stored : list Z) :
  Z.of_nat (length source) < 2 ^ 30 ->
  resultWords < 2 ^ 31 ->
  36 * Z.of_nat (length source) + 62 <= 32 * resultWords ->
  Simple.SimpleCompress host_le (Some buffer) source resultWords
  = Some (r, stored) ->
  compress_chunks host_le buffer [source] = Some stored
  /\ r = Simple.SR_words (Z.of_nat (length stored))
  /\ 1 <= Z.of_nat (length stored) <= resultWords.
Proof.
  intros Hlen Hr Hfit H.
  apply SimpleFacts.SimpleCompress_stream in H as (stream & Hs & -> & ->); [|lia].
  destruct (compress_chunks_size host_le buffer [source] stream) as (H1 & H2);
    [cbn [concat]; rewrite app_nil_r; exact Hlen|exact Hs|].
  cbn [concat] in H2. rewrite app_nil_r in H2.
  rewrite take_ge by lia. split; [exact Hs|].
  case_decide; [|lia]. split; [reflexivity|lia].
Qed.

Lemma SimpleCompress_never_overflows_witness :
  Simple.SimpleCompress false (Some zero_Compressor) [0x41424344] 4
  = Some (Simple.SR_words 3, [0xA0D0A874; 0x48040000; 0x00000000])
  /\ compress_chunks false zero_Compressor [[0x41424344]]
     = Some [0xA0D0A874; 0x48040000; 0x00000000]
  /\ 1 <= 3 <= 4.
Proof.
  assert (H : Simple.SimpleCompress false (Some zero_Compressor) [0x41424344] 4
              = Some (Simple.SR_words 3,
                      [0xA0D0A874; 0x48040000; 0x00000000]))
    by (vm_compute; reflexivity).
  assert (Hl : Z.of_nat (length [0x41424344]) < 2 ^ 30) by (cbn; lia).
  assert (Hr : 4 < 2 ^ 31) by lia.
  assert (Hfit : 36 * Z.of_nat (length [0x41424344]) + 62 <= 32 * 4)
    by (cbn; lia).
  split; [exact H|].
  pose proof (SimpleCompress_never_overflows false zero_Compressor
                [0x41424344] 4 _ _ Hl Hr Hfit H) as (H1 & _ & H3).
  split; [exact H1|exact H3].
Defined.

End SizeFacts.

(** * The life of an encoder *)

Module LifecycleFacts.
Import Compress CompressSpec BitSpec EncoderSpec.



End LifecycleFacts.

(** * The size of the decoded data *)

Module DecoderFacts.
Import Decompress DecompressSpec DecoderSpec.

Lemma lor_lt_pow2 (a b n : Z) :
  0 <= n -> 0 <= a < 2 ^ n -> 0 <= b < 2 ^ n -> 0 <= Z.lor a b < 2 ^ n.
Proof.
  intros Hn Ha Hb. split; [apply Z.lor_nonneg; lia|].
  destruct (Z.eq_dec a 0) as [->|Ha0]; [rewrite Z.lor_0_l; lia|].
  destruct (Z.eq_dec b 0) as [->|Hb0]; [rewrite Z.lor_0_r; lia|].
  apply Z.log2_lt_pow2; [|rewrite Z.log2_lor by lia].
  - assert (0 <= Z.lor a b) by (apply Z.lor_nonneg; lia).
    assert (Z.lor a b <> 0) by (rewrite Z.lor_eq_0_iff; lia). lia.
  - apply Z.max_lub_lt; apply Z.log2_lt_pow2; lia.
Qed.

Lemma land_mask_range (x n m : Z) :
  0 <= n <= m -> 0 <= Z.land x (mask n) < 2 ^ m.
Proof.
  intros Hn. rewrite BitArith.land_mask by lia.
  pose proof (Z.mod_pos_bound x (2 ^ n) ltac:(apply BitArith.pow2_pos; lia)).
  pose proof (BitArith.pow2_le n m Hn). lia.
Qed.

(** What [ReadBits] returns always fits the number of bits asked for. *)
Lemma ReadBits_value_range (host_le : bool) (bs : DecompressBitStream)
    (numBits : Z) :
  0 <= numBits <= 32 -> bs_ok bs ->
  0 <= snd (ReadBits host_le bs numBits) < 2 ^ numBits.
Proof.
  intros Hn [Hb Hw]. unfold ReadBits, take_bits.
  assert (H2 : 0 < 2 ^ numBits) by (apply BitArith.pow2_pos; lia).
  destruct (Z.gtb_spec numBits (bs_BitsLeft bs)) as [Hgt|Hle]; cbn [snd].
  - destruct (Z.eqb_spec (bs_NumDataWords bs) 0); cbn [snd]; [lia|].
    cbn [bs_BitBuffer bs_BitsLeft].
    destruct (Z.eqb_spec (bs_BitsLeft bs) 0) as [E|E].
    + apply lor_lt_pow2; [lia|lia|]. apply land_mask_range. lia.
    + apply lor_lt_pow2; [lia| |]; apply land_mask_range.
      * lia.
      * rewrite WordFacts.u32_small by lia. lia.
  - apply lor_lt_pow2; [lia|lia|]. apply land_mask_range. lia.
Qed.

Lemma put_byte_count (host_le : bool) (d : dframe) (c : Z) :
  0 <= d_bytesLeft d <= 4 ->
  let d' := put_byte host_le d c in
  0 <= d_bytesLeft d' <= 4
  /\ bytes_decoded (d_out d') (d_bytesLeft d')
     = bytes_decoded (d_out d) (d_bytesLeft d) + 1.
Proof.
  intros Hb. unfold put_byte, bytes_decoded.
  destruct (Z.eqb_spec (d_bytesLeft d) 0) as [E|E]; cbn.
  - rewrite length_app. cbn [length]. lia.
  - rewrite WordFacts.u32_small by lia. lia.
Qed.

Lemma copy_match_count (host_le : bool) (n : nat) :
  forall d i,
    0 <= d_bytesLeft d <= 4 ->
    let d' := copy_match host_le d i n in
    0 <= d_bytesLeft d' <= 4
    /\ bytes_decoded (d_out d') (d_bytesLeft d')
       = bytes_decoded (d_out d) (d_bytesLeft d) + Z.of_nat n.
Proof.
  induction n as [|n IH]; intros d i Hb; [cbn; lia|].
  cbn [copy_match].
  destruct (put_byte_count host_le d (rd (d_window d) (MOD_WINDOW i)) Hb)
    as (Hb1 & Hc1).
  destruct (IH _ (i + 1) Hb1) as (Hb2 & Hc2). cbv zeta in *. lia.
Qed.

(** A token pays for the bytes it decodes: nine bits for one byte, or
    seventeen bits for eighteen bytes at most. *)
Lemma decode_token_cost (host_le : bool) (d : dframe) :
  bs_ok (d_bs d) -> bs_NumDataWords (d_bs d) <> 0 ->
  0 <= d_bytesLeft d <= 4 ->
  let d' := fst (decode_token host_le d) in
  bs_ok (d_bs d')
  /\ 0 <= d_bytesLeft d' <= 4
  /\ 17 * bytes_decoded (d_out d') (d_bytesLeft d')
     + 18 * bits_unread (d_bs d')
     <= 17 * bytes_decoded (d_out d) (d_bytesLeft d)
        + 18 * bits_unread (d_bs d).
Proof.
  intros Hok Hn Hbl. unfold decode_token.
  pose proof (DecompressFacts.ReadBits_ok host_le (d_bs d) 1 ltac:(lia) Hok) as Hok1.
  pose proof (DecompressFacts.ReadBits_served host_le (d_bs d) 1 ltac:(lia) Hok ltac:(by right))
    as (He1 & Hu1 & Hc1).
  destruct (ReadBits host_le (d_bs d) 1) as [bs1 tag]. cbn [fst] in *.
  pose proof Hok as [Hb Hw]. pose proof Hok1 as [Hb1 Hw1].
  unfold bits_unread in *.
  destruct (tag =? 0).
  - assert (Hs2 : INDEX_BIT_COUNT <= bs_BitsLeft bs1 \/ bs_NumDataWords bs1 <> 0)
      by (unfold INDEX_BIT_COUNT; lia).
    pose proof (DecompressFacts.ReadBits_ok host_le bs1 INDEX_BIT_COUNT
                  ltac:(unfold INDEX_BIT_COUNT; lia) Hok1) as Hok2.
    pose proof (DecompressFacts.ReadBits_served host_le bs1 INDEX_BIT_COUNT
                  ltac:(unfold INDEX_BIT_COUNT; lia) Hok1 Hs2)
      as (He2 & Hu2 & Hc2).
    destruct (ReadBits host_le bs1 INDEX_BIT_COUNT) as [bs2 matchPos].
    cbn [fst] in *. pose proof Hok2 as [Hb2 Hw2].
    unfold bits_unread, INDEX_BIT_COUNT in *.
    destruct (matchPos =? END_OF_STREAM).
    + cbn [fst with_bs d_bs d_out d_bytesLeft]. unfold bits_unread in *.
      split; [done|]. split; [done|]. lia.
    + assert (Hs3 : LENGTH_BIT_COUNT <= bs_BitsLeft bs2
                    \/ bs_NumDataWords bs2 <> 0)
        by (unfold LENGTH_BIT_COUNT; lia).
      pose proof (DecompressFacts.ReadBits_ok host_le bs2 LENGTH_BIT_COUNT
                    ltac:(unfold LENGTH_BIT_COUNT; lia) Hok2) as Hok3.
      pose proof (DecompressFacts.ReadBits_served host_le bs2 LENGTH_BIT_COUNT
                    ltac:(unfold LENGTH_BIT_COUNT; lia) Hok2 Hs3)
        as (He3 & Hu3 & Hc3).
      pose proof (ReadBits_value_range host_le bs2 LENGTH_BIT_COUNT
                    ltac:(unfold LENGTH_BIT_COUNT; lia) Hok2) as Hlen.
      destruct (ReadBits host_le bs2 LENGTH_BIT_COUNT) as [bs3 len].
      cbn [fst snd] in *. unfold LENGTH_BIT_COUNT, BREAK_EVEN in *.
      change (2 ^ 4) with 16 in Hlen.
      rewrite (WordFacts.u32_small (len + 2)) by lia.
      destruct (copy_match_count host_le (Z.to_nat (len + 2 + 1))
                  (with_bs d bs3) matchPos Hbl) as (Hb4 & Hc4).
      cbv zeta in Hb4, Hc4. rewrite DecompressFacts.copy_match_bs. cbn [with_bs d_bs] in *.
      change (d_out (with_bs d bs3)) with (d_out d) in Hc4.
      change (d_bytesLeft (with_bs d bs3)) with (d_bytesLeft d) in Hc4.
      unfold bits_unread in *. split; [done|]. split; [done|]. lia.
  - assert (Hs2 : 8 <= bs_BitsLeft bs1 \/ bs_NumDataWords bs1 <> 0) by lia.
    pose proof (DecompressFacts.ReadBits_ok host_le bs1 8 ltac:(lia) Hok1) as Hok2.
    pose proof (DecompressFacts.ReadBits_served host_le bs1 8 ltac:(lia) Hok1 Hs2)
      as (He2 & Hu2 & Hc2).
    destruct (ReadBits host_le bs1 8) as [bs2 c]. cbn [fst] in *.
    destruct (put_byte_count host_le (with_bs d bs2) c Hbl) as (Hb3 & Hc3).
    cbv zeta in Hb3, Hc3. rewrite DecompressFacts.put_byte_bs. cbn [with_bs d_bs] in *.
    change (d_out (with_bs d bs2)) with (d_out d) in Hc3.
    change (d_bytesLeft (with_bs d bs2)) with (d_bytesLeft d) in Hc3. unfold bits_unread in *.
    split; [done|]. split; [done|]. lia.
Qed.

Lemma decode_loop_cost (host_le : bool) (fuel : nat) :
  forall d d',
    bs_ok (d_bs d) -> 0 <= d_bytesLeft d <= 4 ->
    decode_loop fuel host_le d = Some d' ->
    bs_ok (d_bs d')
    /\ 0 <= d_bytesLeft d' <= 4
    /\ 17 * bytes_decoded (d_out d') (d_bytesLeft d')
       + 18 * bits_unread (d_bs d')
       <= 17 * bytes_decoded (d_out d) (d_bytesLeft d)
          + 18 * bits_unread (d_bs d).
Proof.
  induction fuel as [|fuel IH]; intros d d' Hok Hbl Hl; [done|].
  rewrite DecompressFacts.decode_loop_unfold in Hl.
  destruct (Z.eqb_spec (bs_NumDataWords (d_bs d)) 0) as [H0|H0].
  - injection Hl as <-. split; [done|]. split; [done|]. lia.
  - pose proof (decode_token_cost host_le d Hok H0 Hbl) as (Hok1 & Hbl1 & Hc1).
    destruct (decode_token host_le d) as [d1 stop]. cbn [fst] in *.
    destruct stop.
    + injection Hl as <-. done.
    + destruct (IH _ _ Hok1 Hbl1 Hl) as (Hok2 & Hbl2 & Hc2).
      split; [done|]. split; [done|]. lia.
Qed.

Lemma FeedDecompressor_decoded (host_le : bool) (decomp decomp' : Decompressor)
    (data : list Z) (r : comp_result) (words : Z) :
  Z.of_nat (length data) < 2 ^ 32 ->
  decoded decomp words ->
  FeedDecompressor host_le decomp data = Some (r, decomp') ->
  decoded decomp' (words + Z.of_nat (length data)).
Proof.
  intros Hlen (Hck & Hb & Hbl & Hc).
  unfold FeedDecompressor, internalFeedDecompressor. rewrite Hck. cbn [negb].
  set (bs := FeedBitStream (dh_BitStream decomp) data (Z.of_nat (length data))).
  set (d := mkDframe _ _ _ _ _ bs).
  destruct (decode_loop _ _ d) as [d'|] eqn:Hl; [|done].
  intros [= <- <-].
  apply decode_loop_cost in Hl; [|split; cbn; lia|exact Hbl].
  destruct Hl as ([Hb' Hw'] & Hbl' & Hc').
  unfold decoded, bits_unread in *.
  cbn [dh_Cookie dh_BitStream dh_BytesLeft dh_Out d d_out d_bytesLeft d_bs bs
       FeedBitStream bs_NumDataWords bs_BitsLeft] in *.
  split; [done|]. split; [done|]. split; [done|]. lia.
Qed.

Lemma feed_chunks_decoded (host_le : bool) (chunks : list (list Z)) :
  forall decomp decomp' words,
    Forall (fun data => Z.of_nat (length data) < 2 ^ 32) chunks ->
    decoded decomp words ->
    feed_chunks host_le decomp chunks = Some decomp' ->
    decoded decomp' (words + Z.of_nat (length (concat chunks))).
Proof.
  induction chunks as [|data chunks IH]; intros decomp decomp' words Hlen Hd Hf.
  - injection Hf as <-. cbn. by rewrite Z.add_0_r.
  - cbn [feed_chunks] in Hf. inversion Hlen as [|? ? Hl1 Hl2]; subst.
    destruct (FeedDecompressor host_le decomp data) as [[r decomp1]|] eqn:Hfeed;
      [|done].
    pose proof (FeedDecompressor_decoded _ _ _ _ _ _ Hl1 Hd Hfeed) as Hd1.
    pose proof (IH _ _ _ Hl2 Hd1 Hf) as Hd2.
    cbn [concat]. rewrite length_app.
    replace (words + Z.of_nat (length data + length (concat chunks)))
      with (words + Z.of_nat (length data) + Z.of_nat (length (concat chunks)))
      by lia.
    exact Hd2.
Qed.

Lemma DeleteDecompressor_decoded (host_le : bool) (decomp : Decompressor)
    (words : Z) :
  decoded decomp words ->
  17 * Z.of_nat (length (snd (DeleteDecompressor host_le decomp)))
  <= 144 * words.
Proof.
  intros (Hck & Hb & Hbl & Hc). unfold DeleteDecompressor. rewrite Hck.
  cbn [negb snd]. unfold bytes_decoded in Hc.
  destruct (Z.eqb_spec (dh_BytesLeft decomp) 0) as [E|E].
  - rewrite length_app. cbn [length]. lia.
  - lia.
Qed.

Lemma created_decoded (workbuf : option Decompressor) (fresh : bool)
    (decomp : Decompressor) :
  CreateDecompressor (Some []) workbuf fresh = (COMP_OK, Some decomp) ->
  decoded decomp 0.
Proof.
  unfold CreateDecompressor.
  destruct workbuf as [b|]; [|destruct fresh]; intros [= <-];
    unfold decoded, bytes_decoded; cbn; lia.
Qed.

Lemma decoder_output_size (host_le : bool) (workbuf : option Decompressor)
    (fresh : bool) (decomp decomp' : Decompressor) (chunks : list (list Z)) :
  CreateDecompressor (Some []) workbuf fresh = (COMP_OK, Some decomp) ->
  Forall (fun data => Z.of_nat (length data) < 2 ^ 32) chunks ->
  feed_chunks host_le decomp chunks = Some decomp' ->
  17 * Z.of_nat (length (snd (DeleteDecompressor host_le decomp')))
  <= 144 * Z.of_nat (length (concat chunks)).
Proof.
  intros Hc Hlen Hf. apply DeleteDecompressor_decoded.
  apply created_decoded in Hc.
  exact (feed_chunks_decoded host_le chunks _ _ 0 Hlen Hc Hf).
Qed.


(** X11: the decoder cannot expand its input by more than 144/17: a token
    of nine bits decodes to one byte and a token of seventeen bits to
    eighteen bytes at most.  A decoder created with an empty sink, in a
    work buffer or not, and fed [W] words in any number of calls, whatever
    the words are, returns from every call, and the sink has received at
    most [144 * W / 17] words when [DeleteDecompressor] returns. *)
Theorem decompressed_size_bound (host_le : bool) (workbuf : option Decompressor)
    (fresh : bool) (decomp : Decompressor) (chunks : list (list Z)) :
  CreateDecompressor (Some []) workbuf fresh = (COMP_OK, Some decomp) ->
  Forall (fun data => Z.of_nat (length data) < 2 ^ 32) chunks ->
  exists decomp',
    feed_chunks host_le decomp chunks = Some decomp'
    /\ 17 * Z.of_nat (length (snd (DeleteDecompressor host_le decomp')))
       <= 144 * Z.of_nat (length (concat chunks)).
Proof.
  intros Hc Hlen.
  destruct (DecompressFacts.decoder_never_reports_missing_data host_le []
              workbuf fresh decomp chunks Hc Hlen) as (decomp' & Hf & _).
  exists decomp'. split; [exact Hf|].
  exact (decoder_output_size _ _ _ _ _ _ Hc Hlen Hf).
Qed.

Lemma decompressed_size_bound_witness :
  exists decomp',
    feed_chunks false new_Decompressor [[0xA0D0A874]; [0x48040000; 0]]
    = Some decomp'
    /\ 17 * Z.of_nat (length (snd (DeleteDecompressor false decomp')))
       <= 144 * Z.of_nat (length (concat [[0xA0D0A874]; [0x48040000; 0]])).
Proof.
  apply (decompressed_size_bound false None true new_Decompressor
           [[0xA0D0A874]; [0x48040000; 0]]).
  - reflexivity.
  - repeat constructor; cbn; lia.
Defined.



(** X13: what a decoder built in a caller's work buffer takes from the
    stale contents of the buffer.  [CreateDecompressor] does not set the
    count of words left to fetch: closing the decoder before any
    [FeedDecompressor] call reports DATAREMAINS exactly when that stale
    count is not zero, with nothing sent to the sink.  After the first feed
    call the decoder behaves as one built in a buffer that holds the same
    window and zeros elsewhere. *)
Theorem CreateDecompressor_stale_fields (host_le : bool) (out : list Z)
    (buffer : Decompressor) (data : list Z) (chunks : list (list Z)) :
  exists decomp,
    CreateDecompressor (Some out) (Some buffer) false = (COMP_OK, Some decomp)
    /\ DeleteDecompressor host_le decomp
       = (if bs_NumDataWords (dh_BitStream buffer) =? 0
          then COMP_OK else COMP_ERR_DATAREMAINS, out)
    /\ feed_chunks host_le decomp (data :: chunks)
       = feed_chunks host_le
           (mkDecompressor out 0 4 1 (dh_Window buffer)
              (mkDecompressBitStream [] 0 0 0 false) false true)
           (data :: chunks).
Proof.
  eexists. split; [reflexivity|]. split; [reflexivity|].
  cbn [feed_chunks].
  set (d0 := mkDecompressor out 0 4 1 (dh_Window buffer)
               (mkDecompressBitStream [] 0 0 0 false) false true).
  change (mkDecompressor out 0 4 1 (dh_Window buffer)
            (InitBitStream (dh_BitStream buffer)) false true)
    with (with_unread d0 (bs_Data (dh_BitStream buffer))
            (bs_NumDataWords (dh_BitStream buffer))).
  by rewrite DecompressFacts.FeedDecompressor_with_unread.
Qed.

End DecoderFacts.

(** * The byte order of the host *)

Module HostFacts.
Import Compress CompressSpec HostSpec.

(** In the memory of a little-endian host the swapped word has the bytes
    that the word has in the memory of a big-endian host. *)
Lemma word_bytes_bswap32 (w : Z) :
  word_bytes true (bswap32 w) = word_bytes false w.
Proof.
  unfold word_bytes. rewrite !WordFacts.land_255, !Z.shiftr_div_pow2 by lia.
  rewrite WordFacts.bswap32_bytes.
  pose proof (Z.mod_pos_bound w 256 ltac:(lia)).
  pose proof (Z.mod_pos_bound (w / 2 ^ 8) 256 ltac:(lia)).
  pose proof (Z.mod_pos_bound (w / 2 ^ 16) 256 ltac:(lia)).
  pose proof (Z.mod_pos_bound (w / 2 ^ 24) 256 ltac:(lia)).
  destruct (WordFacts.bytes_digits (w mod 256) ((w / 2 ^ 8) mod 256)
              ((w / 2 ^ 16) mod 256) ((w / 2 ^ 24) mod 256))
    as (-> & -> & -> & -> & _); done.
Qed.

Lemma words_bytes_bswap32 (ws : list Z) :
  words_bytes true (map bswap32 ws) = words_bytes false ws.
Proof.
  unfold words_bytes. induction ws as [|w ws IH]; [done|].
  cbn [map concat]. by rewrite word_bytes_bswap32, IH.
Qed.

Lemma WriteBits_swap (bs : CompressBitStream) (headBit code numBits : Z) :
  WriteBits true (swap_sink bs) headBit code numBits
  = swap_sink (WriteBits false bs headBit code numBits).
Proof.
  unfold WriteBits, swap_sink. cbn [bs_Out bs_BitsLeft bs_BitBuffer].
  case_if; cbn [bs_Out bs_BitsLeft bs_BitBuffer]; [|done].
  by rewrite map_app.
Qed.

Lemma CleanupBitStream_swap (bs : CompressBitStream) :
  CleanupBitStream true (swap_sink bs) = swap_sink (CleanupBitStream false bs).
Proof.
  unfold CleanupBitStream, swap_sink. cbn [bs_Out bs_BitsLeft bs_BitBuffer].
  case_if; cbn [bs_Out bs_BitsLeft bs_BitBuffer]; [done|].
  by rewrite map_app.
Qed.

Lemma emit_token_swap (f : frame) :
  emit_token true (swap_frame f) = swap_frame (emit_token false f).
Proof.
  unfold emit_token, swap_frame.
  cbn [f_tree f_window f_bs f_lookAhead f_currentPos f_replaceCnt f_matchLen
       f_matchPos].
  destruct (_ <=? BREAK_EVEN);
    cbn [f_tree f_window f_bs f_lookAhead f_currentPos f_replaceCnt f_matchLen
         f_matchPos];
    by rewrite WriteBits_swap.
Qed.

Lemma delete_ahead_swap (f : frame) :
  delete_ahead (swap_frame f) = swap_frame <$> delete_ahead f.
Proof.
  unfold delete_ahead, swap_frame.
  cbn [f_tree f_window f_bs f_lookAhead f_currentPos f_replaceCnt f_matchLen
       f_matchPos].
  by destruct (DeleteString _ _).
Qed.

Lemma advance_swap (f : frame) (window : gmap Z Z) (lookAhead : Z) :
  advance (swap_frame f) window lookAhead
  = swap_frame <$> advance f window lookAhead.
Proof.
  unfold advance, swap_frame.
  cbn [f_tree f_window f_bs f_lookAhead f_currentPos f_replaceCnt f_matchLen
       f_matchPos].
  destruct (lookAhead =? 0); [done|].
  by destruct (AddString _ _ _ _) as [[[tree matchLen] matchPos]|].
Qed.

Lemma feed_newData_swap (f : frame) (b : Z) :
  feed_newData (swap_frame f) b = swap_frame <$> feed_newData f b.
Proof. unfold feed_newData. by rewrite advance_swap. Qed.

Lemma feed_replace_swap (src : list Z) :
  forall f,
    feed_replace true (swap_frame f) src
    = swap_frame <$> feed_replace false f src.
Proof.
  induction src as [|b src IH]; intros f.
  - rewrite !CompressFacts.feed_replace_unfold. cbv zeta.
    change (f_replaceCnt (swap_frame f)) with (f_replaceCnt f).
    destruct (f_replaceCnt f =? 0).
    + rewrite emit_token_swap.
      change (f_replaceCnt (swap_frame (emit_token false f)))
        with (f_replaceCnt (emit_token false f)).
      destruct (f_replaceCnt (emit_token false f) =? 0); [done|].
      rewrite delete_ahead_swap.
      by destruct (delete_ahead _).
    + rewrite delete_ahead_swap. by destruct (delete_ahead _).
  - rewrite !CompressFacts.feed_replace_unfold. cbv zeta.
    change (f_replaceCnt (swap_frame f)) with (f_replaceCnt f).
    destruct (f_replaceCnt f =? 0).
    + rewrite emit_token_swap.
      change (f_replaceCnt (swap_frame (emit_token false f)))
        with (f_replaceCnt (emit_token false f)).
      destruct (f_replaceCnt (emit_token false f) =? 0); [done|].
      rewrite delete_ahead_swap.
      destruct (delete_ahead _) as [f1|]; [|done]. cbn [fmap option_fmap option_map].
      rewrite feed_newData_swap.
      destruct (feed_newData f1 b) as [f2|]; [|done]. apply IH.
    + rewrite delete_ahead_swap.
      destruct (delete_ahead _) as [f1|]; [|done]. cbn [fmap option_fmap option_map].
      rewrite feed_newData_swap.
      destruct (feed_newData f1 b) as [f2|]; [|done]. apply IH.
Qed.

Lemma flush_replace_swap (fuel : nat) :
  forall f,
    flush_replace fuel true (swap_frame f)
    = swap_frame <$> flush_replace fuel false f.
Proof.
  induction fuel as [|fuel IH]; intros f; [done|].
  rewrite !CompressFacts.flush_replace_unfold.
  change (f_replaceCnt (swap_frame f)) with (f_replaceCnt f).
  change (f_lookAhead (swap_frame f)) with (f_lookAhead f).
  change (f_window (swap_frame f)) with (f_window f).
  destruct (f_replaceCnt f =? 0).
  - destruct (_ >=? 0); [|done]. rewrite emit_token_swap. apply IH.
  - rewrite delete_ahead_swap. destruct (delete_ahead f) as [f1|]; [|done].
    cbn [fmap option_fmap option_map].
    change (f_lookAhead (swap_frame f1)) with (f_lookAhead f1).
    change (f_window (swap_frame f1)) with (f_window f1).
    rewrite advance_swap. destruct (advance f1 _ _) as [f2|]; [|done].
    apply IH.
Qed.

Lemma load_frame_swap (comp : Compressor) :
  load_frame (swap_Compressor comp) = swap_frame (load_frame comp).
Proof. reflexivity. Qed.

Lemma save_frame_swap (comp : Compressor) (f : frame) :
  save_frame (swap_Compressor comp) (swap_frame f)
  = swap_Compressor (save_frame comp f).
Proof. reflexivity. Qed.

(** The encoder reads its input as bytes and sends words that the sink
    stores as bytes: on the two hosts the same bytes come in, and the words
    sent are the byte-swapped ones of each other. *)
Lemma FeedCompressor_swap (comp : Compressor) (data : list Z) :
  FeedCompressor true (swap_Compressor comp) (map bswap32 data)
  = (fun r => (r.1, swap_Compressor r.2)) <$> FeedCompressor false comp data.
Proof.
  unfold FeedCompressor. rewrite load_frame_swap.
  change (ch_Cookie (swap_Compressor comp)) with (ch_Cookie comp).
  change (ch_SecondPass (swap_Compressor comp)) with (ch_SecondPass comp).
  destruct (ch_Cookie comp); cbn [negb]; [|done].
  rewrite length_map, words_bytes_bswap32. cbv zeta.
  destruct (take _ _) as [|b src]; [done|].
  destruct (ch_SecondPass comp).
  - rewrite feed_newData_swap.
    destruct (feed_newData _ b) as [f1|]; [|done].
    cbn [fmap option_fmap option_map]. rewrite feed_replace_swap.
    by destruct (feed_replace false f1 src).
  - change (f_window (swap_frame (load_frame comp)))
      with (f_window (load_frame comp)).
    change (f_lookAhead (swap_frame (load_frame comp)))
      with (f_lookAhead (load_frame comp)).
    destruct (feed_fill _ _ _) as [[window lookAhead] [rest|]]; [|done].
    set (f0 := mkFrame _ _ (f_bs (load_frame comp)) _ _ _ _ _).
    change (mkFrame _ _ _ _ _ _ _ _) with (swap_frame f0) at 1.
    rewrite emit_token_swap, feed_replace_swap.
    by destruct (feed_replace false _ rest).
Qed.

Lemma feed_chunks_swap (chunks : list (list Z)) :
  forall comp,
    feed_chunks true (swap_Compressor comp) (map (map bswap32) chunks)
    = swap_Compressor <$> feed_chunks false comp chunks.
Proof.
  induction chunks as [|data chunks IH]; intros comp; [done|].
  cbn [map feed_chunks]. rewrite FeedCompressor_swap.
  destruct (FeedCompressor false comp data) as [[r comp1]|]; [|done].
  cbn [fmap option_fmap option_map fst snd]. apply IH.
Qed.

Lemma DeleteCompressor_swap (comp : Compressor) :
  DeleteCompressor true (swap_Compressor comp)
  = (fun r => (r.1, swap_Compressor r.2)) <$> DeleteCompressor false comp.
Proof.
  unfold DeleteCompressor, FlushCompressor. rewrite load_frame_swap.
  change (ch_Cookie (swap_Compressor comp)) with (ch_Cookie comp).
  change (ch_SecondPass (swap_Compressor comp)) with (ch_SecondPass comp).
  destruct (ch_Cookie comp); cbn [negb]; [|done].
  change (f_window (swap_frame (load_frame comp)))
    with (f_window (load_frame comp)).
  change (f_lookAhead (swap_frame (load_frame comp)))
    with (f_lookAhead (load_frame comp)).
  assert (Hlast : forall o : option frame,
    match swap_frame <$> o with
    | Some f =>
        Some (COMP_OK,
              mkCompressor (ch_Window (swap_Compressor comp)) (f_tree f)
                (ch_LookAhead (swap_Compressor comp))
                (ch_MatchLen (swap_Compressor comp))
                (ch_MatchPos (swap_Compressor comp))
                (ch_CurrentPos (swap_Compressor comp))
                (ch_ReplaceCnt (swap_Compressor comp))
                (CleanupBitStream true
                   (WriteBits true (f_bs f) 0 END_OF_STREAM INDEX_BIT_COUNT))
                (ch_SecondPass comp)
                (ch_AllocatedStructure (swap_Compressor comp)) false)
    | None => None
    end
    = (fun r => (r.1, swap_Compressor r.2)) <$>
      match o with
      | Some f =>
          Some (COMP_OK,
                mkCompressor (ch_Window comp) (f_tree f) (ch_LookAhead comp)
                  (ch_MatchLen comp) (ch_MatchPos comp) (ch_CurrentPos comp)
                  (ch_ReplaceCnt comp)
                  (CleanupBitStream false
                     (WriteBits false (f_bs f) 0 END_OF_STREAM INDEX_BIT_COUNT))
                  (ch_SecondPass comp) (ch_AllocatedStructure comp) false)
      | None => None
      end).
  { intros [f|]; [|done]. cbn [fmap option_fmap option_map fst snd].
    change (f_bs (swap_frame f)) with (swap_sink (f_bs f)).
    by rewrite WriteBits_swap, CleanupBitStream_swap. }
  destruct (ch_SecondPass comp).
  - rewrite advance_swap. destruct (advance _ _ _) as [f1|]; [|done].
    cbn [fmap option_fmap option_map].
    change (flush_fuel (swap_frame f1)) with (flush_fuel f1).
    rewrite flush_replace_swap. apply Hlast.
  - destruct (_ >=? 0).
    + rewrite emit_token_swap.
      change (flush_fuel (swap_frame (emit_token false (load_frame comp))))
        with (flush_fuel (emit_token false (load_frame comp))).
      rewrite flush_replace_swap. apply Hlast.
    + apply (Hlast (Some (load_frame comp))).
Qed.

Lemma compress_chunks_swap (buffer : Compressor) (chunks : list (list Z)) :
  compress_chunks true buffer (map (map bswap32) chunks)
  = map bswap32 <$> compress_chunks false buffer chunks.
Proof.
  unfold compress_chunks. cbn [CreateCompressor].
  set (comp0 := mkCompressor _ _ _ _ _ _ _ _ _ _ _).
  change comp0 with (swap_Compressor comp0) at 1.
  rewrite feed_chunks_swap.
  destruct (feed_chunks false comp0 chunks) as [comp|]; [|done].
  cbn [fmap option_fmap option_map]. rewrite DeleteCompressor_swap.
  by destruct (DeleteCompressor false comp) as [[r comp']|].
Qed.

(** X14: the compressed data does not depend on the byte order of the
    host.  The encoder on a little-endian host, given the words that hold
    in its memory the bytes of the input, sends to the sink the words that
    hold in its memory the bytes of the stream of the big-endian host: the
    words given and the words sent are the byte-swapped ones of those of the
    big-endian host, and the bytes are the same ([words_bytes]). *)
Theorem compressed_bytes_host_independent (buffer : Compressor)
    (chunks : list (list Z)) :
  compress_chunks true buffer (map (map bswap32) chunks)
  = map bswap32 <$> compress_chunks false buffer chunks
  /\ words_bytes true (concat (map (map bswap32) chunks))
     = words_bytes false (concat chunks)
  /\ words_bytes true <$> compress_chunks true buffer (map (map bswap32) chunks)
     = words_bytes false <$> compress_chunks false buffer chunks.
Proof.
  split; [apply compress_chunks_swap|]. split.
  - rewrite <- words_bytes_bswap32. f_equal.
    induction chunks as [|c chunks IH]; [done|].
    cbn [map concat]. by rewrite map_app, IH.
  - rewrite compress_chunks_swap.
    destruct (compress_chunks false buffer chunks) as [stream|]; [|done].
    cbn [fmap option_fmap option_map]. by rewrite words_bytes_bswap32.
Qed.

End HostFacts.

Module HostDecoderFacts.
Import Decompress DecompressSpec HostSpec HostSpecDecoder.

Lemma word_bytes_bswap32_be (w : Z) :
  word_bytes false (bswap32 w) = word_bytes true w.
Proof.
  unfold word_bytes. rewrite !WordFacts.land_255, !Z.shiftr_div_pow2 by lia.
  rewrite WordFacts.bswap32_bytes.
  pose proof (Z.mod_pos_bound w 256 ltac:(lia)).
  pose proof (Z.mod_pos_bound (w / 2 ^ 8) 256 ltac:(lia)).
  pose proof (Z.mod_pos_bound (w / 2 ^ 16) 256 ltac:(lia)).
  pose proof (Z.mod_pos_bound (w / 2 ^ 24) 256 ltac:(lia)).
  destruct (WordFacts.bytes_digits (w mod 256) ((w / 2 ^ 8) mod 256)
              ((w / 2 ^ 16) mod 256) ((w / 2 ^ 24) mod 256))
    as (-> & -> & -> & -> & _); done.
Qed.

Lemma words_bytes_bswap32_be (ws : list Z) :
  words_bytes false (map bswap32 ws) = words_bytes true ws.
Proof.
  unfold words_bytes. induction ws as [|w ws IH]; [done|].
  cbn [map concat]. by rewrite word_bytes_bswap32_be, IH.
Qed.

Lemma ReadBits_swap (bs : DecompressBitStream) (numBits : Z) :
  ReadBits false (swap_source bs) numBits
  = (swap_source (ReadBits true bs numBits).1, (ReadBits true bs numBits).2).
Proof.
  unfold ReadBits, take_bits, swap_source.
  cbn [bs_Data bs_NumDataWords bs_BitsLeft bs_BitBuffer bs_Error].
  destruct (numBits >? bs_BitsLeft bs); [|done].
  destruct (bs_NumDataWords bs =? 0); [done|].
  cbn [bs_Data bs_NumDataWords bs_BitsLeft bs_BitBuffer bs_Error fst snd
       byteswap_if_little_endian].
  by destruct (bs_Data bs).
Qed.

Lemma put_byte_hosts (dl db : dframe) (c : Z) :
  host_frames dl db -> host_frames (put_byte true dl c) (put_byte false db c).
Proof.
  intros (Ho & Hbs & Hw & Hbl & Hwin & Hp). unfold put_byte.
  rewrite Hbl, Hw, Hwin, Hp, Ho.
  destruct (d_bytesLeft db =? 0); unfold host_frames; cbn; [|done].
  by rewrite map_app.
Qed.

Lemma copy_match_hosts (n : nat) :
  forall dl db i,
    host_frames dl db ->
    host_frames (copy_match true dl i n) (copy_match false db i n).
Proof.
  induction n as [|n IH]; intros dl db i H; [done|].
  cbn [copy_match]. apply IH.
  destruct H as (Ho & Hbs & Hw & Hbl & Hwin & Hp) eqn:E. rewrite Hwin.
  by apply put_byte_hosts.
Qed.

Lemma with_bs_hosts (dl db : dframe) (bs : DecompressBitStream) :
  host_frames dl db -> host_frames (with_bs dl bs) (with_bs db (swap_source bs)).
Proof. intros (Ho & Hbs & Hw & Hbl & Hwin & Hp). by unfold host_frames. Qed.

Lemma decode_token_hosts (dl db : dframe) :
  host_frames dl db ->
  host_frames (decode_token true dl).1 (decode_token false db).1
  /\ (decode_token true dl).2 = (decode_token false db).2.
Proof.
  intros H. pose proof H as (Ho & Hbs & Hw & Hbl & Hwin & Hp).
  unfold decode_token. rewrite Hbs, ReadBits_swap.
  destruct (ReadBits true (d_bs dl) 1) as [bs1 tag]. cbn [fst snd].
  destruct (tag =? 0).
  - rewrite ReadBits_swap.
    destruct (ReadBits true bs1 INDEX_BIT_COUNT) as [bs2 matchPos].
    cbn [fst snd]. destruct (matchPos =? END_OF_STREAM).
    + cbn [fst snd]. split; [by apply with_bs_hosts|done].
    + rewrite ReadBits_swap.
      destruct (ReadBits true bs2 LENGTH_BIT_COUNT) as [bs3 len].
      cbn [fst snd]. split; [|done].
      apply copy_match_hosts. by apply with_bs_hosts.
  - rewrite ReadBits_swap.
    destruct (ReadBits true bs1 8) as [bs2 c]. cbn [fst snd].
    split; [|done]. apply put_byte_hosts. by apply with_bs_hosts.
Qed.

Lemma decode_loop_hosts (fuel : nat) :
  forall dl db,
    host_frames dl db ->
    match decode_loop fuel true dl, decode_loop fuel false db with
    | Some dl', Some db' => host_frames dl' db'
    | None, None => True
    | _, _ => False
    end.
Proof.
  induction fuel as [|fuel IH]; intros dl db H; [done|].
  rewrite !DecompressFacts.decode_loop_unfold.
  pose proof H as (Ho & Hbs & Hw & Hbl & Hwin & Hp).
  rewrite Hbs. change (bs_NumDataWords (swap_source (d_bs dl)))
    with (bs_NumDataWords (d_bs dl)).
  destruct (bs_NumDataWords (d_bs dl) =? 0); [done|].
  destruct (decode_token_hosts dl db H) as (H1 & Hs).
  destruct (decode_token true dl) as [dl1 s1].
  destruct (decode_token false db) as [db1 s2]. cbn [fst snd] in *. subst s2.
  destruct s1; [done|]. by apply IH.
Qed.

Lemma FeedDecompressor_hosts (l b : Decompressor) (data : list Z) :
  host_decoders l b ->
  match FeedDecompressor true l data,
        FeedDecompressor false b (map bswap32 data) with
  | Some (rl, l'), Some (rb, b') => rl = rb /\ host_decoders l' b'
  | None, None => True
  | _, _ => False
  end.
Proof.
  intros H.
  pose proof H as (Ho & H1 & H2 & H3 & H4 & H5 & H6 & H7 & H8 & H9).
  unfold FeedDecompressor, internalFeedDecompressor. rewrite H9.
  destruct (dh_Cookie b); cbn [negb]; [|done].
  rewrite length_map.
  set (dl := mkDframe (dh_Out l) _ _ _ _ _).
  set (db := mkDframe (dh_Out b) _ _ _ _ _).
  assert (Hd : host_frames dl db).
  { unfold host_frames, dl, db, FeedBitStream, swap_source. cbn.
    rewrite H1, H2, H3. done. }
  assert (Hf : decode_fuel (d_bs dl) = decode_fuel (d_bs db)).
  { unfold decode_fuel, dl, db. cbn. by rewrite H1. }
  cbn [d_bs dl db] in Hf. rewrite Hf.
  pose proof (decode_loop_hosts
                (decode_fuel
                   (FeedBitStream (dh_BitStream b) (map bswap32 data)
                      (Z.of_nat (length data)))) dl db Hd) as Hl.
  destruct (decode_loop _ true dl) as [dl'|];
    destruct (decode_loop _ false db) as [db'|]; try done.
  split; [done|].
  destruct Hl as (Ho' & Hbs' & Hw' & Hbl' & Hwin' & Hp').
  unfold host_decoders. cbn. rewrite Hbs'. cbn. done.
Qed.

Lemma feed_chunks_hosts (chunks : list (list Z)) :
  forall l b,
    host_decoders l b ->
    match feed_chunks true l chunks,
          feed_chunks false b (map (map bswap32) chunks) with
    | Some l', Some b' => host_decoders l' b'
    | None, None => True
    | _, _ => False
    end.
Proof.
  induction chunks as [|data chunks IH]; intros l b H; [done|].
  cbn [map feed_chunks].
  pose proof (FeedDecompressor_hosts l b data H) as Hf.
  destruct (FeedDecompressor true l data) as [[rl l1]|];
    destruct (FeedDecompressor false b _) as [[rb b1]|]; try done.
  destruct Hf as (_ & H1). by apply IH.
Qed.

Lemma DeleteDecompressor_hosts (l b : Decompressor) :
  host_decoders l b ->
  DeleteDecompressor true l
  = ((DeleteDecompressor false b).1, map bswap32 (DeleteDecompressor false b).2).
Proof.
  intros (Ho & H1 & H2 & H3 & H4 & H5 & H6 & H7 & H8 & H9).
  unfold DeleteDecompressor. rewrite H9, H6, H5, H4, H3, Ho.
  destruct (dh_Cookie b); cbn [negb fst snd]; [|done].
  destruct (dh_BytesLeft b =? 0); cbn [fst snd]; [|done].
  by rewrite map_app.
Qed.

Lemma decompress_chunks_hosts (chunks : list (list Z)) :
  decompress_chunks true chunks
  = (fun r => (r.1, map bswap32 r.2)) <$>
    decompress_chunks false (map (map bswap32) chunks).
Proof.
  unfold decompress_chunks. cbn [CreateDecompressor].
  set (d0 := mkDecompressor _ _ _ _ _ _ _ _).
  assert (H0 : host_decoders d0 d0) by (by unfold host_decoders).
  pose proof (feed_chunks_hosts chunks d0 d0 H0) as Hf.
  destruct (feed_chunks true d0 chunks) as [l|];
    destruct (feed_chunks false d0 _) as [b|]; try done.
  cbn [fmap option_fmap option_map fst snd].
  by rewrite (DeleteDecompressor_hosts l b Hf).
Qed.

(** X15: the decompressed data does not depend on the byte order of the
    host.  The decoder on a little-endian host, given the words that hold
    in its memory the bytes of the stream, returns what the decoder on a
    big-endian host returns for the same bytes, and sends to the sink words
    that hold in its memory the same bytes: the words given and the words
    sent are the byte-swapped ones of those of the big-endian host. *)
Theorem decompressed_bytes_host_independent (chunks : list (list Z)) :
  decompress_chunks true chunks
  = (fun r => (r.1, map bswap32 r.2)) <$>
    decompress_chunks false (map (map bswap32) chunks)
  /\ words_bytes false (concat (map (map bswap32) chunks))
     = words_bytes true (concat chunks)
  /\ (fun r => (r.1, words_bytes true r.2)) <$> decompress_chunks true chunks
     = (fun r => (r.1, words_bytes false r.2)) <$>
       decompress_chunks false (map (map bswap32) chunks).
Proof.
  split; [apply decompress_chunks_hosts|]. split.
  - rewrite <- words_bytes_bswap32_be. f_equal.
    induction chunks as [|c chunks IH]; [done|].
    cbn [map concat]. by rewrite map_app, IH.
  - rewrite decompress_chunks_hosts.
    destruct (decompress_chunks false _) as [[r out]|]; [|done].
    cbn [fmap option_fmap option_map fst snd].
    by rewrite HostFacts.words_bytes_bswap32.
Qed.

End HostDecoderFacts.


(** ** The decoder fed in several calls *)

Module StreamFacts.
Import Decompress DecompressSpec StreamSpec.

Lemma ReadBits_more (host_le : bool) (bs : DecompressBitStream) (extra : list Z)
    (numBits : Z) :
  0 <= numBits <= 32 -> bs_ok bs -> counted bs ->
  bs_NumDataWords bs + Z.of_nat (length extra) < 2 ^ 32 ->
  numBits <= bs_BitsLeft bs \/ bs_NumDataWords bs <> 0 ->
  ReadBits host_le (more_data bs extra) numBits
  = (more_data (fst (ReadBits host_le bs numBits)) extra,
     snd (ReadBits host_le bs numBits))
  /\ counted (fst (ReadBits host_le bs numBits)).
Proof.
  intros Hn (Hb & Hw) Hcnt Hlen Hcan. unfold ReadBits.
  cbn [more_data bs_BitsLeft bs_NumDataWords bs_Data bs_BitBuffer bs_Error].
  destruct (Z.gtb_spec numBits (bs_BitsLeft bs)) as [Hgt|Hle].
  - destruct Hcan as [Hcan|Hcan]; [lia|].
    destruct (Z.eqb_spec (bs_NumDataWords bs) 0) as [E|_]; [done|].
    destruct (Z.eqb_spec (bs_NumDataWords bs + Z.of_nat (length extra)) 0)
      as [E|_]; [lia|].
    unfold counted in *.
    destruct (bs_Data bs) as [|w data] eqn:Hd; [cbn in Hcnt; lia|].
    cbn [length] in Hcnt.
    unfold take_bits.
    cbn [bs_BitsLeft bs_NumDataWords bs_Data bs_BitBuffer bs_Error fst snd
         more_data app tail hd].
    rewrite !WordFacts.u32_small with (x := bs_NumDataWords bs - 1) by lia.
    rewrite !WordFacts.u32_small
      with (x := bs_NumDataWords bs + Z.of_nat (length extra) - 1) by lia.
    split; [|cbn [bs_Data bs_NumDataWords]; lia].
    unfold more_data.
    cbn [bs_BitsLeft bs_NumDataWords bs_Data bs_BitBuffer bs_Error].
    f_equal. f_equal. lia.
  - unfold take_bits.
    cbn [bs_BitsLeft bs_NumDataWords bs_Data bs_BitBuffer bs_Error fst snd
         more_data].
    done.
Qed.

Lemma put_byte_more (host_le : bool) (d : dframe) (extra : list Z) (c : Z) :
  put_byte host_le (more d extra) c = more (put_byte host_le d c) extra.
Proof. unfold put_byte, more, with_bs. cbn. by destruct (_ =? _). Qed.

Lemma copy_match_more (host_le : bool) (extra : list Z) (n : nat) :
  forall d i,
    copy_match host_le (more d extra) i n
    = more (copy_match host_le d i n) extra.
Proof.
  induction n as [|n IH]; intros d i; [done|].
  cbn [copy_match]. rewrite <- IH, <- put_byte_more. done.
Qed.

Lemma decode_token_more (host_le : bool) (d : dframe) (extra : list Z) :
  bs_ok (d_bs d) -> counted (d_bs d) -> bs_NumDataWords (d_bs d) <> 0 ->
  bs_NumDataWords (d_bs d) + Z.of_nat (length extra) < 2 ^ 32 ->
  decode_token host_le (more d extra)
  = (more (fst (decode_token host_le d)) extra, snd (decode_token host_le d))
  /\ counted (d_bs (fst (decode_token host_le d))).
Proof.
  intros Hok Hcnt Hn Hlen. unfold decode_token.
  change (d_bs (more d extra)) with (more_data (d_bs d) extra).
  destruct (ReadBits_more host_le (d_bs d) extra 1 ltac:(lia) Hok Hcnt Hlen
              ltac:(by right)) as (-> & Hcnt1).
  pose proof (DecompressFacts.ReadBits_ok host_le (d_bs d) 1 ltac:(lia) Hok) as Hok1.
  pose proof (DecompressFacts.ReadBits_cases host_le (d_bs d) 1 ltac:(lia) Hok) as Hcase1.
  pose proof (DecompressFacts.ReadBits_served host_le (d_bs d) 1 ltac:(lia) Hok ltac:(by right))
    as (_ & Hu1 & _).
  destruct (ReadBits host_le (d_bs d) 1) as [bs1 tag]. cbn [fst snd] in *.
  assert (Hfree1 : bs_NumDataWords bs1 <> 0 \/ 31 <= bs_BitsLeft bs1).
  { destruct Hok as [Hb Hw].
    destruct Hcase1 as [(H1 & ->)|[(H1 & H2 & ->)|(H1 & H2 & ->)]];
      cbn [bs_BitsLeft bs_NumDataWords]; lia. }
  assert (Hle1 : bs_NumDataWords bs1 <= bs_NumDataWords (d_bs d)).
  { destruct Hok as [Hb Hw].
    destruct Hcase1 as [(H1 & ->)|[(H1 & H2 & ->)|(H1 & H2 & ->)]];
      cbn [bs_BitsLeft bs_NumDataWords]; lia. }
  destruct (tag =? 0).
  - destruct (ReadBits_more host_le bs1 extra INDEX_BIT_COUNT
                ltac:(unfold INDEX_BIT_COUNT; lia) Hok1 Hcnt1 ltac:(lia)
                ltac:(unfold INDEX_BIT_COUNT; lia)) as (-> & Hcnt2).
    pose proof (DecompressFacts.ReadBits_ok host_le bs1 INDEX_BIT_COUNT
                  ltac:(unfold INDEX_BIT_COUNT; lia) Hok1) as Hok2.
    pose proof (DecompressFacts.ReadBits_cases host_le bs1 INDEX_BIT_COUNT
                  ltac:(unfold INDEX_BIT_COUNT; lia) Hok1) as Hcase2.
    destruct (ReadBits host_le bs1 INDEX_BIT_COUNT) as [bs2 matchPos].
    cbn [fst snd] in *.
    assert (Hfree2 : bs_NumDataWords bs2 <> 0 \/ 19 <= bs_BitsLeft bs2).
    { destruct Hok1 as [Hb Hw]. unfold INDEX_BIT_COUNT in *.
      destruct Hcase2 as [(H1 & ->)|[(H1 & H2 & ->)|(H1 & H2 & ->)]];
        cbn [bs_BitsLeft bs_NumDataWords]; lia. }
    assert (Hle2 : bs_NumDataWords bs2 <= bs_NumDataWords bs1).
    { destruct Hok1 as [Hb Hw].
      destruct Hcase2 as [(H1 & ->)|[(H1 & H2 & ->)|(H1 & H2 & ->)]];
        cbn [bs_BitsLeft bs_NumDataWords]; lia. }
    destruct (matchPos =? END_OF_STREAM); [done|].
    destruct (ReadBits_more host_le bs2 extra LENGTH_BIT_COUNT
                ltac:(unfold LENGTH_BIT_COUNT; lia) Hok2 Hcnt2 ltac:(lia)
                ltac:(unfold LENGTH_BIT_COUNT; lia)) as (-> & Hcnt3).
    destruct (ReadBits host_le bs2 LENGTH_BIT_COUNT) as [bs3 len].
    cbn [fst snd] in *.
    change (with_bs (more d extra) (more_data bs3 extra))
      with (more (with_bs d bs3) extra).
    rewrite copy_match_more. split; [done|].
    by rewrite DecompressFacts.copy_match_bs.
  - destruct (ReadBits_more host_le bs1 extra 8 ltac:(lia) Hok1 Hcnt1
                ltac:(lia) ltac:(lia)) as (-> & Hcnt2).
    destruct (ReadBits host_le bs1 8) as [bs2 c]. cbn [fst snd] in *.
    change (with_bs (more d extra) (more_data bs2 extra))
      with (more (with_bs d bs2) extra).
    rewrite put_byte_more. split; [done|].
    by rewrite DecompressFacts.put_byte_bs.
Qed.

Lemma decode_token_words (host_le : bool) (d : dframe) :
  bs_ok (d_bs d) -> bs_NumDataWords (d_bs d) <> 0 ->
  bs_NumDataWords (d_bs (fst (decode_token host_le d)))
  <= bs_NumDataWords (d_bs d).
Proof.
  intros Hok Hn.
  pose proof (DecompressFacts.decode_token_served host_le d Hok Hn)
    as (Hok' & _ & Hu).
  cbv zeta in *. unfold bits_unread in Hu.
  destruct Hok as [Hb Hw]. destruct Hok' as [Hb' Hw']. lia.
Qed.

Lemma decode_loop_stop_mono (host_le : bool) (fuel : nat) :
  forall (fuel' : nat) (d : dframe) (r : dframe * bool),
    decode_loop_stop fuel host_le d = Some r -> (fuel <= fuel')%nat ->
    decode_loop_stop fuel' host_le d = Some r.
Proof.
  induction fuel as [|fuel IH]; intros fuel' d r Hl Hf; [done|].
  destruct fuel' as [|fuel']; [lia|].
  cbn [decode_loop_stop] in *.
  destruct (bs_NumDataWords (d_bs d) =? 0); [done|].
  destruct (decode_token host_le d) as [d1 stop].
  destruct stop; [done|]. apply IH; [done|lia].
Qed.

(** A call that meets the terminator does so whatever words follow. *)
Lemma decode_loop_stop_more_halt (host_le : bool) (extra : list Z)
    (fuel : nat) :
  forall (d d1 : dframe),
    bs_ok (d_bs d) -> counted (d_bs d) ->
    bs_NumDataWords (d_bs d) + Z.of_nat (length extra) < 2 ^ 32 ->
    decode_loop_stop fuel host_le d = Some (d1, true) ->
    decode_loop_stop fuel host_le (more d extra) = Some (more d1 extra, true).
Proof.
  induction fuel as [|fuel IH]; intros d d1 Hok Hcnt Hlen Hl; [done|].
  cbn [decode_loop_stop] in *.
  change (d_bs (more d extra)) with (more_data (d_bs d) extra).
  cbn [more_data bs_NumDataWords].
  destruct (Z.eqb_spec (bs_NumDataWords (d_bs d)) 0) as [E|E]; [done|].
  destruct Hok as [Hb Hw].
  destruct (Z.eqb_spec (bs_NumDataWords (d_bs d) + Z.of_nat (length extra)) 0)
    as [E'|_]; [lia|].
  destruct (decode_token_more host_le d extra (conj Hb Hw) Hcnt E Hlen)
    as (-> & Hcnt1).
  pose proof (DecompressFacts.decode_token_served host_le d (conj Hb Hw) E)
    as (Hok1 & _ & _).
  pose proof (decode_token_words host_le d (conj Hb Hw) E) as Hle.
  destruct (decode_token host_le d) as [d' stop]. cbn [fst snd] in *.
  destruct stop; [by injection Hl as ->|].
  apply IH; [done|done|lia|done].
Qed.

(** A call that ends because its words ran out: with more words after them
    the loop goes on from where the call ended. *)
Lemma decode_loop_stop_more (host_le : bool) (extra : list Z) (fuel : nat) :
  forall (d d1 : dframe) (fuel2 : nat) (r : dframe * bool),
    bs_ok (d_bs d) -> counted (d_bs d) ->
    bs_NumDataWords (d_bs d) + Z.of_nat (length extra) < 2 ^ 32 ->
    decode_loop_stop fuel host_le d = Some (d1, false) ->
    decode_loop_stop fuel2 host_le (more d1 extra) = Some r ->
    decode_loop_stop (fuel + fuel2) host_le (more d extra) = Some r.
Proof.
  induction fuel as [|fuel IH]; intros d d1 fuel2 r Hok Hcnt Hlen Hl Hr;
    [done|].
  cbn [decode_loop_stop] in Hl.
  destruct (Z.eqb_spec (bs_NumDataWords (d_bs d)) 0) as [E|E].
  - injection Hl as <-.
    apply (decode_loop_stop_mono host_le fuel2); [done|lia].
  - cbn [Nat.add decode_loop_stop].
    change (d_bs (more d extra)) with (more_data (d_bs d) extra).
    cbn [more_data bs_NumDataWords].
    destruct Hok as [Hb Hw].
    destruct (Z.eqb_spec (bs_NumDataWords (d_bs d) + Z.of_nat (length extra)) 0)
      as [E'|_]; [lia|].
    destruct (decode_token_more host_le d extra (conj Hb Hw) Hcnt E Hlen)
      as (-> & Hcnt1).
    pose proof (DecompressFacts.decode_token_served host_le d (conj Hb Hw) E)
      as (Hok1 & _ & _).
    pose proof (decode_token_words host_le d (conj Hb Hw) E) as Hle.
    destruct (decode_token host_le d) as [d' stop]. cbn [fst snd] in *.
    destruct stop; [done|].
    apply (IH d' d1); [done|done|lia|done|done].
Qed.

(** The words are counted when a call ends. *)
Lemma decode_loop_stop_counted (host_le : bool) (fuel : nat) :
  forall (d d1 : dframe) (stop : bool),
    bs_ok (d_bs d) -> counted (d_bs d) ->
    decode_loop_stop fuel host_le d = Some (d1, stop) ->
    counted (d_bs d1).
Proof.
  induction fuel as [|fuel IH]; intros d d1 stop Hok Hcnt Hl; [done|].
  cbn [decode_loop_stop] in Hl.
  destruct (Z.eqb_spec (bs_NumDataWords (d_bs d)) 0) as [E|E].
  - by injection Hl as <- <-.
  - destruct (decode_token_more host_le d [] Hok Hcnt E) as (_ & Hcnt1).
    { destruct Hok as [Hb Hw]. cbn [length]. lia. }
    pose proof (DecompressFacts.decode_token_served host_le d Hok E)
      as (Hok1 & _ & _).
    destruct (decode_token host_le d) as [d' s]. cbn [fst snd] in *.
    destruct s; [by injection Hl as <- <-|].
    by apply (IH d' d1 stop).
Qed.

Lemma decode_loop_stop_det (host_le : bool) (fuel fuel' : nat) (d : dframe)
    (r r' : dframe * bool) :
  decode_loop_stop fuel host_le d = Some r ->
  decode_loop_stop fuel' host_le d = Some r' -> r = r'.
Proof.
  intros H H'.
  apply (decode_loop_stop_mono host_le fuel (Nat.max fuel fuel')) in H; [|lia].
  apply (decode_loop_stop_mono host_le fuel' (Nat.max fuel fuel')) in H'; [|lia].
  congruence.
Qed.

(** The frame a call starts with. *)
Lemma more_fed (decomp : Decompressor) (c1 c2 : list Z) :
  mkDframe (dh_Out decomp) (dh_WordBuffer decomp) (dh_BytesLeft decomp)
    (dh_Window decomp) (dh_Pos decomp)
    (FeedBitStream (dh_BitStream decomp) (c1 ++ c2)
       (Z.of_nat (length (c1 ++ c2))))
  = more
      (mkDframe (dh_Out decomp) (dh_WordBuffer decomp) (dh_BytesLeft decomp)
         (dh_Window decomp) (dh_Pos decomp)
         (FeedBitStream (dh_BitStream decomp) c1 (Z.of_nat (length c1))))
      c2.
Proof.
  unfold more, with_bs, more_data, FeedBitStream. cbn.
  by rewrite length_app, Nat2Z.inj_add.
Qed.

Lemma counted_nil (bs : DecompressBitStream) :
  counted bs -> bs_NumDataWords bs = 0 -> bs_Data bs = [].
Proof.
  unfold counted. intros Hc Hn. rewrite Hn in Hc.
  destruct (bs_Data bs); [done|]. cbn [length] in Hc. lia.
Qed.

(** One call on the words [c1], seen from a call on [c1 ++ c2]. *)
Lemma FeedDecompressor_split (host_le : bool) (decomp : Decompressor)
    (c1 c2 : list Z) :
  dh_Cookie decomp = true ->
  0 <= bs_BitsLeft (dh_BitStream decomp) <= 32 ->
  Z.of_nat (length (c1 ++ c2)) < 2 ^ 32 ->
  exists decomp1 stop,
    FeedDecompressor host_le decomp c1 = Some (COMP_OK, decomp1)
    /\ halts_on_end_of_stream host_le decomp c1 = Some stop
    /\ dh_Cookie decomp1 = true
    /\ 0 <= bs_BitsLeft (dh_BitStream decomp1) <= 32
    /\ counted (dh_BitStream decomp1)
    /\ (stop = false ->
        bs_NumDataWords (dh_BitStream decomp1) = 0
        /\ FeedDecompressor host_le decomp (c1 ++ c2)
           = FeedDecompressor host_le decomp1 c2)
    /\ (stop = true ->
        FeedDecompressor host_le decomp (c1 ++ c2)
        = Some (COMP_OK, more_Decompressor decomp1 c2)).
Proof.
  intros Hc Hb Hlen.
  assert (Hlen' : Z.of_nat (length c1) + Z.of_nat (length c2) < 2 ^ 32)
    by (rewrite length_app in Hlen; lia).
  unfold FeedDecompressor at 1 2 4, internalFeedDecompressor,
    halts_on_end_of_stream.
  rewrite Hc. cbn [negb].
  rewrite more_fed.
  set (bs1 := FeedBitStream (dh_BitStream decomp) c1 (Z.of_nat (length c1))).
  set (bs12 := FeedBitStream (dh_BitStream decomp) (c1 ++ c2) _).
  set (d := mkDframe _ _ _ _ _ bs1).
  assert (Hok : bs_ok (d_bs d)) by (split; cbn; lia).
  assert (Hcnt : counted (d_bs d)) by done.
  destruct (DecompressFacts.decode_loop_stop_total host_le (decode_fuel bs1) d
              Hok) as (d1 & stop & Hl & Hok1 & _ & Hs & _).
  { unfold decode_fuel, bits_unread. cbn. lia. }
  pose proof (decode_loop_stop_counted host_le _ _ _ _ Hok Hcnt Hl) as Hcnt1.
  assert (Hok12 : bs_ok (d_bs (more d c2))) by (split; cbn; lia).
  destruct (DecompressFacts.decode_loop_stop_total host_le (decode_fuel bs12)
              (more d c2) Hok12) as (d12 & stop12 & Hl12 & _).
  { unfold decode_fuel, bits_unread, bs12. cbn.
    rewrite length_app. lia. }
  rewrite !DecompressFacts.decode_loop_stop_fst, Hl, Hl12. cbn [fmap option_fmap
    option_map fst snd].
  eexists _, stop. split; [reflexivity|]. split; [done|]. split; [done|].
  split; [apply Hok1|]. split; [done|]. split.
  - intros ->. specialize (Hs eq_refl). split; [done|].
    unfold FeedDecompressor, internalFeedDecompressor.
    cbn [dh_Cookie dh_BitStream dh_Out dh_WordBuffer dh_BytesLeft dh_Window
         dh_Pos dh_AllocatedStructure].
    rewrite ?Hc. cbn [negb].
    set (bs2 := FeedBitStream (d_bs d1) c2 (Z.of_nat (length c2))).
    assert (Hd2 : mkDframe (d_out d1) (d_wordBuffer d1) (d_bytesLeft d1)
                    (d_window d1) (d_pos d1) bs2 = more d1 c2).
    { unfold more, with_bs, more_data, bs2, FeedBitStream.
      rewrite (counted_nil _ Hcnt1 Hs), Hs. done. }
    rewrite Hd2.
    assert (Hok2 : bs_ok (d_bs (more d1 c2))).
    { destruct Hok1 as [Hb1 Hw1]. split; cbn; lia. }
    destruct (DecompressFacts.decode_loop_stop_total host_le (decode_fuel bs2)
                (more d1 c2) Hok2) as (d2 & stop2 & Hl2 & _).
    { destruct Hok1 as [Hb1 Hw1].
      unfold decode_fuel, bits_unread, bs2. cbn. rewrite Hs. lia. }
    rewrite DecompressFacts.decode_loop_stop_fst, Hl2.
    cbn [fmap option_fmap option_map fst].
    pose proof (decode_loop_stop_more host_le c2 _ d d1 _ _ Hok Hcnt
                  ltac:(cbn; lia) Hl Hl2) as Hboth.
    pose proof (decode_loop_stop_det host_le _ _ _ _ _ Hl12 Hboth) as [= -> ->].
    done.
  - intros ->.
    pose proof (decode_loop_stop_more_halt host_le c2 _ d d1 Hok Hcnt
                  ltac:(cbn; lia) Hl) as Hboth.
    pose proof (decode_loop_stop_det host_le _ _ _ _ _ Hl12 Hboth) as [= -> ->].
    done.
Qed.

(** A call without words changes nothing when no word is left unread. *)
Lemma FeedDecompressor_nil (host_le : bool) (decomp : Decompressor) :
  dh_Cookie decomp = true ->
  0 <= bs_BitsLeft (dh_BitStream decomp) <= 32 ->
  counted (dh_BitStream decomp) ->
  bs_NumDataWords (dh_BitStream decomp) = 0 ->
  FeedDecompressor host_le decomp [] = Some (COMP_OK, decomp).
Proof.
  intros Hc Hb Hcnt Hn. apply counted_nil in Hcnt; [|done].
  unfold FeedDecompressor, internalFeedDecompressor. rewrite Hc. cbn [negb].
  destruct decomp as [o wb bl p w [data n bits buf err] a ck].
  cbn [dh_BitStream dh_Cookie bs_BitsLeft bs_NumDataWords bs_Data] in *.
  subst. cbv zeta.
  destruct (decode_fuel _) as [|fuel] eqn:Hfuel.
  - unfold decode_fuel in Hfuel. cbn in Hfuel. lia.
  - done.
Qed.

Lemma more_Decompressor_nil (decomp : Decompressor) :
  more_Decompressor decomp [] = decomp.
Proof.
  destruct decomp as [o wb bl p w [data n bits buf err] a ck].
  unfold more_Decompressor, more_data. cbn.
  by rewrite app_nil_r, Z.add_0_r.
Qed.

Lemma feed_chunks_concat (host_le : bool) (chunks : list (list Z)) :
  forall (decomp dfinal : Decompressor) (r : comp_result),
    dh_Cookie decomp = true ->
    0 <= bs_BitsLeft (dh_BitStream decomp) <= 32 ->
    counted (dh_BitStream decomp) ->
    bs_NumDataWords (dh_BitStream decomp) = 0 ->
    Z.of_nat (length (concat chunks)) < 2 ^ 32 ->
    FeedDecompressor host_le decomp (concat chunks) = Some (r, dfinal) ->
    bs_NumDataWords (dh_BitStream dfinal) = 0 ->
    feed_chunks host_le decomp chunks = Some dfinal.
Proof.
  induction chunks as [|c chunks IH];
    intros decomp dfinal r Hc Hb Hcnt Hn Hlen Hfeed Hfin.
  - cbn [concat] in Hfeed. rewrite FeedDecompressor_nil in Hfeed by done.
    by injection Hfeed as <- <-.
  - cbn [concat feed_chunks] in *.
    destruct (FeedDecompressor_split host_le decomp c (concat chunks) Hc Hb Hlen)
      as (d1 & stop & -> & _ & Hc1 & Hb1 & Hcnt1 & Hgo & Hhalt).
    assert (Hlen1 : Z.of_nat (length (concat chunks)) < 2 ^ 32)
      by (rewrite length_app in Hlen; lia).
    destruct stop.
    + rewrite (Hhalt eq_refl) in Hfeed. injection Hfeed as <- <-.
      cbn [more_Decompressor dh_BitStream more_data bs_NumDataWords] in Hfin.
      assert (Hn1 : bs_NumDataWords (dh_BitStream d1) = 0).
      { unfold counted in Hcnt1. lia. }
      assert (Hnil : concat chunks = []).
      { destruct (concat chunks); [done|]. cbn [length] in Hfin. lia. }
      rewrite Hnil, more_Decompressor_nil.
      apply (IH d1 d1 COMP_OK); try done.
      rewrite Hnil. by apply FeedDecompressor_nil.
    + destruct (Hgo eq_refl) as (Hn1 & Heq). rewrite Heq in Hfeed.
      by apply (IH d1 dfinal r).
Qed.

Lemma DeleteDecompressor_ok (host_le : bool) (decomp : Decompressor)
    (out : list Z) :
  DeleteDecompressor host_le decomp = (COMP_OK, out) ->
  dh_Cookie decomp = true ->
  bs_NumDataWords (dh_BitStream decomp) = 0.
Proof.
  unfold DeleteDecompressor. intros H Hc. rewrite Hc in H. cbn [negb] in H.
  destruct (Z.eqb_spec (bs_NumDataWords (dh_BitStream decomp)) 0); [done|].
  by destruct (bs_Error _).
Qed.

Lemma decompress_chunks_concat (host_le : bool) (chunks : list (list Z))
    (out : list Z) :
  Z.of_nat (length (concat chunks)) < 2 ^ 32 ->
  decompress_chunks host_le [concat chunks] = Some (COMP_OK, out) ->
  decompress_chunks host_le chunks = Some (COMP_OK, out).
Proof.
  intros Hlen. unfold decompress_chunks.
  cbn [CreateDecompressor zero_Decompressor dh_Window dh_BitStream
       InitBitStream bs_Data bs_NumDataWords feed_chunks].
  set (decomp := mkDecompressor _ _ _ _ _ _ _ _).
  destruct (FeedDecompressor_split host_le decomp (concat chunks) []
              eq_refl ltac:(cbn; lia)) as (d1 & stop & Hf & _ & Hc1 & _);
    [by rewrite app_nil_r|].
  rewrite Hf. intros [= Hdel].
  rewrite (feed_chunks_concat host_le chunks decomp d1 COMP_OK); try done.
  - by rewrite Hdel.
  - by apply (DeleteDecompressor_ok host_le d1 out).
Qed.

(** X18: feeding the decoder in two calls.  When a call of
    [FeedDecompressor] on the words [c1] does not end on the terminator, a
    second call on the words [c2] leaves the decoder exactly as one call on
    [c1 ++ c2] does: the state kept between the calls is complete. *)
Theorem FeedDecompressor_in_two_calls (host_le : bool) (decomp : Decompressor)
    (c1 c2 : list Z) :
  dh_Cookie decomp = true ->
  0 <= bs_BitsLeft (dh_BitStream decomp) <= 32 ->
  Z.of_nat (length (c1 ++ c2)) < 2 ^ 32 ->
  halts_on_end_of_stream host_le decomp c1 = Some false ->
  exists decomp1,
    FeedDecompressor host_le decomp c1 = Some (COMP_OK, decomp1)
    /\ FeedDecompressor host_le decomp1 c2
       = FeedDecompressor host_le decomp (c1 ++ c2).
Proof.
  intros Hc Hb Hlen Hstop.
  destruct (FeedDecompressor_split host_le decomp c1 c2 Hc Hb Hlen)
    as (d1 & stop & Hf & Hh & _ & _ & _ & Hgo & _).
  rewrite Hh in Hstop. injection Hstop as ->.
  exists d1. split; [done|]. by destruct (Hgo eq_refl) as (_ & ->).
Qed.

Lemma FeedDecompressor_in_two_calls_witness :
  exists decomp1,
    FeedDecompressor false new_Decompressor [0xA0D0A874]
    = Some (COMP_OK, decomp1)
    /\ FeedDecompressor false decomp1 [0x48040000]
       = FeedDecompressor false new_Decompressor
           ([0xA0D0A874] ++ [0x48040000]).
Proof.
  apply (FeedDecompressor_in_two_calls false new_Decompressor [0xA0D0A874]
           [0x48040000]).
  - reflexivity.
  - cbn. lia.
  - cbn. lia.
  - vm_compute. reflexivity.
Defined.

(** X19: the decoder does not depend on how a good stream is cut into
    calls.  When a new decoder fed a stream of less than 2^32 words in one
    call returns success from [DeleteDecompressor], the same words fed in
    any number of calls, with any cuts, give the same output and success. *)
Theorem decompress_any_chunks (host_le : bool) (chunks : list (list Z))
    (out : list Z) :
  Z.of_nat (length (concat chunks)) < 2 ^ 32 ->
  decompress_chunks host_le [concat chunks] = Some (COMP_OK, out) ->
  decompress_chunks host_le chunks = Some (COMP_OK, out).
Proof. apply decompress_chunks_concat. Qed.

Lemma decompress_any_chunks_witness :
  decompress_chunks false [[0xA0D0A874]; []; [0x48040000]; [0x00000000]]
  = Some (COMP_OK, [0x41424344]).
Proof.
  apply (decompress_any_chunks false
           [[0xA0D0A874]; []; [0x48040000]; [0x00000000]] [0x41424344]).
  - cbn. lia.
  - vm_compute. reflexivity.
Defined.

End StreamFacts.


(** ** The loops of the command line tool *)

Module CliFacts.
Import Cli.

Lemma word_of_bytes_pad (host_le : bool) (got : list Z) :
  (length got <= 4)%nat ->
  word_of_bytes host_le got
  = word_of_bytes host_le (got ++ repeat 0 (4 - length got)).
Proof.
  intros Hlen.
  destruct got as [|a [|b [|c [|d [|e rest]]]]]; try done.
Qed.

Lemma word_of_bytes_range (host_le : bool) (a b c d : Z) (rest : list Z) :
  0 <= a < 256 -> 0 <= b < 256 -> 0 <= c < 256 -> 0 <= d < 256 ->
  0 <= word_of_bytes host_le (a :: b :: c :: d :: rest) < 2 ^ 32.
Proof.
  intros Ha Hb Hc Hd. unfold word_of_bytes. cbn [nth]. destruct host_le; lia.
Qed.

Lemma word_bytes_of_bytes (host_le : bool) (a b c d : Z) (rest : list Z) :
  0 <= a < 256 -> 0 <= b < 256 -> 0 <= c < 256 -> 0 <= d < 256 ->
  word_bytes host_le (word_of_bytes host_le (a :: b :: c :: d :: rest))
  = [a; b; c; d].
Proof.
  intros Ha Hb Hc Hd. unfold word_of_bytes, word_bytes. cbn [nth].
  rewrite !WordFacts.land_255, !Z.shiftr_div_pow2 by lia.
  rewrite Z.shiftr_0_r || change (?w / 2 ^ 0) with w || idtac.
  destruct host_le.
  - replace (a + b * 2 ^ 8 + c * 2 ^ 16 + d * 2 ^ 24)
      with (d * 2 ^ 24 + c * 2 ^ 16 + b * 2 ^ 8 + a) by lia.
    by destruct (WordFacts.bytes_digits d c b a Hd Hc Hb Ha)
      as (-> & -> & -> & -> & _).
  - by destruct (WordFacts.bytes_digits a b c d Ha Hb Hc Hd)
      as (-> & -> & -> & -> & _).
Qed.

Lemma word_of_bytes_word_bytes (host_le : bool) (w : Z) :
  0 <= w < 2 ^ 32 -> word_of_bytes host_le (word_bytes host_le w) = w.
Proof.
  intros Hw.
  destruct (WordFacts.word_digits w Hw)
    as (a & b & c & d & Ha & Hb & Hc & Hd & ->).
  unfold word_bytes.
  rewrite !WordFacts.land_255, !Z.shiftr_div_pow2 by lia.
  destruct (WordFacts.bytes_digits a b c d Ha Hb Hc Hd)
    as (-> & -> & -> & -> & _).
  unfold word_of_bytes. destruct host_le; cbn [nth]; lia.
Qed.

Lemma word_of_bytes_hosts (a b c d : Z) (rest : list Z) :
  0 <= a < 256 -> 0 <= b < 256 -> 0 <= c < 256 -> 0 <= d < 256 ->
  word_of_bytes true (a :: b :: c :: d :: rest)
  = bswap32 (word_of_bytes false (a :: b :: c :: d :: rest)).
Proof.
  intros Ha Hb Hc Hd. unfold word_of_bytes. cbn [nth].
  rewrite WordFacts.bswap32_of_bytes by done. lia.
Qed.

(** The cases of a read: nothing, or up to four bytes. *)
Lemma read_cases (src : list Z) :
  Forall (fun b => 0 <= b < 256) src ->
  src = []
  \/ exists a b c d,
       take 4 src ++ repeat 0 (4 - length (take 4 src)) = [a; b; c; d]
       /\ 0 <= a < 256 /\ 0 <= b < 256 /\ 0 <= c < 256 /\ 0 <= d < 256
       /\ take 4 src <> []
       /\ padded src = [a; b; c; d] ++ padded (drop 4 src)
       /\ (length (drop 4 src) < length src)%nat.
Proof.
  intros Hsrc.
  destruct src as [|a [|b [|c [|d rest]]]]; [by left|right..];
    repeat match goal with
           | H : Forall _ (_ :: _) |- _ => apply Forall_cons in H as [? H]
           end.
  - exists a, 0, 0, 0. cbn. split_and!; try done; lia.
  - exists a, b, 0, 0. cbn. split_and!; try done; lia.
  - exists a, b, c, 0. cbn. split_and!; try done; lia.
  - exists a, b, c, d. cbn [take drop length repeat app Nat.sub].
    split_and!; try done; try lia.
    + unfold padded. cbn [length app]. do 4 f_equal.
      replace (- Z.of_nat (S (S (S (S (length rest))))))
        with (- Z.of_nat (length rest) + (-1) * 4) by lia.
      by rewrite Z.mod_add by lia.
    + change (drop 0 rest) with rest. lia.
Qed.

Lemma file_words_nil (fuel : nat) (host_le : bool) :
  file_words fuel host_le [] = [].
Proof. by destruct fuel. Qed.

Lemma file_words_cons (fuel : nat) (host_le : bool) (src : list Z) :
  take 4 src <> [] ->
  file_words (S fuel) host_le src
  = word_of_bytes host_le (take 4 src) :: file_words fuel host_le (drop 4 src).
Proof. intros H. cbn [file_words]. by destruct (take 4 src). Qed.

Lemma take4_length (src : list Z) : (length (take 4 src) <= 4)%nat.
Proof. rewrite length_take. lia. Qed.

(** In the memory of the host the words read are the file, padded. *)
Lemma file_words_bytes (host_le : bool) (fuel : nat) :
  forall src,
    Forall (fun b => 0 <= b < 256) src -> (length src < fuel)%nat ->
    words_bytes host_le (file_words fuel host_le src) = padded src
    /\ Forall (fun w => 0 <= w < 2 ^ 32) (file_words fuel host_le src).
Proof.
  induction fuel as [|fuel IH]; intros src Hsrc Hlen; [lia|].
  destruct (read_cases src Hsrc)
    as [->|(a & b & c & d & Hgot & Ha & Hb & Hc & Hd & Hne & Hpad & Hdrop)].
  - done.
  - rewrite file_words_cons by done.
    rewrite (word_of_bytes_pad _ _ (take4_length src)), Hgot.
    destruct (IH (drop 4 src)) as (IH1 & IH2); [by apply Forall_drop|lia|].
    split.
    + unfold words_bytes in *. cbn [map concat].
      rewrite word_bytes_of_bytes by done. by rewrite IH1, Hpad.
    + constructor; [by apply word_of_bytes_range|done].
Qed.

Lemma file_words_hosts (fuel : nat) :
  forall src,
    Forall (fun b => 0 <= b < 256) src ->
    file_words fuel true src = map bswap32 (file_words fuel false src).
Proof.
  induction fuel as [|fuel IH]; intros src Hsrc; [done|].
  destruct (read_cases src Hsrc)
    as [->|(a & b & c & d & Hgot & Ha & Hb & Hc & Hd & Hne & Hpad & Hdrop)].
  - done.
  - rewrite !file_words_cons by done. cbn [map].
    rewrite !(word_of_bytes_pad _ _ (take4_length src)), Hgot.
    rewrite word_of_bytes_hosts by done.
    by rewrite IH by (by apply Forall_drop).
Qed.

(** The words written to a file are those read back from it. *)
Lemma file_words_words_bytes (host_le : bool) (ws : list Z) :
  forall fuel,
    Forall (fun w => 0 <= w < 2 ^ 32) ws -> (4 * length ws < fuel)%nat ->
    file_words fuel host_le (words_bytes host_le ws) = ws.
Proof.
  induction ws as [|w ws IH]; intros fuel Hws Hlen.
  - apply file_words_nil.
  - apply Forall_cons in Hws as [Hw Hws]. cbn [length] in Hlen.
    destruct fuel as [|fuel]; [lia|].
    unfold words_bytes in *. cbn [map concat].
    pose proof (word_of_bytes_word_bytes host_le w Hw) as Hback.
    assert (exists a b c d, word_bytes host_le w = [a; b; c; d])
      as (a & b & c & d & Hwb)
      by (unfold word_bytes; destruct host_le; by eexists _, _, _, _).
    rewrite Hwb in *. cbn [app].
    rewrite file_words_cons by done. cbn [take drop].
    rewrite <- Hback. f_equal. apply IH; [done|lia].
Qed.

Lemma compress_loop_chunks (host_le : bool) (fuel : nat) :
  forall (comp : Compress.Compressor) (src : list Z),
    compress_loop fuel host_le comp src
    = match fuel with
      | O => None
      | S _ =>
          CompressSpec.feed_chunks host_le comp
            (map (fun w => [w]) (file_words fuel host_le src))
      end
    \/ (fuel <= length src)%nat.
Proof.
  induction fuel as [|fuel IH]; intros comp src; [by left|].
  destruct (take 4 src) as [|g got] eqn:Hgot.
  - left. cbn [compress_loop file_words]. rewrite Hgot. done.
  - cbn [compress_loop file_words]. rewrite Hgot.
    cbn [length map CompressSpec.feed_chunks].
    destruct (Z.eqb_spec (Z.of_nat (S (length got))) 0) as [E|_]; [lia|].
    destruct (Compress.FeedCompressor _ _ _) as [[r comp1]|]; [|by left].
    destruct (IH comp1 (drop 4 src)) as [->|Hshort].
    + destruct fuel as [|fuel']; [right|by left].
      destruct src; [done|]. cbn [length]. lia.
    + right. rewrite length_drop in Hshort.
      assert (length src <> 0)%nat by (destruct src; done). lia.
Qed.

Lemma decompress_loop_chunks (host_le : bool) (fuel : nat) :
  forall (decomp : Decompress.Decompressor) (src : list Z),
    decompress_loop fuel host_le decomp src
    = match fuel with
      | O => None
      | S _ =>
          DecompressSpec.feed_chunks host_le decomp
            (map (fun w => [w]) (file_words fuel host_le src))
      end
    \/ (fuel <= length src)%nat.
Proof.
  induction fuel as [|fuel IH]; intros decomp src; [by left|].
  destruct (take 4 src) as [|g got] eqn:Hgot.
  - left. cbn [decompress_loop file_words]. rewrite Hgot. done.
  - cbn [decompress_loop file_words]. rewrite Hgot.
    cbn [length map DecompressSpec.feed_chunks].
    destruct (Z.eqb_spec (Z.of_nat (S (length got))) 0) as [E|_]; [lia|].
    destruct (Decompress.FeedDecompressor _ _ _) as [[r decomp1]|]; [|by left].
    destruct (IH decomp1 (drop 4 src)) as [->|Hshort].
    + destruct fuel as [|fuel']; [right|by left].
      destruct src; [done|]. cbn [length]. lia.
    + right. rewrite length_drop in Hshort.
      assert (length src <> 0)%nat by (destruct src; done). lia.
Qed.

Lemma singles_swap (ws : list Z) :
  map (fun w => [w]) (map bswap32 ws)
  = map (map bswap32) (map (fun w => [w]) ws).
Proof. induction ws as [|w ws IH]; [done|]. cbn [map]. by rewrite IH. Qed.

Lemma concat_singles (ws : list Z) : concat (map (fun w => [w]) ws) = ws.
Proof. induction ws as [|w ws IH]; [done|]. cbn [map concat app]. by rewrite IH. Qed.

Lemma map_bswap32_twice (ws : list Z) :
  Forall (fun w => 0 <= w < 2 ^ 32) ws -> map bswap32 (map bswap32 ws) = ws.
Proof.
  induction 1 as [|w ws Hw _ IH]; [done|]. cbn [map].
  by rewrite WordFacts.bswap32_involutive, IH.
Qed.

Lemma compress_loop_words (host_le : bool) (comp : Compress.Compressor)
    (src : list Z) :
  compress_loop (S (length src)) host_le comp src
  = CompressSpec.feed_chunks host_le comp
      (map (fun w => [w]) (file_words (S (length src)) host_le src)).
Proof.
  destruct (compress_loop_chunks host_le (S (length src)) comp src)
    as [H|H]; [done|lia].
Qed.

Lemma decompress_loop_words (host_le : bool) (decomp : Decompress.Decompressor)
    (src : list Z) :
  decompress_loop (S (length src)) host_le decomp src
  = DecompressSpec.feed_chunks host_le decomp
      (map (fun w => [w]) (file_words (S (length src)) host_le src)).
Proof.
  destruct (decompress_loop_chunks host_le (S (length src)) decomp src)
    as [H|H]; [done|lia].
Qed.

Lemma compress_hosts (block : option Compress.Compressor) (src : list Z) :
  Forall (fun b => 0 <= b < 256) src ->
  compress true block src = compress false block src.
Proof.
  intros Hsrc. unfold compress.
  destruct block as [block|]; [|done].
  cbn [Compress.CreateCompressor].
  set (comp0 := Compress.mkCompressor _ _ _ _ _ _ _ _ _ _ _).
  rewrite !compress_loop_words.
  rewrite (file_words_hosts _ _ Hsrc), singles_swap.
  change comp0 with (HostSpec.swap_Compressor comp0) at 1.
  rewrite HostFacts.feed_chunks_swap.
  destruct (CompressSpec.feed_chunks false comp0 _) as [comp1|]; [|done].
  cbn [fmap option_fmap option_map].
  rewrite HostFacts.DeleteCompressor_swap.
  destruct (Compress.DeleteCompressor false comp1) as [[r comp2]|]; [|done].
  cbn [fmap option_fmap option_map fst snd HostSpec.swap_Compressor
       Compress.ch_BitStream HostSpec.swap_sink Compress.bs_Out].
  by rewrite HostFacts.words_bytes_bswap32.
Qed.

Lemma decompress_hosts (fresh : bool) (src : list Z) :
  Forall (fun b => 0 <= b < 256) src ->
  decompress true fresh src = decompress false fresh src.
Proof.
  intros Hsrc. unfold decompress.
  destruct fresh; [|done].
  cbn [Decompress.CreateDecompressor].
  set (decomp0 := Decompress.mkDecompressor _ _ _ _ _ _ _ _).
  rewrite !decompress_loop_words.
  pose proof (file_words_bytes false (S (length src)) src Hsrc ltac:(lia))
    as (_ & Hrange).
  assert (Hd0 : HostSpecDecoder.host_decoders decomp0 decomp0)
    by (unfold HostSpecDecoder.host_decoders; by split_and!).
  pose proof (HostDecoderFacts.feed_chunks_hosts
                (map (fun w => [w]) (file_words (S (length src)) true src))
                decomp0 decomp0 Hd0) as Hfeed.
  assert (E : map (map bswap32)
                (map (fun w => [w]) (file_words (S (length src)) true src))
              = map (fun w => [w]) (file_words (S (length src)) false src)).
  { rewrite <- singles_swap, (file_words_hosts _ _ Hsrc).
    by rewrite map_bswap32_twice. }
  rewrite E in Hfeed.
  destruct (DecompressSpec.feed_chunks true decomp0 _) as [l|];
    destruct (DecompressSpec.feed_chunks false decomp0 _) as [b|]; try done.
  rewrite (HostDecoderFacts.DeleteDecompressor_hosts l b Hfeed).
  cbn [snd]. by rewrite HostFacts.words_bytes_bswap32.
Qed.

(** X20: the files the tool writes do not depend on the byte order of the
    host: for the same input file, and the same block from [malloc],
    [l::compress] writes the same bytes on a little-endian and on a
    big-endian host, and so does [l::decompress]. *)
Theorem files_host_independent (block : option Compress.Compressor)
    (fresh : bool) (src : list Z) :
  Forall (fun b => 0 <= b < 256) src ->
  compress true block src = compress false block src
  /\ decompress true fresh src = decompress false fresh src.
Proof.
  intros Hsrc. split; [by apply compress_hosts|by apply decompress_hosts].
Qed.

Lemma files_host_independent_witness :
  compress true (Some CompressSpec.zero_Compressor) [65; 66; 67; 68; 69]
  = compress false (Some CompressSpec.zero_Compressor) [65; 66; 67; 68; 69]
  /\ decompress true true [65; 66; 67; 68; 69]
     = decompress false true [65; 66; 67; 68; 69].
Proof.
  apply (files_host_independent (Some CompressSpec.zero_Compressor) true
           [65; 66; 67; 68; 69]).
  repeat constructor; lia.
Defined.

End CliFacts.


(** ** What [DeleteString] removes *)

Module DeleteFacts.
Import Compress CompressSpec.

Lemma subtree_same (tree tree' : gmap Z CompNode) (x p : Z) (lx : list Z) :
  subtree tree x p lx ->
  (forall y, y ∈ lx -> nd tree' y = nd tree y) ->
  subtree tree' x p lx.
Proof.
  induction 1 as [p|x p l r Hx Hp Hl IHl Hr IHr]; intros Hsame; [constructor|].
  assert (Hnx : nd tree' x = nd tree x).
  { apply Hsame. apply elem_of_app. right. apply elem_of_cons. by left. }
  apply subtree_node; rewrite ?Hnx; [done|done| |].
  - apply IHl. intros y Hy. apply Hsame. apply elem_of_app. by left.
  - apply IHr. intros y Hy. apply Hsame. apply elem_of_app. right.
    apply elem_of_cons. by right.
Qed.

(** A subtree hung below another parent. *)
Lemma subtree_reparent (tree tree' : gmap Z CompNode) (x p p' : Z)
    (lx : list Z) :
  subtree tree x p lx -> NoDup lx ->
  (forall y, y ∈ lx -> y <> x -> nd tree' y = nd tree y) ->
  (x <> UNUSED ->
   nd tree' x
   = mkCompNode p' (cn_LeftChild (nd tree x)) (cn_RightChild (nd tree x))) ->
  subtree tree' x p' lx.
Proof.
  intros Hs Hdup Hsame Hx.
  destruct Hs as [p|x p l r Hx0 Hp Hl Hr]; [constructor|].
  apply NoDup_app in Hdup as (_ & Hlx & Hdr).
  apply NoDup_cons in Hdr as (Hxr & _).
  specialize (Hx Hx0).
  apply subtree_node; rewrite ?Hx; cbn; [done|done| |].
  - apply (subtree_same tree); [done|]. intros y Hy. apply Hsame.
    + apply elem_of_app. by left.
    + intros ->. apply (Hlx x Hy). apply elem_of_cons. by left.
  - apply (subtree_same tree); [done|]. intros y Hy. apply Hsame.
    + apply elem_of_app. right. apply elem_of_cons. by right.
    + intros ->. done.
Qed.

Lemma filter_out_absent (node : Z) (l : list Z) :
  node ∉ l -> filter (fun y => y <> node) l = l.
Proof.
  induction l as [|a l IH]; intros Hn; [done|].
  rewrite filter_cons. apply not_elem_of_cons in Hn as [Ha Hl].
  rewrite decide_True by done. by rewrite IH.
Qed.

Lemma filter_out_middle (node : Z) (l r : list Z) :
  node ∉ l -> node ∉ r ->
  filter (fun y => y <> node) (l ++ node :: r) = l ++ r.
Proof.
  intros Hl Hr. rewrite filter_app, filter_cons.
  rewrite decide_False by (intros H; by apply H).
  by rewrite !filter_out_absent.
Qed.

(** The tree above a subtree that is taken out and replaced: the walk of
    every subtree loses the node taken out, when the nodes outside keep
    their links, with [newNode] in the place of [node]. *)
Lemma subtree_graft (tree tree' : gmap Z CompNode) (l S : list Z)
    (node newNode P : Z) :
  node <> UNUSED ->
  subtree tree node P S ->
  subtree tree' newNode P (filter (fun y => y <> node) S) ->
  (forall y, y ∈ l -> y ∉ S ->
     nd tree' y
     = mkCompNode (cn_Parent (nd tree y))
         (renamed newNode node (cn_LeftChild (nd tree y)))
         (renamed newNode node (cn_RightChild (nd tree y)))) ->
  forall x p lx,
    subtree tree x p lx -> (forall y, y ∈ lx -> y ∈ l) ->
    x = node \/ x ∉ S ->
    subtree tree' (renamed newNode node x) p (filter (fun y => y <> node) lx).
Proof.
  intros Hn0 HS Hnew Hout x p lx Hs.
  assert (Hup : forall c y lc,
            subtree tree c y lc -> y ∉ S -> c = node \/ c ∉ S).
  { intros c y lc Hc Hy. destruct (decide (c = node)) as [|Hcn]; [by left|].
    right. intros Hin.
    destruct (CompressFacts.subtree_locate _ _ _ _ HS c Hin)
      as (_ & _ & _ & _ & _ & _ & _ & [[? _]|[Hp _]]); [done|].
    assert (Hc0 : c <> UNUSED)
      by (by apply (CompressFacts.subtree_nonzero _ _ _ _ HS)).
    destruct (CompressFacts.subtree_root_in _ _ _ _ Hc Hc0) as [_ Hpc].
    by rewrite Hpc in Hp. }
  induction Hs as [p|x p ll lr Hx Hp Hl IHl Hr IHr]; intros Hsub Hx_S.
  - unfold renamed. rewrite decide_False by (intros H; by rewrite <- H in Hn0).
    constructor.
  - unfold renamed at 1. destruct (decide (x = node)) as [->|Hxn].
    + assert (Hall : subtree tree node p (ll ++ node :: lr))
        by (by apply subtree_node).
      rewrite <- (CompressFacts.subtree_functional _ _ _ _ HS _ _ Hall).
      destruct (CompressFacts.subtree_root_in _ _ _ _ HS Hn0) as [_ HP].
      by rewrite <- Hp, HP.
    + destruct Hx_S as [|HxS]; [done|].
      assert (Hxl : x ∈ l).
      { apply Hsub. apply elem_of_app. right. apply elem_of_cons. by left. }
      rewrite filter_app, filter_cons, decide_True by done.
      pose proof (Hout x Hxl HxS) as Hnx.
      apply subtree_node; rewrite ?Hnx; cbn; [done|done| |].
      * apply IHl; [|by apply (Hup _ x ll)].
        intros y Hy. apply Hsub. apply elem_of_app. by left.
      * apply IHr; [|by apply (Hup _ x lr)].
        intros y Hy. apply Hsub. apply elem_of_app. right.
        apply elem_of_cons. by right.
Qed.

Lemma graft_tree_nodes (tree tree' : gmap Z CompNode) (l S : list Z)
    (node newNode P : Z) :
  tree_nodes tree l -> node ∈ l ->
  subtree tree node P S -> (forall y, y ∈ S -> y ∈ l) ->
  subtree tree' newNode P (filter (fun y => y <> node) S) ->
  (forall y, y ∈ l \/ y = TREE_ROOT -> y ∉ S ->
     nd tree' y
     = mkCompNode (cn_Parent (nd tree y))
         (renamed newNode node (cn_LeftChild (nd tree y)))
         (renamed newNode node (cn_RightChild (nd tree y)))) ->
  tree_nodes tree' (filter (fun y => y <> node) l).
Proof.
  intros (Hs & Hdup & Hroot & Hleft) Hin HS HSl Hnew Hout.
  assert (Hn0 : node <> UNUSED)
    by (by apply (CompressFacts.subtree_nonzero _ _ _ _ Hs)).
  assert (HRS : TREE_ROOT ∉ S) by (intros H; by apply Hroot, HSl).
  pose proof (Hout TREE_ROOT (or_intror eq_refl) HRS) as HR.
  split; [|split; [by apply NoDup_filter|split]].
  - rewrite HR. cbn.
    apply (subtree_graft tree tree' l S node newNode P); try done.
    + intros y Hy HyS. apply Hout; [by left|done].
    + destruct (decide (cn_RightChild (nd tree TREE_ROOT) = node)) as [|Hne];
        [by left|right].
      intros HinS.
      destruct (CompressFacts.subtree_locate _ _ _ _ HS _ HinS)
        as (_ & _ & _ & _ & _ & _ & _ & [[? _]|[Hp _]]); [done|].
      assert (Hc0 : cn_RightChild (nd tree TREE_ROOT) <> UNUSED)
        by (by apply (CompressFacts.subtree_nonzero _ _ _ _ HS)).
      destruct (CompressFacts.subtree_root_in _ _ _ _ Hs Hc0) as [_ Hpc].
      by rewrite Hpc in Hp.
  - intros H. apply list_elem_of_filter in H as [_ H]. done.
  - rewrite HR. cbn. rewrite Hleft. unfold renamed.
    by rewrite decide_False by (intros H; by rewrite <- H in Hn0).
Qed.

Lemma subtree_unused_empty (tree : gmap Z CompNode) (p : Z) (l : list Z) :
  subtree tree UNUSED p l -> l = [].
Proof. inversion 1; [done|congruence]. Qed.

(** The neighbourhood of a node of a well-formed tree. *)
Lemma around (tree : gmap Z CompNode) (l : list Z) (node : Z) :
  tree_nodes tree l -> node ∈ l ->
  let P := cn_Parent (nd tree node) in
  exists ll lr,
    subtree tree (cn_LeftChild (nd tree node)) node ll
    /\ subtree tree (cn_RightChild (nd tree node)) node lr
    /\ subtree tree node P (ll ++ node :: lr)
    /\ NoDup (ll ++ node :: lr)
    /\ (forall z, z ∈ ll ++ node :: lr -> z ∈ l)
    /\ node <> UNUSED /\ P <> UNUSED /\ node <> TREE_ROOT
    /\ (P ∉ ll ++ node :: lr)
    /\ (P ∈ l \/ P = TREE_ROOT)
    /\ ((cn_LeftChild (nd tree P) = node /\ cn_RightChild (nd tree P) <> node)
        \/ (cn_LeftChild (nd tree P) <> node
            /\ cn_RightChild (nd tree P) = node))
    /\ (forall y, y ∈ l \/ y = TREE_ROOT -> y <> P ->
          cn_LeftChild (nd tree y) <> node
          /\ cn_RightChild (nd tree y) <> node).
Proof.
  intros Ht Hin P.
  pose proof Ht as (Hs & Hdup & Hroot & Hleft).
  assert (Hall0 : forall y, y ∈ l -> y <> UNUSED)
    by (intros y; eapply CompressFacts.subtree_nonzero; eauto).
  assert (Hn0 : node <> UNUSED) by auto.
  assert (HnR : node <> TREE_ROOT) by (intros ->; done).
  destruct (CompressFacts.tree_nodes_apart _ _ _ Ht Hin)
    as (ll & lr & Hsl & Hsr & Hap & Hll & Hlr).
  exists ll, lr.
  assert (Hsub : subtree tree node P (ll ++ node :: lr))
    by (by apply subtree_node).
  assert (HSl : forall z, z ∈ ll ++ node :: lr -> z ∈ l).
  { intros z Hz. apply elem_of_app in Hz as [Hz|Hz]; [by apply Hll|].
    apply elem_of_cons in Hz as [->|Hz]; [done|by apply Hlr]. }
  assert (Hnin : node ∈ ll ++ node :: lr).
  { apply elem_of_app. right. apply elem_of_cons. by left. }
  assert (Hkids : forall y, y ∈ l \/ y = TREE_ROOT ->
            (cn_LeftChild (nd tree y) = node \/ cn_RightChild (nd tree y) = node) ->
            y = P).
  { intros y [Hy| ->] Hk.
    - destruct (CompressFacts.tree_nodes_child _ _ _ Ht Hy) as (HL & HR).
      destruct Hk as [Hk|Hk]; rewrite Hk in *.
      + by destruct (HL Hn0) as [_ <-].
      + by destruct (HR Hn0) as [_ <-].
    - destruct Hk as [Hk|Hk]; [rewrite Hleft in Hk; by rewrite <- Hk in Hn0|].
      rewrite Hk in Hs.
      by destruct (CompressFacts.subtree_root_in _ _ _ _ Hs Hn0) as [_ <-]. }
  split; [done|]. split; [done|]. split; [done|]. split; [done|].
  split; [done|]. split; [done|].
  destruct (CompressFacts.tree_nodes_parent _ _ _ Ht Hin)
    as [[Hp Hrc]|[Hpin Hlink]]; [fold P in Hp|fold P in Hpin, Hlink].
  - assert (HP0 : P <> UNUSED) by (rewrite Hp; discriminate).
    split; [done|]. split; [done|].
    split; [rewrite Hp; intros H; by apply Hroot, HSl|].
    split; [by right|].
    split.
    + right. rewrite Hp. split; [|done]. rewrite Hleft. intros H.
      by rewrite <- H in Hn0.
    + intros y Hy HyP. split; intros Hk; apply HyP, Hkids; auto.
  - assert (HP0 : P <> UNUSED) by auto.
    split; [done|]. split; [done|].
    destruct (CompressFacts.tree_nodes_apart _ _ _ Ht Hpin)
      as (llp & lrp & Hslp & Hsrp & Happ & _ & _).
    apply NoDup_app in Happ as (_ & Hlxp & Hrxp).
    apply NoDup_cons in Hrxp as (Hpr & _).
    assert (Hpl : P ∉ llp).
    { intros Hc. apply (Hlxp _ Hc). apply elem_of_cons. by left. }
    assert (Hone : (cn_LeftChild (nd tree P) = node
                    /\ cn_RightChild (nd tree P) <> node)
                   \/ (cn_LeftChild (nd tree P) <> node
                       /\ cn_RightChild (nd tree P) = node)).
    { destruct (decide (cn_LeftChild (nd tree P) = node)) as [HL|HL].
      - left. split; [done|]. intros HR. rewrite HL in Hslp. rewrite HR in Hsrp.
        destruct (CompressFacts.subtree_root_in _ _ _ _ Hslp Hn0) as [H1 _].
        destruct (CompressFacts.subtree_root_in _ _ _ _ Hsrp Hn0) as [H2 _].
        apply (Hlxp node H1). apply elem_of_cons. by right.
      - right. split; [done|]. by destruct Hlink. }
    split.
    + destruct Hone as [[HL _]|[_ HR]].
      * rewrite HL in Hslp.
        by rewrite (CompressFacts.subtree_functional _ _ _ _ Hsub _ _ Hslp).
      * rewrite HR in Hsrp.
        by rewrite (CompressFacts.subtree_functional _ _ _ _ Hsub _ _ Hsrp).
    + split; [by left|]. split; [done|].
      intros y Hy HyP. split; intros Hk; apply HyP, Hkids; auto.
Qed.

(** The last writes of [DeleteString]: the link of the parent, and the
    parent link of the node. *)
Lemma relink_fields (tree : gmap Z CompNode) (node P newNode y : Z) :
  node <> P ->
  nd (set_Parent
        (if cn_LeftChild (nd tree P) =? node
         then set_LeftChild tree P newNode
         else set_RightChild tree P newNode) node UNUSED) y
  = if decide (y = node)
    then mkCompNode UNUSED (cn_LeftChild (nd tree node))
           (cn_RightChild (nd tree node))
    else if decide (y = P)
         then (if cn_LeftChild (nd tree P) =? node
               then mkCompNode (cn_Parent (nd tree P)) newNode
                      (cn_RightChild (nd tree P))
               else mkCompNode (cn_Parent (nd tree P))
                      (cn_LeftChild (nd tree P)) newNode)
         else nd tree y.
Proof.
  intros HnP. rewrite CompressFacts.nd_set_Parent.
  destruct (cn_LeftChild (nd tree P) =? node);
    rewrite ?CompressFacts.nd_set_LeftChild, ?CompressFacts.nd_set_RightChild;
    repeat case_decide; subst; try done.
Qed.

(** The end of [DeleteString]: when the writes before the last two have
    put the subtree that takes the place of [node] together, below
    [newNode], and have changed nothing outside the subtree of [node], the
    tree that is left is the tree without [node]. *)
Lemma relink_tree_nodes (tree t1 : gmap Z CompNode) (l ll lr : list Z)
    (node newNode : Z) :
  let P := cn_Parent (nd tree node) in
  tree_nodes tree l -> node ∈ l ->
  subtree tree node P (ll ++ node :: lr) ->
  NoDup (ll ++ node :: lr) ->
  (forall z, z ∈ ll ++ node :: lr -> z ∈ l) ->
  (P ∉ ll ++ node :: lr) ->
  (P ∈ l \/ P = TREE_ROOT) ->
  ((cn_LeftChild (nd tree P) = node /\ cn_RightChild (nd tree P) <> node)
   \/ (cn_LeftChild (nd tree P) <> node /\ cn_RightChild (nd tree P) = node)) ->
  (forall y, y ∈ l \/ y = TREE_ROOT -> y <> P ->
     cn_LeftChild (nd tree y) <> node /\ cn_RightChild (nd tree y) <> node) ->
  (forall y, y ∈ l \/ y = TREE_ROOT -> y ∉ ll ++ node :: lr ->
     nd t1 y = nd tree y) ->
  subtree t1 newNode P (ll ++ lr) ->
  let tree' :=
    set_Parent
      (if cn_LeftChild (nd t1 P) =? node
       then set_LeftChild t1 P newNode
       else set_RightChild t1 P newNode) node UNUSED in
  tree_nodes tree' (filter (fun y => y <> node) l)
  /\ cn_Parent (nd tree' node) = UNUSED.
Proof.
  intros P Ht Hin HS Hdup HSl HPS HPl Hone Hkids Hout Hnew tree'.
  assert (Hnin : node ∈ ll ++ node :: lr).
  { apply elem_of_app. right. apply elem_of_cons. by left. }
  assert (HnP : node <> P) by (intros H; apply HPS; by rewrite <- H).
  assert (Hfield : forall y, nd tree' y = _)
    by (intros y; apply (relink_fields t1 node P newNode y HnP)).
  assert (HP1 : nd t1 P = nd tree P) by (by apply Hout).
  apply NoDup_app in Hdup as (_ & Hlx & Hdr).
  apply NoDup_cons in Hdr as (Hnr & _).
  assert (Hnl : node ∉ ll).
  { intros H. apply (Hlx node H). apply elem_of_cons. by left. }
  split.
  - apply (graft_tree_nodes tree tree' l (ll ++ node :: lr) node newNode P);
      try done.
    + rewrite filter_out_middle by done.
      apply (subtree_same t1); [done|]. intros y Hy. rewrite Hfield.
      rewrite decide_False, decide_False; [done| |].
      * intros ->. apply HPS. apply elem_of_app in Hy as [Hy|Hy];
          apply elem_of_app; [by left|right]. apply elem_of_cons. by right.
      * intros ->. apply elem_of_app in Hy as [Hy|Hy]; done.
    + intros y Hy HyS. rewrite Hfield.
      rewrite decide_False by (intros ->; done).
      unfold renamed. destruct (decide (y = P)) as [->|HyP].
      * rewrite HP1.
        destruct Hone as [[HL HR]|[HL HR]].
        -- rewrite HL, Z.eqb_refl, decide_True, decide_False by done. done.
        -- destruct (Z.eqb_spec (cn_LeftChild (nd tree P)) node); [done|].
           rewrite decide_False, decide_True by done. done.
      * rewrite (Hout y Hy HyS).
        destruct (Hkids y Hy HyP) as [HL HR].
        rewrite !decide_False by done. by destruct (nd tree y).
  - rewrite Hfield. by rewrite decide_True.
Qed.

Lemma subtree_split (tree : gmap Z CompNode) (x p : Z) (lx : list Z) :
  subtree tree x p lx -> x <> UNUSED ->
  exists l r,
    lx = l ++ x :: r
    /\ cn_Parent (nd tree x) = p
    /\ subtree tree (cn_LeftChild (nd tree x)) x l
    /\ subtree tree (cn_RightChild (nd tree x)) x r.
Proof. destruct 1 as [|x p l r]; [done|]. intros _. by exists l, r. Qed.

(** The chain of right children below the right child of [x] ends within
    the fuel, at the last node [m] of the walk of [x]; when [m] has no left
    child, clearing the right link of its parent takes exactly [m] out. *)
Lemma rightmost_detach (tree : gmap Z CompNode) (x p : Z) (lx : list Z) :
  subtree tree x p lx ->
  NoDup lx -> x <> UNUSED -> cn_RightChild (nd tree x) <> UNUSED ->
  forall fuel, (length lx <= fuel)%nat ->
    exists m l0 lm,
      rightmost fuel tree (cn_RightChild (nd tree x)) = Some m
      /\ lx = l0 ++ lm ++ [m]
      /\ x ∈ l0
      /\ subtree tree (cn_LeftChild (nd tree m)) m lm
      /\ cn_RightChild (nd tree m) = UNUSED
      /\ m <> UNUSED
      /\ cn_Parent (nd tree m) ∈ l0
      /\ (lm = [] ->
          subtree (set_RightChild tree (cn_Parent (nd tree m)) UNUSED) x p l0).
Proof.
  induction 1 as [p|x p l r Hx Hp Hl _ Hr IHr]; intros Hdup Hx0 Hc fuel Hfuel;
    [done|].
  set (c := cn_RightChild (nd tree x)) in *.
  rewrite length_app in Hfuel. cbn [length] in Hfuel.
  pose proof Hdup as Hdup'.
  apply NoDup_app in Hdup' as (Hdl & Hlx & Hdr).
  apply NoDup_cons in Hdr as (Hxr & Hdr).
  assert (Hxl : x ∉ l).
  { intros H. apply (Hlx x H). apply elem_of_cons. by left. }
  destruct fuel as [|fuel]; [lia|].
  cbn [rightmost].
  destruct (subtree_split _ _ _ _ Hr Hc) as (lc & rc & Hrr & Hpc & Hlc & Hrc).
  assert (Hc0 : c <> UNUSED) by done.
  destruct (Z.eqb_spec (cn_RightChild (nd tree c)) UNUSED) as [E|E].
  - rewrite E in Hrc. apply subtree_unused_empty in Hrc as ->.
    exists c, (l ++ [x]), lc.
    split; [done|]. split; [by rewrite Hrr, <- !app_assoc|].
    split; [apply elem_of_app; right; apply elem_of_cons; by left|].
    split; [done|]. split; [done|]. split; [done|].
    rewrite Hpc.
    split; [apply elem_of_app; right; apply elem_of_cons; by left|].
    intros _.
    assert (Hnx : nd (set_RightChild tree x UNUSED) x
                  = mkCompNode p (cn_LeftChild (nd tree x)) UNUSED).
    { rewrite CompressFacts.nd_set_RightChild, decide_True by done.
      by rewrite Hp. }
    apply subtree_node; rewrite ?Hnx; cbn; [done|done| |constructor].
    apply (subtree_same tree); [done|]. intros y Hy.
    rewrite CompressFacts.nd_set_RightChild.
    by rewrite decide_False by (intros <-; done).
  - destruct (IHr Hdr Hc0 E fuel ltac:(lia))
      as (m & l0 & lm & Hm & Hrl & Hcin & Hlm & HmR & Hm0 & Hq & Hdet).
    exists m, (l ++ x :: l0), lm.
    split; [done|]. split; [by rewrite Hrl, <- app_assoc|].
    split; [apply elem_of_app; right; apply elem_of_cons; by left|].
    split; [done|]. split; [done|]. split; [done|].
    assert (Hqr : cn_Parent (nd tree m) ∈ r).
    { rewrite Hrl. apply elem_of_app. by left. }
    split; [apply elem_of_app; right; apply elem_of_cons; by right|].
    intros Hlm0. specialize (Hdet Hlm0).
    set (q := cn_Parent (nd tree m)) in *.
    assert (Hxq : x <> q) by (intros ->; done).
    assert (Hnx : nd (set_RightChild tree q UNUSED) x = nd tree x).
    { rewrite CompressFacts.nd_set_RightChild.
      by rewrite decide_False by (intros H; by apply Hxq). }
    apply subtree_node; rewrite ?Hnx; [done|done| |done].
    apply (subtree_same tree); [done|]. intros y Hy.
    rewrite CompressFacts.nd_set_RightChild.
    rewrite decide_False; [done|]. intros <-.
    apply (Hlx q Hy). apply elem_of_cons. by right.
Qed.

(** The last branch of [DeleteString], as the goal it leaves in the proof
    below: the node has two children, and the left one has a right child. *)
Lemma DeleteString_deep (tree : gmap Z CompNode) (l ll lr : list Z)
    (node : Z) :
  let P := cn_Parent (nd tree node) in
  let L := cn_LeftChild (nd tree node) in
  let R := cn_RightChild (nd tree node) in
  tree_nodes tree l -> node ∈ l -> (length l < tree_fuel)%nat ->
  L = UNUSED \/ R = UNUSED \/ cn_RightChild (nd tree L) = UNUSED
  \/ (exists m,
        rightmost tree_fuel tree (cn_RightChild (nd tree L)) = Some m
        /\ cn_LeftChild (nd tree m) = UNUSED) ->
  subtree tree L node ll -> subtree tree R node lr ->
  subtree tree node P (ll ++ node :: lr) ->
  NoDup (ll ++ node :: lr) ->
  (forall z, z ∈ ll ++ node :: lr -> z ∈ l) ->
  (P ∉ ll ++ node :: lr) ->
  (P ∈ l \/ P = TREE_ROOT) ->
  ((cn_LeftChild (nd tree P) = node /\ cn_RightChild (nd tree P) <> node)
   \/ (cn_LeftChild (nd tree P) <> node /\ cn_RightChild (nd tree P) = node)) ->
  (forall y, y ∈ l \/ y = TREE_ROOT -> y <> P ->
     cn_LeftChild (nd tree y) <> node /\ cn_RightChild (nd tree y) <> node) ->
  L <> UNUSED -> R <> UNUSED -> cn_RightChild (nd tree L) <> UNUSED ->
  exists tree',
    match rightmost tree_fuel tree (cn_RightChild (nd tree L)) with
    | Some newNode =>
        let tree0 :=
          set_RightChild tree (cn_Parent (nd tree newNode)) UNUSED in
        let tree1 := set_Parent tree0 newNode (cn_Parent (nd tree0 node)) in
        let tree2 := set_LeftChild tree1 newNode (cn_LeftChild (nd tree1 node)) in
        let tree3 :=
          set_RightChild tree2 newNode (cn_RightChild (nd tree2 node)) in
        let tree4 :=
          set_Parent tree3 (cn_LeftChild (nd tree3 newNode)) newNode in
        let tree5 :=
          set_Parent tree4 (cn_RightChild (nd tree4 newNode)) newNode in
        Some
          (set_Parent
             (if cn_LeftChild (nd tree5 P) =? node
              then set_LeftChild tree5 P newNode
              else set_RightChild tree5 P newNode) node UNUSED)
    | None => None
    end = Some tree'
    /\ tree_nodes tree' (filter (fun y => y <> node) l)
    /\ cn_Parent (nd tree' node) = UNUSED.
Proof.
  intros P L R Ht Hin Hlen Hcase Hsl Hsr HS Hdup HSl HPS HPl Hone Hkids HL HR
    HLR.
  assert (Hall0 : forall y, y ∈ l \/ y = TREE_ROOT -> y <> UNUSED).
  { intros y [Hy| ->]; [|discriminate].
    destruct Ht as (Hs & _).
    by apply (CompressFacts.subtree_nonzero _ _ _ _ Hs). }
  pose proof Hdup as Hdup'.
  apply NoDup_app in Hdup' as (Hdl & Hlx & Hdr).
  apply NoDup_cons in Hdr as (Hnr & Hdr).
  assert (Hnl : node ∉ ll).
  { intros H. apply (Hlx node H). apply elem_of_cons. by left. }
  assert (HRin : R ∈ lr)
    by (by apply (CompressFacts.subtree_root_in _ _ _ _ Hsr)).
  assert (Hinl : forall y, y ∈ ll -> y ∈ ll ++ node :: lr)
    by (intros y Hy; apply elem_of_app; by left).
  assert (Hinr : forall y, y ∈ lr -> y ∈ ll ++ node :: lr).
  { intros y Hy. apply elem_of_app. right. apply elem_of_cons. by right. }
  assert (Hlr : forall y, y ∈ ll -> y ∈ lr -> False).
  { intros y Hy Hy'. apply (Hlx y Hy). apply elem_of_cons. by right. }
  assert (Hlen_ll : (length ll <= tree_fuel)%nat).
  { assert (Hsub : ll ⊆+ l).
    { apply NoDup_submseteq; [done|]. intros y Hy. by apply HSl, Hinl. }
    apply submseteq_length in Hsub. lia. }
  destruct (rightmost_detach tree L node ll Hsl Hdl HL HLR tree_fuel Hlen_ll)
    as (m & l0 & lm & Hm & Hll & HLin & Hlm & HmR & Hm0 & Hq & Hdet).
  rewrite Hm.
  destruct Hcase as [?|[?|[?|(m' & Hm' & Hml)]]]; [done|done|done|].
  rewrite Hm in Hm'. injection Hm' as <-.
  rewrite Hml in Hlm. apply subtree_unused_empty in Hlm as ->.
  specialize (Hdet eq_refl). cbn [app] in Hll.
  set (q := cn_Parent (nd tree m)) in *.
  assert (Hmin : m ∈ ll).
  { rewrite Hll. apply elem_of_app. right. apply elem_of_cons. by left. }
  assert (Hl0 : forall y, y ∈ l0 -> y ∈ ll).
  { intros y Hy. rewrite Hll. apply elem_of_app. by left. }
  rewrite Hll in Hdl. apply NoDup_app in Hdl as (Hdl0 & Hl0m & _).
  assert (Hm0' : forall y, y ∈ l0 -> y <> m).
  { intros y Hy ->. apply (Hl0m m Hy). apply elem_of_cons. by left. }
  assert (HmL : m <> L) by (intros H; by apply (Hm0' L)).
  assert (Hmq : m <> q) by (intros H; by apply (Hm0' q)).
  assert (Hmn : m <> node) by (intros ->; done).
  assert (HmRne : m <> R) by (intros ->; by apply (Hlr R)).
  assert (HLRne : L <> R) by (intros H; apply (Hlr L); [auto|by rewrite H]).
  assert (HqR : q <> R) by (intros H; apply (Hlr q); [auto|by rewrite H]).
  assert (HLn : L <> node) by (intros H; apply Hnl; rewrite <- H; auto).
  assert (Hqn : q <> node) by (intros H; apply Hnl; rewrite <- H; auto).
  assert (HRn : R <> node) by (intros H; apply Hnr; by rewrite <- H).
  cbv zeta.
  set (t0 := set_RightChild tree q UNUSED) in *.
  assert (H0n : nd t0 node = nd tree node).
  { unfold t0. rewrite CompressFacts.nd_set_RightChild.
    by rewrite decide_False by done. }
  rewrite H0n. fold P.
  set (t1 := set_Parent t0 m P).
  assert (H1n : nd t1 node = nd tree node).
  { unfold t1. rewrite CompressFacts.nd_set_Parent.
    by rewrite decide_False by done. }
  rewrite H1n. fold L.
  set (t2 := set_LeftChild t1 m L).
  assert (H2n : nd t2 node = nd tree node).
  { unfold t2. rewrite CompressFacts.nd_set_LeftChild.
    by rewrite decide_False by done. }
  rewrite H2n. fold R.
  set (t3 := set_RightChild t2 m R).
  assert (H3m : nd t3 m = mkCompNode P L R).
  { unfold t3, t2, t1.
    rewrite CompressFacts.nd_set_RightChild, decide_True by done.
    rewrite !CompressFacts.nd_set_LeftChild, !decide_True by done. cbn.
    rewrite !CompressFacts.nd_set_Parent, !decide_True by done. done. }
  rewrite H3m. cbn [cn_LeftChild].
  set (t4 := set_Parent t3 L m).
  assert (H4m : nd t4 m = mkCompNode P L R).
  { unfold t4. rewrite CompressFacts.nd_set_Parent.
    by rewrite decide_False by done. }
  rewrite H4m. cbn [cn_RightChild].
  set (t5 := set_Parent t4 R m).
  assert (H5 : forall y,
            nd t5 y
            = if decide (y = R)
              then mkCompNode m (cn_LeftChild (nd tree R))
                     (cn_RightChild (nd tree R))
              else if decide (y = L)
                   then mkCompNode m (cn_LeftChild (nd t0 L))
                          (cn_RightChild (nd t0 L))
                   else if decide (y = m) then mkCompNode P L R
                        else nd t0 y).
  { intros y. unfold t5.
    rewrite CompressFacts.nd_set_Parent.
    destruct (decide (y = R)) as [->|HyR].
    - rewrite decide_True by done. unfold t4.
      rewrite CompressFacts.nd_set_Parent, decide_False by done.
      unfold t3. rewrite CompressFacts.nd_set_RightChild, decide_False by done.
      unfold t2. rewrite CompressFacts.nd_set_LeftChild, decide_False by done.
      unfold t1. rewrite CompressFacts.nd_set_Parent, decide_False by done.
      unfold t0. rewrite CompressFacts.nd_set_RightChild.
      by rewrite decide_False by done.
    - rewrite decide_False by (intros H; by apply HyR).
      unfold t4. rewrite CompressFacts.nd_set_Parent.
      destruct (decide (y = L)) as [->|HyL].
      + rewrite decide_True by done.
        unfold t3. rewrite CompressFacts.nd_set_RightChild, decide_False by done.
        unfold t2. rewrite CompressFacts.nd_set_LeftChild, decide_False by done.
        unfold t1. rewrite CompressFacts.nd_set_Parent.
        by rewrite decide_False by done.
      + rewrite decide_False by (intros H; by apply HyL).
        destruct (decide (y = m)) as [->|Hym]; [done|].
        unfold t3. rewrite CompressFacts.nd_set_RightChild.
        rewrite decide_False by (intros H; by apply Hym).
        unfold t2. rewrite CompressFacts.nd_set_LeftChild.
        rewrite decide_False by (intros H; by apply Hym).
        unfold t1. rewrite CompressFacts.nd_set_Parent.
        by rewrite decide_False by (intros H; by apply Hym). }
  assert (H0 : forall y, y <> q -> nd t0 y = nd tree y).
  { intros y Hy. unfold t0. rewrite CompressFacts.nd_set_RightChild.
    by rewrite decide_False by (intros H; by apply Hy). }
  eexists. split; [reflexivity|].
  apply (relink_tree_nodes tree t5 l ll lr node m); try done.
  - intros y Hy HyS. rewrite H5.
    rewrite !decide_False; [apply H0| | |].
    + intros ->. by apply HyS, Hinl, Hl0.
    + intros ->. by apply HyS, Hinl.
    + intros ->. by apply HyS, Hinl, Hl0.
    + intros ->. by apply HyS, Hinr.
  - rewrite Hll, <- app_assoc. cbn [app].
    apply subtree_node; rewrite ?H5, ?decide_False, ?decide_True by done;
      cbn; [done|done| |].
    + apply (subtree_reparent t0 _ L node m l0 Hdet Hdl0).
      * intros y Hy HyL. rewrite H5.
        rewrite !decide_False; [done| |done|].
        -- by apply Hm0'.
        -- intros ->. by apply (Hlr R); [apply Hl0|].
      * intros _. rewrite H5. by rewrite decide_False, decide_True by done.
    + apply (subtree_reparent tree _ R node m lr Hsr Hdr).
      * intros y Hy HyR. rewrite H5.
        rewrite !decide_False; [apply H0| | |done].
        -- intros ->. by apply (Hlr q); [apply Hl0|].
        -- intros ->. by apply (Hlr m).
        -- intros ->. by apply (Hlr L); [apply Hl0|].
      * intros _. rewrite H5. by rewrite decide_True.
Qed.

Lemma DeleteString_unlinks (tree : gmap Z CompNode) (l : list Z) (node : Z) :
  tree_nodes tree l -> node ∈ l -> (length l < tree_fuel)%nat ->
  cn_LeftChild (nd tree node) = UNUSED
  \/ cn_RightChild (nd tree node) = UNUSED
  \/ cn_RightChild (nd tree (cn_LeftChild (nd tree node))) = UNUSED
  \/ (exists m,
        rightmost tree_fuel tree
          (cn_RightChild (nd tree (cn_LeftChild (nd tree node)))) = Some m
        /\ cn_LeftChild (nd tree m) = UNUSED) ->
  exists tree',
    DeleteString tree node = Some tree'
    /\ tree_nodes tree' (filter (fun y => y <> node) l)
    /\ cn_Parent (nd tree' node) = UNUSED.
Proof.
  intros Ht Hin Hlen Hcase.
  destruct (around tree l node Ht Hin)
    as (ll & lr & Hsl & Hsr & HS & Hdup & HSl & Hn0 & HP0 & HnR & HPS & HPl
        & Hone & Hkids).
  set (P := cn_Parent (nd tree node)) in *.
  set (L := cn_LeftChild (nd tree node)) in *.
  set (R := cn_RightChild (nd tree node)) in *.
  assert (Hall0 : forall y, y ∈ l \/ y = TREE_ROOT -> y <> UNUSED).
  { intros y [Hy| ->]; [|discriminate].
    destruct Ht as (Hs & _).
    by apply (CompressFacts.subtree_nonzero _ _ _ _ Hs). }
  pose proof Hdup as Hdup'.
  apply NoDup_app in Hdup' as (Hdl & Hlx & Hdr).
  apply NoDup_cons in Hdr as (Hnr & Hdr).
  assert (Hnl : node ∉ ll).
  { intros H. apply (Hlx node H). apply elem_of_cons. by left. }
  assert (HLin : L <> UNUSED -> L ∈ ll)
    by (intros H; by apply (CompressFacts.subtree_root_in _ _ _ _ Hsl)).
  assert (HRin : R <> UNUSED -> R ∈ lr)
    by (intros H; by apply (CompressFacts.subtree_root_in _ _ _ _ Hsr)).
  assert (Hinl : forall y, y ∈ ll -> y ∈ ll ++ node :: lr)
    by (intros y Hy; apply elem_of_app; by left).
  assert (Hinr : forall y, y ∈ lr -> y ∈ ll ++ node :: lr).
  { intros y Hy. apply elem_of_app. right. apply elem_of_cons. by right. }
  assert (Hlr : forall y, y ∈ ll -> y ∈ lr -> False).
  { intros y Hy Hy'. apply (Hlx y Hy). apply elem_of_cons. by right. }
  unfold DeleteString. fold P L R.
  destruct (Z.eqb_spec P UNUSED) as [|_]; [done|]. cbv zeta.
  destruct (Z.eqb_spec L UNUSED) as [HL|HL].
  { (* no left child *)
    eexists. split; [reflexivity|].
    rewrite HL in Hsl. apply subtree_unused_empty in Hsl as ->.
    apply (relink_tree_nodes tree _ l [] lr node R); try done.
    - intros y Hy HyS. rewrite CompressFacts.nd_set_Parent.
      rewrite decide_False; [done|]. intros <-.
      destruct (decide (R = UNUSED)) as [E|E]; [by apply (Hall0 R)|].
      by apply HyS, Hinr, HRin.
    - cbn [app].
      apply (subtree_reparent tree _ R node P lr Hsr Hdr).
      + intros y Hy HyR. rewrite CompressFacts.nd_set_Parent.
        by rewrite decide_False by done.
      + intros _. rewrite CompressFacts.nd_set_Parent.
        by rewrite decide_True. }
  destruct (Z.eqb_spec R UNUSED) as [HR|HR].
  { (* no right child *)
    eexists. split; [reflexivity|].
    rewrite HR in Hsr. apply subtree_unused_empty in Hsr as ->.
    apply (relink_tree_nodes tree _ l ll [] node L); try done.
    - intros y Hy HyS. rewrite CompressFacts.nd_set_Parent.
      rewrite decide_False; [done|]. intros <-.
      by apply HyS, Hinl, HLin.
    - rewrite app_nil_r.
      apply (subtree_reparent tree _ L node P ll Hsl Hdl).
      + intros y Hy HyL. rewrite CompressFacts.nd_set_Parent.
        by rewrite decide_False by done.
      + intros _. rewrite CompressFacts.nd_set_Parent.
        by rewrite decide_True. }
  assert (HLn : L <> node) by (intros H; apply Hnl; rewrite <- H; auto).
  assert (HLRne : L <> R) by (intros H; apply (Hlr L); [auto|rewrite H; auto]).
  assert (HRn : R <> node) by (intros H; apply Hnr; rewrite <- H; auto).
  destruct (Z.eqb_spec (cn_RightChild (nd tree L)) UNUSED) as [HLR|HLR];
    [|by apply (DeleteString_deep tree l ll lr node)].
  (* the left child takes the place *)
  eexists. split; [reflexivity|].
  set (t1 := set_Parent tree L P).
  assert (HR1 : cn_RightChild (nd t1 node) = R).
  { unfold t1. rewrite CompressFacts.nd_set_Parent.
    by rewrite decide_False by done. }
  rewrite HR1.
  set (t2 := set_RightChild t1 L R).
  assert (HR2 : cn_RightChild (nd t2 L) = R).
  { unfold t2. rewrite CompressFacts.nd_set_RightChild.
    by rewrite decide_True. }
  rewrite HR2.
  set (t3 := set_Parent t2 R L).
  assert (H3 : forall y,
            nd t3 y
            = if decide (y = R)
              then mkCompNode L (cn_LeftChild (nd tree R))
                     (cn_RightChild (nd tree R))
              else if decide (y = L)
                   then mkCompNode P (cn_LeftChild (nd tree L)) R
                   else nd tree y).
  { intros y. unfold t3, t2, t1.
    rewrite !CompressFacts.nd_set_Parent, !CompressFacts.nd_set_RightChild,
      !CompressFacts.nd_set_Parent.
    repeat case_decide; subst; try done; cbn;
      rewrite ?CompressFacts.nd_set_Parent; repeat case_decide; subst;
      try done. }
  inversion Hsl as [|x p l1 r1 _ _ Hl1 Hr1 Hx Hp Hll]; [by subst|]. subst x p.
  fold L in Hl1, Hr1. rewrite HLR in Hr1.
  apply subtree_unused_empty in Hr1 as ->.
  apply (relink_tree_nodes tree t3 l ll lr node L); try done.
  - intros y Hy HyS. rewrite H3.
    rewrite decide_False, decide_False; [done| |].
    + intros ->. by apply HyS, Hinl, HLin.
    + intros ->. by apply HyS, Hinr, HRin.
  - rewrite <- Hll, <- app_assoc. cbn [app].
    rewrite <- Hll in Hdl. apply NoDup_app in Hdl as (_ & Hl1x & _).
    apply subtree_node; rewrite ?H3, ?decide_False, ?decide_True by done;
      cbn; [done|done| |].
    + apply (subtree_same tree); [done|]. intros y Hy. rewrite H3.
      rewrite decide_False, decide_False; [done| |].
      * intros ->. apply (Hl1x L Hy). apply elem_of_cons. by left.
      * intros ->. apply (Hlr R); [|auto]. rewrite <- Hll.
        apply elem_of_app. by left.
    + apply (subtree_reparent tree _ R node L lr Hsr Hdr).
      * intros y Hy HyR. rewrite H3.
        rewrite decide_False, decide_False; [done| |done].
        intros ->. apply (Hlr L); auto.
      * intros _. rewrite H3. by rewrite decide_True.
Qed.

(** X22: what [DeleteString] removes.  In a well-formed tree of at most
    4096 nodes, for a node of the tree that has at most one child, or whose
    left child has no right child, or for which the last node of the chain
    of right children below the left child has itself no left child,
    [DeleteString] returns a well-formed tree whose nodes, in order, are
    those of the tree before without the node, and the parent link of the
    node is cleared. *)
Theorem DeleteString_removes (tree : gmap Z CompNode) (l : list Z) (node : Z) :
  tree_nodes tree l -> node ∈ l -> (length l <= 4096)%nat ->
  cn_LeftChild (nd tree node) = UNUSED
  \/ cn_RightChild (nd tree node) = UNUSED
  \/ cn_RightChild (nd tree (cn_LeftChild (nd tree node))) = UNUSED
  \/ (exists m,
        rightmost tree_fuel tree
          (cn_RightChild (nd tree (cn_LeftChild (nd tree node)))) = Some m
        /\ cn_LeftChild (nd tree m) = UNUSED) ->
  exists tree',
    DeleteString tree node = Some tree'
    /\ tree_nodes tree' (filter (fun y => y <> node) l)
    /\ cn_Parent (nd tree' node) = UNUSED.
Proof.
  intros Ht Hin Hlen Hcase. apply DeleteString_unlinks; try done.
  unfold tree_fuel. rewrite CompressFacts.WINDOW_SIZE_eq. lia.
Qed.

Lemma DeleteString_removes_witness :
  exists tree',
    DeleteString pred_tree 40 = Some tree'
    /\ tree_nodes tree' (filter (fun y => y <> 40) [20; 30; 40; 50; 80])
    /\ cn_Parent (nd tree' 40) = UNUSED.
Proof.
  apply (DeleteString_removes pred_tree [20; 30; 40; 50; 80] 40).
  - by apply (CompressFacts.inorder_tree_nodes 5).
  - apply list_elem_of_In. cbn. auto.
  - cbn. lia.
  - right. left. reflexivity.
Defined.

End DeleteFacts.

(** * The round trip of short inputs *)

(** ** The tree while no position is deleted *)

Module LinksFacts.
Import Compress CompressSpec TokenSpec.

Lemma MOD_WINDOW_small (x : Z) : 0 <= x < WINDOW_SIZE -> MOD_WINDOW x = x.
Proof.
  rewrite CompressFacts.WINDOW_SIZE_eq. intros H. unfold MOD_WINDOW.
  rewrite CompressFacts.WINDOW_SIZE_eq. change (4096 - 1) with (Z.ones 12).
  rewrite Z.land_ones by lia. apply Z.mod_small. lia.
Qed.

Lemma child_ok_mono (c c' x : Z) : c <= c' -> child_ok c x -> child_ok c' x.
Proof. unfold child_ok. lia. Qed.

Lemma links_ok_mono (tree : gmap Z CompNode) (c c' : Z) :
  c <= c' -> links_ok tree c -> links_ok tree c'.
Proof.
  intros Hc (Ha & Hb & Hp). split; [|split; [exact Hb|]].
  - intros i. destruct (Ha i). split; by eapply child_ok_mono.
  - intros i Hi. apply Hp. lia.
Qed.

Lemma children_ok_set_Parent (tree : gmap Z CompNode) (c j v : Z) :
  children_ok tree c -> children_ok (set_Parent tree j v) c.
Proof.
  intros H i. rewrite CompressFacts.nd_set_Parent.
  case_decide; [subst; cbn|]; apply H.
Qed.

Lemma children_ok_set_LeftChild (tree : gmap Z CompNode) (c j v : Z) :
  children_ok tree c -> child_ok c v -> children_ok (set_LeftChild tree j v) c.
Proof.
  intros H Hv i. rewrite CompressFacts.nd_set_LeftChild.
  case_decide; [subst; cbn; split; [exact Hv|apply H]|apply H].
Qed.

Lemma children_ok_set_RightChild (tree : gmap Z CompNode) (c j v : Z) :
  children_ok tree c -> child_ok c v -> children_ok (set_RightChild tree j v) c.
Proof.
  intros H Hv i. rewrite CompressFacts.nd_set_RightChild.
  case_decide; [subst; cbn; split; [apply H|exact Hv]|apply H].
Qed.

Lemma children_ok_insert (tree : gmap Z CompNode) (c j : Z) (n : CompNode) :
  children_ok tree c -> child_ok c (cn_LeftChild n) ->
  child_ok c (cn_RightChild n) -> children_ok (<[j := n]> tree) c.
Proof.
  intros H Hl Hr i. rewrite CompressFacts.nd_insert.
  case_decide; [by split|apply H].
Qed.

Lemma no_parent_set_Parent (tree : gmap Z CompNode) (c j v : Z) :
  no_parent_from tree c -> j < c \/ TREE_ROOT <= j ->
  no_parent_from (set_Parent tree j v) c.
Proof.
  intros H Hj i Hi. rewrite CompressFacts.nd_set_Parent.
  case_decide; [lia|by apply H].
Qed.

Lemma no_parent_set_LeftChild (tree : gmap Z CompNode) (c j v : Z) :
  no_parent_from tree c -> no_parent_from (set_LeftChild tree j v) c.
Proof.
  intros H i Hi. rewrite CompressFacts.nd_set_LeftChild.
  case_decide; [subst; cbn|]; by apply H.
Qed.

Lemma no_parent_set_RightChild (tree : gmap Z CompNode) (c j v : Z) :
  no_parent_from tree c -> no_parent_from (set_RightChild tree j v) c.
Proof.
  intros H i Hi. rewrite CompressFacts.nd_set_RightChild.
  case_decide; [subst; cbn|]; by apply H.
Qed.

Lemma no_parent_insert (tree : gmap Z CompNode) (c j : Z) (n : CompNode) :
  no_parent_from tree c -> j < c \/ TREE_ROOT <= j ->
  no_parent_from (<[j := n]> tree) c.
Proof.
  intros H Hj i Hi. rewrite CompressFacts.nd_insert.
  case_decide; [lia|by apply H].
Qed.

Lemma no_parent_mono (tree : gmap Z CompNode) (c c' : Z) :
  c <= c' -> no_parent_from tree c -> no_parent_from tree c'.
Proof. intros Hc H i Hi. apply H. lia. Qed.

Lemma children_ok_mono (tree : gmap Z CompNode) (c c' : Z) :
  c <= c' -> children_ok tree c -> children_ok tree c'.
Proof.
  intros Hc H i. destruct (H i). split; by eapply child_ok_mono.
Qed.

Lemma rooted_set_Parent (tree : gmap Z CompNode) (j v : Z) :
  rooted tree -> rooted (set_Parent tree j v).
Proof.
  unfold rooted. rewrite CompressFacts.nd_set_Parent.
  by case_decide; [subst; cbn|].
Qed.

Lemma rooted_set_LeftChild (tree : gmap Z CompNode) (j v : Z) :
  rooted tree -> rooted (set_LeftChild tree j v).
Proof.
  unfold rooted. rewrite CompressFacts.nd_set_LeftChild.
  by case_decide; [subst; cbn|].
Qed.

Lemma rooted_set_RightChild (tree : gmap Z CompNode) (j v : Z) :
  rooted tree -> j <> TREE_ROOT \/ v <> UNUSED ->
  rooted (set_RightChild tree j v).
Proof.
  unfold rooted. rewrite CompressFacts.nd_set_RightChild.
  intros H Hj. case_decide; [subst; cbn; tauto|done].
Qed.

Lemma rooted_insert (tree : gmap Z CompNode) (j : Z) (n : CompNode) :
  rooted tree -> j <> TREE_ROOT -> rooted (<[j := n]> tree).
Proof.
  unfold rooted. rewrite CompressFacts.nd_insert. intros H Hj.
  by case_decide.
Qed.

Lemma links_ok_parts (tree : gmap Z CompNode) (c : Z) :
  links_ok tree c <-> children_ok tree c /\ rooted tree /\ no_parent_from tree c.
Proof. reflexivity. Qed.

Lemma attach_right_links (tree : gmap Z CompNode) (c testNode : Z) :
  links_ok tree c -> 1 <= c < TREE_ROOT -> 1 <= testNode < c ->
  links_ok (attach_right tree c testNode) (c + 1).
Proof.
  rewrite !links_ok_parts. intros (Hc & Hr & Hp) Hcr Ht. unfold attach_right.
  assert (Hc' : children_ok tree (c + 1)) by (eapply children_ok_mono; [|done]; lia).
  assert (Hp' : no_parent_from tree (c + 1)) by (eapply no_parent_mono; [|done]; lia).
  split; [|split].
  - apply children_ok_set_RightChild; [|by left].
    apply children_ok_set_LeftChild; [|by left].
    apply children_ok_set_Parent.
    apply children_ok_set_RightChild; [done|]. right. lia.
  - apply rooted_set_RightChild; [|left; lia].
    apply rooted_set_LeftChild, rooted_set_Parent.
    apply rooted_set_RightChild; [done|left; lia].
  - apply no_parent_set_RightChild, no_parent_set_LeftChild.
    apply no_parent_set_Parent; [|lia]. by apply no_parent_set_RightChild.
Qed.

Lemma attach_left_links (tree : gmap Z CompNode) (c testNode : Z) :
  links_ok tree c -> 1 <= c < TREE_ROOT -> 1 <= testNode < c ->
  links_ok (attach_left tree c testNode) (c + 1).
Proof.
  rewrite !links_ok_parts. intros (Hc & Hr & Hp) Hcr Ht. unfold attach_left.
  assert (Hc' : children_ok tree (c + 1)) by (eapply children_ok_mono; [|done]; lia).
  assert (Hp' : no_parent_from tree (c + 1)) by (eapply no_parent_mono; [|done]; lia).
  split; [|split].
  - apply children_ok_set_RightChild; [|by left].
    apply children_ok_set_LeftChild; [|by left].
    apply children_ok_set_Parent.
    apply children_ok_set_LeftChild; [done|]. right. lia.
  - apply rooted_set_RightChild; [|left; lia].
    apply rooted_set_LeftChild, rooted_set_Parent.
    by apply rooted_set_LeftChild.
  - apply no_parent_set_RightChild, no_parent_set_LeftChild.
    apply no_parent_set_Parent; [|lia]. by apply no_parent_set_LeftChild.
Qed.

Lemma replace_node_links (tree : gmap Z CompNode) (c testNode : Z) :
  links_ok tree c -> 1 <= c < TREE_ROOT -> 1 <= testNode < c ->
  links_ok (replace_node tree c testNode) (c + 1).
Proof.
  rewrite !links_ok_parts. intros (Hc & Hr & Hp) Hcr Ht. unfold replace_node.
  assert (Hc' : children_ok tree (c + 1)) by (eapply children_ok_mono; [|done]; lia).
  assert (Hp' : no_parent_from tree (c + 1)) by (eapply no_parent_mono; [|done]; lia).
  set (parentNode := cn_Parent (nd tree testNode)).
  set (tree1 := if cn_LeftChild (nd tree parentNode) =? testNode
                then set_LeftChild tree parentNode c
                else set_RightChild tree parentNode c).
  assert (H1 : children_ok tree1 (c + 1) /\ rooted tree1
               /\ no_parent_from tree1 (c + 1)).
  { unfold tree1. destruct (_ =? testNode).
    - split; [apply children_ok_set_LeftChild; [done|right; lia]|].
      split; [by apply rooted_set_LeftChild|by apply no_parent_set_LeftChild].
    - split; [apply children_ok_set_RightChild; [done|right; lia]|].
      split; [apply rooted_set_RightChild; [done|right; unfold UNUSED; lia]|].
      by apply no_parent_set_RightChild. }
  destruct H1 as (Hc1 & Hr1 & Hp1).
  set (tree2 := <[c := nd tree1 testNode]> tree1).
  assert (Hc2 : children_ok tree2 (c + 1))
    by (apply children_ok_insert; [done|apply Hc1|apply Hc1]).
  assert (Hr2 : rooted tree2) by (apply rooted_insert; [done|lia]).
  assert (Hp2 : no_parent_from tree2 (c + 1))
    by (apply no_parent_insert; [done|lia]).
  assert (Hl : child_ok (c + 1) (cn_LeftChild (nd tree2 c))) by apply Hc2.
  assert (Hrc : child_ok (c + 1) (cn_RightChild (nd tree2 c))) by apply Hc2.
  set (tree3 := set_Parent tree2 (cn_LeftChild (nd tree2 c)) c).
  assert (Hrc3 : child_ok (c + 1) (cn_RightChild (nd tree3 c)))
    by apply children_ok_set_Parent, Hc2.
  split; [|split].
  - by repeat apply children_ok_set_Parent.
  - by repeat apply rooted_set_Parent.
  - apply no_parent_set_Parent; [|lia].
    apply no_parent_set_Parent; [|destruct Hrc3; unfold UNUSED in *; lia].
    apply no_parent_set_Parent; [done|destruct Hl; unfold UNUSED in *; lia].
Qed.

(** The descent of [AddString] for the position [c]: it meets positions
    below [c] only, and leaves the links in order for [c + 1]. *)
Lemma AddString_loop_links (fuel : nat) (window : gmap Z Z) (c : Z)
    (tree : gmap Z CompNode) :
  links_ok tree c -> 1 <= c < TREE_ROOT ->
  forall (testNode matchLen matchPos : Z) (tree' : gmap Z CompNode)
         (len pos : Z),
    1 <= testNode < c ->
    matchLen <= 0 \/ 1 <= matchPos < c ->
    AddString_loop fuel tree window c testNode matchLen matchPos
    = Some (tree', len, pos) ->
    links_ok tree' (c + 1) /\ 1 <= pos < c.
Proof.
  intros Hl Hc.
  induction fuel as [|fuel IH]; intros testNode matchLen matchPos tree' len pos
    Ht Hm Hadd; [discriminate Hadd|].
  rewrite CompressFacts.AddString_loop_unfold in Hadd.
  pose proof (MatchFacts.compare_phrase_prefix window c testNode
                (Z.to_nat LOOK_AHEAD_SIZE) 0) as Hcp.
  cbv zeta in Hcp.
  destruct (compare_phrase window c testNode 0 (Z.to_nat LOOK_AHEAD_SIZE))
    as [i delta].
  cbn [fst snd] in Hcp. destruct Hcp as (Hi & _).
  cbv zeta in Hadd.
  assert (Hpos : 1 <= (if i >=? matchLen then testNode else matchPos) < c).
  { destruct (Z.geb_spec i matchLen); [done|]. lia. }
  assert (Hnext : matchLen <= 0 \/ True) by (by right).
  destruct ((i >=? matchLen) && _).
  { injection Hadd as <- _ <-. split; [by apply replace_node_links|done]. }
  pose proof Hl as (Hch & _ & _).
  destruct (delta >=? 0).
  - destruct (Z.eqb_spec (cn_RightChild (nd tree testNode)) UNUSED) as [E|E].
    + injection Hadd as <- _ <-. split; [by apply attach_right_links|done].
    + apply IH in Hadd; [done| |by right].
      destruct (Hch testNode) as [_ [H|H]]; [done|exact H].
  - destruct (Z.eqb_spec (cn_LeftChild (nd tree testNode)) UNUSED) as [E|E].
    + injection Hadd as <- _ <-. split; [by apply attach_left_links|done].
    + apply IH in Hadd; [done| |by right].
      destruct (Hch testNode) as [[H|H] _]; [done|exact H].
Qed.

Lemma AddString_links (tree : gmap Z CompNode) (window : gmap Z Z)
    (c matchPos : Z) (tree' : gmap Z CompNode) (len pos : Z) :
  links_ok tree c -> 1 <= c -> c + LOOK_AHEAD_SIZE <= WINDOW_SIZE ->
  AddString tree window c matchPos = Some (tree', len, pos) ->
  links_ok tree' (c + 1)
  /\ 1 <= pos < c
  /\ 0 <= len <= LOOK_AHEAD_SIZE
  /\ forall k, 0 <= k < len -> rd window (pos + k) = rd window (c + k).
Proof.
  intros Hl Hc Hw Hadd.
  rewrite CompressFacts.LOOK_AHEAD_SIZE_eq, CompressFacts.WINDOW_SIZE_eq in Hw.
  destruct (MatchFacts.AddString_result _ _ _ _ _ _ _ Hadd) as (Hlen & Hpre & _).
  unfold AddString in Hadd.
  destruct (Z.eqb_spec c END_OF_STREAM) as [E|_]; [unfold END_OF_STREAM in E; lia|].
  pose proof Hl as (Hch & Hroot & _).
  apply (AddString_loop_links _ _ _ _ Hl) in Hadd.
  - destruct Hadd as (Hl' & Hpos). split; [done|]. split; [done|].
    split; [done|]. intros k Hk. specialize (Hpre k Hk).
    rewrite CompressFacts.LOOK_AHEAD_SIZE_eq in Hlen.
    rewrite !MOD_WINDOW_small in Hpre
      by (rewrite CompressFacts.WINDOW_SIZE_eq; lia).
    done.
  - rewrite CompressFacts.TREE_ROOT_eq. lia.
  - destruct (Hch TREE_ROOT) as [_ [H|H]]; [done|exact H].
  - left. lia.
Qed.

(** [DeleteString] finds nothing to delete at a position that was not
    inserted. *)
Lemma DeleteString_links (tree : gmap Z CompNode) (c node : Z) :
  links_ok tree c -> c <= node < TREE_ROOT -> DeleteString tree node = Some tree.
Proof.
  intros (_ & _ & Hp) Hn. unfold DeleteString. by rewrite (Hp node Hn).
Qed.

Lemma initial_tree_links : links_ok initial_tree 2.
Proof.
  unfold initial_tree. rewrite links_ok_parts. split; [|split].
  - apply children_ok_set_Parent. apply children_ok_set_RightChild.
    + intros i. rewrite CompressFacts.nd_empty. split; by left.
    + right. lia.
  - apply rooted_set_Parent. unfold rooted.
    rewrite CompressFacts.nd_set_RightChild. by rewrite decide_True.
  - apply no_parent_set_Parent; [|lia]. apply no_parent_set_RightChild.
    intros i _. by rewrite CompressFacts.nd_empty.
Qed.

End LinksFacts.


(** ** The tokens the encoder writes *)

Module EncoderTokens.
Import Compress CompressSpec BitSpec TokenSpec.

Lemma tokens_len_app (ts1 ts2 : list token) :
  tokens_len (ts1 ++ ts2) = tokens_len ts1 + tokens_len ts2.
Proof.
  induction ts1 as [|t ts1 IH]; [done|]. cbn [app tokens_len fold_right] in *.
  fold (tokens_len (ts1 ++ ts2)). fold (tokens_len ts1). lia.
Qed.

Lemma token_len_pos (window : gmap Z Z) (limit q : Z) (t : token) :
  token_ok window limit q t -> 1 <= token_len t.
Proof. destruct t; cbn; unfold BREAK_EVEN; lia. Qed.

Lemma tokens_len_nonneg (window : gmap Z Z) (limit : Z) (ts : list token) :
  forall q, tokens_ok window limit q ts -> 0 <= tokens_len ts.
Proof.
  induction ts as [|t ts IH]; intros q; [cbn; lia|].
  cbn [tokens_ok tokens_len fold_right]. fold (tokens_len ts).
  intros (Ht & Hts). apply token_len_pos in Ht. apply IH in Hts. lia.
Qed.

Lemma tokens_ok_app (window : gmap Z Z) (limit : Z) (ts1 ts2 : list token) :
  forall q,
    tokens_ok window limit q (ts1 ++ ts2)
    <-> tokens_ok window limit q ts1
        /\ tokens_ok window limit (q + tokens_len ts1) ts2.
Proof.
  induction ts1 as [|t ts1 IH]; intros q.
  - cbn. rewrite Z.add_0_r. tauto.
  - cbn [app tokens_ok tokens_len fold_right]. fold (tokens_len ts1).
    rewrite IH. replace (q + (token_len t + tokens_len ts1))
      with (q + token_len t + tokens_len ts1) by lia. tauto.
Qed.

Lemma tokens_ok_mono (window : gmap Z Z) (limit limit' : Z) (ts : list token) :
  limit <= limit' ->
  forall q, tokens_ok window limit q ts -> tokens_ok window limit' q ts.
Proof.
  intros Hl. induction ts as [|t ts IH]; intros q; [done|].
  cbn [tokens_ok]. intros (Ht & Hts). split; [|by apply IH].
  destruct t as [c|pos len]; [done|].
  destruct Ht as (H1 & H2 & H3 & H4). repeat split; try done; lia.
Qed.

(** The tokens stand for bytes that a later write does not touch. *)
Lemma tokens_ok_change (window window' : gmap Z Z) (limit p : Z)
    (ts : list token) :
  (forall i, i < p -> rd window' i = rd window i) ->
  forall q,
    tokens_ok window limit q ts -> q + tokens_len ts <= p ->
    tokens_ok window' limit q ts.
Proof.
  intros Hw. induction ts as [|t ts IH]; intros q; [done|].
  cbn [tokens_ok tokens_len fold_right]. fold (tokens_len ts).
  intros (Ht & Hts) Hq.
  pose proof (token_len_pos _ _ _ _ Ht) as Hl.
  pose proof (tokens_len_nonneg _ _ _ _ Hts) as Hn.
  split; [|apply IH; [done|lia]].
  destruct t as [c|pos len]; cbn [token_ok token_len] in *.
  - rewrite Hw by lia. done.
  - destruct Ht as (H1 & H2 & H3 & H4).
    split; [done|]. split; [done|]. split; [done|].
    intros k Hk. rewrite !Hw by lia. by apply H4.
Qed.

Lemma write_all_app (host_le : bool) (fs1 fs2 : list (Z * Z * Z)) :
  forall bs,
    write_all host_le bs (fs1 ++ fs2)
    = write_all host_le (write_all host_le bs fs1) fs2.
Proof.
  induction fs1 as [|[[h c] n] fs1 IH]; intros bs; [done|].
  cbn [app write_all]. apply IH.
Qed.

Lemma write_all_snoc (host_le : bool) (ts : list token) (t : token)
    (bs : CompressBitStream) :
  bs = write_all host_le (InitBitStream []) (map token_field ts) ->
  WriteBits host_le bs (token_field t).1.1 (token_field t).1.2 (token_field t).2
  = write_all host_le (InitBitStream []) (map token_field (ts ++ [t])).
Proof.
  intros ->. rewrite map_app, write_all_app. cbn [map write_all].
  by destruct (token_field t) as [[h c] n].
Qed.

(** The head of the body of [while(true)] writes one token, which stands
    for the bytes from [currentPos] on. *)
Lemma emit_token_tokens (host_le : bool) (f : frame) (ts : list token)
    (limit : Z) :
  at_test host_le f ts limit -> f_replaceCnt f = 0 -> 0 <= f_lookAhead f ->
  exists t,
    at_test host_le (emit_token host_le f) (ts ++ [t]) limit
    /\ 1 <= f_replaceCnt (emit_token host_le f)
    /\ f_replaceCnt (emit_token host_le f) <= f_lookAhead f + 1
    /\ f_lookAhead (emit_token host_le f) = f_lookAhead f
    /\ f_currentPos (emit_token host_le f) = f_currentPos f
    /\ f_window (emit_token host_le f) = f_window f.
Proof.
  intros ((Hbs & Htok & Hwin & Hlinks & Hc & Hla0 & Hla & Hlim) & Hcov & Hrc & Hm)
    Hrc0 Hla1.
  unfold emit_token.
  set (ml := if f_matchLen f >? f_lookAhead f then f_lookAhead f
             else f_matchLen f).
  assert (Hml : ml <= f_lookAhead f /\ ml <= f_matchLen f)
    by (unfold ml; destruct (Z.gtb_spec (f_matchLen f) (f_lookAhead f)); lia).
  rewrite CompressFacts.LOOK_AHEAD_SIZE_eq in *.
  unfold BREAK_EVEN in *.
  destruct (Z.leb_spec ml 2) as [Hle|Hgt].
  - exists (Lit (rd (f_window f) (f_currentPos f))).
    split; [|cbn; repeat split; lia]. split; [|split; [|split]].
    + split; [|split; [|done]].
      * cbn [f_bs]. by rewrite <- (write_all_snoc host_le ts (Lit _) _ Hbs).
      * cbn [f_window]. apply tokens_ok_app. split; [done|].
        cbn. split; [|done]. f_equal. lia.
    + rewrite tokens_len_app. cbn. lia.
    + cbn. rewrite CompressFacts.LOOK_AHEAD_SIZE_eq. lia.
    + intros _. cbn. rewrite CompressFacts.LOOK_AHEAD_SIZE_eq.
      unfold BREAK_EVEN. split; [lia|]. lia.
  - assert (Hla3 : f_lookAhead f <> 0) by lia.
    destruct (Hm Hla3) as (Hm18 & Hmatch).
    rewrite CompressFacts.LOOK_AHEAD_SIZE_eq in Hm18.
    destruct (Hmatch ltac:(unfold BREAK_EVEN; lia)) as (Hpos & Hpre).
    rewrite CompressFacts.WINDOW_SIZE_eq in Hlim.
    assert (Hu : u32 ml = ml) by (apply WordFacts.u32_small; lia).
    assert (Htemp : Z.lor (shl32 (f_matchPos f) LENGTH_BIT_COUNT)
                      (u32 (ml - (2 + 1)))
                    = f_matchPos f * 16 + (ml - (2 + 1))).
    { unfold LENGTH_BIT_COUNT.
      rewrite BitArith.shl32_small by lia.
      rewrite WordFacts.u32_small by lia.
      change (2 ^ 4) with 16. change 16 with (2 ^ 4) at 1.
      apply WordFacts.lor_mul_pow2; lia. }
    exists (Ref (f_matchPos f) ml).
    split; [|cbn; repeat split; lia]. split; [|split; [|split]].
    + split; [|split; [|done]].
      * cbn [f_bs]. rewrite Htemp.
        by rewrite <- (write_all_snoc host_le ts (Ref _ _) _ Hbs).
      * cbn [f_window]. apply tokens_ok_app. split; [done|].
        cbn [tokens_ok token_ok]. split; [|done].
        replace (1 + tokens_len ts) with (f_currentPos f) by lia.
        rewrite CompressFacts.LOOK_AHEAD_SIZE_eq. unfold BREAK_EVEN.
        repeat split; try lia. intros k Hk. apply Hpre. lia.
    + rewrite tokens_len_app. cbn. lia.
    + cbn. rewrite CompressFacts.LOOK_AHEAD_SIZE_eq. lia.
    + intros _. cbn [f_matchLen f_matchPos f_currentPos f_window].
      rewrite CompressFacts.LOOK_AHEAD_SIZE_eq. split; [lia|].
      intros _. split; [done|]. intros k Hk. apply Hpre. lia.
Qed.

(** [DeleteString] finds nothing to delete ahead of the look-ahead
    buffer. *)
Lemma delete_ahead_tokens (host_le : bool) (f : frame) (ts : list token)
    (limit : Z) :
  at_test host_le f ts limit -> 1 <= f_replaceCnt f ->
  exists f',
    delete_ahead f = Some f'
    /\ at_newData host_le f' ts limit
    /\ f_lookAhead f' = f_lookAhead f
    /\ f_replaceCnt f' = f_replaceCnt f - 1
    /\ f_window f' = f_window f.
Proof.
  intros ((Hbs & Htok & Hwin & Hlinks & Hc & Hla0 & Hla & Hlim) & Hcov & Hrc & Hm)
    Hrc1.
  unfold delete_ahead.
  rewrite CompressFacts.LOOK_AHEAD_SIZE_eq, CompressFacts.WINDOW_SIZE_eq in *.
  rewrite LinksFacts.MOD_WINDOW_small
    by (rewrite CompressFacts.WINDOW_SIZE_eq; lia).
  rewrite (LinksFacts.DeleteString_links _ _ _ Hlinks)
    by (rewrite CompressFacts.TREE_ROOT_eq; lia).
  eexists. split; [reflexivity|].
  rewrite WordFacts.u32_small by lia.
  split; [|done]. split; [|cbn; rewrite CompressFacts.LOOK_AHEAD_SIZE_eq; lia].
  unfold tokens_written. cbn.
  rewrite CompressFacts.WINDOW_SIZE_eq. done.
Qed.

(** The advance of [currentPos] and the search that follows it. *)
Lemma advance_tokens (host_le : bool) (f f' : frame) (ts : list token)
    (limit limit' : Z) (window : gmap Z Z) (lookAhead : Z) :
  at_newData host_le f ts limit ->
  window_ok window ->
  (forall i, i < f_currentPos f + f_replaceCnt f + 1 ->
     rd window i = rd (f_window f) i) ->
  -1 <= lookAhead -> f_currentPos f + 1 + lookAhead <= limit' ->
  limit <= limit' -> limit' + 20 <= WINDOW_SIZE ->
  advance f window lookAhead = Some f' ->
  at_test host_le f' ts limit'
  /\ f_lookAhead f' = lookAhead
  /\ f_window f' = window
  /\ f_currentPos f' = f_currentPos f + 1
  /\ f_replaceCnt f' = f_replaceCnt f.
Proof.
  intros ((Hbs & Htok & Hwin & Hlinks & Hc & Hla0 & Hla & Hlim) & Hcov & Hrc)
    Hwok Hsame Hl1 Hl2 Hl3 Hl4.
  unfold advance.
  rewrite CompressFacts.LOOK_AHEAD_SIZE_eq, CompressFacts.WINDOW_SIZE_eq in *.
  rewrite LinksFacts.MOD_WINDOW_small
    by (rewrite CompressFacts.WINDOW_SIZE_eq; lia).
  assert (Htok' : tokens_ok window limit' 1 ts).
  { apply (tokens_ok_change (f_window f) window limit'
             (f_currentPos f + f_replaceCnt f + 1)); [done| |lia].
    by apply (tokens_ok_mono _ limit). }
  destruct (Z.eqb_spec lookAhead 0) as [E|E].
  - intros [= <-]. unfold at_test, tokens_written, match_ok. frame_simpl.
    rewrite CompressFacts.LOOK_AHEAD_SIZE_eq, CompressFacts.WINDOW_SIZE_eq.
    split; [|done]. split; [|split; [lia|split; [lia|done]]].
    split; [done|]. split; [done|]. split; [done|].
    split; [|lia]. eapply LinksFacts.links_ok_mono; [|done]. lia.
  - destruct (AddString _ _ _ _) as [[[tree matchLen] matchPos]|] eqn:Hadd;
      [|done].
    intros [= <-]. unfold at_test, tokens_written, match_ok. frame_simpl.
    apply LinksFacts.AddString_links in Hadd;
      [|done|lia
       |rewrite CompressFacts.LOOK_AHEAD_SIZE_eq, CompressFacts.WINDOW_SIZE_eq;
        lia].
    destruct Hadd as (Hlinks' & Hpos & Hlen & Hpre).
    rewrite CompressFacts.LOOK_AHEAD_SIZE_eq, CompressFacts.WINDOW_SIZE_eq in *.
    split; [|done]. split; [|split; [lia|split; [lia|]]].
    + split; [done|]. split; [done|]. split; [done|]. split; [done|lia].
    + intros _. split; [lia|]. intros _. split; [done|].
      intros k Hk. by apply Hpre.
Qed.

Lemma word_bytes_range (host_le : bool) (w : Z) :
  Forall (fun b => 0 <= b < 256) (word_bytes host_le w).
Proof.
  unfold word_bytes. rewrite !WordFacts.land_255.
  destruct host_le; repeat constructor;
    try (apply Z.mod_pos_bound; lia).
Qed.

Lemma words_bytes_range (host_le : bool) (ws : list Z) :
  Forall (fun b => 0 <= b < 256) (words_bytes host_le ws).
Proof.
  unfold words_bytes. induction ws as [|w ws IH]; [constructor|].
  cbn [map concat]. apply Forall_app. split; [apply word_bytes_range|exact IH].
Qed.

Lemma window_ok_insert (window : gmap Z Z) (p b : Z) :
  window_ok window -> 0 <= b < 256 -> window_ok (<[p := b]> window).
Proof.
  intros Hw Hb i. rewrite CompressFacts.rd_insert. case_decide; [done|apply Hw].
Qed.

Lemma window_holds_snoc (window : gmap Z Z) (bytes : list Z) (b : Z) :
  window_holds window bytes ->
  window_holds (<[1 + Z.of_nat (length bytes) := b]> window) (bytes ++ [b]).
Proof.
  intros Hw j Hj. rewrite length_app in Hj. cbn [length] in Hj.
  rewrite CompressFacts.rd_insert.
  destruct (decide (j = length bytes)) as [->|Hne].
  - rewrite decide_True by done. rewrite app_nth2 by lia.
    by rewrite Nat.sub_diag.
  - rewrite decide_False by lia. rewrite app_nth1 by lia. apply Hw. lia.
Qed.

(** From the label [newData]: the next byte goes behind the look-ahead
    buffer. *)
Lemma feed_newData_tokens (host_le : bool) (f f' : frame) (ts : list token)
    (bytes : list Z) (b : Z) :
  feeding_at_newData host_le f ts bytes -> 0 <= b < 256 ->
  Z.of_nat (length bytes) + 23 <= WINDOW_SIZE ->
  feed_newData f b = Some f' ->
  feeding_at_test host_le f' ts (bytes ++ [b]).
Proof.
  intros (Hnew & Hla & Hc & Hholds) Hb Hlen Hfeed.
  pose proof Hnew as
    ((Hbs & Htok & Hwin & Hlinks & Hc1 & Hla0 & Hla1 & Hlim) & Hcov & Hrc).
  rewrite CompressFacts.LOOK_AHEAD_SIZE_eq, CompressFacts.WINDOW_SIZE_eq in *.
  unfold feed_newData in Hfeed.
  rewrite CompressFacts.LOOK_AHEAD_SIZE_eq in Hfeed.
  rewrite LinksFacts.MOD_WINDOW_small in Hfeed
    by (rewrite CompressFacts.WINDOW_SIZE_eq; lia).
  replace (f_currentPos f + 18) with (1 + Z.of_nat (length bytes)) in Hfeed
    by lia.
  eapply (advance_tokens host_le f f' ts _ (Z.of_nat (length bytes) + 2))
    in Hfeed; [|exact Hnew|by apply window_ok_insert| |lia|lia|lia
               |rewrite CompressFacts.WINDOW_SIZE_eq; lia].
  - destruct Hfeed as (Htest & Hla' & Hw' & Hc' & Hrc').
    unfold feeding_at_test. rewrite length_app. cbn [length].
    rewrite CompressFacts.LOOK_AHEAD_SIZE_eq.
    replace (Z.of_nat (length bytes + 1) + 1)
      with (Z.of_nat (length bytes) + 2) by lia.
    split; [done|]. split; [lia|]. split; [lia|].
    rewrite Hw'. by apply window_holds_snoc.
  - intros i Hi. rewrite CompressFacts.rd_insert. rewrite decide_False by lia.
    done.
Qed.

(** The loop of [FeedCompressor], from the test of [while(replaceCnt--)]
    until the data runs out. *)
Lemma feed_replace_tokens (host_le : bool) (src : list Z) :
  forall (f f' : frame) (ts : list token) (bytes : list Z),
    feeding_at_test host_le f ts bytes ->
    Forall (fun b => 0 <= b < 256) src ->
    Z.of_nat (length bytes) + Z.of_nat (length src) + 22 <= WINDOW_SIZE ->
    feed_replace host_le f src = Some f' ->
    exists ts', feeding_at_newData host_le f' ts' (bytes ++ src).
Proof.
  induction src as [|b src IH]; intros f f' ts bytes Htest Hsrc Hlen Hfeed.
  - rewrite CompressFacts.feed_replace_unfold in Hfeed. cbv zeta in Hfeed.
    rewrite app_nil_r.
    assert (Hbody : forall f1 ts1,
              feeding_at_test host_le f1 ts1 bytes -> 1 <= f_replaceCnt f1 ->
              match delete_ahead f1 with
              | Some f2 => Some f2
              | None => None
              end = Some f' ->
              exists ts', feeding_at_newData host_le f' ts' bytes).
    { intros f1 ts1 (Ht1 & Hla1 & Hc1 & Hh1) Hrc1 Hd.
      destruct (delete_ahead_tokens host_le f1 ts1 _ Ht1 Hrc1)
        as (f2 & Hd2 & Hn2 & Hla2 & Hrc2 & Hw2).
      rewrite Hd2 in Hd. injection Hd as <-. exists ts1.
      unfold delete_ahead in Hd2. destruct (DeleteString _ _); [|done].
      injection Hd2 as <-. frame_simpl. done. }
    destruct (Z.eqb_spec (f_replaceCnt f) 0) as [E|E].
    + destruct Htest as (Ht & Hla & Hc & Hh).
      destruct (emit_token_tokens host_le f ts _ Ht E)
        as (t & Ht1 & Hrc1 & _ & Hla1 & Hc1 & Hw1);
        [rewrite Hla, CompressFacts.LOOK_AHEAD_SIZE_eq; lia|].
      destruct (Z.eqb_spec (f_replaceCnt (emit_token host_le f)) 0); [lia|].
      apply (Hbody (emit_token host_le f) (ts ++ [t])); [|lia|done].
      unfold feeding_at_test. rewrite Hla1, Hc1, Hw1. done.
    + apply (Hbody f ts); [done| |done].
      destruct Htest as ((_ & _ & Hrc & _) & _). lia.
  - rewrite CompressFacts.feed_replace_unfold in Hfeed. cbv zeta in Hfeed.
    inversion Hsrc as [|? ? Hb Hsrc']; subst.
    cbn [length] in Hlen.
    assert (Hbody : forall f1 ts1,
              feeding_at_test host_le f1 ts1 bytes -> 1 <= f_replaceCnt f1 ->
              match delete_ahead f1 with
              | Some f2 =>
                  match feed_newData f2 b with
                  | Some f3 => feed_replace host_le f3 src
                  | None => None
                  end
              | None => None
              end = Some f' ->
              exists ts', feeding_at_newData host_le f' ts' (bytes ++ b :: src)).
    { intros f1 ts1 (Ht1 & Hla1 & Hc1 & Hh1) Hrc1 Hd.
      destruct (delete_ahead_tokens host_le f1 ts1 _ Ht1 Hrc1)
        as (f2 & Hd2 & Hn2 & Hla2 & Hrc2 & Hw2).
      rewrite Hd2 in Hd.
      assert (Hf2 : feeding_at_newData host_le f2 ts1 bytes).
      { unfold delete_ahead in Hd2. destruct (DeleteString _ _); [|done].
        injection Hd2 as <-. frame_simpl. done. }
      destruct (feed_newData f2 b) as [f3|] eqn:Hn3; [|done].
      apply (feed_newData_tokens host_le f2 f3 ts1 bytes b Hf2 Hb) in Hn3; [|lia].
      apply (IH _ _ _ _ Hn3 Hsrc') in Hd.
      - destruct Hd as (ts' & Hd). exists ts'.
        by rewrite <- app_assoc in Hd.
      - rewrite length_app. cbn [length]. lia. }
    destruct (Z.eqb_spec (f_replaceCnt f) 0) as [E|E].
    + destruct Htest as (Ht & Hla & Hc & Hh).
      destruct (emit_token_tokens host_le f ts _ Ht E)
        as (t & Ht1 & Hrc1 & _ & Hla1 & Hc1 & Hw1);
        [rewrite Hla, CompressFacts.LOOK_AHEAD_SIZE_eq; lia|].
      destruct (Z.eqb_spec (f_replaceCnt (emit_token host_le f)) 0); [lia|].
      apply (Hbody (emit_token host_le f) (ts ++ [t])); [|lia|done].
      unfold feeding_at_test. rewrite Hla1, Hc1, Hw1. done.
    + apply (Hbody f ts); [done| |done].
      destruct Htest as ((_ & _ & Hrc & _) & _). lia.
Qed.

End EncoderTokens.


(** ** A whole run of the encoder *)

Module EncoderRun.
Import Compress CompressSpec BitSpec TokenSpec EncoderTokens.

(** The loop that loads the look-ahead buffer puts the bytes at the
    positions from 1 on. *)
Lemma feed_fill_holds (src : list Z) :
  forall (window : gmap Z Z) (lookAhead : Z) (bytes : list Z)
         (window' : gmap Z Z) (lookAhead' : Z) (r : option (list Z)),
    lookAhead = 1 + Z.of_nat (length bytes) ->
    lookAhead <= LOOK_AHEAD_SIZE + 1 ->
    window_holds window bytes -> window_ok window ->
    Forall (fun b => 0 <= b < 256) src ->
    feed_fill window lookAhead src = (window', lookAhead', r) ->
    window_ok window'
    /\ match r with
       | None =>
           lookAhead' = lookAhead + Z.of_nat (length src)
           /\ lookAhead' <= LOOK_AHEAD_SIZE
           /\ window_holds window' (bytes ++ src)
       | Some rest =>
           lookAhead' = LOOK_AHEAD_SIZE + 1
           /\ exists pre,
                src = pre ++ rest
                /\ Z.of_nat (length bytes) + Z.of_nat (length pre)
                   = LOOK_AHEAD_SIZE
                /\ window_holds window' (bytes ++ pre)
       end.
Proof.
  induction src as [|b src IH];
    intros window lookAhead bytes window' lookAhead' r Hla Hle Hh Hok Hsrc H;
    rewrite CompressFacts.feed_fill_unfold in H;
    rewrite CompressFacts.LOOK_AHEAD_SIZE_eq in *;
    destruct (Z.leb_spec lookAhead 18) as [Hle18|Hgt].
  - injection H as <- <- <-. split; [done|]. cbn [length].
    rewrite app_nil_r. split; [lia|]. split; [lia|done].
  - injection H as <- <- <-. split; [done|]. split; [lia|].
    exists []. cbn [length app]. split; [done|].
    rewrite app_nil_r. split; [lia|done].
  - inversion Hsrc as [|? ? Hb Hsrc']; subst.
    apply (IH _ _ (bytes ++ [b])) in H;
      [|rewrite length_app; cbn [length]; lia|lia
       |by apply window_holds_snoc|by apply window_ok_insert|done].
    destruct H as (Hok' & H). split; [done|].
    destruct r as [rest|].
    + destruct H as (-> & pre & -> & Hlen & Hh').
      split; [done|]. exists (b :: pre). cbn [app length].
      rewrite length_app in Hlen. cbn [length] in Hlen.
      split; [done|]. split; [lia|]. by rewrite <- app_assoc in Hh'.
    + destruct H as (-> & Hle' & Hh'). cbn [length].
      rewrite <- app_assoc in Hh'. split; [lia|]. split; [lia|done].
  - injection H as <- <- <-. split; [done|]. split; [lia|].
    exists []. cbn [length app]. split; [done|].
    rewrite app_nil_r. split; [lia|done].
Qed.

(** One call of [FeedCompressor], on the bytes it reads. *)
Lemma feed_bytes_encoding (host_le : bool) (comp comp' : Compressor)
    (bytes src : list Z) (ts : list token) :
  encoding host_le comp bytes ts ->
  Forall (fun b => 0 <= b < 256) src ->
  Z.of_nat (length bytes) + Z.of_nat (length src) + 22 <= WINDOW_SIZE ->
  feed_bytes host_le comp src = Some comp' ->
  exists ts', encoding host_le comp' (bytes ++ src) ts'.
Proof.
  intros Henc Hsrc Hlen. unfold feed_bytes.
  destruct src as [|b src]; [intros [= <-]; exists ts; by rewrite app_nil_r|].
  cbv zeta.
  destruct Henc as [(Hsp & Hn & -> & Hla & Hc & Hrc & Hml & Hlinks & Hbs & Hh & Hok)
                   |(Hsp & Hnew)]; rewrite Hsp.
  - (* the look-ahead buffer is being loaded *)
    destruct (feed_fill _ _ _) as [[window lookAhead] [rest|]] eqn:Hfill.
    + apply (feed_fill_holds _ _ _ bytes) in Hfill;
        [|done|cbn [load_frame f_lookAhead]; lia|done|done|done].
      destruct Hfill as (Hok' & -> & pre & Hpre & Hlen' & Hh').
      set (f0 := mkFrame _ _ _ _ _ _ _ _).
      assert (H0 : feeding_at_test host_le f0 [] (bytes ++ pre)).
      { unfold feeding_at_test, at_test, tokens_written, match_ok, f0.
        unfold load_frame. frame_simpl.
        rewrite length_app, Hc, Hrc, Hml, Hbs.
        rewrite CompressFacts.LOOK_AHEAD_SIZE_eq, CompressFacts.WINDOW_SIZE_eq
          in *.
        unfold BREAK_EVEN. cbn [map write_all tokens_ok tokens_len fold_right].
        change (1 + 1) with 2.
        split_and!; try done; lia. }
      destruct H0 as (Ht0 & Hla0 & Hc0 & Hh0).
      destruct (emit_token_tokens host_le f0 [] _ Ht0)
        as (t & Ht1 & Hrc1 & _ & Hla1 & Hc1 & Hw1);
        [unfold f0, load_frame; frame_simpl; done
        |rewrite Hla0, CompressFacts.LOOK_AHEAD_SIZE_eq; lia|].
      destruct (feed_replace _ _ _) as [f2|] eqn:Hfeed; [|done].
      intros [= <-].
      apply (feed_replace_tokens host_le rest _ _ ([] ++ [t]) (bytes ++ pre))
        in Hfeed.
      * destruct Hfeed as (ts' & Hfeed). exists ts'. right.
        rewrite CompressFacts.load_save_frame. cbn [save_frame ch_SecondPass].
        split; [done|]. rewrite Hpre, app_assoc. done.
      * unfold feeding_at_test. rewrite Hla1, Hc1, Hw1. done.
      * rewrite Hpre in Hsrc. by apply Forall_app in Hsrc as [_ ?].
      * rewrite Hpre in Hlen. rewrite !length_app in *. lia.
    + apply (feed_fill_holds _ _ _ bytes) in Hfill;
        [|done|cbn [load_frame f_lookAhead]; lia|done|done|done].
      destruct Hfill as (Hok' & -> & Hle & Hh').
      intros [= <-]. exists []. left.
      cbn [ch_SecondPass ch_LookAhead ch_CurrentPos ch_ReplaceCnt ch_MatchLen
           ch_Tree ch_BitStream ch_Window load_frame f_lookAhead] in *.
      rewrite length_app. cbn [length] in *.
      rewrite CompressFacts.LOOK_AHEAD_SIZE_eq in *.
      split_and!; try done; lia.
  - (* the main loop is running *)
    inversion Hsrc as [|? ? Hb Hsrc']; subst. cbn [length] in Hlen.
    destruct (feed_newData _ b) as [f1|] eqn:Hn1; [|done].
    apply (feed_newData_tokens host_le _ _ ts bytes b Hnew Hb) in Hn1; [|lia].
    destruct (feed_replace _ _ _) as [f2|] eqn:Hfeed; [|done].
    intros [= <-].
    apply (feed_replace_tokens host_le src _ _ ts (bytes ++ [b]) Hn1 Hsrc')
      in Hfeed; [|rewrite length_app; cbn [length]; lia].
    destruct Hfeed as (ts' & Hfeed). exists ts'. right.
    rewrite CompressFacts.load_save_frame. cbn [save_frame ch_SecondPass].
    split; [done|]. by rewrite <- app_assoc in Hfeed.
Qed.

(** The loop of [FlushCompressor]: it ends when the tokens stand for
    every byte of the look-ahead buffer and one more. *)
Lemma flush_replace_tokens (host_le : bool) (fuel : nat) :
  forall (f f' : frame) (ts : list token) (limit : Z),
    flushing host_le f ts limit ->
    flush_replace fuel host_le f = Some f' ->
    exists ts',
      f_bs f'
      = write_all host_le (InitBitStream []) (map token_field ts')
      /\ tokens_ok (f_window f) limit 1 ts'
      /\ tokens_len ts' = limit.
Proof.
  induction fuel as [|fuel IH]; intros f f' ts limit Hfl Hflush; [done|].
  rewrite CompressFacts.flush_replace_unfold in Hflush.
  destruct Hfl as (Ht & Hlim & Hrcla).
  pose proof Ht as
    ((Hbs & Htok & Hwin & Hlinks & Hc & Hla0 & Hla & Hlim4) & Hcov & Hrc & Hm).
  destruct (Z.eqb_spec (f_replaceCnt f) 0) as [E|E].
  - destruct (Z.geb_spec (f_lookAhead f) 0) as [Hge|Hlt].
    + destruct (emit_token_tokens host_le f ts _ Ht E Hge)
        as (t & Ht1 & Hrc1 & Hrc1' & Hla1 & Hc1 & Hw1).
      apply (IH _ _ (ts ++ [t]) limit) in Hflush.
      * by rewrite Hw1 in Hflush.
      * split; [done|]. rewrite Hla1, Hc1. split; [done|lia].
    + injection Hflush as <-. exists ts. split; [done|]. split; [done|lia].
  - destruct (delete_ahead_tokens host_le f ts _ Ht ltac:(lia))
      as (f1 & Hd1 & Hn1 & Hla1 & Hrc1 & Hw1).
    rewrite Hd1 in Hflush.
    assert (Hc1 : f_currentPos f1 = f_currentPos f).
    { unfold delete_ahead in Hd1. destruct (DeleteString _ _); [|done].
      by injection Hd1 as <-. }
    destruct (advance f1 _ _) as [f2|] eqn:Hadv; [|done].
    apply (advance_tokens host_le f1 f2 ts limit limit) in Hadv;
      [|done|by rewrite Hw1|done|lia|lia|lia|done].
    destruct Hadv as (Ht2 & Hla2 & Hw2 & Hc2 & Hrc2).
    apply (IH _ _ ts limit) in Hflush.
    + by rewrite Hw2, Hw1 in Hflush.
    + split; [done|]. split; lia.
Qed.

(** Closing the encoder: the stream is the tokens, which stand for the
    bytes fed and two more bytes of the window, then the terminator. *)
Lemma DeleteCompressor_tokens (host_le : bool) (comp comp' : Compressor)
    (bytes : list Z) (ts : list token) (err : comp_result) :
  encoding host_le comp bytes ts -> ch_Cookie comp = true ->
  Z.of_nat (length bytes) + 22 <= WINDOW_SIZE ->
  DeleteCompressor host_le comp = Some (err, comp') ->
  exists ts',
    tokens_ok (ch_Window comp) (Z.of_nat (length bytes) + 2) 1 ts'
    /\ tokens_len ts' = Z.of_nat (length bytes) + 2
    /\ window_holds (ch_Window comp) bytes
    /\ window_ok (ch_Window comp)
    /\ bs_Out (ch_BitStream comp')
       = bs_Out
           (CleanupBitStream host_le
              (write_all host_le (InitBitStream [])
                 (map token_field ts' ++ [(0, END_OF_STREAM, INDEX_BIT_COUNT)]))).
Proof.
  intros Henc Hck Hlen. unfold DeleteCompressor. rewrite Hck. cbn [negb].
  destruct (FlushCompressor host_le comp) as [f|] eqn:Hflush; [|done].
  intros [= <- <-]. cbn [ch_BitStream].
  assert (H : exists ts',
             f_bs f = write_all host_le (InitBitStream []) (map token_field ts')
             /\ tokens_ok (ch_Window comp) (Z.of_nat (length bytes) + 2) 1 ts'
             /\ tokens_len ts' = Z.of_nat (length bytes) + 2
             /\ window_holds (ch_Window comp) bytes
             /\ window_ok (ch_Window comp)).
  { unfold FlushCompressor in Hflush.
    destruct Henc as [(Hsp & Hn & -> & Hla & Hc & Hrc & Hml & Hlinks & Hbs & Hh
                       & Hok)
                     |(Hsp & Hnew & Hla & Hc & Hh)]; rewrite Hsp in Hflush.
    - cbn [load_frame f_lookAhead] in Hflush.
      destruct (Z.geb_spec (ch_LookAhead comp) 0); [|lia].
      assert (H0 : flushing host_le (load_frame comp) []
                     (Z.of_nat (length bytes) + 2)).
      { unfold flushing, at_test, tokens_written, match_ok.
        unfold load_frame. frame_simpl.
        rewrite Hc, Hrc, Hml, Hbs, Hla.
        rewrite CompressFacts.LOOK_AHEAD_SIZE_eq, CompressFacts.WINDOW_SIZE_eq
          in *.
        unfold BREAK_EVEN. cbn [map write_all tokens_ok tokens_len fold_right].
        change (1 + 1) with 2.
        split_and!; try done; lia. }
      destruct H0 as (Ht0 & Hlim0 & Hrc0).
      destruct (emit_token_tokens host_le _ [] _ Ht0)
        as (t & Ht1 & Hrc1 & Hrc1' & Hla1 & Hc1 & Hw1);
        [done|cbn [load_frame f_lookAhead]; lia|].
      apply (flush_replace_tokens host_le _ _ _ ([] ++ [t])
               (Z.of_nat (length bytes) + 2)) in Hflush.
      + destruct Hflush as (ts' & H1 & H2 & H3). exists ts'.
        rewrite Hw1 in H2. done.
      + split; [done|]. rewrite Hla1, Hc1. split; [done|lia].
    - pose proof Hnew as
        ((Hbs & Htok & Hwin & Hlinks & Hc1 & Hla0 & Hla1 & Hlim) & Hcov & Hrc).
      destruct (advance _ _ _) as [f1|] eqn:Hadv; [|done].
      rewrite CompressFacts.LOOK_AHEAD_SIZE_eq, CompressFacts.WINDOW_SIZE_eq
        in *.
      apply (advance_tokens host_le _ f1 ts (Z.of_nat (length bytes) + 1)
               (Z.of_nat (length bytes) + 2)) in Hadv;
        [|done|done|done|lia|lia|lia|rewrite CompressFacts.WINDOW_SIZE_eq; lia].
      destruct Hadv as (Ht1 & Hla1' & Hw1 & Hc1' & Hrc1).
      apply (flush_replace_tokens host_le _ _ _ ts
               (Z.of_nat (length bytes) + 2)) in Hflush.
      + destruct Hflush as (ts' & H1 & H2 & H3). exists ts'.
        rewrite Hw1 in H2. done.
      + split; [done|]. split; lia. }
  destruct H as (ts' & Hbs & Htok & Hlen' & Hh & Hok).
  exists ts'. split; [done|]. split; [done|]. split; [done|]. split; [done|].
  by rewrite write_all_app, <- Hbs.
Qed.

Lemma created_encoding (host_le : bool) (workbuf fresh : option Compressor)
    (comp : Compressor) :
  CreateCompressor (Some []) workbuf fresh = (COMP_OK, Some comp) ->
  window_ok (ch_Window comp) ->
  encoding host_le comp [] [] /\ ch_Cookie comp = true.
Proof.
  intros H Hok. apply CompressFacts.CreateCompressor_result in H as (w & a & ->).
  split; [|done]. left.
  cbn [ch_SecondPass ch_LookAhead ch_CurrentPos ch_ReplaceCnt ch_MatchLen
       ch_Tree ch_BitStream ch_Window length] in *.
  rewrite CompressFacts.LOOK_AHEAD_SIZE_eq.
  split_and!; try done; try lia.
  - apply LinksFacts.initial_tree_links.
  - intros j Hj. cbn in Hj. lia.
Qed.

(** What a whole run of the encoder sends to the sink. *)
Lemma created_run_tokens (host_le : bool) (workbuf fresh : option Compressor)
    (comp0 comp comp' : Compressor) (chunks : list (list Z))
    (err : comp_result) :
  CreateCompressor (Some []) workbuf fresh = (COMP_OK, Some comp0) ->
  window_ok (ch_Window comp0) ->
  4 * Z.of_nat (length (concat chunks)) + 22 <= WINDOW_SIZE ->
  feed_chunks host_le comp0 chunks = Some comp ->
  DeleteCompressor host_le comp = Some (err, comp') ->
  let bytes := words_bytes host_le (concat chunks) in
  exists ts window,
    tokens_ok window (Z.of_nat (length bytes) + 2) 1 ts
    /\ tokens_len ts = Z.of_nat (length bytes) + 2
    /\ window_holds window bytes
    /\ window_ok window
    /\ bs_Out (ch_BitStream comp')
       = bs_Out
           (CleanupBitStream host_le
              (write_all host_le (InitBitStream [])
                 (map token_field ts ++ [(0, END_OF_STREAM, INDEX_BIT_COUNT)]))).
Proof.
  intros Hc Hok Hlen Hfeed Hdel.
  destruct (created_encoding host_le _ _ _ Hc Hok) as (Henc0 & Hck0).
  rewrite CompressFacts.WINDOW_SIZE_eq in Hlen.
  rewrite CompressFacts.feed_chunks_bytes in Hfeed by (done || lia).
  pose proof (CompressFacts.feed_bytes_cookie _ _ _ _ Hfeed) as Hck.
  apply (feed_bytes_encoding host_le _ _ [] _ [] Henc0) in Hfeed;
    [|apply words_bytes_range
     |rewrite CompressFacts.words_bytes_length, CompressFacts.WINDOW_SIZE_eq;
      cbn [length]; lia].
  destruct Hfeed as (ts1 & Henc). cbn [app] in Henc. cbv zeta.
  apply (DeleteCompressor_tokens host_le _ _ _ _ _ Henc) in Hdel;
    [|congruence
     |rewrite CompressFacts.words_bytes_length, CompressFacts.WINDOW_SIZE_eq;
      lia].
  destruct Hdel as (ts' & H1 & H2 & H3 & H4 & H5).
  by exists ts', (ch_Window comp).
Qed.

Lemma compress_chunks_tokens (host_le : bool) (buffer : Compressor)
    (chunks : list (list Z)) (stream : list Z) :
  window_ok (ch_Window buffer) ->
  4 * Z.of_nat (length (concat chunks)) + 22 <= WINDOW_SIZE ->
  compress_chunks host_le buffer chunks = Some stream ->
  let bytes := words_bytes host_le (concat chunks) in
  exists ts window,
    tokens_ok window (Z.of_nat (length bytes) + 2) 1 ts
    /\ tokens_len ts = Z.of_nat (length bytes) + 2
    /\ window_holds window bytes
    /\ window_ok window
    /\ stream
       = bs_Out
           (CleanupBitStream host_le
              (write_all host_le (InitBitStream [])
                 (map token_field ts ++ [(0, END_OF_STREAM, INDEX_BIT_COUNT)]))).
Proof.
  intros Hok Hlen. unfold compress_chunks.
  destruct (CreateCompressor _ _ _) as [r [comp0|]] eqn:Hc; [|done].
  assert (r = COMP_OK) as -> by (by inversion Hc).
  assert (Hw0 : ch_Window comp0 = ch_Window buffer) by (by inversion Hc).
  destruct (feed_chunks _ _ _) as [comp|] eqn:Hfeed; [|done].
  destruct (DeleteCompressor host_le comp) as [[err comp']|] eqn:Hdel; [|done].
  intros [= <-].
  apply (created_run_tokens host_le _ _ comp0 comp comp' chunks err Hc);
    try done.
  by rewrite Hw0.
Qed.

End EncoderRun.


(** ** The decoder in step with the tokens *)

Module DecoderTokens.
Import Decompress DecompressSpec BitSpec TokenSpec.

(** A request for the [n] bits that are next in the stream returns the
    number they spell. *)
Lemma ReadBits_code (host_le : bool) (bs : DecompressBitStream)
    (n c R rest : Z) :
  reader_ok bs -> 0 <= n <= 31 -> 0 <= c < 2 ^ n -> 0 <= R ->
  0 <= rest < 2 ^ R ->
  bits_unread bs = n + R ->
  unread_value host_le bs = c * 2 ^ R + rest ->
  exists bs',
    ReadBits host_le bs n = (bs', c)
    /\ reader_ok bs'
    /\ bits_unread bs' = R
    /\ unread_value host_le bs' = rest
    /\ bs_Error bs' = bs_Error bs.
Proof.
  intros Hok Hn Hc HR Hrest Hbits Hval.
  destruct (BitReaderFacts.ReadBits_spec host_le bs n Hok Hn ltac:(lia))
    as (Hok1 & Hb1 & Hv1 & Hu1 & _ & He1).
  destruct (ReadBits host_le bs n) as [bs1 v1]. cbn [fst snd] in *.
  exists bs1. assert (Hb1' : bits_unread bs1 = R) by lia.
  rewrite Hb1', Hval in Hv1, Hu1.
  destruct (BitArith.div_mod_decompose _ _ _ _ (eq_refl (c * 2 ^ R + rest)) Hrest)
    as [Hq Hr].
  rewrite Hq in Hv1. rewrite Hr in Hu1. subst v1. done.
Qed.

(** The number that [n] bits spell before [R] more bits. *)
Lemma value_split (a b n R rest : Z) :
  0 <= n -> 0 <= R -> 0 <= b < 2 ^ n -> 0 <= rest < 2 ^ R ->
  (a * 2 ^ n + b) * 2 ^ R + rest = a * 2 ^ (n + R) + (b * 2 ^ R + rest)
  /\ 0 <= b * 2 ^ R + rest < 2 ^ (n + R).
Proof.
  intros Hn HR Hb Hrest. rewrite BitArith.pow2_add by lia.
  pose proof (BitArith.pow2_pos n Hn). pose proof (BitArith.pow2_pos R HR).
  split; [ring|]. split; [nia|].
  assert (b * 2 ^ R + rest <= (2 ^ n - 1) * 2 ^ R + (2 ^ R - 1)) by nia. nia.
Qed.

Lemma token_field_ok (window : gmap Z Z) (limit q : Z) (t : token) :
  window_ok window -> q <= WINDOW_SIZE -> token_ok window limit q t ->
  field_ok (token_field t).
Proof.
  intros Hw Hq. rewrite CompressFacts.WINDOW_SIZE_eq in Hq.
  destruct t as [c|pos len]; cbn [token_ok token_field field_ok].
  - intros ->. pose proof (Hw q). split; [by right|]. split; [lia|].
    change (2 ^ 8) with 256. done.
  - rewrite CompressFacts.LOOK_AHEAD_SIZE_eq. unfold BREAK_EVEN.
    intros (H1 & H2 & _). split; [by left|]. split; [lia|].
    change (2 ^ 16) with 65536. lia.
Qed.

Lemma tokens_fields_ok (window : gmap Z Z) (limit : Z) (ts : list token) :
  window_ok window ->
  forall q,
    tokens_ok window limit q ts -> q + tokens_len ts <= WINDOW_SIZE ->
    Forall field_ok (map token_field ts).
Proof.
  intros Hw. induction ts as [|t ts IH]; intros q; [constructor|].
  cbn [tokens_ok tokens_len fold_right map]. fold (tokens_len ts).
  intros (Ht & Hts) Hq.
  pose proof (EncoderTokens.token_len_pos _ _ _ _ Ht).
  pose proof (EncoderTokens.tokens_len_nonneg _ _ _ _ Hts).
  constructor.
  - eapply token_field_ok; [done| |done]. lia.
  - apply (IH _ Hts). lia.
Qed.

(** ** The bytes that go to the sink *)

Lemma put_byte_sink (host_le : bool) (d : dframe) (c : Z) :
  sink_of (put_byte host_le d c) = push host_le (sink_of d) c.
Proof.
  unfold put_byte, sink_of, push. by destruct (d_bytesLeft d =? 0).
Qed.

Lemma put_byte_pos (host_le : bool) (d : dframe) (c : Z) :
  d_pos (put_byte host_le d c) = MOD_WINDOW (d_pos d + 1)
  /\ d_window (put_byte host_le d c) = <[d_pos d := c mod 256]> (d_window d).
Proof. unfold put_byte. by destruct (d_bytesLeft d =? 0). Qed.

Lemma window_bytes_cons (window : gmap Z Z) (q : Z) (n : nat) :
  window_bytes window q (S n) = rd window q :: window_bytes window (q + 1) n.
Proof.
  unfold window_bytes. cbn [seq map]. rewrite Z.add_0_r. f_equal.
  rewrite <- seq_shift, map_map. apply map_ext. intros k. f_equal. lia.
Qed.

Lemma window_bytes_app (window : gmap Z Z) (a b : nat) :
  forall q,
    window_bytes window q (a + b)
    = window_bytes window q a ++ window_bytes window (q + Z.of_nat a) b.
Proof.
  induction a as [|a IH]; intros q.
  - cbn. by rewrite Z.add_0_r.
  - cbn [Nat.add]. rewrite !window_bytes_cons, IH. cbn [app]. do 3 f_equal. lia.
Qed.

(** One decoded byte that is the byte of the window of the encoder. *)
Lemma put_byte_in_step (host_le : bool) (d : dframe) (window : gmap Z Z) (q : Z) :
  window_ok window -> 1 <= q -> q + 1 < WINDOW_SIZE ->
  d_pos d = q ->
  (forall i, 1 <= i < q -> rd (d_window d) i = rd window i) ->
  let d' := put_byte host_le d (rd window q) in
  d_pos d' = q + 1
  /\ (forall i, 1 <= i < q + 1 -> rd (d_window d') i = rd window i)
  /\ sink_of d' = push host_le (sink_of d) (rd window q)
  /\ d_bs d' = d_bs d.
Proof.
  intros Hw Hq1 Hq2 Hpos Hagree d'. subst d'.
  destruct (put_byte_pos host_le d (rd window q)) as (-> & ->).
  rewrite Hpos, LinksFacts.MOD_WINDOW_small by lia.
  split; [done|]. split; [|split; [apply put_byte_sink
                                  |apply DecompressFacts.put_byte_bs]].
  intros i Hi. rewrite CompressFacts.rd_insert.
  case_decide as E.
  - subst i. apply Z.mod_small, Hw.
  - apply Hagree. lia.
Qed.

(** The copy of a match, which may run into the bytes it writes. *)
Lemma copy_match_in_step (host_le : bool) (window : gmap Z Z) (n : nat) :
  window_ok window ->
  forall (d : dframe) (i q : Z),
    1 <= i < q -> q + Z.of_nat n < WINDOW_SIZE ->
    d_pos d = q ->
    (forall j, 1 <= j < q -> rd (d_window d) j = rd window j) ->
    (forall k, 0 <= k < Z.of_nat n -> rd window (i + k) = rd window (q + k)) ->
    let d' := copy_match host_le d i n in
    d_pos d' = q + Z.of_nat n
    /\ (forall j, 1 <= j < q + Z.of_nat n -> rd (d_window d') j = rd window j)
    /\ sink_of d'
       = fold_left (push host_le) (window_bytes window q n) (sink_of d)
    /\ d_bs d' = d_bs d.
Proof.
  intros Hw. induction n as [|n IH]; intros d i q Hi Hq Hpos Hagree Hpre.
  - cbn. rewrite Z.add_0_r. done.
  - cbn [copy_match]. rewrite window_bytes_cons. cbn [fold_left].
    assert (Hbyte : rd (d_window d) (MOD_WINDOW i) = rd window q).
    { rewrite LinksFacts.MOD_WINDOW_small by lia. rewrite Hagree by lia.
      specialize (Hpre 0 ltac:(lia)). by rewrite !Z.add_0_r in Hpre. }
    rewrite Hbyte.
    destruct (put_byte_in_step host_le d window q Hw ltac:(lia) ltac:(lia)
                Hpos Hagree) as (Hpos1 & Hagree1 & Hsink1 & Hbs1).
    destruct (IH (put_byte host_le d (rd window q)) (i + 1) (q + 1)
                ltac:(lia) ltac:(lia) Hpos1 Hagree1) as (Hpos2 & Hagree2 & Hsink2 & Hbs2).
    { intros k Hk. specialize (Hpre (1 + k) ltac:(lia)).
      by rewrite !Z.add_assoc in Hpre. }
    cbv zeta in *. split; [lia|]. split.
    + intros j Hj. apply Hagree2. lia.
    + rewrite Hsink2, Hsink1. split; [done|congruence].
Qed.

(** ** One round of the token loop *)

Lemma decode_token_in_step (host_le : bool) (d : dframe) (window : gmap Z Z)
    (limit q : Z) (t : token) (ts : list token) (tail_bits tail : Z) :
  in_step host_le d window q (t :: ts) tail_bits tail ->
  window_ok window -> token_ok window limit q t ->
  Forall field_ok (map token_field ts) ->
  0 <= tail_bits -> 0 <= tail < 2 ^ tail_bits ->
  1 <= q -> q + token_len t < WINDOW_SIZE ->
  exists d',
    decode_token host_le d = (d', false)
    /\ in_step host_le d' window (q + token_len t) ts tail_bits tail
    /\ sink_of d'
       = fold_left (push host_le)
           (window_bytes window q (Z.to_nat (token_len t))) (sink_of d)
    /\ bs_Error (d_bs d') = bs_Error (d_bs d).
Proof.
  intros (Hok & Hbits & Hval & Hpos & Hagree) Hw Ht Hfs Htb Htail Hq1 Hq2.
  pose proof (BitRoundTrip.fields_bits_nonneg _ Hfs) as Hfb.
  pose proof (BitRoundTrip.fields_value_range _ Hfs) as Hfv.
  set (fb := fields_bits (map token_field ts)) in *.
  set (fv := fields_value (map token_field ts)) in *.
  destruct (value_split 0 fv fb tail_bits tail Hfb Htb Hfv Htail)
    as (_ & Hrest0).
  set (R0 := fb + tail_bits) in *. set (rest0 := fv * 2 ^ tail_bits + tail) in *.
  assert (HR0 : 0 <= R0) by (unfold R0; lia).
  unfold decode_token.
  destruct t as [c|pos len]; cbn [token_ok token_len token_field map
                                   fields_bits fields_value] in *;
    fold fb in Hbits, Hval; fold fv in Hval.
  - (* a literal *)
    subst c. pose proof (Hw q) as Hc. change 256 with (2 ^ 8) in Hc.
    destruct (value_split (1 * 2 ^ 8 + rd window q) fv fb tail_bits tail
                Hfb Htb Hfv Htail) as (E1 & _).
    fold R0 rest0 in E1. rewrite E1 in Hval.
    destruct (value_split 1 (rd window q) 8 R0 rest0 ltac:(lia) HR0 Hc Hrest0)
      as (E2 & Hrest1).
    rewrite E2 in Hval.
    destruct (ReadBits_code host_le (d_bs d) 1 1 (8 + R0) _ Hok ltac:(lia)
                ltac:(lia) ltac:(lia) Hrest1 ltac:(unfold R0; lia) Hval)
      as (bs1 & Hr1 & Hok1 & Hb1 & Hv1 & He1).
    rewrite Hr1. cbn [Z.eqb].
    destruct (ReadBits_code host_le bs1 8 (rd window q) R0 rest0 Hok1
                ltac:(lia) Hc HR0 Hrest0 Hb1 Hv1)
      as (bs2 & Hr2 & Hok2 & Hb2 & Hv2 & He2).
    rewrite Hr2.
    destruct (put_byte_in_step host_le (with_bs d bs2) window q Hw Hq1 Hq2
                Hpos Hagree) as (Hpos3 & Hagree3 & Hsink3 & Hbs3).
    eexists. split; [reflexivity|]. split; [|split].
    + unfold in_step. rewrite Hbs3. cbn [with_bs d_bs]. done.
    + change (Z.to_nat 1) with 1%nat. rewrite window_bytes_cons.
      cbn [window_bytes seq map fold_left]. exact Hsink3.
    + rewrite Hbs3. cbn [with_bs d_bs]. congruence.
  - (* a reference *)
    destruct Ht as (Hp & Hlen & Hlim & Hpre).
    rewrite CompressFacts.LOOK_AHEAD_SIZE_eq in Hlen. unfold BREAK_EVEN in *.
    rewrite CompressFacts.WINDOW_SIZE_eq in Hq2.
    assert (Hx : 0 <= pos * 16 + (len - (2 + 1)) < 2 ^ 16)
      by (change (2 ^ 16) with 65536; lia).
    destruct (value_split (0 * 2 ^ 16 + (pos * 16 + (len - (2 + 1)))) fv fb
                tail_bits tail Hfb Htb Hfv Htail) as (E1 & _).
    fold R0 rest0 in E1. rewrite E1 in Hval.
    destruct (value_split 0 (pos * 16 + (len - (2 + 1))) 16 R0 rest0
                ltac:(lia) HR0 Hx Hrest0) as (E2 & Hrest1).
    rewrite E2 in Hval.
    destruct (ReadBits_code host_le (d_bs d) 1 0 (16 + R0) _ Hok ltac:(lia)
                ltac:(lia) ltac:(lia) Hrest1 ltac:(unfold R0; lia) Hval)
      as (bs1 & Hr1 & Hok1 & Hb1 & Hv1 & He1).
    rewrite Hr1. cbn [Z.eqb].
    assert (Hl3 : 0 <= len - (2 + 1) < 2 ^ 4) by (change (2 ^ 4) with 16; lia).
    destruct (value_split pos (len - (2 + 1)) 4 R0 rest0 ltac:(lia) HR0 Hl3
                Hrest0) as (E3 & Hrest2).
    change (2 ^ 4) with 16 in E3. rewrite E3 in Hv1.
    destruct (ReadBits_code host_le bs1 12 pos (4 + R0) _ Hok1 ltac:(lia)
                ltac:(change (2 ^ 12) with 4096; lia) ltac:(lia) Hrest2
                ltac:(lia) Hv1)
      as (bs2 & Hr2 & Hok2 & Hb2 & Hv2 & He2).
    unfold INDEX_BIT_COUNT, LENGTH_BIT_COUNT. rewrite Hr2.
    destruct (Z.eqb_spec pos END_OF_STREAM) as [E|_];
      [unfold END_OF_STREAM in E; lia|].
    destruct (ReadBits_code host_le bs2 4 (len - (2 + 1)) R0 rest0 Hok2
                ltac:(lia) Hl3 HR0 Hrest0 Hb2 Hv2)
      as (bs3 & Hr3 & Hok3 & Hb3 & Hv3 & He3).
    rewrite Hr3. unfold BREAK_EVEN.
    rewrite WordFacts.u32_small by lia.
    replace (Z.to_nat (len - (2 + 1) + 2 + 1)) with (Z.to_nat len) by lia.
    destruct (copy_match_in_step host_le window (Z.to_nat len) Hw
                (with_bs d bs3) pos q Hp
                ltac:(rewrite CompressFacts.WINDOW_SIZE_eq; lia) Hpos Hagree)
      as (Hpos4 & Hagree4 & Hsink4 & Hbs4).
    { intros k Hk. apply Hpre. lia. }
    rewrite Z2Nat.id in Hpos4, Hagree4 by lia.
    eexists. split; [reflexivity|]. split; [|split].
    + unfold in_step. rewrite Hbs4. cbn [with_bs d_bs]. done.
    + exact Hsink4.
    + rewrite Hbs4. cbn [with_bs d_bs]. congruence.
Qed.

(** The terminator: twelve zero bits after a zero bit. *)
Lemma decode_token_terminator (host_le : bool) (d : dframe)
    (window : gmap Z Z) (q pad : Z) :
  in_step host_le d window q [] (13 + pad) 0 -> 0 <= pad < 32 ->
  exists bs',
    decode_token host_le d = (with_bs d bs', true)
    /\ bs_NumDataWords bs' = 0
    /\ bs_Error bs' = bs_Error (d_bs d).
Proof.
  intros (Hok & Hbits & Hval & Hpos & Hagree) Hpad.
  cbn [map fields_bits fields_value] in Hbits, Hval.
  pose proof (BitArith.pow2_pos (12 + pad) ltac:(lia)).
  pose proof (BitArith.pow2_pos pad ltac:(lia)).
  unfold decode_token.
  destruct (ReadBits_code host_le (d_bs d) 1 0 (12 + pad) 0 Hok ltac:(lia)
              ltac:(lia) ltac:(lia) ltac:(lia) ltac:(lia) ltac:(lia))
    as (bs1 & Hr1 & Hok1 & Hb1 & Hv1 & He1).
  rewrite Hr1. cbn [Z.eqb].
  destruct (ReadBits_code host_le bs1 12 0 pad 0 Hok1 ltac:(lia)
              ltac:(lia) ltac:(lia) ltac:(lia) Hb1 ltac:(lia))
    as (bs2 & Hr2 & Hok2 & Hb2 & Hv2 & He2).
  unfold INDEX_BIT_COUNT. rewrite Hr2. unfold END_OF_STREAM. cbn [Z.eqb].
  exists bs2. split; [done|]. split; [|congruence].
  destruct Hok2 as (Hbl & _ & Hnum & _). unfold bits_unread in Hb2. lia.
Qed.

End DecoderTokens.


(** ** The token loop on a whole stream *)

Module DecoderRun.
Import Decompress DecompressSpec BitSpec TokenSpec DecoderTokens.

Lemma tokens_ok_take_drop (window : gmap Z Z) (limit q : Z) (ts : list token)
    (k : nat) :
  tokens_ok window limit q ts ->
  tokens_ok window limit q (take k ts)
  /\ tokens_ok window limit (q + tokens_len (take k ts)) (drop k ts)
  /\ tokens_len ts = tokens_len (take k ts) + tokens_len (drop k ts)
  /\ 0 <= tokens_len (take k ts)
  /\ 0 <= tokens_len (drop k ts).
Proof.
  intros H. rewrite <- (take_drop k ts) in H at 1.
  apply EncoderTokens.tokens_ok_app in H as (H1 & H2).
  split; [done|]. split; [done|].
  rewrite <- (take_drop k ts) at 1. rewrite EncoderTokens.tokens_len_app.
  split; [done|].
  split; [by eapply EncoderTokens.tokens_len_nonneg
         |by eapply EncoderTokens.tokens_len_nonneg].
Qed.

Lemma with_bs_sink (d : dframe) (bs : DecompressBitStream) :
  sink_of (with_bs d bs) = sink_of d.
Proof. done. Qed.

(** The token loop decodes the tokens in turn until the last word of the
    stream has been fetched; the tokens that start when 33 bits or more
    are left are all decoded. *)
Lemma decode_loop_tokens (host_le : bool) (window : gmap Z Z) (limit pad : Z) :
  window_ok window -> 0 <= pad < 32 ->
  forall (ts : list token) (fuel : nat) (d : dframe) (q : Z),
    in_step host_le d window q ts (13 + pad) 0 ->
    tokens_ok window limit q ts -> 1 <= q ->
    q + tokens_len ts < WINDOW_SIZE ->
    (length ts + 1 < fuel)%nat ->
    exists d' k,
      decode_loop fuel host_le d = Some d'
      /\ (k <= length ts)%nat
      /\ sink_of d'
         = fold_left (push host_le)
             (window_bytes window q (Z.to_nat (tokens_len (take k ts))))
             (sink_of d)
      /\ bs_NumDataWords (d_bs d') = 0
      /\ bs_Error (d_bs d') = bs_Error (d_bs d)
      /\ (k = length ts
          \/ fields_bits (map token_field (drop k ts)) + 13 + pad <= 32).
Proof.
  intros Hw Hpad.
  induction ts as [|t ts IH]; intros fuel d q Hstep Htok Hq1 Hq2 Hfuel;
    (destruct fuel as [|fuel]; [lia|]);
    rewrite DecompressFacts.decode_loop_unfold;
    destruct (Z.eqb_spec (bs_NumDataWords (d_bs d)) 0) as [H0|H0].
  - exists d, 0%nat. split; [done|]. split; [done|]. split; [done|].
    split; [done|]. split; [done|]. by left.
  - destruct (decode_token_terminator host_le d window q pad Hstep Hpad)
      as (bs' & Hdec & Hn & He).
    rewrite Hdec. exists (with_bs d bs'), 0%nat.
    split; [done|]. split; [done|]. split; [done|]. split; [done|].
    split; [done|]. by left.
  - exists d, 0%nat. split; [done|]. split; [lia|]. split; [done|].
    split; [done|]. split; [done|]. right. rewrite drop_0.
    destruct Hstep as ((Hbl & _) & Hbits & _). unfold bits_unread in Hbits.
    lia.
  - cbn [tokens_ok tokens_len fold_right] in Htok, Hq2.
    fold (tokens_len ts) in Hq2. destruct Htok as (Ht & Hts).
    pose proof (EncoderTokens.token_len_pos _ _ _ _ Ht) as Hl.
    pose proof (EncoderTokens.tokens_len_nonneg _ _ _ _ Hts) as Hn.
    assert (Hfs : Forall field_ok (map token_field ts)).
    { apply (tokens_fields_ok window limit ts Hw _ Hts). lia. }
    destruct (decode_token_in_step host_le d window limit q t ts (13 + pad) 0
                Hstep Hw Ht Hfs ltac:(lia))
      as (d1 & Hdec & Hstep1 & Hsink1 & He1); [|done|lia|].
    { pose proof (BitArith.pow2_pos (13 + pad) ltac:(lia)). lia. }
    rewrite Hdec.
    destruct (IH fuel d1 (q + token_len t) Hstep1 Hts ltac:(lia) ltac:(lia))
      as (d' & k & Hloop & Hk & Hsink & Hnum & He & Hlast);
      [cbn [length] in Hfuel; lia|].
    exists d', (S k). split; [done|]. split; [cbn [length]; lia|].
    destruct (tokens_ok_take_drop window limit (q + token_len t) ts k Hts)
      as (_ & _ & _ & Hn1 & _).
    split; [|split; [done|split; [congruence|]]].
    + cbn [take tokens_len fold_right]. fold (tokens_len (take k ts)).
      rewrite Z2Nat.inj_add by lia. rewrite window_bytes_app, fold_left_app.
      rewrite Z2Nat.id by lia. by rewrite <- Hsink1.
    + cbn [drop length]. destruct Hlast as [->|Hlast]; [by left|by right].
Qed.

(** ** The words that the bytes make *)

Lemma push_byte (host_le : bool) (out : list Z) (x bl c : Z) :
  1 <= bl <= 4 -> 0 <= x < 2 ^ 24 -> 0 <= c < 256 ->
  push host_le (out, x, bl) c = (out, x * 2 ^ 8 + c, bl - 1).
Proof.
  intros Hbl Hx Hc. unfold push.
  destruct (Z.eqb_spec bl 0); [lia|].
  rewrite BitArith.shl32_small, WordFacts.lor_mul_pow2 by lia.
  by rewrite WordFacts.u32_small by lia.
Qed.

Lemma push_bytes (host_le : bool) (out : list Z) (a b c d : Z) :
  0 <= a < 256 -> 0 <= b < 256 -> 0 <= c < 256 -> 0 <= d < 256 ->
  fold_left (push host_le) [b; c; d] (out, a, 3)
  = (out, a * 2 ^ 24 + b * 2 ^ 16 + c * 2 ^ 8 + d, 0).
Proof.
  intros Ha Hb Hc Hd. cbn [fold_left].
  rewrite !push_byte by lia. do 2 f_equal. lia.
Qed.

(** The four bytes of a word in the memory of the host make, first byte
    first, the word that is byte-swapped on a little-endian host. *)
Lemma word_bytes_value (host_le : bool) (w : Z) :
  0 <= w < 2 ^ 32 ->
  exists a b c d,
    word_bytes host_le w = [a; b; c; d]
    /\ 0 <= a < 256 /\ 0 <= b < 256 /\ 0 <= c < 256 /\ 0 <= d < 256
    /\ a * 2 ^ 24 + b * 2 ^ 16 + c * 2 ^ 8 + d
       = byteswap_if_little_endian host_le w.
Proof.
  intros Hw. unfold word_bytes.
  rewrite !WordFacts.land_255, !Z.shiftr_div_pow2 by lia.
  pose proof (Z.mod_pos_bound w 256 ltac:(lia)).
  pose proof (Z.mod_pos_bound (w / 2 ^ 8) 256 ltac:(lia)).
  pose proof (Z.mod_pos_bound (w / 2 ^ 16) 256 ltac:(lia)).
  pose proof (Z.mod_pos_bound (w / 2 ^ 24) 256 ltac:(lia)).
  destruct host_le; cbn [byteswap_if_little_endian].
  - eexists _, _, _, _. split; [reflexivity|].
    split; [done|]. split; [done|]. split; [done|]. split; [done|].
    by rewrite WordFacts.bswap32_bytes.
  - eexists _, _, _, _. split; [reflexivity|].
    split; [done|]. split; [done|]. split; [done|]. split; [done|].
    destruct (WordFacts.word_digits w Hw)
      as (a & b & c & d & Ha & Hb & Hc & Hd & ->).
    by destruct (WordFacts.bytes_digits a b c d Ha Hb Hc Hd)
      as (-> & -> & -> & -> & _).
Qed.

Lemma push_word (host_le : bool) (s : list Z * Z * Z) (w : Z) :
  between_words s -> 0 <= w < 2 ^ 32 ->
  let s' := fold_left (push host_le) (word_bytes host_le w) s in
  between_words s' /\ delivered host_le s' = delivered host_le s ++ [w].
Proof.
  destruct s as [[out wb] bl]. intros Hs Hw.
  destruct (word_bytes_value host_le w Hw)
    as (a & b & c & d & -> & Ha & Hb & Hc & Hd & Hval).
  change (fold_left (push host_le) [a; b; c; d] (out, wb, bl))
    with (fold_left (push host_le) [b; c; d] (push host_le (out, wb, bl) a)).
  assert (Hfirst : push host_le (out, wb, bl) a
                   = (delivered host_le (out, wb, bl), a, 3)).
  { destruct Hs as [->|(-> & ->)]; cbn [push delivered Z.eqb]; [done|].
    change (u32 (4 - 1)) with 3. change (shl32 0 8) with 0.
    by rewrite Z.lor_0_l. }
  rewrite Hfirst, push_bytes by done. cbv zeta.
  split; [by left|]. cbn [delivered Z.eqb]. rewrite Hval.
  by rewrite WordFacts.byteswap_if_little_endian_involutive.
Qed.

Lemma push_words (host_le : bool) (ws : list Z) :
  forall s,
    between_words s -> Forall (fun w => 0 <= w < 2 ^ 32) ws ->
    let s' := fold_left (push host_le) (words_bytes host_le ws) s in
    between_words s' /\ delivered host_le s' = delivered host_le s ++ ws.
Proof.
  induction ws as [|w ws IH]; intros s Hs Hws.
  - cbn. by rewrite app_nil_r.
  - inversion Hws as [|? ? Hw Hws']; subst.
    unfold words_bytes. cbn [map concat]. rewrite fold_left_app.
    destruct (push_word host_le s w Hs Hw) as (Hs1 & Hd1).
    destruct (IH _ Hs1 Hws') as (Hs2 & Hd2).
    cbv zeta in *. split; [exact Hs2|].
    unfold words_bytes in Hd2. rewrite Hd2, Hd1, <- app_assoc. done.
Qed.

(** One or two bytes more do not fill a word. *)
Lemma push_garbage (host_le : bool) (s : list Z * Z * Z) (g : list Z) :
  between_words s -> (length g <= 2)%nat ->
  delivered host_le (fold_left (push host_le) g s) = delivered host_le s.
Proof.
  destruct s as [[out wb] bl]. intros Hs Hg.
  destruct g as [|a [|b [|c g]]]; [done| | |cbn in Hg; lia];
    destruct Hs as [->|(-> & ->)]; cbn [fold_left push delivered Z.eqb];
    try change (u32 (4 - 1)) with 3; try change (u32 (3 - 1)) with 2;
    cbn [Z.eqb]; done.
Qed.

Lemma window_bytes_nth (window : gmap Z Z) (bytes : list Z) :
  forall q,
    (forall j, (j < length bytes)%nat ->
       rd window (q + Z.of_nat j) = nth j bytes 0) ->
    window_bytes window q (length bytes) = bytes.
Proof.
  induction bytes as [|b bytes IH]; intros q Hh; [done|].
  cbn [length]. rewrite window_bytes_cons. f_equal.
  - specialize (Hh 0%nat ltac:(cbn; lia)). by rewrite Z.add_0_r in Hh.
  - apply IH. intros j Hj. specialize (Hh (S j) ltac:(cbn; lia)).
    cbn [nth] in Hh. rewrite <- Hh. f_equal. lia.
Qed.

Lemma window_bytes_holds (window : gmap Z Z) (bytes : list Z) :
  window_holds window bytes -> window_bytes window 1 (length bytes) = bytes.
Proof. intros Hh. by apply window_bytes_nth. Qed.

(** ** The last tokens of the stream *)

Lemma token_field_bits (t : token) :
  fields_bits [token_field t] = match t with Lit _ => 9 | Ref _ _ => 17 end.
Proof. by destruct t. Qed.

Lemma tokens_fields_bits_ge (ts : list token) :
  9 * Z.of_nat (length ts) <= fields_bits (map token_field ts).
Proof.
  induction ts as [|t ts IH]; [done|].
  cbn [map length fields_bits]. destruct t; cbn [token_field]; lia.
Qed.

Lemma tokens_fields_bits_le (ts : list token) :
  fields_bits (map token_field ts) <= 17 * Z.of_nat (length ts).
Proof.
  induction ts as [|t ts IH]; [done|].
  cbn [map length fields_bits]. destruct t; cbn [token_field]; lia.
Qed.

Lemma tokens_count_le (window : gmap Z Z) (limit : Z) (ts : list token) :
  forall q, tokens_ok window limit q ts -> Z.of_nat (length ts) <= tokens_len ts.
Proof.
  induction ts as [|t ts IH]; intros q; [done|].
  cbn [tokens_ok tokens_len fold_right length]. fold (tokens_len ts).
  intros (Ht & Hts). apply EncoderTokens.token_len_pos in Ht.
  apply IH in Hts. lia.
Qed.

(** The tokens that start with fewer than 33 bits left stand for the last
    two bytes at most: a reference ends before the last byte. *)
Lemma late_tokens (window : gmap Z Z) (limit q : Z) (ts : list token) :
  tokens_ok window limit q ts -> ts <> [] ->
  q + tokens_len ts = limit + 1 ->
  fields_bits (map token_field ts) <= 19 ->
  limit - 1 <= q.
Proof.
  intros Htok Hne Hlen Hbits.
  destruct ts as [|t1 [|t2 ts]]; [done| |].
  - cbn in Htok, Hlen.
    destruct t1 as [c|pos len]; cbn in Hlen; [lia|].
    destruct Htok as ((_ & _ & Hlim & _) & _). lia.
  - pose proof (tokens_fields_bits_ge ts) as Hge.
    cbn [map fields_bits length] in Hbits.
    destruct t1 as [c1|p1 l1], t2 as [c2|p2 l2]; cbn [token_field] in Hbits;
      try lia.
    destruct ts as [|t3 ts]; [cbn in Hlen; lia|].
    cbn [length] in Hge. lia.
Qed.

End DecoderRun.


(** ** The round trip *)

Module RoundTrip.
Import TokenSpec BitSpec.

Lemma fields_snoc (fs : list (Z * Z * Z)) (h c n : Z) :
  Forall field_ok fs -> 0 <= n ->
  fields_bits (fs ++ [(h, c, n)]) = fields_bits fs + (1 + n)
  /\ fields_value (fs ++ [(h, c, n)])
     = fields_value fs * 2 ^ (1 + n) + (h * 2 ^ n + c).
Proof.
  intros Hfs Hn. induction Hfs as [|[[h' c'] n'] fs Hf Hfs IH].
  - cbn [app fields_bits fields_value]. change (2 ^ 0) with 1. lia.
  - destruct IH as (IHb & IHv).
    pose proof (BitRoundTrip.fields_bits_nonneg fs Hfs) as Hb.
    cbn [app fields_bits fields_value]. rewrite IHb, IHv.
    split; [lia|]. rewrite BitArith.pow2_add by lia. ring.
Qed.

Lemma window_bytes_length (window : gmap Z Z) (q : Z) (n : nat) :
  length (window_bytes window q n) = n.
Proof. unfold window_bytes. by rewrite length_map, length_seq. Qed.

(** The decoder on the stream of the tokens [ts], which stand for the
    bytes of [window] from position 1 on: the sink receives the words
    that the first bytes make. *)
Lemma decompress_tokens (host_le : bool) (window : gmap Z Z) (ts : list token)
    (ws : list Z) :
  let bytes := words_bytes host_le ws in
  let stream :=
    Compress.bs_Out
      (Compress.CleanupBitStream host_le
         (write_all host_le (Compress.InitBitStream [])
            (map token_field ts ++ [(0, END_OF_STREAM, INDEX_BIT_COUNT)]))) in
  Forall (fun w => 0 <= w < 2 ^ 32) ws ->
  Z.of_nat (length bytes) + 22 <= WINDOW_SIZE ->
  tokens_ok window (Z.of_nat (length bytes) + 2) 1 ts ->
  tokens_len ts = Z.of_nat (length bytes) + 2 ->
  window_holds window bytes -> window_ok window ->
  DecompressSpec.decompress_chunks host_le [stream] = Some (COMP_OK, ws).
Proof.
  intros bytes stream Hws Hlen Htok Htl Hh Hok.
  rewrite CompressFacts.WINDOW_SIZE_eq in Hlen.
  set (n := Z.of_nat (length bytes)) in *.
  assert (Hfs : Forall field_ok (map token_field ts)).
  { apply (DecoderTokens.tokens_fields_ok window (n + 2) ts Hok 1 Htok).
    rewrite CompressFacts.WINDOW_SIZE_eq. lia. }
  destruct (fields_snoc (map token_field ts) 0 END_OF_STREAM INDEX_BIT_COUNT
              Hfs ltac:(unfold INDEX_BIT_COUNT; lia)) as (Hsb & Hsv).
  unfold INDEX_BIT_COUNT, END_OF_STREAM in *.
  assert (Hall : Forall field_ok (map token_field ts ++ [(0, 0, 12)])).
  { apply Forall_app. split; [done|]. constructor; [|constructor].
    cbn. split; [by left|]. split; lia. }
  assert (Hinit : writer_ok (Compress.InitBitStream [])).
  { unfold writer_ok. cbn. split; [lia|]. split; [lia|]. split; [done|].
    constructor. }
  destruct (BitRoundTrip.write_all_appends host_le _ _ Hinit Hall)
    as (Hwok & Hwb & Hwv).
  change (written_bits (Compress.InitBitStream [])) with 0 in Hwb.
  change (written_value host_le (Compress.InitBitStream [])) with 0 in Hwv.
  destruct (BitRoundTrip.CleanupBitStream_pads host_le _ Hwok)
    as (pad & Hpad & Hlen32 & Hwire & Hrange).
  fold stream in Hlen32, Hwire, Hrange.
  rewrite Hwb, Hsb in Hlen32. rewrite Hwv, Hsv in Hwire.
  pose proof (DecoderRun.tokens_fields_bits_ge ts) as Hge.
  pose proof (DecoderRun.tokens_fields_bits_le ts) as Hle.
  pose proof (DecoderRun.tokens_count_le _ _ _ _ Htok) as Hcount.
  pose proof (BitRoundTrip.fields_bits_nonneg _ Hfs) as Hfb.
  clearbody stream.
  (* the decoder starts in step *)
  unfold DecompressSpec.decompress_chunks.
  cbn [Decompress.CreateDecompressor DecompressSpec.feed_chunks].
  unfold Decompress.FeedDecompressor, Decompress.internalFeedDecompressor.
  cbn [Decompress.dh_Cookie negb Decompress.dh_Out Decompress.dh_WordBuffer
       Decompress.dh_BytesLeft Decompress.dh_Window Decompress.dh_Pos
       Decompress.dh_BitStream Decompress.dh_AllocatedStructure].
  set (bs := Decompress.FeedBitStream _ stream _).
  set (d := Decompress.mkDframe _ _ _ _ _ bs).
  assert (Hstep : in_step host_le d window 1 ts (13 + pad) 0).
  { unfold in_step, d, bs, reader_ok, DecompressSpec.bits_unread, unread_value.
    cbn [Decompress.d_bs Decompress.d_pos Decompress.d_window
         Decompress.FeedBitStream Decompress.InitBitStream Decompress.bs_Data
         Decompress.bs_NumDataWords Decompress.bs_BitsLeft
         Decompress.bs_BitBuffer Decompress.bs_Error].
    split; [|split; [lia|split; [|split; [done|intros i Hi; lia]]]].
    - split; [lia|]. split; [lia|]. split; [done|]. split; [lia|done].
    - rewrite Hwire. change (0 mod 2 ^ 0) with 0.
      rewrite (BitArith.pow2_add 13 pad) by lia.
      change (1 + 12) with 13. ring. }
  destruct (DecoderRun.decode_loop_tokens host_le window (n + 2) pad Hok Hpad
              ts (Decompress.decode_fuel bs) d 1 Hstep Htok ltac:(lia))
    as (d' & k & Hloop & Hk & Hsink & Hnum & Herr & Hlast).
  { rewrite CompressFacts.WINDOW_SIZE_eq. lia. }
  { unfold Decompress.decode_fuel, bs. cbn. lia. }
  rewrite Hloop. f_equal.
  unfold Decompress.DeleteDecompressor.
  cbn [Decompress.dh_Cookie negb Decompress.dh_Out Decompress.dh_WordBuffer
       Decompress.dh_BytesLeft Decompress.dh_BitStream].
  rewrite Hnum, Herr. cbn [Z.eqb d bs Decompress.d_bs Decompress.FeedBitStream
                            Decompress.bs_Error Decompress.InitBitStream].
  f_equal.
  change (if Decompress.d_bytesLeft d' =? 0
          then Decompress.d_out d'
               ++ [byteswap_if_little_endian host_le (Decompress.d_wordBuffer d')]
          else Decompress.d_out d')
    with (delivered host_le (sink_of d')).
  rewrite Hsink.
  (* the tokens decoded stand for all the bytes, and two more at most *)
  destruct (DecoderRun.tokens_ok_take_drop window (n + 2) 1 ts k Htok)
    as (_ & Hdrop & Hsum & Hm0 & Hd0).
  set (m := tokens_len (take k ts)) in *.
  assert (Hm : n <= m <= n + 2).
  { split; [|lia].
    destruct (drop k ts) as [|t rest] eqn:Hdr; [cbn in Hsum; lia|].
    destruct Hlast as [->|Hlast].
    - rewrite drop_all in Hdr. done.
    - pose proof (DecoderRun.late_tokens window (n + 2) (1 + m) (t :: rest)
                    Hdrop ltac:(done) ltac:(lia) ltac:(lia)). lia. }
  replace (Z.to_nat m) with (length bytes + Z.to_nat (m - n))%nat by lia.
  rewrite DecoderTokens.window_bytes_app, fold_left_app.
  rewrite (DecoderRun.window_bytes_holds window bytes Hh).
  destruct (DecoderRun.push_words host_le ws (sink_of d)) as (Hbw & Hdel);
    [by right|done|].
  cbv zeta in Hbw, Hdel. fold bytes in Hbw, Hdel.
  rewrite DecoderRun.push_garbage; [exact Hdel|exact Hbw|].
  rewrite window_bytes_length. lia.
Qed.

Lemma round_trip (host_le : bool) (buffer : Compress.Compressor)
    (chunks : list (list Z)) (stream : list Z) :
  window_ok (Compress.ch_Window buffer) ->
  Forall (fun w => 0 <= w < 2 ^ 32) (concat chunks) ->
  4 * Z.of_nat (length (concat chunks)) + 22 <= WINDOW_SIZE ->
  CompressSpec.compress_chunks host_le buffer chunks = Some stream ->
  DecompressSpec.decompress_chunks host_le [stream]
  = Some (COMP_OK, concat chunks).
Proof.
  intros Hok Hws Hlen Hcomp.
  destruct (EncoderRun.compress_chunks_tokens host_le buffer chunks stream
              Hok Hlen Hcomp) as (ts & window & Htok & Htl & Hh & Hwok & ->).
  apply (decompress_tokens host_le window ts (concat chunks)); try done.
  rewrite CompressFacts.words_bytes_length.
  rewrite CompressFacts.WINDOW_SIZE_eq in *. lia.
Qed.

End RoundTrip.


(** ** The tree stays a tree *)

Module TreeShape.
Import Compress CompressSpec.

Lemma attach_right_fields (tree : gmap Z CompNode) (newNode testNode y : Z) :
  newNode <> testNode ->
  nd (attach_right tree newNode testNode) y
  = if decide (y = newNode) then mkCompNode testNode UNUSED UNUSED
    else if decide (y = testNode)
         then mkCompNode (cn_Parent (nd tree testNode))
                (cn_LeftChild (nd tree testNode)) newNode
         else nd tree y.
Proof.
  intros Hne. unfold attach_right.
  rewrite !CompressFacts.nd_set_RightChild, !CompressFacts.nd_set_LeftChild,
    !CompressFacts.nd_set_Parent, !CompressFacts.nd_set_RightChild.
  repeat case_decide; subst; try done; cbn;
    rewrite ?CompressFacts.nd_set_LeftChild, ?CompressFacts.nd_set_Parent,
      ?CompressFacts.nd_set_RightChild;
    repeat case_decide; subst; try done.
Qed.

Lemma attach_left_fields (tree : gmap Z CompNode) (newNode testNode y : Z) :
  newNode <> testNode ->
  nd (attach_left tree newNode testNode) y
  = if decide (y = newNode) then mkCompNode testNode UNUSED UNUSED
    else if decide (y = testNode)
         then mkCompNode (cn_Parent (nd tree testNode)) newNode
                (cn_RightChild (nd tree testNode))
         else nd tree y.
Proof.
  intros Hne. unfold attach_left.
  rewrite !CompressFacts.nd_set_RightChild, !CompressFacts.nd_set_LeftChild,
    !CompressFacts.nd_set_Parent, !CompressFacts.nd_set_LeftChild.
  repeat case_decide; subst; try done; cbn;
    rewrite ?CompressFacts.nd_set_LeftChild, ?CompressFacts.nd_set_Parent,
      ?CompressFacts.nd_set_RightChild;
    repeat case_decide; subst; try done.
Qed.

Lemma subtree_unused_nil (tree : gmap Z CompNode) (p : Z) (l : list Z) :
  subtree tree UNUSED p l -> l = [].
Proof. inversion 1; [done|congruence]. Qed.

Lemma subtree_leaf (tree : gmap Z CompNode) (x p : Z) :
  x <> UNUSED -> nd tree x = mkCompNode p UNUSED UNUSED ->
  subtree tree x p [x].
Proof.
  intros Hx Hn. apply (subtree_node tree x p [] []); [done| | |];
    rewrite Hn; cbn; [done|constructor|constructor].
Qed.

(** The walk of a subtree after a leaf was attached below [testNode]: the
    new node comes next to [testNode]. *)
Lemma subtree_attach (tree tree' : gmap Z CompNode) (newNode testNode : Z)
    (right : bool) :
  newNode <> UNUSED -> newNode <> testNode ->
  (if right then cn_RightChild (nd tree testNode)
   else cn_LeftChild (nd tree testNode)) = UNUSED ->
  (forall y,
     nd tree' y
     = if decide (y = newNode) then mkCompNode testNode UNUSED UNUSED
       else if decide (y = testNode)
            then (if right
                  then mkCompNode (cn_Parent (nd tree testNode))
                         (cn_LeftChild (nd tree testNode)) newNode
                  else mkCompNode (cn_Parent (nd tree testNode)) newNode
                         (cn_RightChild (nd tree testNode)))
            else nd tree y) ->
  forall x p lx,
    subtree tree x p lx -> NoDup lx -> newNode ∉ lx ->
    exists lx',
      subtree tree' x p lx'
      /\ (testNode ∈ lx -> lx' ≡ₚ newNode :: lx)
      /\ (testNode ∉ lx -> lx' = lx).
Proof.
  intros Hn0 Hnt Hfree Hnd x p lx Hs.
  induction Hs as [p|x p l r Hx Hp Hl IHl Hr IHr]; intros Hdup Hnew.
  - exists []. split; [constructor|]. split; [intros H; inversion H|done].
  - apply NoDup_app in Hdup as (Hdl & Hlx & Hdr).
    apply NoDup_cons in Hdr as (Hxr & Hdr).
    assert (Hxl : x ∉ l).
    { intros H. apply (Hlx x H). apply elem_of_cons. by left. }
    assert (Hnl : newNode ∉ l).
    { intros H. apply Hnew. apply elem_of_app. by left. }
    assert (Hnr : newNode ∉ r).
    { intros H. apply Hnew. apply elem_of_app. right. apply elem_of_cons.
      by right. }
    assert (Hnx : x <> newNode).
    { intros ->. apply Hnew. apply elem_of_app. right. apply elem_of_cons.
      by left. }
    destruct (IHl Hdl Hnl) as (l' & Hl' & Hlin & Hlout).
    destruct (IHr Hdr Hnr) as (r' & Hr' & Hrin & Hrout).
    destruct (decide (x = testNode)) as [->|Hxt].
    + (* the leaf goes below this node *)
      specialize (Hlout Hxl). specialize (Hrout Hxr). subst l' r'.
      pose proof (Hnd testNode) as Hnt'.
      rewrite decide_False, decide_True in Hnt' by done.
      pose proof (Hnd newNode) as Hnn. rewrite decide_True in Hnn by done.
      destruct right.
      * rewrite Hfree in Hr. apply subtree_unused_nil in Hr as ->.
        exists (l ++ testNode :: [newNode]). split.
        -- apply subtree_node; [done|by rewrite Hnt'| |];
             rewrite Hnt'; cbn; [done|by apply subtree_leaf].
        -- split; [|intros H; exfalso; apply H, elem_of_app; right;
                     apply elem_of_cons; by left].
           intros _. rewrite (Permutation_app_comm l), (Permutation_app_comm l).
           cbn. apply perm_swap.
      * rewrite Hfree in Hl. apply subtree_unused_nil in Hl as ->.
        exists ([newNode] ++ testNode :: r). split.
        -- apply subtree_node; [done|by rewrite Hnt'| |];
             rewrite Hnt'; cbn; [by apply subtree_leaf|done].
        -- split; [done|intros H; exfalso; apply H; apply elem_of_cons; by left].
    + pose proof (Hnd x) as Hnx'.
      rewrite decide_False, decide_False in Hnx' by done.
      exists (l' ++ x :: r'). split.
      * apply subtree_node; [done|by rewrite Hnx'| |]; by rewrite Hnx'.
      * split.
        -- intros Hin. apply elem_of_app in Hin as [Hin|Hin].
           ++ assert (Htr : testNode ∉ r).
              { intros H. apply (Hlx testNode Hin). apply elem_of_cons.
                by right. }
              rewrite (Hrout Htr), (Hlin Hin). done.
           ++ apply elem_of_cons in Hin as [Hin|Hin]; [congruence|].
              assert (Htl : testNode ∉ l).
              { intros H. apply (Hlx testNode H). apply elem_of_cons.
                by right. }
              rewrite (Hlout Htl), (Hrin Hin).
              by rewrite <- !Permutation_middle, perm_swap.
        -- intros Hout. rewrite Hlout, Hrout; [done| |].
           ++ intros H. apply Hout. apply elem_of_app. right.
              apply elem_of_cons. by right.
           ++ intros H. apply Hout. apply elem_of_app. by left.
Qed.

Lemma attach_tree_nodes (tree tree' : gmap Z CompNode) (l : list Z)
    (newNode testNode : Z) (right : bool) :
  tree_nodes tree l -> testNode ∈ l -> newNode ∉ l ->
  newNode <> UNUSED -> newNode <> TREE_ROOT ->
  (if right then cn_RightChild (nd tree testNode)
   else cn_LeftChild (nd tree testNode)) = UNUSED ->
  tree' = (if right then attach_right tree newNode testNode
           else attach_left tree newNode testNode) ->
  exists l', tree_nodes tree' l' /\ l' ≡ₚ newNode :: l.
Proof.
  intros (Hs & Hdup & Hroot & Hleft) Hin Hnew Hn0 HnR Hfree ->.
  assert (Hnt : newNode <> testNode) by (intros ->; done).
  assert (HtR : testNode <> TREE_ROOT) by (intros ->; done).
  set (tree' := if right then _ else _).
  assert (Hnd : forall y,
     nd tree' y
     = if decide (y = newNode) then mkCompNode testNode UNUSED UNUSED
       else if decide (y = testNode)
            then (if right
                  then mkCompNode (cn_Parent (nd tree testNode))
                         (cn_LeftChild (nd tree testNode)) newNode
                  else mkCompNode (cn_Parent (nd tree testNode)) newNode
                         (cn_RightChild (nd tree testNode)))
            else nd tree y).
  { intros y. unfold tree'. destruct right;
      [by apply attach_right_fields|by apply attach_left_fields]. }
  destruct (subtree_attach tree tree' newNode testNode right Hn0 Hnt Hfree Hnd
              _ _ _ Hs Hdup Hnew) as (l' & Hs' & Hperm & _).
  specialize (Hperm Hin). exists l'. split; [|done].
  pose proof (Hnd TREE_ROOT) as HR.
  rewrite decide_False, decide_False in HR by done.
  split; [by rewrite HR|]. split.
  - rewrite Hperm. by apply NoDup_cons.
  - split; [|by rewrite HR].
    rewrite Hperm. intros H. apply elem_of_cons in H as [H|H]; [done|done].
Qed.

(** The descent of [AddString] in a well-formed tree ends, and leaves a
    well-formed tree with the new node in it. *)
Lemma AddString_loop_tree_nodes (window : gmap Z Z) (tree : gmap Z CompNode)
    (l : list Z) (newNode : Z) :
  tree_nodes tree l -> newNode ∉ l ->
  newNode <> UNUSED -> newNode <> TREE_ROOT ->
  forall x p lx,
    subtree tree x p lx -> x <> UNUSED -> (forall y, y ∈ lx -> y ∈ l) ->
    forall (fuel : nat) (matchLen matchPos : Z),
      (length lx <= fuel)%nat ->
      exists tree' len pos l',
        AddString_loop fuel tree window newNode x matchLen matchPos
        = Some (tree', len, pos)
        /\ tree_nodes tree' l'
        /\ (length l' <= S (length l))%nat
        /\ (forall y, y ∈ l' -> y ∈ l \/ y = newNode)
        /\ newNode ∈ l'.
Proof.
  intros Ht Hnew Hn0 HnR x p lx Hs.
  induction Hs as [p|x p ll lr Hx Hp Hl IHl Hr IHr];
    intros Hx0 Hsub fuel matchLen matchPos Hfuel; [done|].
  rewrite length_app in Hfuel. cbn [length] in Hfuel.
  destruct fuel as [|fuel]; [lia|].
  rewrite CompressFacts.AddString_loop_unfold.
  destruct (compare_phrase window newNode x 0 (Z.to_nat LOOK_AHEAD_SIZE))
    as [i delta].
  cbv zeta.
  assert (Hxin : x ∈ l).
  { apply Hsub. apply elem_of_app. right. apply elem_of_cons. by left. }
  assert (Hne : l <> []) by (intros ->; inversion Hxin).
  assert (Hattach : forall right : bool,
            (if right then cn_RightChild (nd tree x)
             else cn_LeftChild (nd tree x)) = UNUSED ->
            exists l',
              tree_nodes (if right then attach_right tree newNode x
                          else attach_left tree newNode x) l'
              /\ (length l' <= S (length l))%nat
              /\ (forall y, y ∈ l' -> y ∈ l \/ y = newNode)
              /\ newNode ∈ l').
  { intros right Hfree.
    destruct (attach_tree_nodes tree _ l newNode x right Ht Hxin Hnew Hn0 HnR
                Hfree eq_refl) as (l' & Ht' & Hperm).
    exists l'. split; [done|]. split; [by rewrite Hperm|]. split.
    - intros y Hy. rewrite Hperm in Hy.
      apply elem_of_cons in Hy as [->|Hy]; [by right|by left].
    - rewrite Hperm. apply elem_of_cons. by left. }
  destruct ((i >=? matchLen) && _).
  { eexists _, _, _, _. split; [reflexivity|].
    split; [by apply CompressFacts.replace_node_tree_nodes|].
    split; [rewrite length_fmap; lia|]. split.
    - intros y Hy. apply list_elem_of_fmap in Hy as (z & -> & Hz).
      unfold renamed. case_decide; [by right|by left].
    - apply list_elem_of_fmap. exists x. split; [|done].
      unfold renamed. by rewrite decide_True. }
  destruct (delta >=? 0).
  - destruct (Z.eqb_spec (cn_RightChild (nd tree x)) UNUSED) as [E|E].
    + destruct (Hattach true E) as (l' & H1 & H2 & H3 & H4).
      by eexists _, _, _, l'.
    + apply IHr; [done| |lia]. intros y Hy. apply Hsub. apply elem_of_app.
      right. apply elem_of_cons. by right.
  - destruct (Z.eqb_spec (cn_LeftChild (nd tree x)) UNUSED) as [E|E].
    + destruct (Hattach false E) as (l' & H1 & H2 & H3 & H4).
      by eexists _, _, _, l'.
    + apply IHl; [done| |lia]. intros y Hy. apply Hsub. apply elem_of_app.
      by left.
Qed.

Lemma AddString_tree_nodes (window : gmap Z Z) (tree : gmap Z CompNode)
    (l : list Z) (newNode matchPos : Z) :
  tree_nodes tree l -> l <> [] -> newNode ∉ l ->
  newNode <> UNUSED -> newNode <> TREE_ROOT ->
  (length l < tree_fuel)%nat ->
  exists tree' len pos l',
    AddString tree window newNode matchPos = Some (tree', len, pos)
    /\ tree_nodes tree' l'
    /\ (length l' <= S (length l))%nat
    /\ (forall y, y ∈ l' -> y ∈ l \/ y = newNode)
    /\ newNode ∈ l'.
Proof.
  intros Ht Hne Hnew Hn0 HnR Hfuel. unfold AddString.
  destruct (Z.eqb_spec newNode END_OF_STREAM) as [E|_]; [done|].
  pose proof Ht as (Hs & _).
  apply (AddString_loop_tree_nodes window tree l newNode Ht Hnew Hn0 HnR
           _ _ _ Hs); [|done|lia].
  intros Hc. rewrite Hc in Hs. apply subtree_unused_nil in Hs. done.
Qed.

(** X17: [AddString] on a well-formed tree returns, and the tree it leaves
    is well formed again: for a tree whose nodes in order are [l] (not empty,
    at most 4096 of them) and a position [newNode] that is not in the tree,
    is not 0 and is not the root, the call returns a tree whose nodes are
    those of [l] or [newNode], with [newNode] among them and at most one node
    more than before. *)
Theorem AddString_keeps_tree (window : gmap Z Z) (tree : gmap Z CompNode)
    (l : list Z) (newNode matchPos : Z) :
  tree_nodes tree l -> l <> [] -> newNode ∉ l ->
  newNode <> UNUSED -> newNode <> TREE_ROOT ->
  (length l <= 4096)%nat ->
  exists tree' len pos l',
    AddString tree window newNode matchPos = Some (tree', len, pos)
    /\ tree_nodes tree' l'
    /\ (length l' <= S (length l))%nat
    /\ (forall y, y ∈ l' -> y ∈ l \/ y = newNode)
    /\ newNode ∈ l'.
Proof.
  intros Ht Hne Hnew Hn0 HnR Hlen.
  apply AddString_tree_nodes; try done.
  unfold tree_fuel. rewrite CompressFacts.WINDOW_SIZE_eq. lia.
Qed.

Lemma AddString_keeps_tree_witness :
  exists tree' len pos l',
    AddString initial_tree (<[1 := 65]> (<[2 := 66]> ∅)) 2 0
    = Some (tree', len, pos)
    /\ tree_nodes tree' l'
    /\ (length l' <= S (length [1]))%nat
    /\ (forall y, y ∈ l' -> y ∈ [1] \/ y = 2)
    /\ 2 ∈ l'.
Proof.
  apply (AddString_keeps_tree (<[1 := 65]> (<[2 := 66]> ∅)) initial_tree [1]
           2 0).
  - apply CompressFacts.initial_tree_nodes.
  - done.
  - intros H. apply list_elem_of_singleton in H. lia.
  - unfold UNUSED. lia.
  - rewrite CompressFacts.TREE_ROOT_eq. lia.
  - cbn. lia.
Defined.

End TreeShape.


(** ** The encoder returns *)

Module EncoderReturns.
Import Compress CompressSpec TokenSpec.

Lemma tree_shape_mono (tree : gmap Z CompNode) (c c' : Z) :
  c <= c' -> tree_shape tree c -> tree_shape tree c'.
Proof.
  intros Hc (l & Ht & Hne & Hlen & Hin). exists l.
  split; [done|]. split; [done|]. split; [lia|].
  intros y Hy. specialize (Hin y Hy). lia.
Qed.

Lemma initial_tree_shape : tree_shape initial_tree 1.
Proof.
  exists [1]. split; [apply CompressFacts.initial_tree_nodes|].
  split; [done|]. split; [cbn; lia|].
  intros y Hy. apply list_elem_of_singleton in Hy as ->. lia.
Qed.

Lemma advance_returns (f : frame) (window : gmap Z Z) (lookAhead : Z) :
  tree_shape (f_tree f) (f_currentPos f) ->
  1 <= f_currentPos f -> f_currentPos f + 2 <= WINDOW_SIZE ->
  exists f',
    advance f window lookAhead = Some f'
    /\ tree_shape (f_tree f') (f_currentPos f').
Proof.
  intros Hshape Hc Hlim. unfold advance.
  rewrite LinksFacts.MOD_WINDOW_small by lia.
  destruct (lookAhead =? 0).
  - eexists. split; [reflexivity|]. frame_simpl.
    apply (tree_shape_mono _ (f_currentPos f)); [lia|done].
  - destruct Hshape as (l & Ht & Hne & Hlen & Hin).
    rewrite CompressFacts.WINDOW_SIZE_eq in Hlim.
    destruct (TreeShape.AddString_tree_nodes window (f_tree f) l
                (f_currentPos f + 1) (f_matchPos f) Ht Hne)
      as (tree' & len & pos & l' & -> & Ht' & Hlen' & Hin' & Hnew).
    + intros H. specialize (Hin _ H). lia.
    + unfold UNUSED. lia.
    + rewrite CompressFacts.TREE_ROOT_eq. lia.
    + unfold tree_fuel. rewrite CompressFacts.WINDOW_SIZE_eq. lia.
    + eexists. split; [reflexivity|]. frame_simpl.
      exists l'. split; [done|]. split; [by intros ->; inversion Hnew|].
      split; [lia|]. intros y Hy.
      destruct (Hin' y Hy) as [H| ->]; [specialize (Hin y H)|]; lia.
Qed.

Lemma delete_ahead_tree (host_le : bool) (f f' : frame) (ts : list token)
    (limit : Z) :
  at_test host_le f ts limit -> 1 <= f_replaceCnt f ->
  delete_ahead f = Some f' ->
  f_tree f' = f_tree f /\ f_currentPos f' = f_currentPos f.
Proof.
  intros ((Hbs & Htok & Hwin & Hlinks & Hc & Hla0 & Hla & Hlim) & Hcov & Hrc & Hm)
    Hrc1.
  unfold delete_ahead.
  rewrite CompressFacts.LOOK_AHEAD_SIZE_eq, CompressFacts.WINDOW_SIZE_eq in *.
  rewrite LinksFacts.MOD_WINDOW_small
    by (rewrite CompressFacts.WINDOW_SIZE_eq; lia).
  rewrite (LinksFacts.DeleteString_links _ _ _ Hlinks)
    by (rewrite CompressFacts.TREE_ROOT_eq; lia).
  by intros [= <-].
Qed.

Lemma emit_token_tree (host_le : bool) (f : frame) :
  f_tree (emit_token host_le f) = f_tree f.
Proof. unfold emit_token. cbv zeta. by destruct (_ <=? _). Qed.

Lemma feed_newData_returns (host_le : bool) (f : frame) (ts : list token)
    (bytes : list Z) (b : Z) :
  feeding_at_newData host_le f ts bytes ->
  tree_shape (f_tree f) (f_currentPos f) ->
  Z.of_nat (length bytes) + 23 <= WINDOW_SIZE ->
  exists f',
    feed_newData f b = Some f' /\ tree_shape (f_tree f') (f_currentPos f').
Proof.
  intros (((_ & _ & _ & _ & Hc1 & _) & _) & Hla & Hc & _) Hshape Hlen.
  rewrite CompressFacts.LOOK_AHEAD_SIZE_eq in Hc.
  unfold feed_newData. apply advance_returns; [done|done|lia].
Qed.

(** The loop of [FeedCompressor] from its test to the end of the data. *)
Lemma feed_replace_returns (host_le : bool) (src : list Z) :
  forall (f : frame) (ts : list token) (bytes : list Z),
    feeding_at_test host_le f ts bytes ->
    tree_shape (f_tree f) (f_currentPos f) ->
    Forall (fun b => 0 <= b < 256) src ->
    Z.of_nat (length bytes) + Z.of_nat (length src) + 22 <= WINDOW_SIZE ->
    exists f',
      feed_replace host_le f src = Some f'
      /\ tree_shape (f_tree f') (f_currentPos f').
Proof.
  induction src as [|b src IH]; intros f ts bytes Htest Hshape Hsrc Hlen;
    rewrite CompressFacts.feed_replace_unfold; cbv zeta.
  - assert (Hbody : forall f1 ts1,
              feeding_at_test host_le f1 ts1 bytes ->
              tree_shape (f_tree f1) (f_currentPos f1) ->
              1 <= f_replaceCnt f1 ->
              exists f',
                match delete_ahead f1 with
                | Some f2 => Some f2
                | None => None
                end = Some f'
                /\ tree_shape (f_tree f') (f_currentPos f')).
    { intros f1 ts1 (Ht1 & Hla1 & Hc1 & Hh1) Hs1 Hrc1.
      destruct (EncoderTokens.delete_ahead_tokens host_le f1 ts1 _ Ht1 Hrc1)
        as (f2 & Hd2 & _).
      rewrite Hd2. exists f2. split; [done|].
      destruct (delete_ahead_tree host_le f1 f2 ts1 _ Ht1 Hrc1 Hd2) as (-> & ->).
      done. }
    destruct (Z.eqb_spec (f_replaceCnt f) 0) as [E|E].
    + destruct Htest as (Ht & Hla & Hc & Hh).
      destruct (EncoderTokens.emit_token_tokens host_le f ts _ Ht E)
        as (t & Ht1 & Hrc1 & _ & Hla1 & Hc1 & Hw1);
        [rewrite Hla, CompressFacts.LOOK_AHEAD_SIZE_eq; lia|].
      destruct (Z.eqb_spec (f_replaceCnt (emit_token host_le f)) 0); [lia|].
      apply (Hbody (emit_token host_le f) (ts ++ [t])); [| |lia].
      * unfold feeding_at_test. rewrite Hla1, Hc1, Hw1. done.
      * by rewrite emit_token_tree, Hc1.
    + apply (Hbody f ts); [done|done|].
      destruct Htest as ((_ & _ & Hrc & _) & _). lia.
  - inversion Hsrc as [|? ? Hb Hsrc']; subst.
    cbn [length] in Hlen.
    assert (Hbody : forall f1 ts1,
              feeding_at_test host_le f1 ts1 bytes ->
              tree_shape (f_tree f1) (f_currentPos f1) ->
              1 <= f_replaceCnt f1 ->
              exists f',
                match delete_ahead f1 with
                | Some f2 =>
                    match feed_newData f2 b with
                    | Some f3 => feed_replace host_le f3 src
                    | None => None
                    end
                | None => None
                end = Some f'
                /\ tree_shape (f_tree f') (f_currentPos f')).
    { intros f1 ts1 (Ht1 & Hla1 & Hc1 & Hh1) Hs1 Hrc1.
      destruct (EncoderTokens.delete_ahead_tokens host_le f1 ts1 _ Ht1 Hrc1)
        as (f2 & Hd2 & Hn2 & Hla2 & Hrc2 & Hw2).
      rewrite Hd2.
      destruct (delete_ahead_tree host_le f1 f2 ts1 _ Ht1 Hrc1 Hd2)
        as (Ht2 & Hc2).
      assert (Hf2 : feeding_at_newData host_le f2 ts1 bytes).
      { unfold feeding_at_newData. rewrite Hla2, Hc2, Hw2. done. }
      destruct (feed_newData_returns host_le f2 ts1 bytes b Hf2)
        as (f3 & Hn3 & Hs3); [by rewrite Ht2, Hc2|lia|].
      rewrite Hn3.
      apply (EncoderTokens.feed_newData_tokens host_le f2 f3 ts1 bytes b Hf2 Hb)
        in Hn3; [|lia].
      apply (IH f3 ts1 (bytes ++ [b]) Hn3 Hs3 Hsrc').
      rewrite length_app. cbn [length]. lia. }
    destruct (Z.eqb_spec (f_replaceCnt f) 0) as [E|E].
    + destruct Htest as (Ht & Hla & Hc & Hh).
      destruct (EncoderTokens.emit_token_tokens host_le f ts _ Ht E)
        as (t & Ht1 & Hrc1 & _ & Hla1 & Hc1 & Hw1);
        [rewrite Hla, CompressFacts.LOOK_AHEAD_SIZE_eq; lia|].
      destruct (Z.eqb_spec (f_replaceCnt (emit_token host_le f)) 0); [lia|].
      apply (Hbody (emit_token host_le f) (ts ++ [t])); [| |lia].
      * unfold feeding_at_test. rewrite Hla1, Hc1, Hw1. done.
      * by rewrite emit_token_tree, Hc1.
    + apply (Hbody f ts); [done|done|].
      destruct Htest as ((_ & _ & Hrc & _) & _). lia.
Qed.

Lemma feed_bytes_returns (host_le : bool) (comp : Compressor)
    (bytes src : list Z) (ts : list token) :
  encoding host_le comp bytes ts ->
  tree_shape (ch_Tree comp) (ch_CurrentPos comp) ->
  Forall (fun b => 0 <= b < 256) src ->
  Z.of_nat (length bytes) + Z.of_nat (length src) + 22 <= WINDOW_SIZE ->
  exists comp',
    feed_bytes host_le comp src = Some comp'
    /\ tree_shape (ch_Tree comp') (ch_CurrentPos comp').
Proof.
  intros Henc Hshape Hsrc Hlen. unfold feed_bytes.
  destruct src as [|b src]; [by exists comp|].
  cbv zeta.
  destruct Henc as [(Hsp & Hn & -> & Hla & Hc & Hrc & Hml & Hlinks & Hbs & Hh & Hok)
                   |(Hsp & Hnew)]; rewrite Hsp.
  - destruct (feed_fill _ _ _) as [[window lookAhead] [rest|]] eqn:Hfill.
    + apply (EncoderRun.feed_fill_holds _ _ _ bytes) in Hfill;
        [|done|cbn [load_frame f_lookAhead]; lia|done|done|done].
      destruct Hfill as (Hok' & -> & pre & Hpre & Hlen' & Hh').
      set (f0 := mkFrame _ _ _ _ _ _ _ _).
      assert (H0 : feeding_at_test host_le f0 [] (bytes ++ pre)).
      { unfold feeding_at_test, at_test, tokens_written, match_ok, f0.
        unfold load_frame. frame_simpl.
        rewrite length_app, Hc, Hrc, Hml, Hbs.
        rewrite CompressFacts.LOOK_AHEAD_SIZE_eq, CompressFacts.WINDOW_SIZE_eq
          in *.
        unfold BREAK_EVEN.
        cbn [map BitSpec.write_all tokens_ok tokens_len fold_right].
        change (1 + 1) with 2.
        split_and!; try done; lia. }
      destruct H0 as (Ht0 & Hla0 & Hc0 & Hh0).
      destruct (EncoderTokens.emit_token_tokens host_le f0 [] _ Ht0)
        as (t & Ht1 & Hrc1 & _ & Hla1 & Hc1 & Hw1);
        [unfold f0, load_frame; frame_simpl; done
        |rewrite Hla0, CompressFacts.LOOK_AHEAD_SIZE_eq; lia|].
      destruct (feed_replace_returns host_le rest (emit_token host_le f0)
                  ([] ++ [t]) (bytes ++ pre)) as (f2 & -> & Hs2).
      * unfold feeding_at_test. rewrite Hla1, Hc1, Hw1. done.
      * rewrite emit_token_tree, Hc1. done.
      * rewrite Hpre in Hsrc. by apply Forall_app in Hsrc as [_ ?].
      * rewrite Hpre in Hlen. rewrite !length_app in *. lia.
      * eexists. split; [reflexivity|]. done.
    + eexists. split; [reflexivity|]. done.
  - inversion Hsrc as [|? ? Hb Hsrc']; subst. cbn [length] in Hlen.
    destruct (feed_newData_returns host_le (load_frame comp) ts bytes b Hnew)
      as (f1 & Hn1 & Hs1); [done|lia|].
    rewrite Hn1.
    apply (EncoderTokens.feed_newData_tokens host_le _ _ ts bytes b Hnew Hb)
      in Hn1; [|lia].
    destruct (feed_replace_returns host_le src f1 ts (bytes ++ [b]) Hn1 Hs1
                Hsrc') as (f2 & -> & Hs2);
      [rewrite length_app; cbn [length]; lia|].
    eexists. split; [reflexivity|]. done.
Qed.

(** The loop of [FlushCompressor] ends within the tests counted here. *)
Lemma flush_replace_returns (host_le : bool) (fuel : nat) :
  forall (f : frame) (ts : list token) (limit : Z),
    flushing host_le f ts limit ->
    tree_shape (f_tree f) (f_currentPos f) ->
    2 * (f_lookAhead f + 1) + (if f_replaceCnt f =? 0 then 1 else 0) + 1
    <= Z.of_nat fuel ->
    exists f', flush_replace fuel host_le f = Some f'.
Proof.
  induction fuel as [|fuel IH]; intros f ts limit Hfl Hshape Hfuel.
  - destruct Hfl as (((_ & _ & _ & _ & _ & Hla0 & _) & _) & _).
    destruct (f_replaceCnt f =? 0); lia.
  - rewrite CompressFacts.flush_replace_unfold.
    destruct Hfl as (Ht & Hlim & Hrcla).
    pose proof Ht as
      ((Hbs & Htok & Hwin & Hlinks & Hc & Hla0 & Hla & Hlim4) & Hcov & Hrc & Hm).
    destruct (Z.eqb_spec (f_replaceCnt f) 0) as [E|E].
    + destruct (Z.geb_spec (f_lookAhead f) 0) as [Hge|Hlt]; [|by eexists].
      destruct (EncoderTokens.emit_token_tokens host_le f ts _ Ht E Hge)
        as (t & Ht1 & Hrc1 & Hrc1' & Hla1 & Hc1 & Hw1).
      apply (IH _ (ts ++ [t]) limit).
      * split; [done|]. rewrite Hla1, Hc1. split; [done|lia].
      * by rewrite emit_token_tree, Hc1.
      * rewrite Hla1.
        destruct (Z.eqb_spec (f_replaceCnt (emit_token host_le f)) 0); lia.
    + destruct (EncoderTokens.delete_ahead_tokens host_le f ts _ Ht ltac:(lia))
        as (f1 & Hd1 & Hn1 & Hla1 & Hrc1 & Hw1).
      rewrite Hd1.
      destruct (delete_ahead_tree host_le f f1 ts _ Ht ltac:(lia) Hd1)
        as (Ht1 & Hc1).
      destruct (advance_returns f1 (f_window f1) (f_lookAhead f1 - 1))
        as (f2 & Hadv & Hs2); [by rewrite Ht1, Hc1|lia|lia|].
      rewrite Hadv.
      apply (EncoderTokens.advance_tokens host_le f1 f2 ts limit limit) in Hadv;
        [|done|by rewrite Hw1|done|lia|lia|lia|done].
      destruct Hadv as (Ht2 & Hla2 & Hw2 & Hc2 & Hrc2).
      apply (IH _ ts limit).
      * split; [done|]. split; lia.
      * done.
      * rewrite Hla2, Hla1. destruct (f_replaceCnt f2 =? 0); lia.
Qed.

Lemma flush_fuel_enough (f : frame) :
  -1 <= f_lookAhead f -> 0 <= f_replaceCnt f ->
  2 * (f_lookAhead f + 1) + (if f_replaceCnt f =? 0 then 1 else 0) + 1
  <= Z.of_nat (flush_fuel f).
Proof.
  intros Hla Hrc. unfold flush_fuel. destruct (f_replaceCnt f =? 0); lia.
Qed.

Lemma DeleteCompressor_returns (host_le : bool) (comp : Compressor)
    (bytes : list Z) (ts : list token) :
  encoding host_le comp bytes ts -> ch_Cookie comp = true ->
  tree_shape (ch_Tree comp) (ch_CurrentPos comp) ->
  Z.of_nat (length bytes) + 22 <= WINDOW_SIZE ->
  exists r, DeleteCompressor host_le comp = Some r.
Proof.
  intros Henc Hck Hshape Hlen. unfold DeleteCompressor. rewrite Hck. cbn [negb].
  assert (H : exists f, FlushCompressor host_le comp = Some f).
  { unfold FlushCompressor.
    destruct Henc as [(Hsp & Hn & -> & Hla & Hc & Hrc & Hml & Hlinks & Hbs & Hh
                       & Hok)
                     |(Hsp & Hnew & Hla & Hc & Hh)]; rewrite Hsp.
    - cbn [load_frame f_lookAhead].
      destruct (Z.geb_spec (ch_LookAhead comp) 0); [|lia].
      assert (H0 : flushing host_le (load_frame comp) []
                     (Z.of_nat (length bytes) + 2)).
      { unfold flushing, at_test, tokens_written, match_ok.
        unfold load_frame. frame_simpl.
        rewrite Hc, Hrc, Hml, Hbs, Hla.
        rewrite CompressFacts.LOOK_AHEAD_SIZE_eq, CompressFacts.WINDOW_SIZE_eq
          in *.
        unfold BREAK_EVEN.
        cbn [map BitSpec.write_all tokens_ok tokens_len fold_right].
        change (1 + 1) with 2.
        split_and!; try done; lia. }
      destruct H0 as (Ht0 & Hlim0 & Hrc0).
      destruct (EncoderTokens.emit_token_tokens host_le _ [] _ Ht0)
        as (t & Ht1 & Hrc1 & Hrc1' & Hla1 & Hc1 & Hw1);
        [done|cbn [load_frame f_lookAhead]; lia|].
      apply (flush_replace_returns host_le _ _ ([] ++ [t])
               (Z.of_nat (length bytes) + 2)).
      + split; [done|]. rewrite Hla1, Hc1. split; [done|lia].
      + by rewrite emit_token_tree, Hc1.
      + rewrite Hla1. unfold flush_fuel.
        destruct (f_replaceCnt (emit_token host_le (load_frame comp)) =? 0);
          cbn [load_frame f_lookAhead f_replaceCnt] in *; lia.
    - pose proof Hnew as
        ((Hbs & Htok & Hwin & Hlinks & Hc1 & Hla0 & Hla1 & Hlim) & Hcov & Hrc).
      rewrite CompressFacts.LOOK_AHEAD_SIZE_eq, CompressFacts.WINDOW_SIZE_eq
        in *.
      destruct (advance_returns (load_frame comp) (f_window (load_frame comp))
                  (f_lookAhead (load_frame comp)))
        as (f1 & Hadv & Hs1);
        [done|done|rewrite CompressFacts.WINDOW_SIZE_eq; lia|].
      rewrite Hadv.
      apply (EncoderTokens.advance_tokens host_le _ f1 ts
               (Z.of_nat (length bytes) + 1) (Z.of_nat (length bytes) + 2))
        in Hadv;
        [|done|done|done|lia|lia|lia|rewrite CompressFacts.WINDOW_SIZE_eq; lia].
      destruct Hadv as (Ht1 & Hla1' & Hw1 & Hc1' & Hrc1).
      apply (flush_replace_returns host_le _ _ ts
               (Z.of_nat (length bytes) + 2)).
      + split; [done|]. split; lia.
      + done.
      + apply flush_fuel_enough; lia. }
  destruct H as (f & ->). by eexists.
Qed.

Lemma created_run_returns (host_le : bool) (workbuf fresh : option Compressor)
    (comp0 : Compressor) (chunks : list (list Z)) :
  CreateCompressor (Some []) workbuf fresh = (COMP_OK, Some comp0) ->
  window_ok (ch_Window comp0) ->
  4 * Z.of_nat (length (concat chunks)) + 22 <= WINDOW_SIZE ->
  exists comp r,
    feed_chunks host_le comp0 chunks = Some comp
    /\ DeleteCompressor host_le comp = Some r.
Proof.
  intros Hc Hok Hlen.
  destruct (EncoderRun.created_encoding host_le _ _ _ Hc Hok) as (Henc0 & Hck0).
  assert (Hs0 : tree_shape (ch_Tree comp0) (ch_CurrentPos comp0)).
  { apply CompressFacts.CreateCompressor_result in Hc as (w & a & ->).
    apply initial_tree_shape. }
  rewrite CompressFacts.WINDOW_SIZE_eq in Hlen.
  rewrite CompressFacts.feed_chunks_bytes by (done || lia).
  destruct (feed_bytes_returns host_le comp0 [] (words_bytes host_le (concat chunks))
              [] Henc0 Hs0) as (comp & Hfeed & Hs).
  { apply EncoderTokens.words_bytes_range. }
  { rewrite CompressFacts.words_bytes_length, CompressFacts.WINDOW_SIZE_eq.
    cbn [length]. lia. }
  exists comp. rewrite Hfeed.
  pose proof (CompressFacts.feed_bytes_cookie _ _ _ _ Hfeed) as Hck.
  apply (EncoderRun.feed_bytes_encoding host_le _ _ [] _ [] Henc0) in Hfeed;
    [|apply EncoderTokens.words_bytes_range
     |rewrite CompressFacts.words_bytes_length, CompressFacts.WINDOW_SIZE_eq;
      cbn [length]; lia].
  destruct Hfeed as (ts1 & Henc). cbn [app] in Henc.
  destruct (DeleteCompressor_returns host_le comp _ _ Henc) as (r & ->);
    [congruence|done
    |rewrite CompressFacts.words_bytes_length, CompressFacts.WINDOW_SIZE_eq;
     lia|].
  by exists r.
Qed.

Lemma compress_chunks_returns (host_le : bool) (buffer : Compressor)
    (chunks : list (list Z)) :
  window_ok (ch_Window buffer) ->
  4 * Z.of_nat (length (concat chunks)) + 22 <= WINDOW_SIZE ->
  exists stream, compress_chunks host_le buffer chunks = Some stream.
Proof.
  intros Hok Hlen. unfold compress_chunks.
  destruct (CreateCompressor _ _ _) as [r [comp0|]] eqn:Hc; [|done].
  assert (r = COMP_OK) as -> by (by inversion Hc).
  assert (Hw0 : ch_Window comp0 = ch_Window buffer) by (by inversion Hc).
  destruct (created_run_returns host_le _ _ comp0 chunks Hc)
    as (comp & [err comp'] & -> & ->); [by rewrite Hw0|done|].
  by eexists.
Qed.

End EncoderReturns.

(** ** The round trip *)

Module Codec.
Import Compress CompressSpec TokenSpec.

(** X16: the codec round trip for inputs that fit the window: for an input of
    at most 1018 words, fed to the encoder in any chunks, on either kind of
    host and whatever bytes the work buffer held before, the encoder returns
    a stream, and the decoder fed that stream returns success and sends
    exactly the words of the input to its sink. *)
Theorem round_trip_short_input (host_le : bool) (buffer : Compressor)
    (chunks : list (list Z)) :
  window_ok (ch_Window buffer) ->
  Forall (fun w => 0 <= w < 2 ^ 32) (concat chunks) ->
  (length (concat chunks) <= 1018)%nat ->
  exists stream,
    compress_chunks host_le buffer chunks = Some stream
    /\ DecompressSpec.decompress_chunks host_le [stream]
       = Some (COMP_OK, concat chunks).
Proof.
  intros Hok Hws Hlen.
  assert (Hl : 4 * Z.of_nat (length (concat chunks)) + 22 <= WINDOW_SIZE)
    by (rewrite CompressFacts.WINDOW_SIZE_eq; lia).
  destruct (EncoderReturns.compress_chunks_returns host_le buffer chunks Hok Hl)
    as (stream & Hs).
  exists stream. split; [done|].
  by apply (RoundTrip.round_trip host_le buffer).
Qed.

Lemma round_trip_short_input_witness :
  exists stream,
    compress_chunks false zero_Compressor [[0x41424344]] = Some stream
    /\ DecompressSpec.decompress_chunks false [stream]
       = Some (COMP_OK, concat [[0x41424344]]).
Proof.
  apply (round_trip_short_input false zero_Compressor [[0x41424344]]).
  - intros i. unfold rd. cbn. rewrite lookup_empty. cbn. lia.
  - repeat constructor; lia.
  - cbn. lia.
Defined.

End Codec.


(** ** The round trip of a file through the command line tool *)

Module CliRoundTrip.
Import Compress CompressSpec TokenSpec BitSpec Cli.

Lemma padded_length (src : list Z) :
  (length src <= 4072)%nat -> (length (padded src) <= 4072)%nat.
Proof.
  intros Hlen. unfold padded. rewrite length_app, repeat_length.
  pose proof (Z.mod_pos_bound (- Z.of_nat (length src)) 4 ltac:(lia)) as Hm.
  assert (Hz : (Z.of_nat (length src)
                + (- Z.of_nat (length src)) mod 4) mod 4 = 0).
  { rewrite Zplus_mod_idemp_r. by replace (_ + - _) with 0 by lia. }
  apply Z.mod_divide in Hz; [|lia]. destruct Hz as (k & Hk). lia.
Qed.

(** The words of the stream are 32-bit words, and few. *)
Lemma stream_words (host_le : bool) (window : gmap Z Z) (ts : list token)
    (n : Z) :
  window_ok window -> tokens_ok window (n + 2) 1 ts ->
  tokens_len ts = n + 2 -> n + 22 <= WINDOW_SIZE ->
  let stream :=
    bs_Out
      (CleanupBitStream host_le
         (write_all host_le (InitBitStream [])
            (map token_field ts ++ [(0, END_OF_STREAM, INDEX_BIT_COUNT)]))) in
  Forall (fun w => 0 <= w < 2 ^ 32) stream
  /\ 32 * Z.of_nat (length stream) <= 17 * (n + 2) + 44.
Proof.
  intros Hok Htok Htl Hlen stream.
  assert (Hfs : Forall field_ok (map token_field ts)).
  { apply (DecoderTokens.tokens_fields_ok window (n + 2) ts Hok 1 Htok). lia. }
  destruct (RoundTrip.fields_snoc (map token_field ts) 0 END_OF_STREAM
              INDEX_BIT_COUNT Hfs ltac:(unfold INDEX_BIT_COUNT; lia))
    as (Hsb & _).
  unfold INDEX_BIT_COUNT, END_OF_STREAM in *.
  assert (Hall : Forall field_ok (map token_field ts ++ [(0, 0, 12)])).
  { apply Forall_app. split; [done|]. constructor; [|constructor].
    cbn. split; [by left|]. split; lia. }
  assert (Hinit : writer_ok (InitBitStream [])).
  { unfold writer_ok. cbn. split; [lia|]. split; [lia|]. split; [done|].
    constructor. }
  destruct (BitRoundTrip.write_all_appends host_le _ _ Hinit Hall)
    as (Hwok & Hwb & _).
  change (written_bits (InitBitStream [])) with 0 in Hwb.
  destruct (BitRoundTrip.CleanupBitStream_pads host_le _ Hwok)
    as (pad & Hpad & Hlen32 & _ & Hrange).
  fold stream in Hlen32, Hrange. split; [done|].
  rewrite Hwb, Hsb in Hlen32.
  pose proof (DecoderRun.tokens_fields_bits_le ts) as Hle.
  pose proof (DecoderRun.tokens_count_le _ _ _ _ Htok) as Hcount.
  lia.
Qed.

Lemma file_round_trip_same (host_le : bool) (block : Compressor)
    (src : list Z) :
  Forall (fun b => 0 <= b < 256) src ->
  window_ok (ch_Window block) ->
  (length src <= 4072)%nat ->
  exists dst,
    compress host_le (Some block) src = Some (Written dst)
    /\ Forall (fun b => 0 <= b < 256) dst
    /\ decompress host_le true dst = Some (Written (padded src)).
Proof.
  intros Hsrc Hok Hlen. unfold compress.
  destruct (CreateCompressor (Some []) None (Some block)) as [r0 c0] eqn:Hc.
  cbn [CreateCompressor] in Hc. injection Hc as <- <-.
  set (comp0 := mkCompressor _ _ _ _ _ _ _ _ _ _ _).
  assert (Hc : CreateCompressor (Some []) None (Some block)
               = (COMP_OK, Some comp0)) by done.
  rewrite CliFacts.compress_loop_words.
  set (ws := file_words (S (length src)) host_le src).
  destruct (CliFacts.file_words_bytes host_le (S (length src)) src Hsrc
              ltac:(lia)) as (Hbytes & Hws).
  fold ws in Hbytes, Hws.
  pose proof (padded_length src Hlen) as Hpl.
  pose proof (CompressFacts.words_bytes_length host_le ws) as Hwl.
  rewrite Hbytes in Hwl.
  assert (Hn : 4 * Z.of_nat (length (concat (map (fun w => [w]) ws))) + 22
               <= WINDOW_SIZE).
  { rewrite CliFacts.concat_singles, CompressFacts.WINDOW_SIZE_eq. lia. }
  destruct (EncoderReturns.created_run_returns host_le _ _ comp0 _ Hc Hok Hn)
    as (comp & [err comp'] & Hfeed & Hdel).
  rewrite Hfeed, Hdel.
  destruct (EncoderRun.created_run_tokens host_le _ _ comp0 comp comp' _ err
              Hc Hok Hn Hfeed Hdel)
    as (ts & window & Htok & Htl & Hh & Hwok & Hout).
  rewrite CliFacts.concat_singles in *.
  set (stream := bs_Out (ch_BitStream comp')) in *.
  assert (Hnb : Z.of_nat (length (words_bytes host_le ws)) + 22 <= WINDOW_SIZE).
  { rewrite Hbytes, CompressFacts.WINDOW_SIZE_eq. lia. }
  destruct (stream_words host_le window ts _ Hwok Htok Htl Hnb)
    as (Hrange & Hsize).
  pose proof (RoundTrip.decompress_tokens host_le window ts ws Hws Hnb Htok Htl
                Hh Hwok) as Hdec.
  cbv zeta in Hdec, Hrange, Hsize. rewrite <- Hout in Hdec, Hrange, Hsize.
  rewrite CompressFacts.WINDOW_SIZE_eq in Hnb.
  pose proof (StreamFacts.decompress_chunks_concat host_le
                (map (fun w => [w]) stream) ws) as Hcat.
  rewrite CliFacts.concat_singles in Hcat.
  assert (Hsl : Z.of_nat (length stream) < 2 ^ 32) by lia.
  specialize (Hcat Hsl Hdec). clear Hdec. rename Hcat into Hdec.
  exists (words_bytes host_le stream). split; [done|].
  split; [apply EncoderTokens.words_bytes_range|].
  unfold decompress. unfold DecompressSpec.decompress_chunks in Hdec.
  destruct (Decompress.CreateDecompressor (Some []) None true)
    as [r1 [decomp0|]]; [|done].
  rewrite CliFacts.decompress_loop_words.
  rewrite CliFacts.file_words_words_bytes;
    [|done|rewrite CompressFacts.words_bytes_length; lia].
  destruct (DecompressSpec.feed_chunks host_le decomp0 _) as [decomp|]; [|done].
  injection Hdec as Hdec. rewrite Hdec. cbn [snd]. by rewrite Hbytes.
Qed.

(** X21: the round trip of a file through the tool.  For a file of at most
    4072 bytes, [l::compress] writes a compressed file, whatever the block
    [malloc] returns holds, and [l::decompress] of that file, on a host of
    either byte order, writes the bytes of the first file followed by the
    zero bytes that bring its length to a multiple of four. *)
Theorem file_round_trip (host1 host2 : bool) (block : Compressor)
    (src : list Z) :
  Forall (fun b => 0 <= b < 256) src ->
  window_ok (ch_Window block) ->
  (length src <= 4072)%nat ->
  exists dst,
    compress host1 (Some block) src = Some (Written dst)
    /\ decompress host2 true dst = Some (Written (padded src)).
Proof.
  intros Hsrc Hok Hlen.
  destruct (file_round_trip_same host1 block src Hsrc Hok Hlen)
    as (dst & Hc & Hdst & Hd).
  exists dst. split; [done|].
  pose proof (CliFacts.decompress_hosts true dst Hdst) as Hh.
  destruct host1, host2; congruence.
Qed.

Lemma file_round_trip_witness :
  exists dst,
    compress false (Some zero_Compressor) [65; 66; 67; 68; 69]
    = Some (Written dst)
    /\ decompress true true dst = Some (Written (padded [65; 66; 67; 68; 69])).
Proof.
  apply (file_round_trip false true zero_Compressor [65; 66; 67; 68; 69]).
  - repeat constructor; lia.
  - intros i. unfold rd. cbn. rewrite lookup_empty. cbn. lia.
  - cbn. lia.
Defined.

End CliRoundTrip.

(** ** The round trip through the one-call functions *)

Module SimpleRoundTrip.
Import Compress CompressSpec TokenSpec BitSpec Simple.

Lemma simple_round_trip (host_le : bool) (buffer : Compressor)
    (source : list Z) (resultWords1 resultWords2 : Z) :
  window_ok (ch_Window buffer) ->
  Forall (fun w => 0 <= w < 2 ^ 32) source ->
  (length source <= 1018)%nat ->
  36 * Z.of_nat (length source) + 62 <= 32 * resultWords1 ->
  resultWords1 < 2 ^ 31 ->
  Z.of_nat (length source) <= resultWords2 < 2 ^ 31 ->
  exists stream,
    SimpleCompress host_le (Some buffer) source resultWords1
    = Some (SR_words (Z.of_nat (length stream)), stream)
    /\ SimpleDecompress host_le true stream resultWords2
       = Some (SR_words (Z.of_nat (length source)), source).
Proof.
  intros Hok Hsrc Hlen Hr1 Hr1' Hr2. unfold SimpleCompress.
  destruct (CreateCompressor (Some []) None (Some buffer)) as [r0 c0] eqn:Hc.
  cbn [CreateCompressor] in Hc. injection Hc as <- <-.
  set (comp0 := mkCompressor _ _ _ _ _ _ _ _ _ _ _).
  assert (Hc : CreateCompressor (Some []) None (Some buffer)
               = (COMP_OK, Some comp0)) by done.
  assert (Hn : 4 * Z.of_nat (length (concat [source])) + 22 <= WINDOW_SIZE).
  { cbn [concat]. rewrite app_nil_r, CompressFacts.WINDOW_SIZE_eq. lia. }
  destruct (EncoderReturns.created_run_returns host_le _ _ comp0 _ Hc Hok Hn)
    as (comp & [err comp'] & Hfeed & Hdel).
  destruct (EncoderRun.created_run_tokens host_le _ _ comp0 comp comp' _ err
              Hc Hok Hn Hfeed Hdel)
    as (ts & window & Htok & Htl & Hh & Hwok & Hout).
  assert (Hn30 : Z.of_nat (length (concat [source])) < 2 ^ 30).
  { cbn [concat]. rewrite app_nil_r. lia. }
  destruct (SizeFacts.feed_chunks_fed host_le _ _ comp0 comp [source] Hc Hn30
              Hfeed) as (Hfed & Hck).
  assert (Hn0 : 0 <= 4 * Z.of_nat (length (concat [source]))) by lia.
  destruct (SizeFacts.DeleteCompressor_fed host_le comp comp' err _
              Hn0 Hfed Hck Hdel) as (-> & _ & _ & Hsize).
  cbn [concat] in *. rewrite app_nil_r in *.
  cbn [feed_chunks] in Hfeed.
  destruct (FeedCompressor host_le comp0 source) as [[e1 c1]|]; [|done].
  injection Hfeed as ->. rewrite Hdel.
  set (stream := bs_Out (ch_BitStream comp')) in *.
  exists stream.
  assert (Hr1'' : 0 <= resultWords1 < 2 ^ 31) by lia.
  assert (Hfit : Z.of_nat (length stream) <= resultWords1) by lia.
  split.
  - rewrite SimpleFacts.simple_return_ok by done.
    rewrite decide_True by done.
    rewrite SimpleFacts.put_words_dest by lia.
    by rewrite take_ge by lia.
  - assert (Hnb : Z.of_nat (length (words_bytes host_le source)) + 22
                  <= WINDOW_SIZE).
    { rewrite CompressFacts.words_bytes_length, CompressFacts.WINDOW_SIZE_eq.
      lia. }
    pose proof (RoundTrip.decompress_tokens host_le window ts source Hsrc Hnb
                  Htok Htl Hh Hwok) as Hdec.
    cbv zeta in Hdec. rewrite <- Hout in Hdec. fold stream in Hdec.
    destruct (SimpleFacts.SimpleDecompress_chunks host_le stream resultWords2)
      as (err & out & Hd & _ & ->); [lia|lia|].
    rewrite Hdec in Hd. injection Hd as <- <-.
    rewrite decide_True by lia. by rewrite take_ge by lia.
Qed.

(** X23: the round trip through the one-call functions.  For a source of at
    most 1018 words, a result buffer of [resultWords1] words with
    [36 * sourceWords + 62 <= 32 * resultWords1], and any work area
    [malloc] returns, [SimpleCompress] returns the number of words of the
    stream it has stored; [SimpleDecompress] of these words into a buffer
    that holds the source returns the number of words of the source and
    stores exactly the source. *)
Theorem SimpleDecompress_inverts_SimpleCompress (host_le : bool)
    (buffer : Compressor) (source : list Z) (resultWords1 resultWords2 : Z) :
  window_ok (ch_Window buffer) ->
  Forall (fun w => 0 <= w < 2 ^ 32) source ->
  (length source <= 1018)%nat ->
  36 * Z.of_nat (length source) + 62 <= 32 * resultWords1 ->
  resultWords1 < 2 ^ 31 ->
  Z.of_nat (length source) <= resultWords2 < 2 ^ 31 ->
  exists stream,
    SimpleCompress host_le (Some buffer) source resultWords1
    = Some (SR_words (Z.of_nat (length stream)), stream)
    /\ SimpleDecompress host_le true stream resultWords2
       = Some (SR_words (Z.of_nat (length source)), source).
Proof. apply simple_round_trip. Qed.

Lemma SimpleDecompress_inverts_SimpleCompress_witness :
  exists stream,
    SimpleCompress true (Some zero_Compressor) [0x41424344; 0x41424344] 5
    = Some (SR_words (Z.of_nat (length stream)), stream)
    /\ SimpleDecompress true true stream 2
       = Some (SR_words (Z.of_nat (length [0x41424344; 0x41424344])),
               [0x41424344; 0x41424344]).
Proof.
  apply (SimpleDecompress_inverts_SimpleCompress true zero_Compressor
           [0x41424344; 0x41424344] 5 2).
  - intros i. unfold rd. cbn. rewrite lookup_empty. cbn. lia.
  - repeat constructor; lia.
  - cbn. lia.
  - cbn. lia.
  - lia.
  - cbn. lia.
Defined.

End SimpleRoundTrip.
